(* ===== verification/_CoqProject ===== *)
-Q . S2P
Prelude.v
Interfaces.v
Balancer.v
Message.v
MsgBuffer.v
PodConn.v
Pool.v
MessageBus.v
Pod.v
Receipt.v
Signaler.v
Hub.v
Websocket.v
Link.v
Tunnel.v
Node.v
Bridge.v
BridgeConn.v
Worker.v
Jobs.v
Threads.v
Core.v
Schedule.v
Ctx.v
Listen.v
Scheduler.v
MeshNode.v
Arrival.v
Common.v
Store.v
Cache.v
AuthCache.v
Access.v
Sequence.v
Dispatcher.v
Mesh.v
Syncer.v
Handlers.v
EndToEnd.v
Orchestrator.v
Constellation.v
Instance.v
HostApi.v
HostTable.v
WasmRunner.v
Instances.v
Answers.v
Procfile.v
Options.v
SatConfig.v
SourceServer.v
Startup.v
ControlServer.v
MeshRequest.v
Launch.v
StartCmd.v
Tasks.v
AsyncCounter.v
Deployed.v
Traffic.v
Clients.v
