(* ===== verification/Prelude.v ===== *)
(** * E2Core: a verification development

    E2Core runs WebAssembly modules for many tenants.  A control process
    (e2core/) keeps a copy of the system's state, starts one or more runner
    processes per module (sat/), authorizes requests and sends sequences of
    steps to the runners; the processes are nodes of a message mesh
    (foundation/bus/); inside a process jobs are run by a scheduler with pools
    of threads (foundation/scheduler/).  This development models the core logic
    of these parts and proves what makes them correct.

    ** The files

    - Prelude: panics, errors and results of Go code, slices, loops with fuel,
      tactics and hint databases.
    - Interfaces: what one component promises to another.  [Picker] is the
      contract of the tunnel balancer, [Codec] that of encoding/json.

    The bus, foundation/bus/bus/:
    - Balancer: tunnel/balancer.go, an instance of [Picker];
    - Message: message.go and filter.go; MsgBuffer: msgbuffer.go;
    - PodConn: podconnection.go; Pool: pool.go, the circular list of
      connections in a heap; MessageBus: messagebus.go, a turn of the bus;
    - Pod: pod.go with the goroutines that handle messages; Receipt: receipt.go and
      timeout.go; MeshNode: a message that goes around a bus with its pods;
    - Signaler: withdraw/signaler.go and the wait of hub.withdraw;
    - Hub: hub.go and connectionhandler.go over an abstract transport;
    - Websocket: transport/websocket/, the frames of a link and the two ends of a
      handshake, with the class of socket pairs that the theorems need;
    - Link: the goroutines of connectionhandler.go that read a link and withdraw;
      Tunnel: a tunneled message from hub to hub, over Hub, Websocket and Link;
    - Node: bus.go, options.go and discovery/local/, a node as the control
      process and the runner make it; Bridge: transport/kafka/ and nats/, nodes
      that share a topic of a broker; BridgeConn: what a bridge transport promises,
      and the two transports over the calls of their clients;
    - AsyncCounter: testutil/, the counter of the tests.

    The scheduler, foundation/scheduler/:
    - Worker: worker.go, scaler.go, opts.go; Threads: workthread.go, the threads of
      a worker and their queue; Core: core.go and the life of a job, over the queues
      and threads of all workers that were ever registered;
    - Jobs: job.go, result.go, group.go, with results in a heap;
    - Schedule: schedule.go and watcher.go; Ctx: ctx.go;
    - Listen: ListenAndRun and the replies of scheduler.go, with a pod that asks
      at the other end; Scheduler: the methods of scheduler.go over Core.

    The control process and the shared cache:
    - Common: error.go, atomic.go and clock.go of foundation/common/;
    - Store: the stores of foundation/common/cache.go, instances of [CacheStore];
      Cache: the loading cache of that file over any store; AuthCache:
      e2core/auth/cache.go over the tree store; Access: e2core/auth/access.go;
    - Sequence: e2core/sequence/sequence.go; Dispatcher:
      e2core/server/dispatcher.go; Syncer: e2core/syncer/syncer.go;
    - Handlers: e2core/server/handlers.go, a request from the middleware to its
      answer, over Access, Syncer, Sequence and Dispatcher; EndToEnd: the handler
      with a runner (Mesh) at the other end;
    - Orchestrator: watcher.go and a pass over one module of orchestrator.go in
      e2core/backend/satbackend/; Constellation: the whole of orchestrator.go;
    - Options: e2core/options/options.go and the set-up of e2core/command/start.go;
      StartCmd: the start command while it runs, with the orchestrator of
      Constellation in one of its goroutines; Launch: the process that launch of
      orchestrator.go starts (command.go, exec/exec.go), what the runner makes of
      its environment (SatConfig), and the metrics that a watcher asks it for;
      ControlServer: e2core/server/server.go;
    - MeshRequest: what each process of the mesh does with a message, from hub to bus
      to engine or dispatcher and back; Deployed: the processes as they are made;
      Traffic: a control process and its runners as a step relation, with runners
      that join and withdraw, any number of calls, jobs and handlers under way, and
      timeouts; Clients: what clients get from them;
    - Tasks: foundation/signaler/signaler.go.

    The runner:
    - Mesh: sat/sat/meshed.go, together with the dispatcher at the other end;
      Arrival: setupBus of sat/sat/sat.go, and a message from the mesh on its bus;
    - Instance: instance.go and mapper.go of sat/engine2/runtime/instance/;
      HostApi: sat/engine2/api/; HostTable: the table of the host functions with
      their types and the way from the module to a handler and back;
      WasmRunner: sat/engine2/wasmrunnable.go,
      runtime/pool.go and the HTTP handler of sat/sat/handler.go; Instances: the
      pool under the worker of the scheduler; Answers: concurrent requests to the
      handler over the scheduler;
    - SatConfig: sat/sat/config.go with from_url.go and options/; Procfile:
      sat/sat/process/info.go and sat/monitor.go;
    - SourceServer: e2core/sourceserver/ and sourceserver/bundle.go, its routes
      and their answers;
    - Startup: sat/main.go, sat/sat/sat.go with its metrics and tracing,
      sat/engine2/engine.go, e2core/command/mod_start.go and the download of a
      module: what is started, in which order, and what a shutdown does.

    ** How the code is modelled

    A struct is a record, an operation a function from the old state to the new
    one.  Code that can panic is in the monad [outcome]; a Go pair of a value
    and an error is a [result] where one of the two is always nil, and a pair
    where it is not.  A call that can block for ever (a full channel, a lock)
    returns [None].  Loops are [loop] with fuel, where [None] only says that the
    fuel is used up.  What runs concurrently is a step relation whose steps are
    the sections between two acquisitions of a lock or two channel operations;
    channels are their queues.  The fresh UUIDs, the clock, the order in which
    Go goes through a map, and what code of other modules answers are
    arguments.  Function values in shared state are known by a name.

    ** What is shown

    - The bus: the ring operations act on the list of connections, a turn of the
      bus ends and hands the message once to each connection that stays, the
      send goroutines never panic, the replay buffer is a bounded queue.  A pod
      does not see its own messages, and waiting for a reply gives a reply to
      the ticket or a timeout.
    - The hub: the balancers list exactly the peers with a capability, through
      any operations; a tunnel goes to capable peers only and gets through to a
      working one within its retries, when the hub is left alone long enough between
      the changes that other goroutines make during it, and can miss it otherwise; a
      withdrawal returns nil exactly when every connection has reported that it was
      written, and an error after its timeout.
    - The mesh: a link hands over what was sent in its order; a handshake leaves
      both ends with each other's UUID or the dialler with an error; messages of
      a peer are delivered until it withdraws; a runner that is discovered ends
      in the balancer of its job type; a tunneled message arrives at the pod of
      exactly one capable peer, runs a job there and does not go back to the mesh;
      over the whole mesh, from processes as they are made, every request gets
      the answer of its own module, or a 500 after a timeout or when no runner could
      be reached, however many are under way and whoever joins and withdraws meanwhile;
      late results harm no other request, and none is lost but the results of the jobs
      that run when their runner withdraws;
      a bridged message is published once; a question to
      a scheduler on the bus is answered, and the answer is taken by the asker only.
    - The scheduler: resizing a pool ends with the pool of the wanted size,
      every job taken is run, cancelled threads take at most one job more, a result
      that a job returns is forwarded and arrives, however deep they nest, every job
      has exactly one answer and no sender ever blocks, schedules fire on time.
    - The cache: no caller is left asleep, whatever is interleaved; the authorization
      cache on top of it refines a map with expiry times.
    - Sequences: a chain of runners and the waiting parent compute what running
      the steps in order computes, an error stops the chain.  Execute takes and gives
      back the lock of the callbacks: it ends after the results it waits for, unless a
      result meets a timeout, and then it and the handler block for ever.
    - The control process: an answer with data needs a token, a decision for it,
      a module of that tenant and a result; the handler gives the one answer
      that its specification allows unless it waits for such a lock, and with a runner
      at the other end it is what the function of the module answers; syncing leaves
      the copy with what the source answered for the tenants that had changed; the
      orchestrator loses no process and its end returns; a runner
      that it launches serves on the port that its watcher asks; the start command
      returns nil only after both servers were told to shut down and when every runner
      was cancelled or is just being added.
    - The runner: a host call's bytes arrive in the module's memory, headers are
      read back, an access to the memory panics exactly outside it or without it, an
      instance serves one run and is destroyed, and there are as many as threads and
      waiting runs need, concurrent requests get their own answers as long as their
      worker has a live thread; a host
      function is called with arguments of its declared types and answers with
      its declared results; when the configuration panics, and when the monitor
      of the process file returns; a shutdown leaves the mesh exactly when the
      bus was connected; the source server's answers for a module.
    - Where the code does not do what it means to, a lemma says what it does:
      deadlocks of the dispatcher and of WaitUntil, a replaced loading function
      that still stores its value, a message lost from the replay buffer, a
      wait group that never comes down, a process that outlives the shutdown,
      results that are lost when a runner drains, a monitor that looks no more, a
      loop that does not end.

    ** Fuel

    The loops of the replay buffer take one turn per buffered message, those of
    the bus one per connection and one more, the sequence of [Execute] one per
    remaining step and one more, the resizing of a pool the distance to its target plus the
    retries; each is shown to end with that much fuel.  [Store] draws random
    numbers until one is free, and ends one turn after the first free one.

    ** What is left out

    The wasmtime runtime, the HTTP routers, sockets, the clients of the brokers,
    multicast, operating-system processes and signals, the exporters of metrics
    and traces, and logging are I/O or other modules' code; they are parameters
    where the logic needs them.  The environment of the process (envconfig), names
    (fqmn), the system source and the HTTP client are parameters.
    The entry points (main.go, flags.go) are wiring; the testers of the transports
    and of testingsupport/ are programs that nothing uses; the package
    e2core/backend/satbackend/process is a copy that nothing imports, of which
    Procfile has the one function that differs.
    In the runs of Traffic the connections of a runner do not fail before the control
    process closes them: one that crashes without a withdrawal, and the Stop of a
    runner three seconds after its withdrawal, are in Hub and Startup only.
    In Core the threads that [reconcilePoolSize] starts and cancels come and go freely;
    the loop itself and its targets are in Worker.  The quoting of a job type leaves the
    bytes of characters that are not ASCII as they are.
    Seconds are compared exactly, where the code goes through float64. *)

From stdpp Require Export base gmap strings list fin_maps sorting.
From Stdlib Require Export ZArith Lia.

Declare Scope go_scope.
Delimit Scope go_scope with go.

(** ** Error values *)

(** An [error] value.  [ErrNew] is a sentinel made by [errors.New], identified
    by its text; [ErrWrap] is [errors.Wrap]; [ErrRun] is [scheduler.RunErr];
    [ErrExt] is an error that a library or the environment returned. *)
Inductive error : Type :=
| ErrNew (text : string)
| ErrWrap (cause : error) (msg : string)
| ErrRun (code : Z) (message : string)
| ErrExt (text : string).

#[export] Instance error_eq_dec : EqDecision error.
Proof. solve_decision. Defined.

(** ** Run-time panics *)

(** The run-time panics of Go that the modelled code can raise. *)
Inductive panic : Type :=
| NilDeref          (* nil pointer dereference *)
| IndexRange        (* index out of range *)
| SliceRange        (* slice bounds out of range *)
| NilMap            (* assignment to an entry of a nil map *)
| ClosedChan        (* send on, or close of, a closed channel *)
| NegWaitGroup      (* negative sync.WaitGroup counter *)
| BadAssert         (* failed type assertion without the comma-ok form *)
| NegLen            (* make with a negative length *)
| Raised (e : error). (* panic called with an error *)

(** The outcome of running a piece of Go code: a value or a panic. *)
Inductive outcome (A : Type) : Type :=
| Val (a : A)
| Panic (p : panic).
Arguments Val {A} a.
Arguments Panic {A} p.

#[export] Instance outcome_ret : MRet outcome := λ A a, Val a.
#[export] Instance outcome_bind : MBind outcome := λ A B f o,
  match o with Val a => f a | Panic p => Panic p end.
#[export] Instance outcome_fmap : FMap outcome := λ A B f o,
  match o with Val a => Val (f a) | Panic p => Panic p end.

#[export] Instance panic_eq_dec : EqDecision panic.
Proof. solve_decision. Defined.
#[export] Instance outcome_eq_dec `{EqDecision A} : EqDecision (outcome A).
Proof. solve_decision. Defined.

(** [returns o]: the code finishes without a panic. *)
Definition returns {A} (o : outcome A) : Prop := ∃ a, o = Val a.

(** ** Go errors *)

(** [errors.Is]: the target occurs in the chain of causes. *)
Fixpoint errors_Is (err target : error) : bool :=
  bool_decide (err = target) ||
  match err with ErrWrap cause _ => errors_Is cause target | _ => false end.

(** The pair [(T, error)] of a Go function that returns one or the other. *)
Inductive result (A : Type) : Type :=
| Ok (a : A)
| Err (e : error).
Arguments Ok {A} a.
Arguments Err {A} e.

#[export] Instance result_ret : MRet result := λ A a, Ok a.
#[export] Instance result_bind : MBind result := λ A B f r,
  match r with Ok a => f a | Err e => Err e end.
#[export] Instance result_eq_dec `{EqDecision A} : EqDecision (result A).
Proof. solve_decision. Defined.

(** ** Slices: the indexing that panics *)

Definition index_at {A} (l : list A) (i : nat) : outcome A :=
  match l !! i with Some a => Val a | None => Panic IndexRange end.

(** [l[i] = a] *)
Definition store_at {A} (l : list A) (i : nat) (a : A) : outcome (list A) :=
  if decide (i < length l) then Val (<[i := a]> l) else Panic IndexRange.

Lemma index_at_lookup {A} (l : list A) i a : l !! i = Some a → index_at l i = Val a.
Proof. unfold index_at. by intros ->. Qed.

Lemma index_at_lt {A} (l : list A) i : i < length l → ∃ a, l !! i = Some a ∧ index_at l i = Val a.
Proof.
  intros [a Ha]%lookup_lt_is_Some. exists a. split; [done|]. by apply index_at_lookup.
Qed.

(** Overwriting one slot with a fresh element keeps the elements distinct. *)
Lemma NoDup_insert_fresh {A} (l : list A) i x : NoDup l → x ∉ l → NoDup (<[i := x]> l).
Proof.
  rewrite !NoDup_alt. intros Hnd Hx j k y. rewrite !list_lookup_insert.
  repeat case_decide; intros; destruct_and?; simplify_eq; try done; try by eapply Hnd.
  all: destruct Hx; by eapply list_elem_of_lookup_2.
Qed.

(** The elements of a list with one slot overwritten. *)
Lemma elem_of_insert_NoDup {A} (l : list A) i old x y :
  NoDup l → l !! i = Some old → x ∉ l →
  y ∈ <[i := x]> l ↔ y = x ∨ (y ∈ l ∧ y ≠ old).
Proof.
  intros Hnd Hold Hx. pose proof (lookup_lt_Some _ _ _ Hold). rewrite !list_elem_of_lookup. split.
  - intros [j Hj]. rewrite list_lookup_insert in Hj. case_decide; [naive_solver|].
    right. split; [eauto|]. intros ->.
    assert (j = i) as -> by (by eapply NoDup_lookup). naive_solver.
  - intros [->|[[j Hj] Hy]]; [exists i; by apply list_lookup_insert_eq|].
    exists j. rewrite list_lookup_insert_ne; [done|]. naive_solver.
Qed.

(** The only element of a list without duplicates that a filter lets through. *)
Lemma filter_only {A} (P : A → Prop) `{!∀ x, Decision (P x)} (l : list A) x :
  NoDup l → x ∈ l → P x → (∀ y, y ∈ l → P y → y = x) → filter P l = [x].
Proof.
  induction 1 as [|y l Hy Hnd IH]; intros Hx HP Honly; [by apply not_elem_of_nil in Hx|].
  destruct (decide (P y)) as [HPy|HPy].
  - rewrite filter_cons_True by done. assert (y = x) as -> by (apply Honly; [by left|done]). f_equal.
    assert (∀ z, z ∈ l → ¬ P z) as Hno by (intros z Hz HPz; rewrite (Honly z) in Hz by (done || by right); done).
    clear -Hno. induction l as [|z l IH]; [done|].
    rewrite filter_cons_False by (apply Hno; by left). apply IH. intros z' Hz'. apply Hno. by right.
  - rewrite filter_cons_False by done. apply elem_of_cons in Hx as [->|Hx]; [done|].
    apply IH; [done..|]. intros z Hz. apply Honly. by right.
Qed.

(** ** Strings *)

Lemma string_app_assoc (s t r : string) : (s +:+ t) +:+ r = s +:+ (t +:+ r).
Proof.
  induction s as [|a s IH]; [done|].
  change (String a ((s +:+ t) +:+ r) = String a (s +:+ (t +:+ r))). by rewrite IH.
Qed.

(** ** Loops *)

(** A Go [for] loop: [body] says how one turn ends, with the next state or with
    the value the loop leaves with.  [None] is "out of fuel" and nothing else. *)
Fixpoint loop {S R} (fuel : nat) (body : S → S + R) (s : S) : option R :=
  match fuel with
  | 0 => None
  | S fuel => match body s with inl s' => loop fuel body s' | inr r => Some r end
  end.

Lemma loop_more_fuel {S R} (body : S → S + R) n m s r :
  loop n body s = Some r → n ≤ m → loop m body s = Some r.
Proof.
  revert m s. induction n as [|n IH]; intros [|m] s; simpl; try done; [lia|].
  destruct (body s); intros; [apply IH; [done|lia]|done].
Qed.

(** A loop whose turns decrease a measure leaves with a value. *)
Lemma loop_measure {S R} (body : S → S + R) (m : S → nat) (I : S → Prop) s :
  I s →
  (∀ s s', I s → body s = inl s' → I s' ∧ m s' < m s) →
  ∀ fuel, m s < fuel → ∃ r, loop fuel body s = Some r.
Proof.
  intros HI Hstep fuel. revert s HI. induction fuel as [|fuel IH]; intros s HI Hm; [lia|].
  simpl. destruct (body s) as [s'|r] eqn:E; [|by eexists].
  destruct (Hstep s s' HI E) as [HI' Hlt]. apply IH; [done|lia].
Qed.

(** Partial correctness of a loop from an invariant. *)
Lemma loop_invariant {S R} (body : S → S + R) (I : S → Prop) (Q : R → Prop) fuel s r :
  I s →
  (∀ s s', I s → body s = inl s' → I s') →
  (∀ s r, I s → body s = inr r → Q r) →
  loop fuel body s = Some r → Q r.
Proof.
  intros HI Hstep Hend. revert s HI. induction fuel as [|fuel IH]; intros s HI; simpl; [done|].
  destruct (body s) eqn:E; [by eauto|]. intros [= <-]. by eauto.
Qed.

(** ** Tactics and hints *)

Create HintDb e2core discriminated.
Create Rewrite HintDb e2core_rw.
#[export] Hint Extern 5 (_ < _) => lia : e2core.
#[export] Hint Extern 5 (_ ≤ _) => lia : e2core.

(** Run the outcome monad on a concrete outcome. *)
Ltac run := unfold mbind, mret, fmap, outcome_bind, outcome_ret, outcome_fmap in *; simpl in *.

(** Split on every test of the goal. *)
Ltac cases := repeat (case_decide || case_match); simplify_eq; try done; try lia.
