(* ===== verification/Interfaces.v ===== *)
(** * The contracts between components

    What one component promises to another, as type classes.  A client's
    theorems are proved against the class; the component that implements it
    declares the instance. *)

From S2P Require Import Prelude.
From Stdlib Require Import Ascii.

(** ** Choosing a peer: the tunnel balancer, as the hub sees it *)

Class PickerOps (B : Type) : Type := {
  picker_empty : B;
  picker_add : B → string → B;
  picker_remove : B → string → B;
  picker_next : B → outcome (string * B);
  picker_members : B → list string;
  picker_wf : B → Prop
}.

Section Picks.
Context {B : Type} `{PickerOps B}.

(** Successive choices. *)
Fixpoint picks (n : nat) (b : B) : outcome (list string * B) :=
  match n with
  | 0 => Val ([], b)
  | S n => '(u, b1) ← picker_next b; '(us, b2) ← picks n b1; Val (u :: us, b2)
  end.

End Picks.

Class Picker (B : Type) `{PickerOps B} : Prop := {
  picker_wf_empty : picker_wf picker_empty;
  picker_wf_add b u : picker_wf b → picker_wf (picker_add b u);
  picker_wf_remove b u : picker_wf b → picker_wf (picker_remove b u);
  picker_members_empty : picker_members picker_empty = [];
  picker_members_add b u : picker_members (picker_add b u) = picker_members b ++ [u];
  picker_members_remove b u :
    picker_members (picker_remove b u) = filter (λ v, v ≠ u) (picker_members b);
  (** an empty picker answers with the empty string and keeps its state *)
  picker_next_empty b : picker_members b = [] → picker_next b = Val ("", b);
  (** a choice is a member, and choosing changes no membership *)
  picker_next_member b :
    picker_wf b → picker_members b ≠ [] →
    ∃ u b', picker_next b = Val (u, b') ∧ u ∈ picker_members b ∧
            picker_members b' = picker_members b ∧ picker_wf b';
  (** as many choices as there are members visit each member as often as it
      is listed, whatever was chosen before *)
  picker_fair b :
    picker_wf b →
    ∃ us b', picks (length (picker_members b)) b = Val (us, b') ∧ us ≡ₚ picker_members b
}.

(** ** Encoding to bytes: encoding/json, as the users of a message see it *)

Class Codec (T : Type) : Type := {
  marshal : T → string;
  unmarshal : string → result T;
  unmarshal_marshal x : unmarshal (marshal x) = Ok x
}.

(** Every countable type has such an encoding: the class can be inhabited, and
    a theorem about encoded data can be evaluated on an example. *)
Fixpoint bits (p : positive) : string :=
  match p with
  | xH => ""
  | xO p => String "0"%char (bits p)
  | xI p => String "1"%char (bits p)
  end.

Fixpoint of_bits (s : string) : positive :=
  match s with
  | EmptyString => xH
  | String a s => if decide (a = "1"%char) then xI (of_bits s) else xO (of_bits s)
  end.

Lemma of_bits_bits p : of_bits (bits p) = p.
Proof. induction p as [p IH|p IH|]; simpl; by rewrite ?IH. Qed.

Definition countable_codec (T : Type) `{Countable T} : Codec T.
Proof.
  refine {| marshal x := bits (encode x);
            unmarshal s := match decode (of_bits s) with
                           | Some x => Ok x
                           | None => Err (ErrExt "invalid character")
                           end |}.
  abstract (intros x; by rewrite of_bits_bits, decode_encode).
Defined.
