(* ===== verification/Balancer.v ===== *)
(** * The tunnel balancer: foundation/bus/bus/tunnel/balancer.go

    The state of a [Balancer], its operations, the invariant that makes the
    slice access of [Next] safe, and the proof that [Next] is a fair round
    robin: the instance of [Picker] that the hub uses. *)

From S2P Require Import Prelude.
From S2P Require Import Interfaces.

Record Balancer : Type := mkBalancer { uuids : list string; index : nat }.

Definition NewBalancer : Balancer := mkBalancer [] 0.

Definition Add (b : Balancer) (uuid : string) : Balancer :=
  mkBalancer (uuids b ++ [uuid]) (index b).

(** [Remove] rebuilds the list without [uuid], then moves an index that is not
    before the last slot to the middle of the list. *)
Definition Remove (b : Balancer) (uuid : string) : Balancer :=
  let newUUIDs := filter (λ u, u ≠ uuid) (uuids b) in
  mkBalancer newUUIDs
    (if (Z.of_nat (length newUUIDs) - 1 <=? Z.of_nat (index b))%Z
     then length newUUIDs / 2 else index b).

(** [Next]: the empty string when there is nothing to choose from. *)
Definition Next (b : Balancer) : outcome (string * Balancer) :=
  if decide (length (uuids b) = 0) then Val ("", b)
  else
    uuid ← index_at (uuids b) (index b);
    Val (uuid,
         mkBalancer (uuids b)
           (if (Z.of_nat (length (uuids b)) - 1 <=? Z.of_nat (index b))%Z
            then 0 else S (index b))).

(** ** Invariant *)

(** The index points into the list, or the list is empty and the index is 0. *)
Definition balancer_wf (b : Balancer) : Prop :=
  index b < length (uuids b) ∨ (uuids b = [] ∧ index b = 0).

#[export] Instance balancer_picker_ops : PickerOps Balancer := {|
  picker_empty := NewBalancer;
  picker_add := Add;
  picker_remove := Remove;
  picker_next := Next;
  picker_members := uuids;
  picker_wf := balancer_wf
|}.

Lemma balancer_wf_new : balancer_wf NewBalancer.
Proof. by right. Qed.

Lemma balancer_wf_add b u : balancer_wf b → balancer_wf (Add b u).
Proof.
  unfold balancer_wf, Add; simpl. rewrite length_app; simpl.
  intros [?|[-> ->]]; left; simpl; lia.
Qed.

Lemma balancer_wf_remove b u : balancer_wf b → balancer_wf (Remove b u).
Proof.
  unfold balancer_wf, Remove; cbn [uuids index].
  generalize (filter (λ v, v ≠ u) (uuids b)) as l. intros l _.
  destruct (Z.leb_spec (Z.of_nat (length l) - 1) (Z.of_nat (index b))) as [H|H]; [|left; lia].
  destruct l as [|x l]; [by right|left]. apply Nat.div_lt; simpl; lia.
Qed.

#[export] Hint Resolve balancer_wf_new balancer_wf_add balancer_wf_remove : e2core.

(** ** The choices of [Next] *)

Lemma balancer_next_at us i u :
  us !! i = Some u →
  Next (mkBalancer us i) = Val (u, mkBalancer us (if decide (S i = length us) then 0 else S i)).
Proof.
  intros Hu. pose proof (lookup_lt_Some _ _ _ Hu) as Hlt.
  unfold Next; cbn [uuids index]. rewrite decide_False by lia.
  rewrite (index_at_lookup _ _ _ Hu). run. do 3 f_equal.
  destruct (Z.leb_spec (Z.of_nat (length us) - 1) (Z.of_nat i)); case_decide; lia.
Qed.

(** Calls that do not wrap around read the list from the index on. *)
Lemma balancer_picks_run us i n :
  i + n ≤ length us → i < length us →
  picks n (mkBalancer us i) =
    Val (take n (drop i us), mkBalancer us (if decide (i + n = length us) then 0 else i + n)).
Proof.
  revert i. induction n as [|n IH]; intros i Hn Hi.
  - simpl. rewrite Nat.add_0_r, decide_False by lia. done.
  - destruct (lookup_lt_is_Some_2 us i) as [u Hu]; [lia|].
    cbn [picks picker_next balancer_picker_ops]. rewrite (balancer_next_at _ _ _ Hu).
    rewrite (drop_S _ _ _ Hu). run. destruct (decide (S i = length us)) as [E|E].
    + assert (n = 0) as -> by lia. simpl. rewrite decide_True by lia. done.
    + rewrite (IH (S i)) by lia. simpl. rewrite Nat.add_succ_r. done.
Qed.

Lemma balancer_picks_app n m (b : Balancer) :
  picks (n + m) b =
    ('(us, b1) ← picks n b; '(vs, b2) ← picks m b1; Val (us ++ vs, b2)).
Proof.
  revert b. induction n as [|n IH]; intros b; simpl.
  - run. by destruct (picks m b) as [[??]|].
  - destruct (Next b) as [[u b1]|]; [|done]. run. rewrite IH.
    destruct (picks n b1) as [[us b2]|]; [|done]. run. by destruct (picks m b2) as [[??]|].
Qed.

(** One full round. *)
Lemma balancer_round b :
  balancer_wf b →
  picks (length (uuids b)) b = Val (drop (index b) (uuids b) ++ take (index b) (uuids b), b).
Proof.
  destruct b as [us i]. intros [Hi|[Hu Hz]]; simpl in *; [|by subst].
  replace (length us) with ((length us - i) + i) by lia. rewrite balancer_picks_app.
  rewrite balancer_picks_run by lia. rewrite decide_True by lia. run.
  rewrite balancer_picks_run by lia. run. rewrite take_ge by (rewrite length_drop; lia).
  rewrite drop_0. by rewrite decide_False by lia.
Qed.

(** C9: From any well-formed state of the balancer, k rounds of Next visit every
    peer exactly k times in cyclic order from the current index and leave the
    state as it was. *)
Theorem balancer_round_robin b k :
  balancer_wf b →
  picks (k * length (uuids b)) b =
    Val (concat (replicate k (drop (index b) (uuids b) ++ take (index b) (uuids b))), b).
Proof.
  intros Hwf. induction k as [|k IH]; [done|].
  cbn [Nat.mul replicate concat]. rewrite balancer_picks_app, balancer_round by done. run.
  by rewrite IH.
Qed.

Lemma balancer_next_member b :
  balancer_wf b → uuids b ≠ [] →
  ∃ u b', Next b = Val (u, b') ∧ u ∈ uuids b ∧ uuids b' = uuids b ∧ balancer_wf b'.
Proof.
  destruct b as [us i]. intros [Hi|[Hu _]] Hne; simpl in *; [|done].
  destruct (lookup_lt_is_Some_2 us i Hi) as [u Hu].
  exists u, (mkBalancer us (if decide (S i = length us) then 0 else S i)).
  split; [by apply balancer_next_at|]. split; [by eapply list_elem_of_lookup_2|].
  split; [done|]. left; simpl. case_decide; lia.
Qed.

#[export] Instance balancer_picker : Picker Balancer.
Proof.
  split; simpl.
  - apply balancer_wf_new.
  - apply balancer_wf_add.
  - apply balancer_wf_remove.
  - done.
  - done.
  - done.
  - intros [us i] Hu; simpl in *; by subst.
  - apply balancer_next_member.
  - intros b Hwf. rewrite balancer_round by done. eexists _, _. split; [done|].
    rewrite Permutation_app_comm. by rewrite take_drop.
Qed.

(** ** Histories *)

Inductive balancer_op : Type := OpAdd (u : string) | OpRemove (u : string) | OpNext.

Definition balancer_step (b : Balancer) (op : balancer_op) : outcome (option string * Balancer) :=
  match op with
  | OpAdd u => Val (None, Add b u)
  | OpRemove u => Val (None, Remove b u)
  | OpNext => '(u, b') ← Next b; Val (Some u, b')
  end.

(** The answers of the [Next] calls of a history. *)
Fixpoint balancer_run (b : Balancer) (ops : list balancer_op) : outcome (list string * Balancer) :=
  match ops with
  | [] => Val ([], b)
  | op :: ops =>
      '(o, b1) ← balancer_step b op;
      '(us, b2) ← balancer_run b1 ops;
      Val (match o with Some u => u :: us | None => us end, b2)
  end.

Lemma balancer_step_wf b op :
  balancer_wf b → ∃ o b', balancer_step b op = Val (o, b') ∧ balancer_wf b'.
Proof.
  intros Hwf. destruct op as [u|u|]; simpl; [eauto with e2core..|].
  destruct (decide (uuids b = [])) as [E|E].
  - unfold Next. rewrite decide_True by (by rewrite E). run. eauto.
  - destruct (balancer_next_member b Hwf E) as (u & b' & -> & _ & _ & ?). run. eauto.
Qed.

(** No sequence of operations makes the balancer panic. *)
Theorem balancer_never_panics ops b :
  balancer_wf b → ∃ us b', balancer_run b ops = Val (us, b') ∧ balancer_wf b'.
Proof.
  revert b. induction ops as [|op ops IH]; intros b Hwf; simpl; [eauto|].
  destruct (balancer_step_wf b op Hwf) as (o & b1 & -> & Hwf1). run.
  destruct (IH b1 Hwf1) as (us & b2 & -> & Hwf2). run. eauto.
Qed.

(** A peer that was removed and not added again is not chosen. *)
Theorem balancer_removed_not_chosen ops b u :
  balancer_wf b → OpAdd u ∉ ops → u ≠ "" →
  ∃ us b', balancer_run (Remove b u) ops = Val (us, b') ∧ u ∉ us.
Proof.
  intros Hwf Hops Hne. cut (balancer_wf (Remove b u) ∧ u ∉ uuids (Remove b u)).
  { generalize (Remove b u) as c. revert Hops. clear Hwf.
    induction ops as [|op ops IH]; intros Hops c [Hwf Hu]; simpl.
    { eexists _, _. split; [done|]. apply not_elem_of_nil. }
    apply not_elem_of_cons in Hops as [Hop Hops].
    destruct op as [v|v|]; simpl; run.
    - destruct (IH Hops (Add c v)) as (us & b' & -> & ?); [|eauto].
      split; [eauto with e2core|]. simpl. rewrite elem_of_app, list_elem_of_singleton. naive_solver.
    - destruct (IH Hops (Remove c v)) as (us & b' & -> & ?); [|eauto].
      split; [eauto with e2core|]. simpl. rewrite list_elem_of_filter. naive_solver.
    - destruct (decide (uuids c = [])) as [E|E].
      + unfold Next. rewrite decide_True by (by rewrite E). run.
        destruct (IH Hops c) as (us & b' & -> & ?); [done|].
        eexists _, _. split; [done|]. by apply not_elem_of_cons.
      + destruct (balancer_next_member c Hwf E) as (v & c' & -> & Hv & Hm & Hwf'). run.
        destruct (IH Hops c') as (us & b' & -> & ?); [by rewrite Hm|].
        eexists _, _. split; [done|]. apply not_elem_of_cons. naive_solver. }
  split; [eauto with e2core|]. simpl. rewrite list_elem_of_filter. naive_solver.
Qed.

(** ** Examples *)

Lemma balancer_round_robin_witness :
  picks (2 * 3) (mkBalancer ["a"; "b"; "c"] 1) = Val (["b"; "c"; "a"; "b"; "c"; "a"], mkBalancer ["a"; "b"; "c"] 1).
Proof. apply (balancer_round_robin (mkBalancer ["a"; "b"; "c"] 1) 2). left. simpl. lia. Defined.
