(* ===== verification/Message.v ===== *)
(** * Messages and the pod's message filter: foundation/bus/bus/message.go, filter.go

    A [Message] is the built-in [_message]; the calls that draw a fresh UUID or
    read the clock take them as arguments.  The filter is the four fields of
    [messageFilter] with [allow] and its two updates. *)

From S2P Require Import Prelude.
From S2P Require Import Interfaces.

(** ** Messages *)

Record _meta : Type := mkMeta {
  meta_UUID : string;
  meta_ParentID : string;
  meta_ReplyTo : string;
  meta_MsgType : string;
  meta_Timestamp : Z
}.

Record _payload : Type := mkPayload { payload_Data : string }.

Record Message : Type := mkMessage { Meta : _meta; Payload : _payload }.

#[export] Instance meta_eq_dec : EqDecision _meta.
Proof. solve_decision. Defined.
#[export] Instance payload_eq_dec : EqDecision _payload.
Proof. solve_decision. Defined.
#[export] Instance message_eq_dec : EqDecision Message.
Proof. solve_decision. Defined.

Definition UUID (m : Message) : string := meta_UUID (Meta m).
Definition ParentID (m : Message) : string := meta_ParentID (Meta m).
Definition ReplyTo (m : Message) : string := meta_ReplyTo (Meta m).
Definition Type_ (m : Message) : string := meta_MsgType (Meta m).
Definition Timestamp (m : Message) : Z := meta_Timestamp (Meta m).
Definition Data (m : Message) : string := payload_Data (Payload m).

Definition SetReplyTo (m : Message) (uuid : string) : Message :=
  mkMessage
    (mkMeta (meta_UUID (Meta m)) (meta_ParentID (Meta m)) uuid
       (meta_MsgType (Meta m)) (meta_Timestamp (Meta m)))
    (Payload m).

Definition MsgTypeDefault : string := "grav.default".
Definition msgTypePodFeedback : string := "grav.feedback".

(** [newMessage]: [fresh] is the UUID drawn by [uuid.New], [now] the clock. *)
Definition newMessage (fresh : string) (now : Z) (msgType parentID data : string) : Message :=
  mkMessage (mkMeta fresh parentID "" msgType now) (mkPayload data).

Definition NewMsg (fresh : string) (now : Z) (msgType data : string) : Message :=
  newMessage fresh now msgType "" data.

Definition NewMsgWithParentID (fresh : string) (now : Z) (msgType parentID data : string) :
    Message :=
  newMessage fresh now msgType parentID data.

Definition NewMsgReplyTo (fresh : string) (now : Z) (ticketUUID msgType data : string) : Message :=
  SetReplyTo (newMessage fresh now msgType "" data) ticketUUID.

Section Encoding.
Context `{Codec Message, Codec _meta}.

Definition Marshal (m : Message) : string := marshal m.
Definition MarshalMetadata (m : Message) : string := marshal (Meta m).

Definition MsgFromBytes (bytes : string) : result Message := unmarshal bytes.

(** [body] is what reading the body of the request gives. *)
Definition MsgFromRequest (body : result string) : result Message :=
  bytes ← body; MsgFromBytes bytes.

(** The payload is the raw data; the metadata is decoded next to it. *)
Definition MsgFromDataAndMeta (data metadata : string) : result Message :=
  meta ← unmarshal metadata;
  Ok (mkMessage meta (mkPayload data)).

End Encoding.

(** ** The message filter *)

Record messageFilter : Type := mkFilter {
  UUIDMap : gmap string bool;
  UUIDInclusive : bool;
  TypeMap : gmap string bool;
  TypeInclusive : bool
}.

Definition newMessageFilter : messageFilter := mkFilter ∅ true ∅ true.

Definition allow (mf : messageFilter) (msg : Message) : bool :=
  let allowType := default false (TypeMap mf !! Type_ msg) in
  let typeExists := bool_decide (is_Some (TypeMap mf !! Type_ msg)) in
  if typeExists && negb allowType then false
  else if negb typeExists && negb (TypeInclusive mf) then false
  else
    let allowUUID := default false (UUIDMap mf !! UUID msg) in
    let uuidExists := bool_decide (is_Some (UUIDMap mf !! UUID msg)) in
    if uuidExists && negb allowUUID then false
    else if negb uuidExists && negb (UUIDInclusive mf) then false
    else true.

Definition FilterUUID (mf : messageFilter) (uuid : string) (allow : bool) : messageFilter :=
  mkFilter (<[uuid := allow]> (UUIDMap mf)) (UUIDInclusive mf) (TypeMap mf) (TypeInclusive mf).

Definition FilterType (mf : messageFilter) (msgType : string) (allow : bool) : messageFilter :=
  mkFilter (UUIDMap mf) (UUIDInclusive mf) (<[msgType := allow]> (TypeMap mf)) (TypeInclusive mf).

(** [p.TypeInclusive = v] *)
Definition setTypeInclusive (mf : messageFilter) (v : bool) : messageFilter :=
  mkFilter (UUIDMap mf) (UUIDInclusive mf) (TypeMap mf) v.

(** What a map with a default says about a key. *)
Definition verdict (m : gmap string bool) (inclusive : bool) (k : string) : bool :=
  default inclusive (m !! k).

(** A message passes when the verdicts of its type and of its UUID agree to it. *)
Lemma allow_verdict mf msg :
  allow mf msg = verdict (TypeMap mf) (TypeInclusive mf) (Type_ msg) &&
                 verdict (UUIDMap mf) (UUIDInclusive mf) (UUID msg).
Proof.
  unfold allow, verdict.
  destruct (TypeMap mf !! Type_ msg) as [[]|], (UUIDMap mf !! UUID msg) as [[]|],
    (TypeInclusive mf), (UUIDInclusive mf); done.
Qed.

Lemma verdict_insert m inc k v k' :
  verdict (<[k := v]> m) inc k' = if decide (k = k') then v else verdict m inc k'.
Proof. unfold verdict. rewrite lookup_insert. by case_decide. Qed.

Lemma allow_new msg : allow newMessageFilter msg = true.
Proof. by rewrite allow_verdict. Qed.

Lemma allow_FilterUUID mf u v msg :
  allow (FilterUUID mf u v) msg =
    if decide (u = UUID msg)
    then verdict (TypeMap mf) (TypeInclusive mf) (Type_ msg) && v else allow mf msg.
Proof. rewrite !allow_verdict. simpl. rewrite verdict_insert. by case_decide. Qed.

Lemma allow_FilterUUID_false mf u msg :
  allow (FilterUUID mf u false) msg = bool_decide (u ≠ UUID msg) && allow mf msg.
Proof.
  rewrite allow_FilterUUID. case_decide; case_bool_decide; try done. by rewrite andb_false_r.
Qed.

#[export] Hint Rewrite allow_new allow_FilterUUID_false : e2core_rw.
