(* ===== verification/MsgBuffer.v ===== *)
(** * The replay buffer: foundation/bus/bus/msgbuffer.go

    A ring of message UUIDs over a map of messages.  [contents] is the abstract
    view, the buffered messages from the oldest to the newest, and the buffer
    is shown to be a bounded queue as long as no buffered UUID is pushed again. *)

From S2P Require Import Prelude.
From S2P Require Import Message.

Record MsgBuffer : Type := mkBuffer {
  msgs : gmap string Message;
  order : list string;
  limit : Z;
  startIndex : nat;
  nextIndex : nat
}.

Definition NewMsgBuffer (limit : Z) : MsgBuffer := mkBuffer ∅ [] limit 0 0.

Definition Push (m : MsgBuffer) (msg : Message) : outcome MsgBuffer :=
  let msgs1 := <[UUID msg := msg]> (msgs m) in
  let lastIndex := (Z.of_nat (length (order m)) - 1)%Z in
  if decide (Z.of_nat (length (order m)) = limit m) then
    first ← index_at (order m) (startIndex m);
    order1 ← store_at (order m) (startIndex m) (UUID msg);
    Val (mkBuffer (delete first msgs1) order1 (limit m)
           (if decide (Z.of_nat (startIndex m) = lastIndex) then 0 else S (startIndex m))
           (nextIndex m))
  else
    Val (mkBuffer msgs1 (order m ++ [UUID msg]) (limit m) (startIndex m) (nextIndex m)).

(** [Next]: [None] is the nil message, for an empty buffer or a UUID that is no
    longer in the map. *)
Definition Next (m : MsgBuffer) : outcome (option Message * MsgBuffer) :=
  if decide (length (order m) = 0) then Val (None, m)
  else
    uuid ← index_at (order m) (nextIndex m);
    Val (msgs m !! uuid,
         mkBuffer (msgs m) (order m) (limit m) (startIndex m)
           (if decide (Z.of_nat (nextIndex m) = Z.of_nat (length (order m)) - 1)%Z
            then 0 else S (nextIndex m))).

(** One turn of the loop of [Iter]: [seen] are the messages that [msgFunc] was
    called with, [None] for a nil message. *)
Definition Iter_body (m : MsgBuffer) (s : nat * list (option Message)) :
    (nat * list (option Message)) + outcome (list (option Message)) :=
  let '(index, seen) := s in
  match index_at (order m) index with
  | Panic p => inr (Panic p)
  | Val uuid =>
      let seen1 := seen ++ [msgs m !! uuid] in
      let index1 := if decide (Z.of_nat index = Z.of_nat (length (order m)) - 1)%Z
                    then 0 else S index in
      if decide (index1 = startIndex m) then inr (Val seen1) else inl (index1, seen1)
  end.

(** The arguments of the calls of [msgFunc], in order; [None] is out of fuel. *)
Definition Iter (fuel : nat) (m : MsgBuffer) : option (outcome (list (option Message))) :=
  if decide (length (order m) = 0) then Some (Val [])
  else loop fuel (Iter_body m) (startIndex m, []).

(** ** The abstract view *)

(** The UUIDs from the oldest to the newest. *)
Definition ring (m : MsgBuffer) : list string :=
  drop (startIndex m) (order m) ++ take (startIndex m) (order m).

Definition contents (m : MsgBuffer) : list (option Message) := (λ u, msgs m !! u) <$> ring m.

Record buffer_wf (m : MsgBuffer) : Prop := {
  wf_limit : (0 < limit m)%Z;
  wf_size : (Z.of_nat (length (order m)) ≤ limit m)%Z;
  wf_start : startIndex m = 0 ∨
             (startIndex m < length (order m) ∧ Z.of_nat (length (order m)) = limit m);
  wf_next : nextIndex m < length (order m) ∨ (order m = [] ∧ nextIndex m = 0);
  wf_nodup : NoDup (order m);
  wf_msgs u : u ∈ order m ↔ is_Some (msgs m !! u);
  wf_uuid u msg : msgs m !! u = Some msg → UUID msg = u
}.

Lemma buffer_wf_new l : (0 < l)%Z → buffer_wf (NewMsgBuffer l).
Proof.
  intros Hl. split; simpl; auto; [lia|by constructor| |].
  - intros u. rewrite lookup_empty. split; [by intros ?%not_elem_of_nil|by intros [? ?]].
  - intros u msg. by rewrite lookup_empty.
Qed.

Lemma ring_elem m u : u ∈ ring m ↔ u ∈ order m.
Proof.
  unfold ring. rewrite elem_of_app. rewrite <- (take_drop (startIndex m) (order m)) at 3.
  rewrite elem_of_app. tauto.
Qed.

(** ** Iter visits the ring once *)

Lemma Iter_loop m n i seen :
  startIndex m < length (order m) → i < length (order m) →
  n = (if decide (i < startIndex m) then startIndex m - i
       else length (order m) - i + startIndex m) →
  ∀ fuel, n ≤ fuel →
  loop fuel (Iter_body m) (i, seen) =
    Some (Val (seen ++ ((λ u, msgs m !! u) <$> take n (drop i (order m ++ order m))))).
Proof.
  intros Hs. revert i seen. induction n as [|n IH]; intros i seen Hi Hn fuel Hfuel.
  { case_decide; lia. }
  destruct fuel as [|fuel]; [lia|].
  destruct (lookup_lt_is_Some_2 (order m) i Hi) as [u Hu].
  assert ((order m ++ order m) !! i = Some u) as Hu2 by (by rewrite lookup_app_l by lia).
  rewrite (drop_S _ _ _ Hu2). cbn [loop Iter_body take fmap list_fmap].
  rewrite (index_at_lookup _ _ _ Hu).
  destruct (decide (Z.of_nat i = Z.of_nat (length (order m)) - 1)%Z) as [Hl|Hl].
  - destruct (decide (0 = startIndex m)) as [Hz|Hz].
    + assert (n = 0) as -> by (case_decide; lia). by rewrite take_0.
    + rewrite (IH 0) by (repeat case_decide; lia). rewrite <- app_assoc. simpl.
      replace (S i) with (length (order m)) by lia.
      rewrite drop_app_length. do 3 f_equal.
      rewrite drop_0, take_app_le by (repeat case_decide; lia). done.
  - destruct (decide (S i = startIndex m)) as [Hz|Hz].
    + assert (n = 0) as -> by (case_decide; lia). by rewrite take_0.
    + rewrite (IH (S i)) by (repeat case_decide; lia). by rewrite <- app_assoc.
Qed.

Lemma buffer_start_lt m : buffer_wf m → order m ≠ [] → startIndex m < length (order m).
Proof.
  intros [_ _ [->|[? _]] _ _ _ _] Hne; [|done]. destruct (order m); simpl; [done|lia].
Qed.

(** The loop of [Iter] ends, after one turn per buffered message. *)
Lemma Iter_ring m fuel :
  (order m ≠ [] → startIndex m < length (order m)) → length (order m) ≤ fuel →
  Iter fuel m = Some (Val (contents m)).
Proof.
  intros Hs Hfuel. unfold Iter, contents, ring.
  destruct (decide (length (order m) = 0)) as [E|E].
  { apply nil_length_inv in E. by rewrite E, drop_nil, take_nil. }
  specialize (Hs ltac:(intros E'; by rewrite E' in E)).
  rewrite (Iter_loop m (length (order m)) (startIndex m) []) by (try case_decide; lia).
  simpl. do 3 f_equal. rewrite drop_app_le by lia.
  rewrite take_app. rewrite take_ge by (rewrite length_drop; lia).
  rewrite length_drop. f_equal. f_equal. lia.
Qed.

Lemma Iter_contents m fuel :
  buffer_wf m → length (order m) ≤ fuel → Iter fuel m = Some (Val (contents m)).
Proof. intros Hwf. apply Iter_ring. by apply buffer_start_lt. Qed.

(** [Iter] with fuel for one turn per slot, which is enough on every buffer. *)
Definition Iter_run (m : MsgBuffer) : outcome (list (option Message)) :=
  default (Val []) (Iter (length (order m)) m).

Lemma Iter_run_enough m : Iter (length (order m)) m = Some (Iter_run m).
Proof.
  unfold Iter_run. destruct (decide (startIndex m < length (order m))) as [Hs|Hs].
  - by rewrite Iter_ring.
  - unfold Iter. case_decide; [done|]. destruct (order m) as [|x l] eqn:E; [done|]. rewrite <- E in *.
    destruct (length (order m)) eqn:El; [by rewrite E in El|]. simpl.
    unfold index_at. rewrite lookup_ge_None_2 by lia. done.
Qed.

Lemma Iter_run_buffered_wf m : buffer_wf m → Iter_run m = Val (contents m).
Proof. intros Hwf. unfold Iter_run. by rewrite Iter_contents. Qed.

(** ** Push refines a bounded queue *)

(** The specification: append, and drop the oldest when there are more than [l]. *)
Definition queue_push {A} (l : Z) (q : list A) (a : A) : list A :=
  if decide (Z.of_nat (length q) = l) then tail q ++ [a] else q ++ [a].

Lemma ring_length m : length (ring m) = length (order m).
Proof. unfold ring. rewrite length_app, length_drop, length_take. lia. Qed.

(** The rotation that [Push] does on the UUIDs of a full buffer. *)
Lemma ring_rotate (l : list string) i u :
  i < length l →
  let i1 := if decide (Z.of_nat i = Z.of_nat (length l) - 1)%Z then 0 else S i in
  drop i1 (<[i := u]> l) ++ take i1 (<[i := u]> l) = tail (drop i l ++ take i l) ++ [u].
Proof.
  intros Hi i1. destruct (lookup_lt_is_Some_2 l i Hi) as [v Hv].
  rewrite (drop_S _ _ _ Hv). simpl tail.
  assert (take (S i) (<[i := u]> l) = take i l ++ [u]) as Ht.
  { rewrite (take_S_r _ _ u) by (by apply list_lookup_insert_eq).
    by rewrite take_insert_ge by lia. }
  subst i1. case_decide.
  - rewrite drop_0, take_0, app_nil_r, (drop_ge l) by lia. simpl.
    rewrite <- Ht. by rewrite take_ge by (rewrite length_insert; lia).
  - rewrite Ht, app_assoc. by rewrite drop_insert_lt by lia.
Qed.

(** What a push does on a full buffer, whatever is pushed. *)
Lemma push_full m msg old :
  Z.of_nat (length (order m)) = limit m → order m !! startIndex m = Some old →
  ∃ st, Push m msg = Val (mkBuffer (delete old (<[UUID msg := msg]> (msgs m)))
          (<[startIndex m := UUID msg]> (order m)) (limit m) st (nextIndex m)) ∧
        (st = 0 ∨ st < length (order m)) ∧
        drop st (<[startIndex m := UUID msg]> (order m)) ++
          take st (<[startIndex m := UUID msg]> (order m)) = tail (ring m) ++ [UUID msg].
Proof.
  intros Hfull Hold. pose proof (lookup_lt_Some _ _ _ Hold) as Hs.
  unfold Push. rewrite decide_True by done. rewrite (index_at_lookup _ _ _ Hold). run.
  unfold store_at. rewrite decide_True by done. run.
  eexists. split; [done|]. split; [case_decide; [by left|right; lia]|].
  by apply ring_rotate.
Qed.

(** A push of a fresh UUID on a full buffer keeps the invariant. *)
Lemma push_full_wf m msg old st :
  buffer_wf m → UUID msg ∉ order m →
  Z.of_nat (length (order m)) = limit m → order m !! startIndex m = Some old →
  (st = 0 ∨ st < length (order m)) →
  buffer_wf (mkBuffer (delete old (<[UUID msg := msg]> (msgs m)))
    (<[startIndex m := UUID msg]> (order m)) (limit m) st (nextIndex m)).
Proof.
  intros [Hl Hsz Hst Hnx Hnd Hmsgs Huuid] Hfresh Hfull Hold Hstart.
  pose proof (lookup_lt_Some _ _ _ Hold) as Hs.
  pose proof (λ u, elem_of_insert_NoDup (order m) _ _ _ u Hnd Hold Hfresh) as Helem.
  assert (old ≠ UUID msg).
  { intros ->. by apply Hfresh, (list_elem_of_lookup_2 _ _ _ Hold). }
  split; simpl; rewrite ?length_insert; try lia.
  - by apply NoDup_insert_fresh.
  - intros u. rewrite Helem, lookup_delete. case_decide as Ho.
    + subst. split; [naive_solver|]. by intros [? ?].
    + rewrite lookup_insert. case_decide; [subst; naive_solver|]. rewrite <- Hmsgs. naive_solver.
  - intros u m0. rewrite lookup_delete. case_decide; [done|].
    rewrite lookup_insert. case_decide; naive_solver.
Qed.

(** A push on a buffer with room. *)
Lemma push_room_wf m msg :
  buffer_wf m → UUID msg ∉ order m → Z.of_nat (length (order m)) ≠ limit m →
  buffer_wf (mkBuffer (<[UUID msg := msg]> (msgs m)) (order m ++ [UUID msg]) (limit m)
    (startIndex m) (nextIndex m)).
Proof.
  intros [Hl Hsz Hst Hnx Hnd Hmsgs Huuid] Hfresh Hfull.
  split; simpl; rewrite ?length_app; simpl; try lia.
  - apply NoDup_app. split; [done|]. split; [|apply NoDup_singleton].
    intros u Hu ->%list_elem_of_singleton. done.
  - intros u. rewrite elem_of_app, list_elem_of_singleton, lookup_insert.
    case_decide; [subst; naive_solver|]. rewrite <- Hmsgs. naive_solver.
  - intros u m0. rewrite lookup_insert. case_decide; naive_solver.
Qed.

(** [buffered m q]: the buffer holds exactly the messages [q], the oldest first. *)
Definition buffered (m : MsgBuffer) (q : list Message) : Prop :=
  buffer_wf m ∧ ring m = UUID <$> q ∧ Forall (λ x, msgs m !! UUID x = Some x) q.

Lemma buffered_contents m q : buffered m q → contents m = Some <$> q.
Proof.
  intros (_ & Hring & Hq). unfold contents. rewrite Hring, <- list_fmap_compose.
  apply list_fmap_ext. intros i x Hx. simpl. by eapply Forall_lookup_1 in Hq.
Qed.

Lemma buffered_length m q : buffered m q → length q = length (order m).
Proof. intros (_ & Hring & _). by rewrite <- ring_length, Hring, length_fmap. Qed.

Lemma buffered_uuids m q u : buffered m q → u ∈ order m ↔ u ∈ UUID <$> q.
Proof. intros (_ & Hring & _). by rewrite <- ring_elem, Hring. Qed.

Lemma buffered_new l : (0 < l)%Z → buffered (NewMsgBuffer l) [].
Proof. intros Hl. split; [by apply buffer_wf_new|]. done. Qed.

(** What every history of pushes keeps, duplicates included: the start lies in the
    ring. *)
Definition cursor_ok (m : MsgBuffer) : Prop :=
  (0 < limit m)%Z ∧ (startIndex m = 0 ∨ startIndex m < length (order m)).

Lemma cursor_ok_new l : (0 < l)%Z → cursor_ok (NewMsgBuffer l).
Proof. split; [done|by left]. Qed.

Lemma buffer_wf_cursor m : buffer_wf m → cursor_ok m.
Proof. intros Hwf. split; [by apply wf_limit|]. destruct (wf_start _ Hwf) as [|[? _]]; auto. Qed.

Lemma Iter_run_cursor m : cursor_ok m → Iter_run m = Val (contents m).
Proof.
  intros [_ Hs]. unfold Iter_run. rewrite Iter_ring; [done| |done].
  intros Hne. destruct Hs as [E|?]; [|done]. rewrite E. destruct (order m); simpl; [done|lia].
Qed.

(** A push never fails, whatever was pushed before. *)
Lemma Push_cursor m msg : cursor_ok m → ∃ m', Push m msg = Val m' ∧ limit m' = limit m ∧ cursor_ok m'.
Proof.
  intros [Hl Hs]. unfold Push. case_decide as Hfull.
  - assert (startIndex m < length (order m)) as Hlt by (destruct Hs; lia).
    destruct (lookup_lt_is_Some_2 _ _ Hlt) as [old Hold].
    rewrite (index_at_lookup _ _ _ Hold). run. unfold store_at. rewrite decide_True by done. run.
    eexists. split; [done|]. split; [done|]. split; [done|]. cbn [startIndex order].
    rewrite length_insert. case_decide; lia.
  - eexists. split; [done|]. split; [done|]. split; [done|]. cbn [startIndex order].
    rewrite length_app. simpl. lia.
Qed.

Lemma ring_NoDup m : buffer_wf m → NoDup (ring m).
Proof.
  intros Hwf. unfold ring. rewrite Permutation_app_comm, take_drop. by apply wf_nodup.
Qed.

Lemma buffered_oldest m x q :
  buffered m (x :: q) → order m !! startIndex m = Some (UUID x) ∧ UUID x ∉ UUID <$> q.
Proof.
  intros Hb. pose proof (buffered_length m _ Hb) as Hlen. destruct Hb as (Hwf & Hring & _). split.
  - pose proof (f_equal (λ l, l !! 0) Hring) as E. unfold ring in E. simpl in E.
    rewrite lookup_app_l, lookup_drop, Nat.add_0_r in E; [done|]. rewrite length_drop.
    enough (startIndex m < length (order m)) by lia. apply buffer_start_lt; [done|].
    intros E'. by rewrite E' in Hlen.
  - pose proof (ring_NoDup m Hwf) as Hnd. rewrite Hring in Hnd. by apply NoDup_cons in Hnd as [? _].
Qed.

(** A push of a UUID that is not buffered implements [queue_push]. *)
Lemma push_buffered m q msg :
  buffered m q → UUID msg ∉ UUID <$> q →
  ∃ m', Push m msg = Val m' ∧ limit m' = limit m ∧ buffered m' (queue_push (limit m) q msg).
Proof.
  intros Hb Hfresh. pose proof (buffered_length m q Hb) as Hlen.
  assert (UUID msg ∉ order m) as Ho by (by rewrite buffered_uuids).
  assert (∀ y, y ∈ q → UUID y ≠ UUID msg) as Hne.
  { intros y Hy E. apply Hfresh. rewrite <- E. by apply list_elem_of_fmap_2. }
  unfold queue_push. destruct (decide (Z.of_nat (length q) = limit m)) as [Hfull|Hfull].
  - destruct q as [|x q]; [destruct Hb as [[]]; simpl in *; lia|].
    destruct (buffered_oldest m x q Hb) as [Hold Hxq]. destruct Hb as (Hwf & Hring & Hq).
    rewrite Hlen in Hfull.
    destruct (push_full m msg (UUID x) Hfull Hold) as (st & -> & Hst & Hr).
    eexists. split; [done|]. split; [done|]. split; [by apply push_full_wf|].
    unfold ring; simpl. rewrite Hr, Hring, fmap_app. split; [done|].
    rewrite Forall_forall in *. intros y [Hy| ->%list_elem_of_singleton]%elem_of_app.
    + rewrite lookup_delete_ne, lookup_insert_ne by (set_solver).
      apply Hq. set_solver.
    + rewrite lookup_delete_ne by (intros E; eapply Hne; [|done]; set_solver).
      by rewrite lookup_insert_eq.
  - rewrite Hlen in Hfull. destruct Hb as (Hwf & Hring & Hq). unfold Push.
    rewrite decide_False by done. eexists. split; [done|]. split; [done|].
    split; [by apply push_room_wf|]. destruct Hwf as [_ ? Hst _ _ _ _].
    assert (startIndex m = 0) as Hz by lia. unfold ring in *; simpl. rewrite Hz in *.
    rewrite drop_0, take_0, app_nil_r in *. rewrite Hring, fmap_app. split; [done|].
    rewrite Forall_forall in *. intros y [Hy| ->%list_elem_of_singleton]%elem_of_app.
    + rewrite lookup_insert_ne by (apply not_eq_sym, Hne, Hy). by apply Hq.
    + by rewrite lookup_insert_eq.
Qed.

Fixpoint push_all (ms : list Message) (m : MsgBuffer) : outcome MsgBuffer :=
  match ms with [] => Val m | msg :: ms => m1 ← Push m msg; push_all ms m1 end.

(** The last [l] elements. *)
Definition last_n {A} (l : Z) (q : list A) : list A := drop (length q - Z.to_nat l) q.

Lemma queue_push_last_n {A} (l : Z) (q : list A) a :
  (0 < l)%Z → queue_push l (last_n l q) a = last_n l (q ++ [a]).
Proof.
  intros Hl. unfold queue_push, last_n. rewrite length_drop, length_app; simpl. case_decide.
  - replace (tail (drop (length q - Z.to_nat l) q)) with (drop 1 (drop (length q - Z.to_nat l) q))
      by (by destruct (drop _ q)).
    rewrite drop_drop, drop_app_le by lia. f_equal. f_equal. lia.
  - rewrite drop_app_le by lia. f_equal. f_equal. lia.
Qed.

Lemma push_all_buffered l ms q m :
  (0 < l)%Z → NoDup (UUID <$> q ++ ms) → limit m = l → buffered m (last_n l q) →
  ∃ m', push_all ms m = Val m' ∧ buffered m' (last_n l (q ++ ms)).
Proof.
  intros Hl. revert q m. induction ms as [|msg ms IH]; intros q m Hnd Hlim Hb; simpl.
  { rewrite app_nil_r. eauto. }
  destruct (push_buffered m _ msg Hb) as (m1 & -> & Hlim1 & Hb1).
  { rewrite fmap_app in Hnd. simpl in Hnd. apply NoDup_app in Hnd as (_ & Hnd & _).
    unfold last_n. rewrite fmap_drop. intros [i Hin]%list_elem_of_lookup. rewrite lookup_drop in Hin.
    apply (Hnd (UUID msg)); [by eapply list_elem_of_lookup_2|set_solver]. }
  run. rewrite cons_middle, app_assoc. apply IH; [by rewrite <- app_assoc|congruence|].
  rewrite <- queue_push_last_n by done. by rewrite Hlim in Hb1.
Qed.

(** C8: Pushing messages with distinct UUIDs into the replay buffer and iterating
    over it visits exactly the last limit messages, the oldest first. *)
Theorem msgbuffer_keeps_last ms l fuel :
  (0 < l)%Z → NoDup (UUID <$> ms) → length ms ≤ fuel →
  ∃ m, push_all ms (NewMsgBuffer l) = Val m ∧
       Iter fuel m = Some (Val (Some <$> last_n l ms)).
Proof.
  intros Hl Hnd Hfuel. destruct (push_all_buffered l ms [] (NewMsgBuffer l)) as (m & -> & Hb); auto.
  { by apply buffered_new. }
  exists m. split; [done|]. simpl in Hb. rewrite Iter_contents.
  - by rewrite (buffered_contents _ _ Hb).
  - by destruct Hb.
  - rewrite <- (buffered_length _ _ Hb). unfold last_n. rewrite length_drop. lia.
Qed.

(** Pushing the oldest message of a full buffer again loses it: iterating then
    meets a nil message. *)
Theorem msgbuffer_duplicate_lost m x q fuel :
  buffered m (x :: q) → Z.of_nat (length (x :: q)) = limit m → length (x :: q) ≤ fuel →
  ∃ m', Push m x = Val m' ∧ Iter fuel m' = Some (Val ((Some <$> q) ++ [None])).
Proof.
  intros Hb Hfull Hfuel. pose proof (buffered_length m _ Hb) as Hlen.
  destruct (buffered_oldest m x q Hb) as [Hold Hxq]. destruct Hb as (Hwf & Hring & Hq).
  rewrite Hlen in Hfull, Hfuel.
  destruct (push_full m x (UUID x) Hfull Hold) as (st & -> & Hst & Hr).
  eexists. split; [done|]. rewrite Iter_ring; simpl.
  - do 2 f_equal. unfold contents, ring; simpl. rewrite Hr, Hring, fmap_app. simpl.
    rewrite lookup_delete_eq. f_equal. rewrite <- list_fmap_compose.
    apply list_fmap_ext. intros i y Hy. simpl.
    apply Forall_cons in Hq as [_ Hq]. pose proof (Forall_lookup_1 _ _ _ _ Hq Hy) as Hy'.
    apply list_elem_of_lookup_2 in Hy. rewrite lookup_delete_ne by set_solver.
    rewrite lookup_insert. case_decide; [set_solver|done].
  - rewrite length_insert. intros _. pose proof (lookup_lt_Some _ _ _ Hold). lia.
  - by rewrite length_insert.
Qed.

(** ** Examples *)

Definition example_msg (u : string) : Message := NewMsg u 0 MsgTypeDefault u.

Lemma msgbuffer_keeps_last_witness :
  ∃ m, push_all (example_msg <$> ["a"; "b"; "c"]) (NewMsgBuffer 2) = Val m ∧
       Iter 3 m = Some (Val [Some (example_msg "b"); Some (example_msg "c")]).
Proof.
  refine (msgbuffer_keeps_last (example_msg <$> ["a"; "b"; "c"]) 2 3 _ _ _); [lia| |simpl; lia].
  apply (bool_decide_unpack _). vm_compute. exact I.
Defined.

Lemma msgbuffer_duplicate_lost_witness :
  ∃ m m', Push (NewMsgBuffer 1) (example_msg "a") = Val m ∧ Push m (example_msg "a") = Val m' ∧
          Iter 1 m' = Some (Val [None]).
Proof.
  destruct (push_buffered (NewMsgBuffer 1) [] (example_msg "a")) as (m & Hm & Hl & Hb);
    [by apply buffered_new|set_solver|].
  destruct (msgbuffer_duplicate_lost m (example_msg "a") [] 1) as (m' & Hm' & Hi); [done|by rewrite Hl|simpl; lia|].
  by exists m, m'.
Defined.
