(* ===== verification/PodConn.v ===== *)
(** * Pod connections: foundation/bus/bus/podconnection.go

    The bus's end of a pod.  [connState] is what a [podConnection] holds beside
    its place in the ring.  A goroutine that [send] started and that has not
    run yet is an element of [sending]; the two channels are their queues. *)

From S2P Require Import Prelude.
From S2P Require Import Message.

(** A value of the interface type [Message]: [None] is nil. *)
Abbreviation imsg := (option Message).

(** A feedback message.  The three package-level messages are compared by
    identity, so they are constructors; any other message is a failed one. *)
Inductive feedback : Type :=
| podFeedbackMsgReplay
| podFeedbackMsgSuccess
| podFeedbackMsgDisconnect
| FailedMsg (msg : imsg).

Record connState : Type := mkState {
  sending : list imsg;
  messageChan : list imsg;
  closed : bool;
  feedbackChan : list feedback;
  failed : list imsg;
  connected : bool
}.

Record podConnection : Type := mkConn { ID : Z; next : option Z; state : connState }.

Record connStatus : Type := mkStatus {
  HadSuccess : bool;
  WantsReplay : bool;
  WantsDisconnect : bool;
  Error : option error
}.

Definition defaultPodChanSize : nat := 128.
Definition highWaterMark : nat := 64.
Definition errFailedMessage : error := ErrNew "pod reports failed message".
Definition errFailedMessageMax : error :=
  ErrNew "pod reports max number of failed messages, will terminate connection".

Definition newConnState : connState := mkState [] [] false [] [] true.
Definition newPodConnection (id : Z) : podConnection := mkConn id None newConnState.

(** [send] starts a goroutine. *)
Definition send (c : connState) (msg : imsg) : connState :=
  mkState (sending c ++ [msg]) (messageChan c) (closed c) (feedbackChan c) (failed c) (connected c).

Definition send_list (c : connState) (ms : list imsg) : connState := foldl send c ms.

(** The goroutine of [send] at position [i]: it gives up on a connection that is
    not connected, and otherwise writes to the message channel, which blocks
    ([None]) when the channel is full and panics when it is closed. *)
Definition run_send (c : connState) (i : nat) : option (outcome connState) :=
  match sending c !! i with
  | None => None
  | Some msg =>
      let rest := delete i (sending c) in
      if negb (connected c) then
        Some (Val (mkState rest (messageChan c) (closed c) (feedbackChan c) (failed c) (connected c)))
      else if closed c then Some (Panic ClosedChan)
      else if decide (length (messageChan c) < defaultPodChanSize) then
        Some (Val (mkState rest (messageChan c ++ [msg]) (closed c) (feedbackChan c) (failed c)
                     (connected c)))
      else None
  end.

(** The loop of [checkStatus] over the queued feedback. *)
Fixpoint drain (fb : list feedback) (failed : list imsg) (st : connStatus) :
    list imsg * connStatus :=
  match fb with
  | [] => (failed, st)
  | podFeedbackMsgSuccess :: fb =>
      drain fb failed (mkStatus true (WantsReplay st) (WantsDisconnect st) (Error st))
  | podFeedbackMsgReplay :: fb =>
      drain fb failed (mkStatus (HadSuccess st) true (WantsDisconnect st) (Error st))
  | podFeedbackMsgDisconnect :: fb =>
      drain fb failed (mkStatus (HadSuccess st) (WantsReplay st) true (Error st))
  | FailedMsg msg :: fb =>
      drain fb (failed ++ [msg])
        (mkStatus (HadSuccess st) (WantsReplay st) (WantsDisconnect st) (Some errFailedMessage))
  end.

Definition checkStatus (c : connState) : connStatus * connState :=
  let '(failed1, st) := drain (feedbackChan c) (failed c) (mkStatus false false false None) in
  let st1 := if decide (highWaterMark ≤ length failed1)
             then mkStatus (HadSuccess st) (WantsReplay st) (WantsDisconnect st)
                    (Some errFailedMessageMax)
             else st in
  (st1, mkState (sending c) (messageChan c) (closed c) [] failed1 (connected c)).

Definition disconnect (c : connState) : outcome connState :=
  if closed c then Panic ClosedChan
  else Val (mkState (sending c) (messageChan c) true (feedbackChan c) (failed c) false).

Definition flushFailed (c : connState) : connState :=
  let c1 := send_list c (failed c) in
  if decide (0 < length (failed c))
  then mkState (sending c1) (messageChan c1) (closed c1) (feedbackChan c1) [] (connected c1)
  else c1.

(** ** What the queued feedback says *)

Fixpoint failures (fb : list feedback) : list imsg :=
  match fb with
  | [] => []
  | FailedMsg m :: fb => m :: failures fb
  | _ :: fb => failures fb
  end.

Definition is_success (f : feedback) : bool :=
  match f with podFeedbackMsgSuccess => true | _ => false end.
Definition is_replay (f : feedback) : bool :=
  match f with podFeedbackMsgReplay => true | _ => false end.
Definition is_disconnect (f : feedback) : bool :=
  match f with podFeedbackMsgDisconnect => true | _ => false end.

Lemma drain_spec fb fl st :
  drain fb fl st =
    (fl ++ failures fb,
     mkStatus (HadSuccess st || existsb is_success fb)
       (WantsReplay st || existsb is_replay fb)
       (WantsDisconnect st || existsb is_disconnect fb)
       (match failures fb with [] => Error st | _ => Some errFailedMessage end)).
Proof.
  revert fl st. induction fb as [|f fb IH]; intros fl [a b c e].
  - simpl. by rewrite app_nil_r, !orb_false_r.
  - destruct f as [| | |m]; cbn [drain]; rewrite IH; cbn; rewrite ?orb_true_r, ?orb_false_r; try done.
    rewrite <- app_assoc. simpl. by destruct (failures fb).
Qed.

Lemma send_list_sending c ms :
  send_list c ms = mkState (sending c ++ ms) (messageChan c) (closed c) (feedbackChan c) (failed c)
                     (connected c).
Proof.
  revert c. induction ms as [|m ms IH]; intros c; simpl.
  - rewrite app_nil_r. by destruct c.
  - rewrite IH. unfold send. simpl. by rewrite <- app_assoc.
Qed.

(** ** The life of the message channel

    The steps of the goroutines around one connection: a goroutine of [send]
    runs, the pod takes a message, the bus sends, disconnects or flushes. *)

Inductive chan_step (c : connState) : connState → Prop :=
| ChanSend m : chan_step c (send c m)
| ChanRun i c' : run_send c i = Some (Val c') → chan_step c c'
| ChanRecv m ms :
    messageChan c = m :: ms →
    chan_step c (mkState (sending c) ms (closed c) (feedbackChan c) (failed c) (connected c))
| ChanFeedback f :
    length (feedbackChan c) < defaultPodChanSize →
    chan_step c (mkState (sending c) (messageChan c) (closed c) (feedbackChan c ++ [f]) (failed c)
                   (connected c))
| ChanCheck st c' : checkStatus c = (st, c') → chan_step c c'
| ChanFlush : chan_step c (flushFailed c)
| ChanDisconnect c' : disconnect c = Val c' → chan_step c c'.

(** The channel is closed exactly when the connection is marked as such. *)
Definition chan_ok (c : connState) : Prop :=
  connected c = negb (closed c) ∧ length (messageChan c) ≤ defaultPodChanSize.

Lemma chan_ok_new : chan_ok newConnState.
Proof. split; simpl; [done|lia]. Qed.

Lemma chan_step_ok c c' : chan_step c c' → chan_ok c → chan_ok c'.
Proof.
  intros Hstep [Hc Hl]. destruct Hstep as [m|i c' Hr|m ms E|f Hf|st c' E| |c' E].
  - done.
  - unfold run_send in Hr. destruct (sending c !! i); [|done].
    destruct (negb (connected c)) eqn:En; [by simplify_eq|].
    destruct (closed c); [done|]. case_decide; simplify_eq. split; simpl; [done|].
    rewrite length_app; simpl. lia.
  - split; simpl; [done|]. rewrite E in Hl; simpl in Hl. lia.
  - done.
  - unfold checkStatus in E. destruct (drain _ _ _). by simplify_eq.
  - unfold flushFailed. rewrite send_list_sending. by case_decide.
  - unfold disconnect in E. destruct (closed c); simplify_eq. done.
Qed.

(** The goroutine that send starts never writes to a closed channel: whatever the
    connection went through since, a disconnected connection is recognized before
    the write. *)
Theorem send_never_panics c c' i p :
  rtc chan_step c c' → chan_ok c → run_send c' i ≠ Some (Panic p).
Proof.
  intros Hsteps. induction Hsteps as [c|c c1 c2 Hstep _ IH]; intros Hok.
  - destruct Hok as [Hc _]. unfold run_send. destruct (sending c !! i); [|done].
    rewrite Hc. destruct (closed c); simpl; [done|]. by case_decide.
  - apply IH. by eapply chan_step_ok.
Qed.

(** ** Examples *)

Lemma send_never_panics_witness : run_send (send newConnState None) 0 ≠ Some (Panic ClosedChan).
Proof.
  apply (send_never_panics newConnState); [|apply chan_ok_new].
  apply rtc_once. apply ChanSend.
Defined.
