(* ===== verification/Pool.v ===== *)
(** * The connection ring: foundation/bus/bus/pool.go, podconnection.go (insertAfter)

    The ring is a circular linked list.  The model keeps the list cells in a
    heap indexed by the connection's ID, which is unique, so that an ID is the
    pointer to the cell.  [ring] relates a pool to the list of its connections
    in ring order; each operation of the pool is shown to act on that list. *)

From S2P Require Import Prelude.
From S2P Require Import Message.
From S2P Require MsgBuffer.
From S2P Require Import PodConn.

Record connectionPool : Type := mkPool {
  conns : gmap Z podConnection;
  current : option Z;
  maxID : Z
}.

Definition newConnectionPool : connectionPool := mkPool ∅ None 0.

(** Following a pointer. *)
Definition deref (h : gmap Z podConnection) (p : option Z) : outcome podConnection :=
  match p with
  | Some i => match h !! i with Some c => Val c | None => Panic NilDeref end
  | None => Panic NilDeref
  end.

Definition set_next (c : podConnection) (n : option Z) : podConnection := mkConn (ID c) n (state c).
Definition set_state (c : podConnection) (s : connState) : podConnection := mkConn (ID c) (next c) s.

(** [p.insertAfter(conn)] *)
Definition insertAfter (h : gmap Z podConnection) (p conn : Z) : outcome (gmap Z podConnection) :=
  pc ← deref h (Some p);
  let nxt := match next pc with Some n => Some n | None => Some p end in
  let h1 := <[p := set_next pc (Some conn)]> h in
  cc ← deref h1 (Some conn);
  Val (<[conn := set_next cc nxt]> h1).

Definition pool_insert (c : connectionPool) : outcome connectionPool :=
  let id := (maxID c + 1)%Z in
  let conn := newPodConnection id in
  match current c with
  | None => Val (mkPool (<[id := set_next conn (Some id)]> (conns c)) (Some id) id)
  | Some p =>
      h ← insertAfter (<[id := conn]> (conns c)) p id;
      Val (mkPool h (Some p) id)
  end.

Definition peek (c : connectionPool) : outcome (option Z) :=
  cur ← deref (conns c) (current c);
  Val (next cur).

Definition pool_next (c : connectionPool) : outcome (option Z * connectionPool) :=
  cur ← deref (conns c) (current c);
  Val (next cur, mkPool (conns c) (next cur) (maxID c)).

Definition deleteNext (c : connectionPool) : outcome connectionPool :=
  cur ← deref (conns c) (current c);
  nxt ← deref (conns c) (next cur);
  st ← disconnect (state nxt);
  let h := <[ID nxt := set_state nxt st]> (conns c) in
  if decide (next cur = current c) then Val (mkPool h None (maxID c))
  else
    cur1 ← deref h (current c);
    Val (mkPool (<[ID cur1 := set_next cur1 (next nxt)]> h) (current c) (maxID c)).

(** Update the connection a pointer refers to. *)
Definition on_conn (c : connectionPool) (p : option Z) (f : connState → connState) :
    outcome connectionPool :=
  x ← deref (conns c) p;
  Val (mkPool (<[ID x := set_state x (f (state x))]> (conns c)) (current c) (maxID c)).

Definition replayNext (c : connectionPool) (buffer : MsgBuffer.MsgBuffer) :
    outcome connectionPool :=
  nxt ← peek c;
  ms ← MsgBuffer.Iter_run buffer;
  on_conn c nxt (λ s, send_list s ms).

Definition errRemoving : error := ErrNew "removing next podConnection".
Definition errRequested : error :=
  ErrNew "next pod requested disconnection, removing podConnection".

Definition prepareNext (c : connectionPool) (buffer : MsgBuffer.MsgBuffer) :
    outcome (option error * connectionPool) :=
  nxt ← peek c;
  x ← deref (conns c) nxt;
  let '(status, s1) := checkStatus (state x) in
  c1 ← on_conn c nxt (λ _, s1);
  let finish (c2 : connectionPool) :=
    if HadSuccess status then c3 ← on_conn c2 nxt flushFailed; Val (None, c3)
    else Val (None, c2) in
  match Error status with
  | Some e =>
      if decide (e = errFailedMessageMax) then
        c2 ← deleteNext c1; Val (Some errRemoving, c2)
      else finish c1
  | None =>
      if WantsDisconnect status then
        c2 ← deleteNext c1; Val (Some errRequested, c2)
      else if WantsReplay status then c2 ← replayNext c1 buffer; finish c2
      else finish c1
  end.

(** ** The ring as a list *)

(** The cells from [a] through [l], the last of which points to [b]. *)
Fixpoint chain (h : gmap Z podConnection) (a : Z * connState) (l : list (Z * connState)) (b : Z) :
    Prop :=
  match l with
  | [] => h !! (a.1) = Some (mkConn a.1 (Some b) a.2)
  | x :: l => h !! (a.1) = Some (mkConn a.1 (Some x.1) a.2) ∧ chain h x l b
  end.

(** [ring c q]: the connections of the pool are [q], in the order in which the
    bus will visit them; the last of them is the current one. *)
Definition ring (c : connectionPool) (q : list (Z * connState)) : Prop :=
  NoDup q.*1 ∧ Forall (λ i, (i ≤ maxID c)%Z) q.*1 ∧ current c = fst <$> last q ∧
  match q with [] => True | x :: q => chain (conns c) x q x.1 end.

Lemma chain_frame h i c a l b :
  i ∉ (a :: l).*1 → chain h a l b → chain (<[i := c]> h) a l b.
Proof.
  revert a. induction l as [|x l IH]; intros a Hi; simpl in *.
  - intros H. rewrite lookup_insert_ne; [done|]. set_solver.
  - intros [H Hc]. split; [|apply IH; [set_solver|done]].
    rewrite lookup_insert_ne; [done|]. set_solver.
Qed.

Lemma chain_snoc h a l x b :
  chain h a (l ++ [x]) b ↔ chain h a l x.1 ∧ h !! (x.1) = Some (mkConn x.1 (Some b) x.2).
Proof. revert a. induction l as [|y l IH]; intros a; simpl; [tauto|]. rewrite IH. tauto. Qed.

(** The successor of the head of a chain. *)
Definition succ_id (l : list (Z * connState)) (b : Z) : Z := match l with [] => b | x :: _ => x.1 end.

Lemma chain_head h a l b : chain h a l b → h !! (a.1) = Some (mkConn a.1 (Some (succ_id l b)) a.2).
Proof. destruct l; simpl; naive_solver. Qed.

Lemma chain_last h x q b a :
  chain h x q b → last (x :: q) = Some a → h !! (a.1) = Some (mkConn a.1 (Some b) a.2).
Proof.
  revert x. induction q as [|y q IH]; intros x; simpl; [naive_solver|].
  intros [_ Hc] Hl. by eapply IH.
Qed.

Lemma chain_head_insert h a l b s :
  a.1 ∉ l.*1 → chain h a l b →
  chain (<[a.1 := mkConn a.1 (Some (succ_id l b)) s]> h) (a.1, s) l b.
Proof.
  intros Hnd Hc. destruct l as [|x l]; simpl in *.
  - by rewrite lookup_insert_eq.
  - split; [by rewrite lookup_insert_eq|]. apply chain_frame; [set_solver|]. naive_solver.
Qed.

(** Making the last cell of a chain point elsewhere. *)
Lemma chain_relink h x q b a b' :
  NoDup (x :: q).*1 → chain h x q b → last (x :: q) = Some a →
  chain (<[a.1 := mkConn a.1 (Some b') a.2]> h) x q b'.
Proof.
  revert x. induction q as [|y q IH]; intros x Hnd.
  - simpl. intros _ [= ->]. by rewrite lookup_insert_eq.
  - intros [Hx Hc] Hl. simpl in Hnd. apply NoDup_cons in Hnd as [Hn Hnd].
    assert (a ∈ y :: q) as Ha by (by apply last_Some_elem_of).
    split; [|by apply IH]. rewrite lookup_insert_ne; [done|].
    intros E. apply Hn. rewrite <- E. exact (list_elem_of_fmap_2 fst _ _ Ha).
Qed.

Lemma deref_some h i c : h !! i = Some c → deref h (Some i) = Val c.
Proof. simpl. by intros ->. Qed.

(** The facts about a non-empty ring that the operations start from. *)
Lemma ring_facts c x q :
  ring c (x :: q) →
  ∃ a, last (x :: q) = Some a ∧ current c = Some a.1 ∧
       conns c !! (a.1) = Some (mkConn a.1 (Some x.1) a.2) ∧
       conns c !! (x.1) = Some (mkConn x.1 (Some (succ_id q x.1)) x.2) ∧
       ¬ x.1 ∈ q.*1 ∧ chain (conns c) x q x.1.
Proof.
  intros (Hnd & _ & Hcur & Hc). destruct (last (x :: q)) as [a|] eqn:El.
  - exists a. split; [done|]. split; [done|]. split; [by eapply chain_last|].
    split; [by apply chain_head|]. split; [|done]. simpl in Hnd. by apply NoDup_cons in Hnd as [? _].
  - by apply last_None in El.
Qed.

Lemma ring_last_deref c q x : ring c (q ++ [x]) → ∃ n, conns c !! (x.1) = Some (mkConn x.1 n x.2).
Proof.
  destruct q as [|y q]; intros Hr.
  - destruct (ring_facts c x [] Hr) as (? & _ & _ & _ & E & _). eauto.
  - destruct (ring_facts c y (q ++ [x]) Hr) as (a & Hl & _ & E & _).
    rewrite app_comm_cons, last_snoc in Hl. injection Hl as <-. eauto.
Qed.

Lemma ring_empty c : ring c [] → current c = None.
Proof. by intros (_ & _ & ? & _). Qed.

Lemma peek_ring c x q : ring c (x :: q) → peek c = Val (Some x.1).
Proof.
  intros Hr. destruct (ring_facts c x q Hr) as (a & _ & Hcur & Ha & _).
  unfold peek. rewrite Hcur, (deref_some _ _ _ Ha). done.
Qed.

Lemma pool_next_ring c x q :
  ring c (x :: q) → ∃ c', pool_next c = Val (Some x.1, c') ∧ ring c' (q ++ [x]).
Proof.
  intros Hr. destruct (ring_facts c x q Hr) as (a & _ & Hcur & Ha & _ & _ & Hc).
  unfold pool_next. rewrite Hcur, (deref_some _ _ _ Ha). run. eexists. split; [done|].
  destruct Hr as (Hnd & Hb & _ & _). unfold ring; simpl.
  rewrite fmap_app, last_snoc. simpl in *. split; [|split; [|split]].
  - by rewrite (Permutation_app_comm (fst <$> q)).
  - by rewrite (Permutation_app_comm (fst <$> q)).
  - done.
  - destruct q as [|y q]; simpl in *; [done|]. rewrite chain_snoc. naive_solver.
Qed.

(** A cell of a chain gets a new state. *)
Lemma chain_update h a l1 x l2 b s :
  NoDup (a :: l1 ++ x :: l2).*1 → chain h a (l1 ++ x :: l2) b →
  ∃ n, h !! (x.1) = Some (mkConn x.1 n x.2) ∧
    chain (<[x.1 := mkConn x.1 n s]> h) a (l1 ++ (x.1, s) :: l2) b.
Proof.
  revert a. induction l1 as [|y l1 IH]; intros a Hnd Hc; simpl in Hnd; apply NoDup_cons in Hnd as [Ha Hnd].
  - destruct Hc as [Hh Hc]. pose proof (chain_head _ _ _ _ Hc) as Hx. eexists. split; [exact Hx|].
    apply NoDup_cons in Hnd as [Hn _]. split; [|by apply chain_head_insert].
    rewrite lookup_insert_ne by set_solver. done.
  - destruct Hc as [Hh Hc]. destruct (IH y Hnd Hc) as (n & Hx & Hc'). exists n. split; [done|].
    split; [|done]. rewrite lookup_insert_ne; [done|]. rewrite fmap_app in Ha. set_solver.
Qed.

(** Updating any connection of the ring changes its state and nothing else. *)
Lemma on_conn_ring_at c q1 x q2 f :
  ring c (q1 ++ x :: q2) →
  ∃ n c', conns c !! (x.1) = Some (mkConn x.1 n x.2) ∧ on_conn c (Some x.1) f = Val c' ∧
    ring c' (q1 ++ (x.1, f x.2) :: q2).
Proof.
  intros (Hnd & Hb & Hlast & Hc).
  assert (∃ n, conns c !! (x.1) = Some (mkConn x.1 n x.2) ∧
    match q1 ++ (x.1, f x.2) :: q2 with
    | [] => True
    | y :: q => chain (<[x.1 := mkConn x.1 n (f x.2)]> (conns c)) y q y.1
    end) as (n & Hx & Hc').
  { destruct q1 as [|y q1]; simpl in *.
    - pose proof (chain_head _ _ _ _ Hc) as Hx. eexists. split; [exact Hx|].
      apply chain_head_insert; [|done]. by apply NoDup_cons in Hnd as [? _].
    - by apply chain_update. }
  exists n. unfold on_conn. rewrite (deref_some _ _ _ Hx). run. eexists. do 2 (split; [done|]).
  unfold ring in *. rewrite !fmap_app in *. simpl in *. split; [done|]. split; [done|]. split; [|done].
  rewrite Hlast, !last_app_cons. by destruct q2.
Qed.

Lemma on_conn_ring c x q f :
  ring c (x :: q) → ∃ c', on_conn c (Some x.1) f = Val c' ∧ ring c' ((x.1, f x.2) :: q).
Proof. intros Hr. destruct (on_conn_ring_at c [] x q f Hr) as (_ & c' & _ & ? & ?). eauto. Qed.

(** The same on the last connection of the ring, the current one. *)
Lemma on_conn_ring_last c x q f :
  ring c (q ++ [x]) → ∃ c', on_conn c (Some x.1) f = Val c' ∧ ring c' (q ++ [(x.1, f x.2)]).
Proof. intros Hr. destruct (on_conn_ring_at c q x [] f Hr) as (_ & c' & _ & ? & ?). eauto. Qed.

Lemma deleteNext_ring c x q :
  ring c (x :: q) → closed x.2 = false →
  ∃ c' s, deleteNext c = Val c' ∧ ring c' q ∧
          conns c' !! (x.1) = Some (mkConn x.1 (Some (succ_id q x.1)) s).
Proof.
  intros Hr Hcl. destruct (ring_facts c x q Hr) as (a & Hl & Hcur & Ha & Hx & Hnx & Hc).
  unfold deleteNext. rewrite Hcur, (deref_some _ _ _ Ha). cbn [mbind outcome_bind next].
  rewrite (deref_some _ _ _ Hx). cbn [mbind outcome_bind state ID next].
  unfold disconnect. rewrite Hcl. cbn [mbind outcome_bind].
  destruct Hr as (Hnd & Hb & _ & _). simpl in Hnd. apply NoDup_cons in Hnd as [_ Hnd].
  apply Forall_cons in Hb as [_ Hb].
  destruct q as [|y q].
  - simpl in Hl. injection Hl as <-. rewrite decide_True by done. eexists _, _. split; [done|].
    split; [|by simpl; rewrite lookup_insert_eq].
    split; [|split; [|split]]; simpl; done || constructor.
  - assert (a ∈ y :: q) as Hin by (by apply last_Some_elem_of).
    assert (a.1 ≠ x.1) as Hne.
    { intros E. apply Hnx. rewrite <- E. exact (list_elem_of_fmap_2 fst _ _ Hin). }
    rewrite decide_False by congruence.
    rewrite (deref_some _ a.1 (mkConn a.1 (Some x.1) a.2)) by (by rewrite lookup_insert_ne).
    run. eexists _, _. split; [done|].
    split; [|by simpl; rewrite lookup_insert_ne, lookup_insert_eq by done].
    split; [done|]. split; [done|]. split; [by simpl; rewrite Hl|].
    destruct Hc as [_ Hc]. eapply chain_relink; [done| |done]. by apply chain_frame.
Qed.

(** [insert] puts the new connection right after the current one, so it is the
    next to be visited. *)
Lemma pool_insert_ring c q :
  ring c q → ∃ c', pool_insert c = Val c' ∧ ring c' ((maxID c + 1, newConnState)%Z :: q).
Proof.
  intros Hr. set (n := (maxID c + 1)%Z). destruct q as [|x q].
  - unfold pool_insert. rewrite (ring_empty c Hr). eexists. split; [done|].
    split; [apply NoDup_singleton|]. split; [by apply Forall_singleton|]. split; [done|].
    simpl. by rewrite lookup_insert_eq.
  - destruct (ring_facts c x q Hr) as (a & Hl & Hcur & Ha & Hx & Hnx & Hc).
    destruct Hr as (Hnd & Hb & _ & _).
    assert (∀ i, i ∈ (x :: q).*1 → i ≠ n) as Hfresh.
    { intros i Hi ->. rewrite Forall_forall in Hb. apply Hb in Hi. lia. }
    assert (a ∈ x :: q) as Hin by (by apply last_Some_elem_of).
    assert (a.1 ≠ n) as Han by (apply Hfresh; exact (list_elem_of_fmap_2 fst _ _ Hin)).
    unfold pool_insert. rewrite Hcur. unfold insertAfter. fold n.
    rewrite (deref_some _ a.1 (mkConn a.1 (Some x.1) a.2)) by (by rewrite lookup_insert_ne).
    cbn [mbind outcome_bind next].
    rewrite (deref_some _ n (newPodConnection n)) by (by rewrite lookup_insert_ne, lookup_insert_eq).
    run. eexists. split; [done|].
    assert (n ∉ (x :: q).*1) as Hnot by (intros Hi; by apply (Hfresh n Hi)).
    split; [by apply NoDup_cons|]. split; [|split; [|split]]; simpl.
    + constructor; [done|]. eapply Forall_impl; [exact Hb|]. simpl. lia.
    + by rewrite Hl.
    + by rewrite lookup_insert_eq.
    + apply chain_frame; [done|]. eapply chain_relink; [done| |done]. by apply chain_frame.
Qed.

Lemma pool_insert_maxID c c' : pool_insert c = Val c' → maxID c' = (maxID c + 1)%Z.
Proof.
  unfold pool_insert. destruct (current c); [|by intros [= <-]]. destruct (insertAfter _ _ _); run; [|done].
  by intros [= <-].
Qed.

(** ** prepareNext *)

(** Whether [prepareNext] leaves a connection in the ring. *)
Definition keeps (s : connState) : bool :=
  let fs := failures (feedbackChan s) in
  if decide (highWaterMark ≤ length (failed s ++ fs)) then false
  else match fs with [] => negb (existsb is_disconnect (feedbackChan s)) | _ => true end.

(** The state in which it leaves it: feedback drained, [ms] replayed if the pod
    asked for it and reported no failure, failed messages flushed after a success. *)
Definition prepared (ms : list imsg) (s : connState) : connState :=
  let fb := feedbackChan s in
  let s1 := mkState (sending s) (messageChan s) (closed s) [] (failed s ++ failures fb)
              (connected s) in
  let s2 := match failures fb with
            | [] => if existsb is_replay fb then send_list s1 ms else s1
            | _ => s1
            end in
  if existsb is_success fb then flushFailed s2 else s2.

Lemma prepared_closed ms s : closed (prepared ms s) = closed s.
Proof.
  unfold prepared. cbv zeta. destruct (failures (feedbackChan s)), (existsb is_replay (feedbackChan s)),
    (existsb is_success (feedbackChan s));
    unfold flushFailed; rewrite ?send_list_sending; simpl; by try case_decide.
Qed.

Section PrepareNext.
Context (c : connectionPool) (x : Z * connState) (q : list (Z * connState)).
Context (buffer : MsgBuffer.MsgBuffer) (ms : list imsg).
Hypothesis Hring : ring c (x :: q).

(** The state after [checkStatus]. *)
Let checked : connState :=
  mkState (sending x.2) (messageChan x.2) (closed x.2) [] (failed x.2 ++ failures (feedbackChan x.2))
    (connected x.2).

Lemma prepareNext_start :
  ∃ c1, ring c1 ((x.1, checked) :: q) ∧
  prepareNext c buffer =
    let fb := feedbackChan x.2 in
    let finish (c2 : connectionPool) :=
      if existsb is_success fb then c3 ← on_conn c2 (Some x.1) flushFailed; Val (None, c3)
      else Val (None, c2) in
    if decide (highWaterMark ≤ length (failed checked)) then
      c2 ← deleteNext c1; Val (Some errRemoving, c2)
    else match failures fb with
         | [] => if existsb is_disconnect fb then
                   c2 ← deleteNext c1; Val (Some errRequested, c2)
                 else if existsb is_replay fb then c2 ← replayNext c1 buffer; finish c2
                 else finish c1
         | _ => finish c1
         end.
Proof.
  destruct (ring_facts c x q Hring) as (a & _ & _ & _ & Hx & _).
  destruct (on_conn_ring c x q (λ _, checked) Hring) as (c1 & Hon & Hr1).
  exists c1. split; [done|]. unfold prepareNext. rewrite (peek_ring c x q Hring).
  cbn [mbind outcome_bind]. rewrite (deref_some _ _ _ Hx). cbn [mbind outcome_bind state].
  unfold checkStatus. rewrite drain_spec. cbv zeta. cbn [failed HadSuccess WantsReplay WantsDisconnect].
  rewrite !orb_false_l. fold checked. rewrite Hon. cbn [mbind outcome_bind].
  change (failed checked) with (failed x.2 ++ failures (feedbackChan x.2)).
  case_decide.
  - cbn [Error HadSuccess]. by rewrite decide_True by done.
  - cbn [Error HadSuccess WantsReplay WantsDisconnect].
    destruct (failures (feedbackChan x.2)) as [|m fs]; cbn [Error]; [done|].
    rewrite decide_False by done. done.
Qed.

Lemma prepareNext_keep :
  keeps x.2 = true → MsgBuffer.Iter_run buffer = Val ms →
  ∃ c', prepareNext c buffer = Val (None, c') ∧ ring c' ((x.1, prepared ms x.2) :: q).
Proof.
  intros Hk Hms. destruct prepareNext_start as (c1 & Hr1 & ->). cbv zeta.
  unfold keeps in Hk. cbv zeta in Hk. unfold prepared. cbv zeta.
  change (failed checked) with (failed x.2 ++ failures (feedbackChan x.2)).
  destruct (decide (highWaterMark ≤ _)); [done|].
  assert (∀ s c2, ring c2 ((x.1, s) :: q) →
    ∃ c', (if existsb is_success (feedbackChan x.2)
           then c3 ← on_conn c2 (Some x.1) flushFailed; Val (@None error, c3)
           else Val (None, c2)) = Val (None, c') ∧
          ring c' ((x.1, if existsb is_success (feedbackChan x.2) then flushFailed s else s) :: q))
    as Hfinish.
  { intros s c2 Hr2. destruct (existsb is_success _); [|by eauto].
    destruct (on_conn_ring c2 (x.1, s) q flushFailed Hr2) as (c3 & E & Hr3). simpl in *.
    rewrite E. run. eauto. }
  destruct (failures (feedbackChan x.2)) as [|m fs]; [|by apply Hfinish].
  apply negb_true_iff in Hk. rewrite Hk.
  destruct (existsb is_replay (feedbackChan x.2)); [|by apply Hfinish].
  unfold replayNext. rewrite (peek_ring _ _ _ Hr1), Hms. run.
  destruct (on_conn_ring c1 _ q (λ s, send_list s ms) Hr1) as (c2 & E & Hr2). simpl in *.
  rewrite E. by apply Hfinish.
Qed.

Lemma prepareNext_drop :
  keeps x.2 = false → closed x.2 = false →
  ∃ e c' s, prepareNext c buffer = Val (Some e, c') ∧ ring c' q ∧
            conns c' !! (x.1) = Some (mkConn x.1 (Some (succ_id q x.1)) s).
Proof.
  intros Hk Hcl. destruct prepareNext_start as (c1 & Hr1 & ->). cbv zeta.
  unfold keeps in Hk. cbv zeta in Hk.
  change (failed checked) with (failed x.2 ++ failures (feedbackChan x.2)).
  destruct (deleteNext_ring c1 _ q Hr1 Hcl) as (c2 & s & E & Hr2 & Hs).
  destruct (decide (highWaterMark ≤ _)); [rewrite E; run; eauto 7|].
  destruct (failures (feedbackChan x.2)); [|done].
  apply negb_false_iff in Hk. rewrite Hk, E. run. eauto 7.
Qed.

End PrepareNext.

Lemma prepareNext_empty c buffer : ring c [] → prepareNext c buffer = Panic NilDeref.
Proof. intros Hr. unfold prepareNext, peek. by rewrite (ring_empty c Hr). Qed.
