(* ===== verification/MessageBus.v ===== *)
(** * The message bus: foundation/bus/bus/messagebus.go

    One turn of the bus goroutine, [handle], takes a message, readies the next
    connection, goes around the ring and stores the message in the replay
    buffer.  [ready] and [walk] say the same on the list of connections;
    [handle] is shown to implement them, to end, and to hand the message exactly once to
    every connection that stays in the ring. *)

From S2P Require Import Prelude.
From S2P Require Import Message.
From S2P Require MsgBuffer.
From S2P Require Import PodConn.
From S2P Require Import Pool.

Record messageBus : Type := mkBus {
  busChan : list Message;
  pool : connectionPool;
  buffer : MsgBuffer.MsgBuffer
}.

Definition defaultBusChanSize : nat := 256.
Definition defaultBufferSize : Z := 128.

Definition newMessageBus : messageBus :=
  mkBus [] newConnectionPool (MsgBuffer.NewMsgBuffer defaultBufferSize).

Definition addPod (b : messageBus) : outcome messageBus :=
  p ← pool_insert (pool b);
  Val (mkBus (busChan b) p (buffer b)).

(** One turn of the loop of [traverse]: the start ID, the connection that gets
    the message, the pool. *)
Definition traverse_turn (buf : MsgBuffer.MsgBuffer) (msg : Message)
    (s : Z * option Z * connectionPool) : outcome (Z * option Z * Z * connectionPool) :=
  let '(startID, conn, p) := s in
  p1 ← on_conn p conn (λ c, send c (Some msg));
  nxt ← peek p1;
  '(err, p2) ← prepareNext p1 buf;
  startID1 ← match err with
             | Some _ =>
                 n ← deref (conns p2) nxt;
                 if decide (startID = ID n) then nn ← deref (conns p2) (next n); Val (ID nn)
                 else Val startID
             | None => Val startID
             end;
  '(conn1, p3) ← pool_next p2;
  c ← deref (conns p3) conn1;
  Val (startID1, conn1, ID c, p3).

Definition traverse_body (buf : MsgBuffer.MsgBuffer) (msg : Message)
    (s : Z * option Z * connectionPool) :
    (Z * option Z * connectionPool) + outcome connectionPool :=
  match traverse_turn buf msg s with
  | Panic e => inr (Panic e)
  | Val (startID, conn, id, p) =>
      if decide (startID = id) then inr (Val p) else inl (startID, conn, p)
  end.

Definition traverse (fuel : nat) (buf : MsgBuffer.MsgBuffer) (p : connectionPool) (msg : Message)
    (start : option Z) : option (outcome connectionPool) :=
  match deref (conns p) start with
  | Panic e => Some (Panic e)
  | Val c => loop fuel (traverse_body buf msg) (ID c, start, p)
  end.

(** The loop that readies the next connection. *)
Definition ready_body (buf : MsgBuffer.MsgBuffer) (p : connectionPool) :
    connectionPool + outcome connectionPool :=
  match prepareNext p buf with
  | Panic e => inr (Panic e)
  | Val (None, p1) => inr (Val p1)
  | Val (Some _, p1) => inl p1
  end.

(** One turn of the bus goroutine on a message taken from the bus channel. *)
Definition handle (fuel : nat) (b : messageBus) (msg : Message) : option (outcome messageBus) :=
  match loop fuel (ready_body (buffer b)) (pool b) with
  | None => None
  | Some (Panic e) => Some (Panic e)
  | Some (Val p1) =>
      match pool_next p1 with
      | Panic e => Some (Panic e)
      | Val (startingConn, p2) =>
          match traverse fuel (buffer b) p2 msg startingConn with
          | None => None
          | Some r => Some (p3 ← r;
                            buf ← MsgBuffer.Push (buffer b) msg;
                            Val (mkBus (busChan b) p3 buf))
          end
      end
  end.

(** ** The same on lists *)

Section Visit.
Context (ms : list imsg) (msg : Message).

Definition deliver (x : Z * connState) : Z * connState := (x.1, send x.2 (Some msg)).
Definition prepare (x : Z * connState) : Z * connState := (x.1, prepared ms x.2).

(** Drop connections up to one that is ready. *)
Fixpoint ready (q : list (Z * connState)) : list (Z * connState) :=
  match q with
  | [] => []
  | x :: q => if keeps x.2 then prepare x :: q else ready q
  end.

(** The connections behind the start.  After one is dropped, the one behind it
    gets the message without a check ([forced]).  The second component says
    whether the status of the start is checked at the end of the round. *)
Fixpoint walk (forced : bool) (todo : list (Z * connState)) : list (Z * connState) * bool :=
  match todo with
  | [] => ([], negb forced)
  | x :: todo =>
      if forced then let '(k, e) := walk false todo in (deliver x :: k, e)
      else if keeps x.2 then let '(k, e) := walk false todo in (deliver (prepare x) :: k, e)
      else walk true todo
  end.

(** The end of a round over [a :: rest]: the new ring, or a panic when the last
    connection was dropped. *)
Definition round_end (l : list (Z * connState)) (check : bool) : outcome (list (Z * connState)) :=
  match l with
  | [] => Panic NilDeref
  | a :: rest =>
      if check then
        if keeps a.2 then Val (rest ++ [prepare a])
        else match rest with [] => Panic NilDeref | y :: r => Val (r ++ [y]) end
      else Val (rest ++ [a])
  end.

End Visit.

Definition all_open (q : list (Z * connState)) : Prop := Forall (λ x, closed x.2 = false) q.

Section Refinement.
Context (buf : MsgBuffer.MsgBuffer) (ms : list imsg) (msg : Message).
Hypothesis Hms : MsgBuffer.Iter_run buf = Val ms.

(** The first loop drops connections until one is ready. *)
Lemma ready_loop p q fuel :
  ring p q → all_open q → length q < fuel →
  match ready ms q with
  | [] => loop fuel (ready_body buf) p = Some (Panic NilDeref)
  | q' => ∃ p', loop fuel (ready_body buf) p = Some (Val p') ∧ ring p' q'
  end.
Proof.
  revert p q. induction fuel as [|fuel IH]; intros p q Hr Ho Hf; [lia|].
  destruct q as [|x q]; simpl.
  - unfold ready_body. by rewrite prepareNext_empty.
  - apply Forall_cons in Ho as [Hx Ho]. simpl in Hf. destruct (keeps x.2) eqn:Hk.
    + destruct (prepareNext_keep p x q buf ms Hr Hk Hms) as (p' & E & Hr').
      exists p'. unfold ready_body at 1. by rewrite E.
    + destruct (prepareNext_drop p x q buf Hr Hk Hx) as (e & p' & s & E & Hr' & _).
      assert (ready_body buf p = inl p') as -> by (unfold ready_body; by rewrite E).
      apply IH; [done..|lia].
Qed.

Lemma turn_keep p x q c sid :
  ring p (x :: q ++ [c]) → keeps x.2 = true →
  ∃ p', traverse_turn buf msg (sid, Some c.1, p) = Val (sid, Some x.1, x.1, p') ∧
        ring p' (q ++ [deliver msg c; prepare ms x]).
Proof.
  intros Hr Hk. unfold traverse_turn. rewrite (app_comm_cons q) in Hr.
  destruct (on_conn_ring_last p c _ (λ s, send s (Some msg)) Hr) as (p1 & -> & Hr1).
  run. rewrite (peek_ring _ _ _ Hr1). run.
  destruct (prepareNext_keep p1 _ _ buf ms Hr1 Hk Hms) as (p2 & -> & Hr2). run.
  destruct (pool_next_ring p2 _ _ Hr2) as (p3 & -> & Hr3). run.
  destruct (ring_last_deref p3 _ _ Hr3) as (n & En). simpl in En.
  rewrite <- app_assoc in Hr3. simpl in Hr3. rewrite En. simpl. eauto.
Qed.

Lemma turn_drop p x q c sid y r :
  ring p (x :: q ++ [c]) → keeps x.2 = false → closed x.2 = false →
  q ++ [deliver msg c] = y :: r →
  ∃ p', traverse_turn buf msg (sid, Some c.1, p) =
          Val (if decide (sid = x.1) then y.1 else sid, Some y.1, y.1, p') ∧
        ring p' (r ++ [y]).
Proof.
  intros Hr Hk Hx Hq. unfold traverse_turn. rewrite (app_comm_cons q) in Hr.
  destruct (on_conn_ring_last p c _ (λ s, send s (Some msg)) Hr) as (p1 & -> & Hr1).
  run. rewrite (peek_ring _ _ _ Hr1). run. change (c.1, send c.2 (Some msg)) with (deliver msg c) in Hr1.
  rewrite Hq in Hr1.
  destruct (prepareNext_drop p1 _ _ buf Hr1 Hk Hx) as (e & p2 & s & -> & Hr2 & Hs). run.
  rewrite Hs. run. destruct (pool_next_ring p2 _ _ Hr2) as (p3 & -> & Hr3).
  destruct (ring_facts p2 y r Hr2) as (_ & _ & _ & _ & Ey & _).
  destruct (ring_last_deref p3 r y Hr3) as (n & En).
  case_decide; run; rewrite ?Ey; simpl; rewrite En; simpl; eauto.
Qed.

Lemma turn_alone p c sid :
  ring p [c] → closed c.2 = false →
  if keeps c.2 then
    ∃ p', traverse_turn buf msg (sid, Some c.1, p) = Val (sid, Some c.1, c.1, p') ∧
          ring p' [prepare ms (deliver msg c)]
  else traverse_turn buf msg (c.1, Some c.1, p) = Panic NilDeref.
Proof.
  intros Hr Hc. destruct (on_conn_ring p c [] (λ s, send s (Some msg)) Hr) as (p1 & E1 & Hr1).
  destruct (keeps c.2) eqn:Hk.
  - unfold traverse_turn. rewrite E1. run. rewrite (peek_ring _ _ _ Hr1). run.
    destruct (prepareNext_keep p1 _ _ buf ms Hr1 Hk Hms) as (p2 & -> & Hr2). run.
    destruct (pool_next_ring p2 _ _ Hr2) as (p3 & -> & Hr3). run.
    destruct (ring_facts p3 _ [] Hr3) as (_ & _ & _ & _ & Ey & _). simpl in *. rewrite Ey. simpl. eauto.
  - unfold traverse_turn. rewrite E1. run. rewrite (peek_ring _ _ _ Hr1). run.
    destruct (prepareNext_drop p1 _ _ buf Hr1 Hk Hc) as (e & p2 & s & -> & Hr2 & Hs). run.
    rewrite Hs. run. rewrite decide_True by done. rewrite Hs. run.
    unfold pool_next. by rewrite (ring_empty p2 Hr2).
Qed.

(** [r] is the outcome of the loop of [traverse] for the abstract outcome [o]. *)
Definition round_result (r : option (outcome connectionPool)) (o : outcome (list (Z * connState))) :
    Prop :=
  match o with
  | Val q => ∃ p, r = Some (Val p) ∧ ring p q
  | Panic e => r = Some (Panic e)
  end.

Lemma head_fst_elem {B} (l : list (Z * B)) i : fst <$> head l = Some i → i ∈ l.*1.
Proof. destruct l; simpl; [done|]. intros [= <-]. set_solver. Qed.

Lemma open_deliver q c : all_open (q ++ [c]) → all_open (q ++ [deliver msg c]).
Proof.
  intros [Hq Hc]%Forall_app. apply Forall_app. split; [done|].
  apply Forall_cons in Hc as [Hc _]. by constructor.
Qed.

Lemma open_parts t v c z :
  all_open t → all_open (v ++ [c]) → closed z.2 = false → all_open (t ++ v ++ [c] ++ [z]).
Proof.
  intros Ht Hv Hz. apply Forall_app. split; [done|]. rewrite app_assoc.
  apply Forall_app. split; [done|by constructor].
Qed.

Lemma head_deliver q c l : fst <$> head (q ++ [c]) = fst <$> head (q ++ deliver msg c :: l).
Proof. by destruct q. Qed.

(** The end of the round: only the start is left to be checked. *)
Lemma traverse_last visited c p fuel sid :
  ring p (visited ++ [c]) → all_open (visited ++ [c]) →
  fst <$> head (visited ++ [c]) = Some sid →
  round_result (loop (S fuel) (traverse_body buf msg) (sid, Some c.1, p))
    (round_end ms (visited ++ [deliver msg c]) true).
Proof.
  intros Hr Ho Hsid. cbn [loop].
  destruct visited as [|v vs]; simpl in Hsid; injection Hsid as <-.
  - apply Forall_cons in Ho as [Ho _]. pose proof (turn_alone p c c.1 Hr Ho) as Ht.
    simpl. change (keeps (send c.2 (Some msg))) with (keeps c.2).
    unfold traverse_body at 1. destruct (keeps c.2); [|by rewrite Ht].
    destruct Ht as (p' & -> & Hr'). rewrite decide_True by done. simpl. eauto.
  - simpl. apply Forall_cons in Ho as [Hv Ho]. destruct (keeps v.2) eqn:Hk.
    + destruct (turn_keep p v vs c v.1 Hr Hk) as (p' & E & Hr').
      unfold traverse_body at 1. rewrite E, decide_True by done. simpl.
      rewrite <- app_assoc. eauto.
    + destruct (vs ++ [deliver msg c]) as [|y r] eqn:Hq; [by destruct vs|].
      destruct (turn_drop p v vs c v.1 y r Hr Hk Hv Hq) as (p' & E & Hr').
      unfold traverse_body at 1. rewrite E, (decide_True (P := v.1 = v.1)), decide_True by done.
      simpl. eauto.
Qed.

Lemma traverse_loop n todo visited c p fuel sid :
  length todo < n → n ≤ fuel →
  ring p (todo ++ visited ++ [c]) → all_open (todo ++ visited ++ [c]) →
  fst <$> head (visited ++ [c]) = Some sid →
  let '(k, e) := walk ms msg false todo in
  round_result (loop fuel (traverse_body buf msg) (sid, Some c.1, p))
    (round_end ms (visited ++ [deliver msg c] ++ k) e).
Proof.
  revert todo visited c p fuel sid.
  induction n as [|n IH]; intros todo visited c p fuel sid Hn Hfuel Hr Ho Hsid; [lia|].
  destruct fuel as [|fuel]; [lia|].
  destruct todo as [|x t]; simpl walk; [by apply traverse_last|]. cbn [loop].
  assert (sid ≠ x.1 ∧ ∀ y, y ∈ t → sid ≠ y.1) as [Hfresh Hfresh'].
  { apply head_fst_elem in Hsid. destruct Hr as (Hnd & _). rewrite fmap_app in Hnd.
    apply NoDup_app in Hnd as (_ & Hnd & _). simpl in Hnd.
    split; [|intros y Hy%(list_elem_of_fmap_2 fst)]; intros ->; eapply Hnd; try exact Hsid; set_solver. }
  apply Forall_app in Ho as [[Hx Ht]%Forall_cons Ho].
  pose proof (open_deliver _ _ Ho) as Hov. simpl in Hn, Hr. rewrite app_assoc in Hr.
  destruct (keeps x.2) eqn:Hk.
  - destruct (turn_keep p x _ c sid Hr Hk) as (p' & E & Hr').
    unfold traverse_body at 1. rewrite E, decide_False by done.
    specialize (IH t (visited ++ [deliver msg c]) (prepare ms x) p' fuel sid).
    destruct (walk ms msg false t) as [k e]. rewrite <- !app_assoc in *. apply IH; [lia|lia|done| |].
    + apply open_parts; [done..|]. simpl. by rewrite prepared_closed.
    + simpl. by rewrite <- head_deliver.
  - destruct ((t ++ visited) ++ [deliver msg c]) as [|y r] eqn:Hq; [by destruct (t ++ visited)|].
    destruct (turn_drop p x _ c sid y r Hr Hk Hx Hq) as (p' & E & Hr').
    unfold traverse_body at 1. rewrite E, (decide_False (P := sid = x.1)) by done.
    destruct t as [|z t]; simpl in Hq.
    + rewrite (head_deliver visited c []), Hq in Hsid. injection Hsid as <-. rewrite decide_True by done.
      simpl. rewrite Hq. simpl. eauto.
    + injection Hq as <- <-. rewrite decide_False by (apply Hfresh'; set_solver).
      simpl. specialize (IH t (visited ++ [deliver msg c]) z p' fuel sid).
      destruct (walk ms msg false t) as [k e]. rewrite <- !app_assoc in *. simpl in *.
      apply Forall_cons in Ht as [Hz Ht]. apply IH; [lia|lia|done| |].
      * by apply open_parts.
      * by rewrite <- head_deliver.
Qed.

(** ** A turn of the bus *)

Lemma keeps_prepared s : keeps s = true → keeps (send (prepared ms s) (Some msg)) = true.
Proof.
  unfold keeps, prepared. cbv zeta. intros Hk.
  destruct (decide (highWaterMark ≤ length (failed s ++ failures (feedbackChan s)))) as [|Hlt]; [done|].
  assert (∀ s', feedbackChan s' = [] → length (failed s') < highWaterMark →
    keeps (send s' (Some msg)) = true) as Hgen.
  { intros s' Hfb Hf. unfold keeps; simpl. rewrite Hfb, app_nil_r. rewrite decide_False by lia. done. }
  apply Hgen; destruct (failures (feedbackChan s)), (existsb is_replay (feedbackChan s)),
    (existsb is_success (feedbackChan s)); unfold flushFailed; rewrite ?send_list_sending; simpl;
    try case_decide; simpl in *; unfold highWaterMark in *; try done; lia.
Qed.

Lemma prepared_feedback s : feedbackChan (prepared ms s) = [].
Proof.
  unfold prepared. cbv zeta.
  destruct (failures (feedbackChan s)), (existsb is_replay (feedbackChan s)),
    (existsb is_success (feedbackChan s)); unfold flushFailed; rewrite ?send_list_sending; simpl;
    by try case_decide.
Qed.

Lemma prepare_idle x : feedbackChan x.2 = [] → prepare ms x = x.
Proof.
  destruct x as [i [sd mc cl fb fl co]]. simpl. intros ->. unfold prepare, prepared. simpl.
  by rewrite app_nil_r.
Qed.

(** The start was readied just before, so it stays. *)
Lemma traverse_start p a todo fuel :
  ring p (todo ++ [a]) → all_open (todo ++ [a]) → keeps (send a.2 (Some msg)) = true →
  feedbackChan a.2 = [] → length todo < fuel →
  ∃ p', traverse fuel buf p msg (Some a.1) = Some (Val p') ∧
        ring p' ((walk ms msg false todo).1 ++ [deliver msg a]).
Proof.
  intros Hr Ho Hk Hfb Hf. unfold traverse.
  destruct (ring_last_deref p todo a Hr) as (n & En). rewrite (deref_some _ _ _ En). simpl ID.
  pose proof (traverse_loop (S (length todo)) todo [] a p fuel a.1) as Hloop.
  destruct (walk ms msg false todo) as [k e].
  specialize (Hloop ltac:(lia) ltac:(lia) Hr Ho eq_refl). simpl in Hloop. rewrite Hk in Hloop.
  rewrite prepare_idle in Hloop by done. by destruct e.
Qed.

End Refinement.

Section Handle.
Context (b : messageBus) (msg : Message) (q : list (Z * connState)).
Hypothesis Hring : ring (pool b) q.
Hypothesis Hopen : all_open q.
Hypothesis Hbuf : MsgBuffer.cursor_ok (buffer b).

Let ms : list imsg := MsgBuffer.contents (buffer b).

Lemma ready_head q0 a todo :
  ready ms q0 = a :: todo →
  ∃ q1 x, q0 = q1 ++ x :: todo ∧ keeps x.2 = true ∧ a = prepare ms x ∧
          Forall (λ y, keeps y.2 = false) q1.
Proof.
  induction q0 as [|x q0 IH]; simpl; [done|]. destruct (keeps x.2) eqn:Hk.
  - intros [= <- <-]. exists [], x. by repeat split.
  - intros (q1 & y & -> & Hy & -> & Hq1)%IH. exists (x :: q1), y. repeat split; [done|].
    by constructor.
Qed.

(** The turn of the bus implements [ready] and [walk]. *)
Lemma handle_spec fuel :
  length q < fuel →
  match ready ms q with
  | [] => handle fuel b msg = Some (Panic NilDeref)
  | a :: todo =>
      ∃ b', handle fuel b msg = Some (Val b') ∧
            ring (pool b') ((walk ms msg false todo).1 ++ [deliver msg a]) ∧
            MsgBuffer.Push (buffer b) msg = Val (buffer b') ∧ MsgBuffer.cursor_ok (buffer b')
  end.
Proof.
  intros Hf. unfold handle. pose proof (MsgBuffer.Iter_run_cursor _ Hbuf) as Hiter.
  pose proof (ready_loop (buffer b) ms Hiter (pool b) q fuel Hring Hopen Hf) as Hready.
  destruct (ready ms q) as [|a todo] eqn:Er; [by rewrite Hready|].
  destruct Hready as (p1 & -> & Hr1). destruct (pool_next_ring p1 a todo Hr1) as (p2 & -> & Hr2).
  destruct (ready_head q a todo Er) as (q1 & x & Hq & Hk & -> & _).
  assert (all_open (todo ++ [prepare ms x])) as Ho.
  { unfold all_open in *. rewrite Hq in Hopen. apply Forall_app in Hopen as [_ [Hx Ht]%Forall_cons].
    apply Forall_app. split; [done|]. constructor; [|done]. simpl. by rewrite prepared_closed. }
  destruct (traverse_start (buffer b) ms msg Hiter p2 (prepare ms x) todo fuel)
    as (p3 & E3 & Hr3); [done|done| | | |].
  - by apply keeps_prepared.
  - apply prepared_feedback.
  - rewrite Hq, length_app in Hf. simpl in Hf. lia.
  - rewrite E3. destruct (MsgBuffer.Push_cursor (buffer b) msg Hbuf) as (buf & -> & _ & Hb).
    run. eauto.
Qed.

(** Every connection of the walk comes from one before it, with the message
    appended; those that are ready are all there. *)
Lemma walk_from forced todo y :
  y ∈ (walk ms msg forced todo).1 →
  ∃ x, x ∈ todo ∧ (y = deliver msg x ∨ y = deliver msg (prepare ms x)).
Proof.
  revert forced. induction todo as [|x todo IH]; intros forced; simpl; [set_solver|].
  destruct forced; [|destruct (keeps x.2)].
  1,2: specialize (IH false); destruct (walk ms msg false todo) as [k e]; simpl in *;
    intros [->|(z & ? & ?)%IH]%elem_of_cons; [exists x|exists z]; set_solver.
  intros (z & ? & ?)%IH. exists z. set_solver.
Qed.

Lemma walk_ready forced todo x :
  x ∈ todo → keeps x.2 = true → x.1 ∈ (walk ms msg forced todo).1.*1.
Proof.
  revert forced. induction todo as [|z todo IH]; intros forced Hx Hk; simpl; [set_solver|].
  apply elem_of_cons in Hx as [<-|Hx]; simpl.
  - rewrite Hk. destruct forced, (walk ms msg false todo); set_solver.
  - specialize (λ f, IH f Hx Hk). destruct forced; [|destruct (keeps z.2)]; [..|by apply IH].
    all: specialize (IH false); destruct (walk ms msg false todo); set_solver.
Qed.

Lemma all_open_from q' :
  (∀ y, y ∈ q' → ∃ x, x ∈ q ∧ (y = deliver msg x ∨ y = deliver msg (prepare ms x))) →
  all_open q'.
Proof.
  intros H. apply Forall_forall. intros y (x & Hx & Hy)%H.
  pose proof (proj1 (Forall_forall _ _) Hopen x Hx) as Hc. destruct Hy as [-> | ->]; simpl; [done|].
  by rewrite prepared_closed.
Qed.

(** The turn on a ring of connections one of which is healthy, the shape of
    the theorem below. *)
Lemma handle_healthy fuel :
  length q < fuel → Exists (λ x, keeps x.2 = true) q →
  ∃ b' q', handle fuel b msg = Some (Val b') ∧ ring (pool b') q' ∧ all_open q' ∧
    (∀ y, y ∈ q' → ∃ x, x ∈ q ∧ (y = deliver msg x ∨ y = deliver msg (prepare ms x))) ∧
    (∀ x, x ∈ q → keeps x.2 = true → x.1 ∈ q'.*1) ∧
    MsgBuffer.Push (buffer b) msg = Val (buffer b') ∧ MsgBuffer.cursor_ok (buffer b').
Proof.
  intros Hf Hex. pose proof (handle_spec fuel Hf) as Hh.
  destruct (ready ms q) as [|a todo] eqn:Er.
  { exfalso. clear -Hex Er. induction Hex; simpl in Er; destruct (keeps _); simplify_eq; auto. }
  destruct (ready_head q a todo Er) as (q1 & x & Hq & Hk & Ha & Hq1).
  destruct Hh as (b' & E & Hr & Hp & Hb). exists b', ((walk ms msg false todo).1 ++ [deliver msg a]).
  assert (∀ y, y ∈ (walk ms msg false todo).1 ++ [deliver msg a] →
    ∃ x, x ∈ q ∧ (y = deliver msg x ∨ y = deliver msg (prepare ms x))) as Hfrom.
  { intros y [(z & ? & ?)%walk_from| ->%list_elem_of_singleton]%elem_of_app.
    - exists z. rewrite Hq. set_solver.
    - exists x. rewrite Hq, Ha. set_solver. }
  do 3 (split; [done||by apply all_open_from|]). split; [done|]. split; [|by split].
  intros z Hz Hkz. rewrite fmap_app, elem_of_app. rewrite Hq in Hz.
  apply elem_of_app in Hz as [Hz|[->|Hz]%elem_of_cons].
  - rewrite Forall_forall in Hq1. apply Hq1 in Hz. congruence.
  - right. rewrite Ha. set_solver.
  - left. by apply walk_ready.
Qed.

(** When no connection of the ring is healthy, the turn empties it and panics. *)
Theorem bus_panics_when_emptied fuel :
  length q < fuel → Forall (λ x, keeps x.2 = false) q →
  handle fuel b msg = Some (Panic NilDeref).
Proof.
  intros Hf Hall. pose proof (handle_spec fuel Hf) as Hh.
  assert (ready ms q = []) as E; [|by rewrite E in Hh].
  clear -Hall. induction Hall as [|x l Hx _ IH]; simpl; [done|]. by rewrite Hx.
Qed.

End Handle.

(** C3: One turn of the bus goroutine on any message, from a bus whose connections
    form a ring with open channels, one of them still healthy, and whose replay
    buffer has its start index within it, ends and keeps all of this: every
    connection left in the ring was in it before and was handed the message
    exactly once, no healthy connection is lost, and the message was pushed to the
    replay buffer, which appends it when its UUID is not that of a buffered
    message (a message that comes around again overwrites its UUID). *)
Theorem bus_delivers_once b msg q fuel :
  ring (pool b) q → all_open q → MsgBuffer.cursor_ok (buffer b) →
  length q < fuel → Exists (λ x, keeps x.2 = true) q →
  let ms := MsgBuffer.contents (buffer b) in
  ∃ b' q', handle fuel b msg = Some (Val b') ∧ ring (pool b') q' ∧ all_open q' ∧
    MsgBuffer.cursor_ok (buffer b') ∧
    (∀ y, y ∈ q' → ∃ x, x ∈ q ∧ (y = deliver msg x ∨ y = deliver msg (prepare ms x))) ∧
    (∀ x, x ∈ q → keeps x.2 = true → x.1 ∈ q'.*1) ∧
    MsgBuffer.Push (buffer b) msg = Val (buffer b') ∧
    (∀ bm, MsgBuffer.buffered (buffer b) bm → UUID msg ∉ UUID <$> bm →
       MsgBuffer.buffered (buffer b') (MsgBuffer.queue_push (MsgBuffer.limit (buffer b)) bm msg)).
Proof.
  intros Hr Ho Hb Hf Hex ms.
  destruct (handle_healthy b msg q Hr Ho Hb fuel Hf Hex) as (b' & q' & Hh & Hr' & Ho' & Hy & Hx & Hp & Hb').
  exists b', q'. do 7 (split; [done|]). intros bm Hbm Hfresh.
  destruct (MsgBuffer.push_buffered (buffer b) bm msg Hbm Hfresh) as (buf & Hp' & _ & Hbuf).
  rewrite Hp in Hp'. injection Hp' as ->. done.
Qed.

(** ** Examples *)

(** A bus with one pod. *)
Lemma ring_one : ring (mkPool {[1%Z := mkConn 1 (Some 1%Z) newConnState]} (Some 1%Z) 1) [(1%Z, newConnState)].
Proof.
  split; [apply NoDup_singleton|]. split; [by repeat constructor|]. split; [done|].
  apply lookup_singleton_eq.
Qed.

Lemma bus_delivers_once_witness :
  ∃ b b' q', addPod newMessageBus = Val b ∧
    handle 2 b (MsgBuffer.example_msg "a") = Some (Val b') ∧ ring (pool b') q' ∧ 1%Z ∈ q'.*1 ∧
    MsgBuffer.buffered (buffer b') [MsgBuffer.example_msg "a"].
Proof.
  destruct (bus_delivers_once
    (mkBus [] (mkPool {[1%Z := mkConn 1 (Some 1%Z) newConnState]} (Some 1%Z) 1)
       (MsgBuffer.NewMsgBuffer defaultBufferSize))
    (MsgBuffer.example_msg "a") [(1%Z, newConnState)] 2 ring_one
    ltac:(by repeat constructor) ltac:(by apply MsgBuffer.cursor_ok_new)
    ltac:(simpl; lia) ltac:(by repeat constructor)) as (b' & q' & Hh & Hr & _ & _ & _ & Hin & _ & Hb).
  eexists _, b', q'. split; [done|]. split; [exact Hh|]. split; [done|]. split.
  - apply (Hin (1%Z, newConnState)); [set_solver|done].
  - apply (Hb []); [by apply MsgBuffer.buffered_new|set_solver].
Defined.
