(* ===== verification/Pod.v ===== *)
(** * Pods: foundation/bus/bus/pod.go, receipt.go, bus.go (connectWithOpts)

    The pod's end of a connection.  [Pod] holds what the methods read and
    write; a method that can block on a full channel returns [None] then.
    Messages are handled in goroutines that share a read-write lock with
    [On], [OnType] and [WaitUntil], so those are the step relation [pod_step]
    at the end of the file. *)

From S2P Require Import Prelude.
From S2P Require Import Message.
From S2P Require Import PodConn.
From S2P Require Import MessageBus.

Definition ErrMsgNotWanted : error := ErrNew "message not wanted".
Definition ErrWaitTimeout : error := ErrNew "waited past timeout".

(** The functions a pod calls: one given by the pod's owner, or the closure
    that [WaitUntil] makes around one. *)
Inductive MsgFunc : Type :=
| OwnerFunc (f : Message → option error)
| WaitFunc (f : Message → option error).

Record podOpts : Type := mkPodOpts { opt_WantsReplay : bool; replayOnce : bool }.

Record Pod : Type := mkPod {
  onFunc : option MsgFunc;
  podFilter : messageFilter;
  opts : podOpts;
  dead : bool;
  feedbackOut : list feedback
}.

(** [newPod] with the bus's [Connect] or [ConnectWithReplay]. *)
Definition newPod (wantsReplay : bool) : Pod :=
  mkPod None newMessageFilter (mkPodOpts wantsReplay false) false [].

Definition connectWithOpts (b : messageBus) (wantsReplay : bool) : outcome (Pod * messageBus) :=
  b' ← addPod b; Val (newPod wantsReplay, b').

Record MsgReceipt : Type := mkReceipt { receipt_UUID : string }.

(** [p.feedbackChan <- f] *)
Definition feed (p : Pod) (f : feedback) : option Pod :=
  if decide (length (feedbackOut p) < defaultPodChanSize)
  then Some (mkPod (onFunc p) (podFilter p) (opts p) (dead p) (feedbackOut p ++ [f])) else None.

(** [Send] on a pod of the bus with channel [busChan]. *)
Definition Send (p : Pod) (chan : list Message) (msg : Message) :
    option (option MsgReceipt * Pod * list Message) :=
  if dead p then Some (None, p, chan)
  else
    let p1 := mkPod (onFunc p) (FilterUUID (podFilter p) (UUID msg) false) (opts p) (dead p)
                (feedbackOut p) in
    if decide (length chan < defaultBusChanSize)
    then Some (Some (mkReceipt (UUID msg)), p1, chan ++ [msg]) else None.

(** [ReplyTo]: the message is a pointer, so the caller's message changes too. *)
Definition PodReplyTo (p : Pod) (chan : list Message) (inReplyTo msg : Message) :
    option (option MsgReceipt * Pod * list Message) :=
  Send p chan (SetReplyTo msg (UUID inReplyTo)).

Definition setOnFunc (p : Pod) (on : option MsgFunc) : option Pod :=
  let p1 := mkPod on newMessageFilter (opts p) (dead p) (feedbackOut p) in
  match on with
  | None => Some p1
  | Some _ =>
      if replayOnce (opts p) then Some p1
      else
        let p2 := mkPod on newMessageFilter (mkPodOpts (opt_WantsReplay (opts p)) true) (dead p)
                    (feedbackOut p) in
        if opt_WantsReplay (opts p) then feed p2 podFeedbackMsgReplay else Some p2
  end.

(** [On] and [OnType], under the lock. *)
Definition On (p : Pod) (f : option MsgFunc) : option Pod := setOnFunc p f.

Definition OnType (p : Pod) (msgType : string) (f : option MsgFunc) : option Pod :=
  p1 ← setOnFunc p f;
  Some (mkPod (onFunc p1) (setTypeInclusive (FilterType (podFilter p1) msgType true) false) (opts p1)
          (dead p1) (feedbackOut p1)).

Definition Disconnect (p : Pod) : option Pod :=
  feed (mkPod (onFunc p) (podFilter p) (opts p) true (feedbackOut p)) podFeedbackMsgDisconnect.

(** The closure that [waitOnReply] passes to [WaitUntil]. *)
Definition replyFilter (ticket : MsgReceipt) (msg : Message) : option error :=
  if decide (ReplyTo msg ≠ receipt_UUID ticket) then Some ErrMsgNotWanted else None.

(** What the goroutine of a message does once it holds the read lock: end, end
    with some feedback, or block on the error channel of [WaitUntil]. *)
Inductive handling : Type :=
| Ignored
| Reported (f : feedback)
| Sending (e : option error).

Definition handleMsg (p : Pod) (msg : Message) : handling :=
  match onFunc p with
  | None => Ignored
  | Some fn =>
      if allow (podFilter p) msg then
        match fn with
        | OwnerFunc f =>
            match f msg with
            | Some _ => Reported (FailedMsg (Some msg))
            | None => Reported podFeedbackMsgSuccess
            end
        | WaitFunc f =>
            match f msg with
            | Some err => if decide (err = ErrMsgNotWanted) then Reported podFeedbackMsgSuccess
                          else Sending (Some err)
            | None => Sending None
            end
        end
      else Ignored
  end.

(** ** The filter of a pod *)

Lemma setOnFunc_spec p on p' :
  setOnFunc p on = Some p' → onFunc p' = on ∧ podFilter p' = newMessageFilter ∧ dead p' = dead p.
Proof.
  unfold setOnFunc, feed. intros H. destruct on as [fn|]; [|by simplify_eq].
  destruct (replayOnce (opts p)), (opt_WantsReplay (opts p)); try case_decide; by simplify_eq.
Qed.

(** A pod that sent a message ignores that message when the bus brings it back,
    and treats every other message as before. *)
Theorem pod_no_bounce p chan msg t p' chan' :
  Send p chan msg = Some (Some t, p', chan') →
  chan' = chan ++ [msg] ∧ receipt_UUID t = UUID msg ∧
  (∀ m, UUID m = UUID msg → handleMsg p' m = Ignored) ∧
  (∀ m, UUID m ≠ UUID msg → handleMsg p' m = handleMsg p m).
Proof.
  unfold Send. destruct (dead p); [done|]. case_decide; [|done]. intros [= <- <- <-].
  repeat split; [done..|intros m E|intros m E];
    unfold handleMsg; simpl; destruct (onFunc p); try done;
    rewrite allow_FilterUUID_false.
  - rewrite bool_decide_eq_false_2 by (intros H'; by apply H'). done.
  - rewrite bool_decide_eq_true_2 by congruence. done.
Qed.

(** Setting the function after a send forgets the denied UUID: the message comes
    back. *)
Theorem pod_bounce_after_On p chan msg t p1 chan1 f p2 :
  Send p chan msg = Some (Some t, p1, chan1) →
  On p1 (Some (OwnerFunc f)) = Some p2 →
  handleMsg p2 msg =
    match f msg with Some _ => Reported (FailedMsg (Some msg)) | None => Reported podFeedbackMsgSuccess end.
Proof.
  intros _ (Hf & Hm & _)%setOnFunc_spec. unfold handleMsg. by rewrite Hf, Hm.
Qed.

(** After [OnType] a pod sees messages of that type only. *)
Theorem pod_OnType_only p msgType f p' :
  OnType p msgType (Some f) = Some p' →
  ∀ m, (Type_ m ≠ msgType → handleMsg p' m = Ignored) ∧
       (Type_ m = msgType → ∀ p2, On p (Some f) = Some p2 → handleMsg p' m = handleMsg p2 m).
Proof.
  unfold OnType, On. intros H m. destruct (setOnFunc p (Some f)) as [p1|] eqn:E; [|done].
  simpl in H. injection H as <-. destruct (setOnFunc_spec _ _ _ E) as (Hf & Hm & _).
  unfold handleMsg; simpl. rewrite Hf, Hm. split.
  - intros Ht. rewrite allow_verdict; simpl. rewrite verdict_insert.
    rewrite decide_False by congruence. done.
  - intros Ht p2 [= <-]. rewrite Hf, Hm, allow_verdict; simpl. rewrite verdict_insert.
    by rewrite decide_True by congruence.
Qed.

(** ** Waiting: WaitUntil, WaitOn, waitOnReply and the handler goroutines *)

(** Where the caller of [WaitUntil] is. *)
Inductive waiter : Type :=
| Selecting                          (* in the select, the lock released *)
| Relocking (r : option error)       (* wants the lock back, to clear the onFunc *)
| Returned (r : option error).

(** A handler goroutine: it has a message and has not locked yet, or holds the
    read lock while it sends on the error channel. *)
Inductive goroutine : Type :=
| Spawned (m : Message)
| Blocked (m : Message) (e : option error).

(** [reply] is the variable that the closure of [waitOnReply] assigns. *)
Record waitState : Type := mkWait {
  wpod : Pod;
  inbox : list Message;
  routines : list goroutine;
  caller : waiter;
  reply : option Message
}.

Definition is_blocked (g : goroutine) : bool :=
  match g with Blocked _ _ => true | Spawned _ => false end.

(** [WaitUntil] up to its select, when no handler holds the lock. *)
Definition WaitUntil_enter (p : Pod) (inbox : list Message) (routines : list goroutine)
    (f : Message → option error) : option waitState :=
  p1 ← setOnFunc p (Some (WaitFunc f));
  Some (mkWait p1 inbox routines Selecting None).

Definition clearOnFunc (p : Pod) : Pod := default p (setOnFunc p None).

Inductive pod_step (timeout : bool) : waitState → waitState → Prop :=
| StepReceive p m ms gs w r :              (* start: take a message, spawn a handler *)
    pod_step timeout (mkWait p (m :: ms) gs w r) (mkWait p ms (gs ++ [Spawned m]) w r)
| StepIgnore p ms gs1 gs2 m w r :
    handleMsg p m = Ignored →
    pod_step timeout (mkWait p ms (gs1 ++ Spawned m :: gs2) w r) (mkWait p ms (gs1 ++ gs2) w r)
| StepReport p p' ms gs1 gs2 m w r f :
    handleMsg p m = Reported f → feed p f = Some p' →
    pod_step timeout (mkWait p ms (gs1 ++ Spawned m :: gs2) w r) (mkWait p' ms (gs1 ++ gs2) w r)
| StepBlock p ms gs1 gs2 m w r e :
    handleMsg p m = Sending e →
    pod_step timeout (mkWait p ms (gs1 ++ Spawned m :: gs2) w r)
      (mkWait p ms (gs1 ++ Blocked m e :: gs2) w (match e with None => Some m | _ => r end))
| StepSelectErr p p' ms gs1 gs2 m e r :    (* case err := <-errChan *)
    feed p podFeedbackMsgSuccess = Some p' →
    pod_step timeout (mkWait p ms (gs1 ++ Blocked m e :: gs2) Selecting r)
      (mkWait p' ms (gs1 ++ gs2) (Relocking e) r)
| StepSelectTimeout p ms gs r :            (* case <-timeout() *)
    timeout = true →
    pod_step timeout (mkWait p ms gs Selecting r) (mkWait p ms gs (Relocking (Some ErrWaitTimeout)) r)
| StepReturn p ms gs e r :                 (* the lock, setOnFunc(nil) *)
    Forall (λ g, is_blocked g = false) gs →
    pod_step timeout (mkWait p ms gs (Relocking e) r) (mkWait (clearOnFunc p) ms gs (Returned e) r).

(** What [waitOnReply] returns after [WaitUntil] returned [r]. *)
Definition waitOnReply_end (r : option error) (reply : option Message)
    (onFunc : option Message → option error) : option error :=
  match r with Some err => Some err | None => onFunc reply end.

Section Wait.
Context (timeout : bool) (f : Message → option error) (arriving : list Message).

(** What holds of a goroutine that [f] blocked. *)
Definition routine_ok (g : goroutine) : Prop :=
  match g with
  | Spawned m => m ∈ arriving
  | Blocked m e => m ∈ arriving ∧ f m = e ∧ e ≠ Some ErrMsgNotWanted
  end.

Definition result_ok (e : option error) (r : option Message) : Prop :=
  (e = Some ErrWaitTimeout ∧ timeout = true) ∨
  ((∃ m, m ∈ arriving ∧ f m = e ∧ e ≠ Some ErrMsgNotWanted) ∧ (e = None → is_Some r)).

Definition wait_ok (s : waitState) : Prop :=
  (onFunc (wpod s) = Some (WaitFunc f) ∨ onFunc (wpod s) = None) ∧
  (∀ m, m ∈ inbox s → m ∈ arriving) ∧
  Forall routine_ok (routines s) ∧
  (∀ m, Blocked m None ∈ routines s → is_Some (reply s)) ∧
  (∀ m, reply s = Some m → m ∈ arriving ∧ f m = None) ∧
  match caller s with
  | Selecting => onFunc (wpod s) = Some (WaitFunc f)
  | Relocking e => result_ok e (reply s)
  | Returned e => onFunc (wpod s) = None ∧ result_ok e (reply s)
  end.

Lemma feed_onFunc p g p' : feed p g = Some p' → onFunc p' = onFunc p.
Proof. unfold feed. case_decide; by intros; simplify_eq. Qed.

Lemma handleMsg_sending p m e :
  onFunc p = Some (WaitFunc f) ∨ onFunc p = None →
  handleMsg p m = Sending e → f m = e ∧ e ≠ Some ErrMsgNotWanted.
Proof.
  unfold handleMsg. intros [-> | ->]; [|done]. destruct (allow _ _); [|done].
  destruct (f m) as [err|]; [case_decide|]; intros; simplify_eq; naive_solver.
Qed.

Lemma handleMsg_sending_onFunc p m e : handleMsg p m = Sending e → is_Some (onFunc p).
Proof. unfold handleMsg. destruct (onFunc p); [eauto|done]. Qed.

Lemma wait_step_ok s s' : pod_step timeout s s' → wait_ok s → wait_ok s'.
Proof.
  intros Hstep (Hon & Hin & Hgs & Hb & Hr & Hw).
  destruct Hstep as [p m ms gs w r|p ms gs1 gs2 m w r Hh|p p' ms gs1 gs2 m w r g Hh Hf
    |p ms gs1 gs2 m w r e Hh|p p' ms gs1 gs2 m e r Hf|p ms gs r Ht|p ms gs e r Hfree];
    unfold wait_ok in *; simpl in *; rewrite ?Forall_app, ?Forall_cons in *.
  - split_and!; try done; try apply Forall_nil; simpl; set_solver.
  - set_solver.
  - rewrite (feed_onFunc _ _ _ Hf). set_solver.
  - destruct (handleMsg_sending p m e Hon Hh) as [Hfm Hne].
    destruct Hgs as (Hg1 & Hm & Hg2). split_and!; try done.
    + intros m' Hm'. destruct e; [|eauto]. apply (Hb m'). set_solver.
    + destruct e; [done|]. by intros m' [= <-].
    + destruct w as [|e'|e']; [done| |destruct Hw as [Ho _];
        destruct (handleMsg_sending_onFunc p m e Hh); congruence].
      destruct Hw as [|[? Hs]]; [by left|right]. split; [done|]. destruct e; [done|eauto].
  - rewrite (feed_onFunc _ _ _ Hf). destruct Hgs as (Hg1 & Hm & Hg2).
    split_and!; try done; [intros m' Hm'; apply (Hb m'); set_solver|].
    right. split; [by exists m|]. intros ->. apply (Hb m). set_solver.
  - split_and!; try done. by left.
  - split_and!; try done. by right.
Qed.

End Wait.

(** The state in which [waitOnReply] starts to wait is a good one. *)
Lemma wait_ok_enter timeout p ms f s :
  WaitUntil_enter p ms [] f = Some s → wait_ok timeout f ms s.
Proof.
  unfold WaitUntil_enter. destruct (setOnFunc p _) as [p1|] eqn:E; [|done]. simpl. intros [= <-].
  destruct (setOnFunc_spec _ _ _ E) as (Hf & _ & _).
  split_and!; simpl; try done; [by left|by intros m ?%not_elem_of_nil].
Qed.

(** Under any interleaving of the handler goroutines, when WaitUntil with the
    filter of waitOnReply returns, it timed out or the callback is called with a
    message that arrived and that replies to the ticket. *)
Theorem waitOnReply_result p ms ticket timeout s s' r cb :
  WaitUntil_enter p ms [] (replyFilter ticket) = Some s →
  rtc (pod_step timeout) s s' → caller s' = Returned r →
  (waitOnReply_end r (reply s') cb = Some ErrWaitTimeout ∧ timeout = true) ∨
  ∃ m, m ∈ ms ∧ ReplyTo m = receipt_UUID ticket ∧ waitOnReply_end r (reply s') cb = cb (Some m).
Proof.
  intros Hs%(wait_ok_enter timeout) Hsteps. induction Hsteps as [s|s s1 s2 Hstep _ IH].
  - intros Hc. destruct Hs as (_ & _ & _ & _ & Hr & Hw). rewrite Hc in Hw. destruct Hw as [_ Hw].
    destruct Hw as [[-> Ht]|[(m & Hm & Hf & Hne) Hs]]; [by left|right].
    unfold replyFilter in Hf. case_decide; [congruence|]. subst r.
    destruct (Hs eq_refl) as [m' Em]. destruct (Hr m' Em) as [Hm' Hf'].
    exists m'. rewrite Em. unfold replyFilter in Hf'. by case_decide.
  - apply IH. by eapply wait_step_ok.
Qed.

(** Once a second handler sends on the error channel, nobody receives and the
    caller cannot get the lock back. *)
Definition stuck (s : waitState) : Prop :=
  (∃ e, caller s = Relocking e) ∧ ∃ m e, Blocked m e ∈ routines s.

Lemma stuck_step timeout s s' : pod_step timeout s s' → stuck s → stuck s'.
Proof.
  intros Hstep ([e0 Hc] & m0 & e1 & Hb).
  destruct Hstep as [| | | | | |p ms gs e r Hfree]; simpl in *; try done.
  5: by rewrite Forall_forall in Hfree; specialize (Hfree _ Hb).
  all: split; [by eexists|]; exists m0, e1; simpl.
  - set_solver.
  - rewrite elem_of_app, elem_of_cons in Hb. rewrite elem_of_app. naive_solver.
  - rewrite elem_of_app, elem_of_cons in Hb. rewrite elem_of_app. naive_solver.
  - rewrite elem_of_app, elem_of_cons in Hb. rewrite elem_of_app, elem_of_cons. naive_solver.
Qed.

Lemma stuck_forever timeout s s' r :
  stuck s → rtc (pod_step timeout) s s' → caller s' ≠ Returned r.
Proof.
  intros Hs Hsteps. assert (stuck s') as ([e He] & _); [|by rewrite He].
  induction Hsteps; [done|]. eauto using stuck_step.
Qed.

(** Two replies to one ticket can leave [WaitUntil] without its lock for ever. *)
Theorem two_replies_deadlock p m1 m2 ticket timeout s :
  opt_WantsReplay (opts p) = false → length (feedbackOut p) < defaultPodChanSize →
  ReplyTo m1 = receipt_UUID ticket → ReplyTo m2 = receipt_UUID ticket →
  WaitUntil_enter p [m1; m2] [] (replyFilter ticket) = Some s →
  ∃ s', rtc (pod_step timeout) s s' ∧
        ∀ s'' r, rtc (pod_step timeout) s' s'' → caller s'' ≠ Returned r.
Proof.
  intros Hw Hlen H1 H2 Hs. unfold WaitUntil_enter in Hs.
  destruct (setOnFunc p _) as [p1|] eqn:E; [|done]. simpl in Hs. injection Hs as <-.
  destruct (setOnFunc_spec _ _ _ E) as (Hf & Hm & _).
  assert (∀ m, ReplyTo m = receipt_UUID ticket → handleMsg p1 m = Sending None) as Hh.
  { intros m Hmr. unfold handleMsg. rewrite Hf, Hm, allow_new. unfold replyFilter.
    by rewrite decide_False by (intros Hn; by apply Hn). }
  assert (feedbackOut p1 = feedbackOut p) as Hfb.
  { unfold setOnFunc in E. rewrite Hw in E. by destruct (replayOnce _); simplify_eq. }
  assert (∃ p2, feed p1 podFeedbackMsgSuccess = Some p2) as [p2 Hp2].
  { unfold feed. rewrite decide_True by (by rewrite Hfb). eauto. }
  eexists. split.
  - eapply rtc_l; [apply StepReceive|]. eapply rtc_l; [apply StepReceive|]. simpl.
    eapply rtc_l; [by apply (StepBlock _ _ _ [] [Spawned m2]), Hh|].
    eapply rtc_l; [by apply (StepBlock _ _ _ [Blocked m1 None] []), Hh|].
    eapply rtc_l; [by eapply (StepSelectErr _ _ _ _ []), Hp2|]. apply rtc_refl.
  - intros s'' r. apply stuck_forever. split; [by eexists|]. exists m2, None. simpl. set_solver.
Qed.

(** ** Examples *)

Definition example_question : Message := NewMsg "q" 0 MsgTypeDefault "question".
Definition example_answer : Message := NewMsgReplyTo "a" 1 "q" MsgTypeDefault "answer".

Lemma pod_no_bounce_witness :
  ∃ t p' chan', Send (newPod false) [] example_question = Some (Some t, p', chan') ∧
    handleMsg p' example_question = Ignored.
Proof.
  eexists _, _, _. split; [reflexivity|].
  refine (proj1 (proj2 (proj2 (pod_no_bounce (newPod false) [] example_question (mkReceipt "q") _ _ eq_refl)))
            example_question eq_refl).
Defined.

(** A reply arrives before the timeout: the state in which the caller starts to
    wait and the one in which [WaitUntil] has returned. *)
Definition example_wait : waitState :=
  default (mkWait (newPod false) [] [] Selecting None)
    (WaitUntil_enter (newPod false) [example_answer] [] (replyFilter (mkReceipt "q"))).

Definition example_wait_end : waitState :=
  mkWait (clearOnFunc (default (newPod false) (feed (wpod example_wait) podFeedbackMsgSuccess)))
    [] [] (Returned None) (Some example_answer).

Lemma example_wait_run : rtc (pod_step false) example_wait example_wait_end.
Proof.
  eapply rtc_l; [apply StepReceive|]. simpl.
  eapply rtc_l; [apply (StepBlock _ _ _ [] []); vm_compute; reflexivity|].
  eapply rtc_l; [eapply (StepSelectErr _ _ _ _ [] []); vm_compute; reflexivity|].
  eapply rtc_l; [apply StepReturn; constructor|]. apply rtc_refl.
Qed.

(** A callback that tells by its error what it was called with. *)
Definition echo_error (m : option Message) : option error := (λ m, ErrNew (Data m)) <$> m.

Lemma waitOnReply_result_witness :
  ∃ m, m ∈ [example_answer] ∧ ReplyTo m = "q" ∧
       waitOnReply_end None (reply example_wait_end) echo_error = echo_error (Some m).
Proof.
  destruct (waitOnReply_result (newPod false) [example_answer] (mkReceipt "q") false
    example_wait example_wait_end None echo_error eq_refl example_wait_run eq_refl) as [[_ Ht]|Hm];
    [discriminate Ht|exact Hm].
Defined.
