(* ===== verification/Receipt.v ===== *)
(** * Receipts and timeouts: foundation/bus/bus/receipt.go, timeout.go

    The methods of a receipt, which wait on the pod that sent the message, and the
    channel of a timeout.  A call that waits is a relation between its arguments
    and its result, by the steps of the pod. *)

From S2P Require Import Prelude.
From S2P Require Import Message.
From S2P Require Import Pod.

Definition ErrNoReceipt : error := ErrNew "message receipt is nil".

(** ** Timeouts *)

(** The channel that a [TimeoutFunc] returns: it never fires, or fires once after
    so many nanoseconds. *)
Definition TimeoutFunc : Type := option Z.

Definition Second : Z := 1000000000.

(** An [int64] after overflow. *)
Definition int64 (z : Z) : Z := ((z + 2 ^ 63) mod 2 ^ 64 - 2 ^ 63)%Z.

(** [time.After] fires at once when the duration is not positive. *)
Definition Timeout (seconds : Z) : TimeoutFunc :=
  if decide (seconds > 0)%Z then Some (Z.max 0 (int64 (Second * seconds))) else None.

Definition TO (seconds : Z) : TimeoutFunc := Timeout seconds.

Lemma int64_id z : (- 2 ^ 63 ≤ z < 2 ^ 63)%Z → int64 z = z.
Proof. intros Hz. unfold int64. rewrite Z.mod_small; lia. Qed.

(** A timeout of a positive number of seconds, up to 292 years, is of that many
    seconds. *)
Lemma Timeout_exact s : (0 < s ≤ 9223372036)%Z → Timeout s = Some (Second * s)%Z.
Proof.
  intros Hs. unfold Timeout, Second. rewrite decide_True by lia. rewrite int64_id; [|lia]. f_equal. lia.
Qed.

(** One second more overflows, and the channel fires at once. *)
Lemma Timeout_overflow : Timeout 9223372037 = Some 0%Z.
Proof. reflexivity. Qed.

Lemma Timeout_fires s : is_Some (Timeout s) ↔ (0 < s)%Z.
Proof. unfold Timeout. case_decide; rewrite is_Some_alt; intuition lia. Qed.

(** ** Waiting *)

(** [WaitUntil] replaces a nil timeout by one that never fires. *)
Definition orNever (timeout : option TimeoutFunc) : TimeoutFunc := default (Timeout (-1)) timeout.

Definition may_fire (timeout : option TimeoutFunc) : bool := bool_decide (is_Some (orNever timeout)).

(** A run of [WaitUntil] on a pod with these messages on their way to it, up to the
    state [s] in which it returns [r]. *)
Definition WaitUntil (p : Pod) (ms : list Message) (timeout : option TimeoutFunc)
    (f : Message → option error) (s : waitState) (r : option error) : Prop :=
  ∃ s0, WaitUntil_enter p ms [] f = Some s0 ∧ rtc (pod_step (may_fire timeout)) s0 s ∧ caller s = Returned r.

Definition WaitOn (p : Pod) (ms : list Message) (f : Message → option error) (s : waitState) (r : option error) : Prop :=
  WaitUntil p ms None f s r.

Definition waitOnReply (p : Pod) (ms : list Message) (ticket : MsgReceipt) (timeout : option TimeoutFunc)
    (onFunc : option Message → option error) (r : option error) : Prop :=
  ∃ s r0, WaitUntil p ms timeout (replyFilter ticket) s r0 ∧ r = waitOnReply_end r0 (reply s) onFunc.

(** ** The methods of a receipt *)

Definition receipt_WaitUntil (m : option MsgReceipt) (p : Pod) (ms : list Message) (timeout : option TimeoutFunc)
    (onFunc : option Message → option error) (r : option error) : Prop :=
  match m with
  | None => r = Some ErrNoReceipt
  | Some ticket => waitOnReply p ms ticket timeout onFunc r
  end.

Definition receipt_WaitOn (m : option MsgReceipt) (p : Pod) (ms : list Message)
    (onFunc : option Message → option error) (r : option error) : Prop :=
  receipt_WaitUntil m p ms None onFunc r.

(** What [OnReply] returns, and the result, which is dropped, of the goroutine it
    starts. *)
Definition receipt_OnReply (m : option MsgReceipt) (p : Pod) (ms : list Message)
    (onFunc : option Message → option error) (r : option error) (later : option error → Prop) : Prop :=
  match m with
  | None => r = Some ErrNoReceipt
  | Some ticket => r = None ∧ later = waitOnReply p ms ticket None onFunc
  end.

(** The result of [WaitUntil], whatever the function: it timed out, or the function
    returned it for a message that arrived, and it was not [ErrMsgNotWanted]; the
    pod has no function left. *)
Lemma WaitUntil_result p ms timeout f s r :
  WaitUntil p ms timeout f s r →
  onFunc (wpod s) = None ∧
  ((r = Some ErrWaitTimeout ∧ is_Some (orNever timeout)) ∨
   ∃ m, m ∈ ms ∧ f m = r ∧ r ≠ Some ErrMsgNotWanted).
Proof.
  intros (s0 & Hs%(wait_ok_enter (may_fire timeout)) & Hsteps & Hc).
  assert (wait_ok (may_fire timeout) f ms s) as (_ & _ & _ & _ & _ & Hw).
  { clear Hc. induction Hsteps as [|s s1 s2 Hstep _ IH]; [done|]. apply IH. by eapply wait_step_ok. }
  rewrite Hc in Hw. destruct Hw as [Hon [[-> Ht]|[Hm _]]]; (split; [done|]); [left|right; done].
  unfold may_fire in Ht. apply bool_decide_eq_true in Ht. done.
Qed.

Lemma reply_result p ms ticket timeout onFunc r :
  waitOnReply p ms ticket timeout onFunc r →
  (r = Some ErrWaitTimeout ∧ is_Some (orNever timeout)) ∨
  ∃ m, m ∈ ms ∧ ReplyTo m = receipt_UUID ticket ∧ r = onFunc (Some m).
Proof.
  intros (s & r0 & (s0 & Hs & Hsteps & Hc) & ->).
  destruct (waitOnReply_result p ms ticket _ s0 s r0 onFunc Hs Hsteps Hc) as [[-> Ht]|Hm]; [left|by right].
  split; [done|]. unfold may_fire in Ht. by apply bool_decide_eq_true in Ht.
Qed.

(** Without a timeout a wait ends with a reply. *)
Lemma reply_in_time p ms ticket onFunc r :
  waitOnReply p ms ticket None onFunc r →
  ∃ msg, msg ∈ ms ∧ ReplyTo msg = receipt_UUID ticket ∧ r = onFunc (Some msg).
Proof. by intros [[_ [? ?]]|]%reply_result. Qed.

(** C29: What the methods of a receipt return, under any interleaving of the
    handler goroutines of its pod: all return the error of a missing receipt;
    WaitUntil the error of a timeout that was asked for and is positive, or what
    the function returns for a message that arrived and replies to the message of
    the receipt; WaitOn only the latter; OnReply nil at once, and what the
    function that it set running returns, for such a message, is dropped. *)
Theorem receipt_result m p ms onFunc r :
  (∀ timeout, receipt_WaitUntil m p ms timeout onFunc r →
    match m with
    | None => r = Some ErrNoReceipt
    | Some ticket =>
        (r = Some ErrWaitTimeout ∧ ∃ d, timeout = Some (Some d)) ∨
        ∃ msg, msg ∈ ms ∧ ReplyTo msg = receipt_UUID ticket ∧ r = onFunc (Some msg)
    end) ∧
  (receipt_WaitOn m p ms onFunc r →
    match m with
    | None => r = Some ErrNoReceipt
    | Some ticket => ∃ msg, msg ∈ ms ∧ ReplyTo msg = receipt_UUID ticket ∧ r = onFunc (Some msg)
    end) ∧
  (∀ later, receipt_OnReply m p ms onFunc r later →
    match m with
    | None => r = Some ErrNoReceipt
    | Some ticket => r = None ∧ ∀ r', later r' →
        ∃ msg, msg ∈ ms ∧ ReplyTo msg = receipt_UUID ticket ∧ r' = onFunc (Some msg)
    end).
Proof.
  destruct m as [ticket|]; [|done]. split; [|split].
  - intros timeout [[-> [d Hd]]|Hm]%reply_result; [left|by right].
    split; [done|]. destruct timeout as [t|]; [|done]. exists d. by f_equal.
  - apply reply_in_time.
  - intros later [-> ->]. split; [done|]. apply reply_in_time.
Qed.

(** The receipt of a message whose answer arrives: the wait of the example. *)
Lemma receipt_waits :
  receipt_WaitOn (Some (mkReceipt "q")) (newPod false) [example_answer] echo_error (Some (ErrNew "answer")).
Proof.
  exists example_wait_end, None. split; [|reflexivity]. exists example_wait.
  split; [reflexivity|]. split; [exact example_wait_run|reflexivity].
Qed.

Lemma receipt_result_witness :
  (∃ msg, msg ∈ [example_answer] ∧ ReplyTo msg = "q" ∧ Some (ErrNew "answer") = echo_error (Some msg)) ∧
  receipt_OnReply (Some (mkReceipt "q")) (newPod false) [example_answer] echo_error None
    (waitOnReply (newPod false) [example_answer] (mkReceipt "q") None echo_error).
Proof.
  split; [|done].
  destruct (receipt_result (Some (mkReceipt "q")) (newPod false) [example_answer] echo_error (Some (ErrNew "answer")))
    as (_ & Hon & _).
  exact (Hon receipt_waits).
Defined.
