(* ===== verification/Signaler.v ===== *)
(** * Withdrawal: foundation/bus/bus/withdraw/signaler.go, hub.go (withdraw)

    The two buffered channels of a signaler are their queue lengths.  The
    hub's wait for its peers is a loop of passes over the done channels. *)

From S2P Require Import Prelude.

Record Signaler : Type := mkSignaler {
  withdrawChan : nat;
  doneChan : nat;
  selfWithdrawn : bool;
  peerWithdrawn : bool
}.

Definition NewSignaler : Signaler := mkSignaler 0 0 false false.

(** [Signal] blocks ([None]) when an earlier signal was not taken. *)
Definition Signal (s : Signaler) : option Signaler :=
  if decide (withdrawChan s < 1)
  then Some (mkSignaler (S (withdrawChan s)) (doneChan s) true (peerWithdrawn s)) else None.

(** [<-withdrawChan] in the goroutine of the connection handler. *)
Definition Listen (s : Signaler) : option Signaler :=
  match withdrawChan s with
  | S n => Some (mkSignaler n (doneChan s) (selfWithdrawn s) (peerWithdrawn s))
  | 0 => None
  end.

Definition Done (s : Signaler) : option Signaler :=
  if decide (doneChan s < 1)
  then Some (mkSignaler (withdrawChan s) (S (doneChan s)) (selfWithdrawn s) (peerWithdrawn s))
  else None.

Definition SelfWithdrawn (s : Signaler) : bool := selfWithdrawn s.
Definition SetPeerWithdrawn (s : Signaler) : Signaler :=
  mkSignaler (withdrawChan s) (doneChan s) (selfWithdrawn s) true.
Definition PeerWithdrawn (s : Signaler) : bool := peerWithdrawn s.

(** ** Waiting for every peer: the goroutine of [hub.withdraw] *)

(** The first loop of [withdraw]: signal each connection; the answer pairs each
    UUID with what its done channel holds. *)
Fixpoint signalAll (conns : list (string * Signaler)) : option (list (string * Signaler)) :=
  match conns with
  | [] => Some []
  | (u, s) :: conns => s1 ← Signal s; rest ← signalAll conns; Some ((u, s1) :: rest)
  end.

(** One pass over the done channels: each that is ready is taken from. *)
Fixpoint withdraw_pass (conns : list (string * Signaler)) (count : Z) :
    list (string * Signaler) * Z :=
  match conns with
  | [] => ([], count)
  | (u, s) :: conns =>
      match doneChan s with
      | S n =>
          let '(rest, c) := withdraw_pass conns (count - 1) in
          ((u, mkSignaler (withdrawChan s) n (selfWithdrawn s) (peerWithdrawn s)) :: rest, c)
      | 0 => let '(rest, c) := withdraw_pass conns count in ((u, s) :: rest, c)
      end
  end.

(** The passes, with what the peers did before each. *)
Fixpoint withdraw_wait (passes : list (list (string * Signaler) → list (string * Signaler)))
    (conns : list (string * Signaler)) (count : Z) : list (string * Signaler) * Z * bool :=
  match passes with
  | [] => (conns, count, false)
  | env :: passes =>
      let '(conns1, c) := withdraw_pass (env conns) count in
      if decide (c = 0)%Z then (conns1, c, true) else withdraw_wait passes conns1 c
  end.

(** What the peers may do between two passes: some of those that have not
    reported yet report. *)
Inductive reports : list (string * Signaler) → list (string * Signaler) → Prop :=
| ReportsNil : reports [] []
| ReportsSame u s l l' : reports l l' → reports ((u, s) :: l) ((u, s) :: l')
| ReportsDone u s s1 s2 l l' :
    Listen s = Some s1 → Done s1 = Some s2 → reports l l' → reports ((u, s) :: l) ((u, s2) :: l').

(** A connection that has been signalled is waiting, or done and not seen, or
    seen. *)
Definition pending (s : Signaler) : nat := withdrawChan s + doneChan s.

Definition pendings (l : list (string * Signaler)) : Z :=
  foldr (λ x n, Z.of_nat (pending x.2) + n)%Z 0%Z l.

Definition waiting (l : list (string * Signaler)) : Z :=
  foldr (λ x n, Z.of_nat (withdrawChan x.2) + n)%Z 0%Z l.

Lemma reports_pendings l l' : reports l l' → pendings l' = pendings l.
Proof.
  induction 1 as [|u s l l' _ IH|u s s1 s2 l l' Hl Hd _ IH]; simpl; [done|by rewrite IH|].
  rewrite IH. unfold Listen, Done, pending in *. destruct (withdrawChan s) eqn:E; simplify_eq; simpl in *.
  case_decide; simplify_eq; simpl. lia.
Qed.

(** After a pass, what is left to count is what the peers have not reported,
    when no channel held two reports. *)
Lemma withdraw_pass_count l count l' c :
  Forall (λ x, doneChan x.2 ≤ 1) l → count = pendings l →
  withdraw_pass l count = (l', c) →
  c = waiting l ∧ c = pendings l' ∧ Forall (λ x, doneChan x.2 = 0) l'.
Proof.
  assert (∀ d l count l' c, Forall (λ x, doneChan x.2 ≤ 1) l → count = (pendings l + d)%Z →
    withdraw_pass l count = (l', c) →
    c = (waiting l + d)%Z ∧ c = (pendings l' + d)%Z ∧ Forall (λ x, doneChan x.2 = 0) l') as H.
  { clear. intros d l. revert d. induction l as [|[u s] l IH]; intros d count l' c Hd Hc; simpl.
    { intros [= <- <-]. simpl in *. split_and!; [lia..|constructor]. }
    apply Forall_cons in Hd as [Hs Hd]; simpl in Hs, Hc. unfold pending in Hc.
    destruct (doneChan s) as [|n] eqn:En.
    - destruct (withdraw_pass l count) as [rest c'] eqn:E. intros [= <- <-].
      destruct (IH (Z.of_nat (withdrawChan s) + d)%Z count rest c') as (-> & Hp & Hf); [done|lia|done|].
      subst; unfold pendings, waiting, pending in *; simpl in *; rewrite ?En;
        split_and!; [lia|lia|by constructor].
    - assert (n = 0) as -> by lia. destruct (withdraw_pass l (count - 1)) as [rest c'] eqn:E.
      intros [= <- <-].
      destruct (IH (Z.of_nat (withdrawChan s) + d)%Z (count - 1)%Z rest c') as (-> & Hp & Hf);
        [done|lia|done|].
      subst; unfold pendings, waiting, pending in *; simpl in *; rewrite ?En;
        split_and!; [lia|lia|by constructor]. }
  intros Hd Hc E. destruct (H 0%Z l count l' c Hd) as (-> & ? & ?); [lia|done|]. split_and!; [lia..|done].
Qed.

Lemma reports_done l l' :
  reports l l' → Forall (λ x, doneChan x.2 = 0 ∧ withdrawChan x.2 ≤ 1) l →
  Forall (λ x, doneChan x.2 ≤ 1) l'.
Proof.
  induction 1 as [|u s l l' _ IH|u s s1 s2 l l' Hl Hd _ IH]; [done|..];
    intros [[H1 H2] Hf]%Forall_cons; constructor; auto; simpl in *; [lia|].
  unfold Done in Hd. case_decide; simplify_eq. simpl. lia.
Qed.

Lemma withdraw_pass_waiting l l' n c : withdraw_pass l n = (l', c) → waiting l' = waiting l.
Proof.
  revert n l' c. induction l as [|[u s] l IH]; intros n l' c; simpl; [by intros [= <- _]|].
  destruct (doneChan s); destruct (withdraw_pass l _) as [r c'] eqn:E; intros [= <- _]; simpl;
    by rewrite (IH _ _ _ E).
Qed.

(** The wait that starts with every connection signalled, whatever the peers do
    between the passes: it is over in the pass before which the last of them
    has reported. *)
Definition signalled (l : list (string * Signaler)) : Prop :=
  Forall (λ x, doneChan x.2 = 0 ∧ withdrawChan x.2 ≤ 1) l.

Lemma pass_signalled l l1 l2 c :
  signalled l → reports l l1 → withdraw_pass l1 (pendings l) = (l2, c) →
  signalled l2 ∧ c = pendings l2 ∧ c = waiting l2.
Proof.
  intros Hf Hr E. pose proof (withdraw_pass_waiting _ _ _ _ E) as Hw.
  destruct (withdraw_pass_count l1 (pendings l) l2 c) as (-> & Hp & Hd); [..|done|].
  - by eapply reports_done.
  - symmetry. by apply reports_pendings.
  - split; [|by rewrite Hw]. assert (Forall (λ x, withdrawChan x.2 ≤ 1) l2) as H2.
    { clear Hp Hw Hd. revert E. generalize (pendings l) as n. revert l2. generalize (waiting l1) as c.
      intros c l2 n. revert n l2 c. assert (Forall (λ x, withdrawChan x.2 ≤ 1) l1) as H1.
      { clear -Hf Hr. induction Hr as [|u s l l' _ IH|u s s1 s2 l l' Hl Hd _ IH]; [constructor|..];
          apply Forall_cons in Hf as [[H1 H2] Hf]; constructor; auto; simpl in *.
        unfold Listen, Done in *. destruct (withdrawChan s) eqn:Es; simplify_eq; simpl in *.
        case_decide; simplify_eq; simpl. lia. }
      clear -H1. induction H1 as [|[u s] l Hs _ IH]; intros n l2 c; simpl; [by intros [= <- _]|].
      destruct (doneChan s); destruct (withdraw_pass l _) as [r c'] eqn:E; intros [= <- _];
        constructor; by eauto. }
    unfold signalled. rewrite Forall_forall in *. auto.
Qed.

Lemma waiting_zero l : waiting l = 0%Z ↔ Forall (λ x, withdrawChan x.2 = 0) l.
Proof.
  induction l as [|[u s] l IH]; simpl; [by split|]. rewrite Forall_cons, <- IH. simpl.
  assert (0 ≤ waiting l)%Z by (clear; unfold waiting; induction l; simpl; lia).
  fold (waiting l). split; [|lia]. intros E. split; lia.
Qed.

(** Whatever the peers do between the passes, the count of withdraw is the number
    of signalled connections that have not reported, and the wait is over exactly
    when all of them have. *)
Theorem withdraw_waits_for_all passes l l' c b :
  signalled l → Forall (λ env, ∀ l, reports l (env l)) passes →
  withdraw_wait passes l (pendings l) = (l', c, b) →
  c = waiting l' ∧ (passes ≠ [] → b = true ↔ Forall (λ x, withdrawChan x.2 = 0) l').
Proof.
  intros Hs Hp. revert l Hs. induction Hp as [|env passes He _ IH]; intros l Hs; simpl.
  { intros [= <- <- <-]. split; [|done]. clear -Hs.
    induction Hs as [|[u s] l [H1 H2] _ IH]; simpl; [done|]. unfold pending, waiting in *; simpl in *. lia. }
  destruct (withdraw_pass (env l) (pendings l)) as [l1 c1] eqn:E.
  destruct (pass_signalled l (env l) l1 c1 Hs (He l) E) as (Hs1 & Hc1 & Hw1).
  case_decide as Hz.
  - intros [= <- <- <-]. split; [done|]. intros _. rewrite <- waiting_zero. split; [congruence|done].
  - rewrite Hc1. intros E'. destruct (IH l1 Hs1 E') as [Hc Hb]. split; [done|]. intros _.
    destruct passes; [|by apply Hb]. simpl in E'. injection E' as <- <- <-. rewrite <- waiting_zero.
    split; [done|]. congruence.
Qed.

(** A signalled connection is one the hub signalled and nobody read from. *)
Lemma signalAll_signalled l l' :
  Forall (λ x, doneChan x.2 = 0) l → signalAll l = Some l' →
  signalled l' ∧ pendings l' = Z.of_nat (length l) ∧ Forall (λ x, selfWithdrawn x.2 = true) l'.
Proof.
  intros Hf. revert l'. induction Hf as [|[u s] l Hs _ IH]; intros l'; simpl.
  { intros [= <-]. split; [by apply Forall_nil|]. split; [done|by apply Forall_nil]. }
  unfold Signal. case_decide as Hw; [|done]. simpl. destruct (signalAll l) as [r|]; [|done].
  simpl. intros [= <-]. destruct (IH r eq_refl) as (H1 & H2 & H3). split_and!.
  - constructor; [simpl in *; lia|done].
  - cbn [pendings foldr]. fold (pendings r). rewrite H2. unfold pending; simpl in *. lia.
  - by constructor.
Qed.

(** ** Examples *)

(** Every peer that was signalled reports. *)
Definition all_report (l : list (string * Signaler)) : list (string * Signaler) :=
  (λ '(u, s), (u, default s (s1 ← Listen s; Done s1))) <$> l.

Lemma all_report_reports l : reports l (all_report l).
Proof.
  induction l as [|[u s] l IH]; [constructor|]. simpl.
  destruct (Listen s) as [s1|] eqn:E1; simpl; [|by constructor].
  destruct (Done s1) as [s2|] eqn:E2; simpl; [by eapply ReportsDone|by constructor].
Qed.

Lemma withdraw_waits_for_all_witness :
  let l := [("a", mkSignaler 1 0 true false); ("b", mkSignaler 1 0 true false)] in
  (withdraw_wait [id; all_report] l 2).1.2 = 0%Z ∧ (withdraw_wait [id; all_report] l 2).2 = true.
Proof.
  intros l. destruct (withdraw_wait [id; all_report] l 2) as [[l' c] b] eqn:E.
  destruct (withdraw_waits_for_all [id; all_report] l l' c b) as [Hc Hb].
  - repeat constructor.
  - constructor; [|by constructor; [apply all_report_reports|]].
    intros l0. induction l0 as [|[u s] l0 IH]; by constructor.
  - exact E.
  - vm_compute in E. injection E as <- <- <-. split; [done|]. apply Hb; [done|]. repeat constructor.
Defined.
