(* ===== verification/Hub.v ===== *)
(** * The hub: foundation/bus/bus/hub.go, connectionhandler.go

    The hub's maps and the operations on them.  The transport is not part of
    the program's core: [Transport] is the record of its operations, and a
    connection is a number.  [W] is the state of the world behind it.  The
    balancers are used through the [Picker] interface. *)

From S2P Require Import Prelude.
From S2P Require Import Interfaces.
From S2P Require Import Message.
From S2P Require Import Signaler.

Definition tunnelRetryCount : nat := 32.

Definition ErrTransportNotConfigured : error := ErrNew "transport plugin not configured".
Definition ErrTunnelNotEstablished : error := ErrNew "tunnel cannot be established".
Definition ErrNodeWithdrawn : error := ErrNew "node has withdrawn from the mesh".

Record TransportHandshake : Type := mkHandshake {
  hs_UUID : string; hs_BelongsTo : string; hs_Interests : list string
}.

Record TransportHandshakeAck : Type := mkAck {
  Accept : bool; ack_UUID : string; ack_BelongsTo : string; ack_Interests : list string
}.

(** The mesh and bridge transports and the discovery plugin, in a world [W].
    [t_IncomingHandshake] is given the callback and says which handshake it was
    called with, if it was. *)
Record Transport (W : Type) : Type := mkTransport {
  t_Connect : string → W → result Z * W;
  t_ConnectTopic : string → W → result Z * W;
  t_OutgoingHandshake : Z → TransportHandshake → W → result TransportHandshakeAck * W;
  t_IncomingHandshake : Z → (TransportHandshake → TransportHandshakeAck) → W →
                        option error * option TransportHandshake * W;
  t_SendMsg : Z → Message → W → option error * W;
  t_Close : Z → W → option error * W
}.
Arguments t_Connect {W}.
Arguments t_ConnectTopic {W}.
Arguments t_OutgoingHandshake {W}.
Arguments t_IncomingHandshake {W}.
Arguments t_SendMsg {W}.
Arguments t_Close {W}.

(** The log and the hub's own pod are left out; [Conn] is [None] when nil. *)
Record connectionHandler : Type := mkHandler {
  h_UUID : string;
  Conn : option Z;
  h_Signaler : Signaler;
  h_BelongsTo : string;
  h_Interests : list string
}.

Section Hub.
Context {B : Type} `{Picker B}.
Context {W : Type} (T : Transport W).

(** [started] are the connections whose handler goroutines were started. *)
Record hub : Type := mkHub {
  nodeUUID : string;
  belongsTo : string;
  interests : list string;
  hasMesh : bool;
  hasBridge : bool;
  meshConnections : gmap string connectionHandler;
  bridgeConnections : gmap string Z;
  capabilityBalancers : gmap string B;
  started : list Z
}.

Definition initHub (node bt : string) (ints : list string) (mesh bridge : bool) : hub :=
  mkHub node bt ints mesh bridge ∅ ∅ ∅ [].

Definition set_conns (h : hub) (m : gmap string connectionHandler) (bs : gmap string B)
    (st : list Z) : hub :=
  mkHub (nodeUUID h) (belongsTo h) (interests h) (hasMesh h) (hasBridge h) m (bridgeConnections h)
    bs st.

Definition connectionExists (h : hub) (uuid : string) : bool :=
  match meshConnections h !! uuid with
  | Some c => match Conn c with Some _ => true | None => false end
  | None => false
  end.

(** The loop over the interests in [addConnection]. *)
Definition addToBalancer (uuid : string) (bs : gmap string B) (c : string) : gmap string B :=
  let bs1 := match bs !! c with None => <[c := picker_empty]> bs | Some _ => bs end in
  match bs1 !! c with Some b => <[c := picker_add b uuid]> bs1 | None => bs1 end.

Definition addConnection (h : hub) (conn : Z) (uuid bt : string) (ints : list string) : hub :=
  let handler := mkHandler uuid (Some conn) NewSignaler bt ints in
  set_conns h (<[uuid := handler]> (meshConnections h))
    (foldl (addToBalancer uuid) (capabilityBalancers h) ints) (conn :: started h).

Definition setupNewConnection (h : hub) (w : W) (conn : Z) (uuid bt : string) (ints : list string) :
    hub * W :=
  if connectionExists h uuid then (h, (t_Close T conn w).2) else (addConnection h conn uuid bt ints, w).

Definition setupOutgoingConnection (h : hub) (w : W) (conn : Z) (uuid : string) : hub * W :=
  let handshake := mkHandshake (nodeUUID h) (belongsTo h) (interests h) in
  let '(r, w1) := t_OutgoingHandshake T conn handshake w in
  match r with
  | Err _ => (h, (t_Close T conn w1).2)
  | Ok ack =>
      if negb (Accept ack) then (h, (t_Close T conn w1).2)
      else if decide (uuid = "") then
        if decide (ack_UUID ack = "") then (h, (t_Close T conn w1).2)
        else setupNewConnection h w1 conn (ack_UUID ack) (ack_BelongsTo ack) (ack_Interests ack)
      else if decide (ack_UUID ack ≠ uuid) then (h, (t_Close T conn w1).2)
      else setupNewConnection h w1 conn uuid (ack_BelongsTo ack) (ack_Interests ack)
  end.

Definition connectEndpoint (h : hub) (w : W) (endpoint uuid : string) : option error * hub * W :=
  if negb (hasMesh h) then (Some ErrTransportNotConfigured, h, w)
  else
    let '(r, w1) := t_Connect T endpoint w in
    match r with
    | Err e => (Some (ErrWrap e "[hub.connectEndpoint] failed to transport.CreateConnection"), h, w1)
    | Ok conn => let '(h1, w2) := setupOutgoingConnection h w1 conn uuid in (None, h1, w2)
    end.

Definition addTopicConnection (h : hub) (conn : Z) (topic : string) : hub :=
  mkHub (nodeUUID h) (belongsTo h) (interests h) (hasMesh h) (hasBridge h) (meshConnections h)
    (<[topic := conn]> (bridgeConnections h)) (capabilityBalancers h) (conn :: started h).

Definition connectBridgeTopic (h : hub) (w : W) (topic : string) : option error * hub * W :=
  if negb (hasBridge h) then (Some ErrTransportNotConfigured, h, w)
  else
    let '(r, w1) := t_ConnectTopic T topic w in
    match r with
    | Err e => (Some (ErrWrap e "[hub.connectBridgeTopic] failed to transport.CreateConnection"), h, w1)
    | Ok conn => (None, addTopicConnection h conn topic, w1)
    end.

(** The callback of [handleIncomingConnection]. *)
Definition handshakeAck (h : hub) (incoming : TransportHandshake) : TransportHandshakeAck :=
  if bool_decide (hs_BelongsTo incoming ≠ belongsTo h) && bool_decide (hs_BelongsTo incoming ≠ "*")
  then mkAck false (nodeUUID h) "" [] else mkAck true (nodeUUID h) (belongsTo h) (interests h).

Definition handleIncomingConnection (h : hub) (w : W) (conn : Z) : hub * W :=
  let '(err, handshake, w1) := t_IncomingHandshake T conn (handshakeAck h) w in
  match err with
  | Some _ => (h, (t_Close T conn w1).2)
  | None =>
      match handshake with
      | None => (h, (t_Close T conn w1).2)
      | Some hs =>
          if decide (hs_UUID hs = "") then (h, (t_Close T conn w1).2)
          else if negb (Accept (handshakeAck h hs)) then (h, (t_Close T conn w1).2)
          else setupNewConnection h w1 conn (hs_UUID hs) (hs_BelongsTo hs) (hs_Interests hs)
      end
  end.

Definition discoveryHandler (h : hub) (w : W) (endpoint uuid : string) : hub * W :=
  if decide (uuid = nodeUUID h) then (h, w)
  else if connectionExists h uuid then (h, w)
  else let '(_, h1, w1) := connectEndpoint h w endpoint uuid in (h1, w1).

Definition removeMeshConnection (h : hub) (uuid : string) : hub :=
  set_conns h (delete uuid (meshConnections h)) ((λ b, picker_remove b uuid) <$> capabilityBalancers h)
    (started h).

(** The goroutine of [connectionHandler.Start] read the peer's withdrawal. *)
Definition peerWithdrew (h : hub) (uuid : string) : hub :=
  set_conns h
    (alter (λ c, mkHandler (h_UUID c) (Conn c) (SetPeerWithdrawn (h_Signaler c)) (h_BelongsTo c) (h_Interests c))
       uuid (meshConnections h))
    (capabilityBalancers h) (started h).

(** How [connectionHandler.Send] ends.  The failure of a connection goes to the
    handler's error channel, which has no buffer: unless the scan for failed
    connections receives from it, the sender blocks. *)
Inductive send_end : Type := SendOk | SendErr (e : error) | SendBlocks.

(** [heard c]: the scan receives from the error channel of [c]. *)
Context (heard : connectionHandler → bool).

Definition handlerSend (c : connectionHandler) (msg : Message) (w : W) : outcome (send_end * W) :=
  if PeerWithdrawn (h_Signaler c) then Val (SendErr ErrNodeWithdrawn, w)
  else
    match Conn c with
    | None => Panic NilDeref
    | Some conn =>
        let '(err, w1) := t_SendMsg T conn msg w in
        Val (match err with
             | Some e => if heard c then SendErr (ErrWrap e "failed to SendMsg") else SendBlocks
             | None => SendOk
             end, w1)
    end.

(** [messageHandler], with the order in which Go goes through the map; [false]
    when it blocks. *)
Fixpoint messageHandler (order : list connectionHandler) (msg : Message) (w : W) : outcome (bool * W) :=
  match order with
  | [] => Val (true, w)
  | c :: order =>
      '(r, w1) ← handlerSend c msg w;
      match r with SendBlocks => Val (false, w1) | _ => messageHandler order msg w1 end
  end.

(** One turn of the loop of [sendTunneledMessage]; a turn that finds no handler
    goes on to the next one as after a failed send. *)
Definition tunnel_attempt (h : hub) (capability : string) (b : B) (msg : Message) (w : W) :
    outcome (B * W * send_end) :=
  '(uuid, b1) ← picker_next b;
  if decide (uuid = "") then Val (b1, w, SendErr ErrTunnelNotEstablished)
  else match meshConnections h !! uuid with
       | None => Val (b1, w, SendErr ErrTunnelNotEstablished)
       | Some handler =>
           match Conn handler with
           | None => Val (b1, w, SendErr ErrTunnelNotEstablished)
           | Some _ => '(r, w1) ← handlerSend handler msg w; Val (b1, w1, r)
           end
       end.

(** What the caller of a tunnel sees. *)
Inductive tunnel_end : Type := TunnelReturns (err : option error) | TunnelBlocks.

(** The loop; [env] is what the other goroutines do to the hub between two
    turns.  The balancer is shared through the hub's map. *)
Fixpoint tunnel_loop (n : nat) (env : nat → hub → hub) (h : hub) (capability : string)
    (msg : Message) (w : W) : outcome (tunnel_end * hub * W) :=
  match n with
  | 0 => Val (TunnelReturns (Some ErrTunnelNotEstablished), h, w)
  | S n =>
      match capabilityBalancers h !! capability with
      | None => Val (TunnelReturns (Some ErrTunnelNotEstablished), h, w)
      | Some b =>
          '(b1, w1, r) ← tunnel_attempt h capability b msg w;
          let h1 := set_conns h (meshConnections h) (<[capability := b1]> (capabilityBalancers h))
                      (started h) in
          match r with
          | SendOk => Val (TunnelReturns None, h1, w1)
          | SendBlocks => Val (TunnelBlocks, h1, w1)
          | SendErr _ => tunnel_loop n env (env n h1) capability msg w1
          end
      end
  end.

Definition sendTunneledMessage (env : nat → hub → hub) (h : hub) (capability : string)
    (msg : Message) (w : W) : outcome (tunnel_end * hub * W) :=
  match capabilityBalancers h !! capability with
  | None => Val (TunnelReturns (Some ErrTunnelNotEstablished), h, w)
  | Some _ => tunnel_loop tunnelRetryCount env h capability msg w
  end.

(** [connectionHandler.Close] *)
Definition handlerClose (c : connectionHandler) (w : W) : outcome (option error * W) :=
  match Conn c with
  | None => Panic NilDeref
  | Some conn =>
      let '(err, w1) := t_Close T conn w in
      Val ((λ e, ErrWrap e "[connectionHandler.Close] failed to Conn.Close") <$> err, w1)
  end.

(** The connections that a pass of the scan closes: those with a sender on the
    error channel, and those whose peer has withdrawn. *)
Definition failed_conns (errored : connectionHandler → bool) (order : list connectionHandler) :
    list connectionHandler :=
  filter (λ c, errored c || PeerWithdrawn (h_Signaler c) = true) order.

Fixpoint close_all (l : list connectionHandler) (w : W) : outcome W :=
  match l with
  | [] => Val w
  | c :: l => '(_, w1) ← handlerClose c w; close_all l w1
  end.

(** One pass of [scanFailedMeshConnections]: [errored] says whether a sender
    waits on the handler's error channel, [order] is that of Go's map. *)
Definition scan (errored : connectionHandler → bool) (order : list connectionHandler) (h : hub)
    (w : W) : outcome (hub * W) :=
  w1 ← close_all (failed_conns errored order) w;
  Val (foldl (λ h c, removeMeshConnection h (h_UUID c)) h (failed_conns errored order), w1).

(** [stop] closes every connection and reports the last error. *)
Fixpoint hub_stop (order : list connectionHandler) (lastErr : option error) (w : W) :
    outcome (option error * W) :=
  match order with
  | [] => Val (lastErr, w)
  | c :: order =>
      match Conn c with
      | None => Panic NilDeref
      | Some conn =>
          let '(err, w1) := t_Close T conn w in
          hub_stop order (match err with Some e => Some e | None => lastErr end) w1
      end
  end.

(** ** The balancers agree with the connections *)

Definition members_of (bs : gmap string B) (c : string) : list string :=
  match bs !! c with Some b => picker_members b | None => [] end.

Record hub_wf (h : hub) : Prop := {
  hw_balancers : map_Forall (λ _ b, picker_wf b) (capabilityBalancers h);
  (** a peer is in the balancer of a capability exactly when it is connected
      and advertises the capability *)
  hw_members c v : v ∈ members_of (capabilityBalancers h) c ↔
    ∃ hd, meshConnections h !! v = Some hd ∧ c ∈ h_Interests hd;
  hw_conns : map_Forall (λ u hd, h_UUID hd = u ∧ is_Some (Conn hd) ∧ u ≠ "") (meshConnections h)
}.

Lemma hub_wf_init node bt ints mesh bridge : hub_wf (initHub node bt ints mesh bridge).
Proof.
  split; simpl.
  - apply map_Forall_empty.
  - intros c v. unfold members_of. rewrite lookup_empty. split; [set_solver|].
    intros (hd & Hhd & _). by rewrite lookup_empty in Hhd.
  - apply map_Forall_empty.
Qed.

Lemma addToBalancer_members u bs c c' :
  members_of (addToBalancer u bs c) c' = members_of bs c' ++ (if decide (c = c') then [u] else []).
Proof.
  unfold addToBalancer, members_of. destruct (bs !! c) as [b|] eqn:E.
  - rewrite E, lookup_insert. case_decide as Hc; [|by rewrite app_nil_r].
    subst. by rewrite E, picker_members_add.
  - rewrite lookup_insert_eq, !lookup_insert. case_decide as Hc.
    + subst. by rewrite E, picker_members_add, picker_members_empty.
    + by rewrite app_nil_r.
Qed.

Lemma addToBalancer_wf u bs c :
  map_Forall (λ _ b, picker_wf b) bs → map_Forall (λ _ b, picker_wf b) (addToBalancer u bs c).
Proof.
  intros Hwf. unfold addToBalancer. destruct (bs !! c) as [b|] eqn:E; rewrite ?E, ?lookup_insert_eq.
  - apply map_Forall_insert_2; [|done]. by eapply picker_wf_add, Hwf.
  - apply map_Forall_insert_2; [apply picker_wf_add, picker_wf_empty|].
    apply map_Forall_insert_2; [apply picker_wf_empty|done].
Qed.

Lemma addToBalancers u ints bs :
  map_Forall (λ _ b, picker_wf b) bs →
  map_Forall (λ _ b, picker_wf b) (foldl (addToBalancer u) bs ints) ∧
  ∀ c v, v ∈ members_of (foldl (addToBalancer u) bs ints) c ↔
         v ∈ members_of bs c ∨ (v = u ∧ c ∈ ints).
Proof.
  revert bs. induction ints as [|i ints IH]; intros bs Hwf; simpl; [set_solver|].
  destruct (IH _ (addToBalancer_wf u bs i Hwf)) as [IHw IHm]. split; [done|].
  intros c v. rewrite IHm, addToBalancer_members, elem_of_app, elem_of_cons.
  case_decide; [subst; rewrite list_elem_of_singleton|rewrite elem_of_nil]; naive_solver.
Qed.

Lemma hub_wf_add h conn u bt ints :
  hub_wf h → u ≠ "" → meshConnections h !! u = None → hub_wf (addConnection h conn u bt ints).
Proof.
  intros [Hb Hm Hc] Hu Hnone. destruct (addToBalancers u ints _ Hb) as [Hb' Hm'].
  split; simpl; [done| |].
  - intros c v. rewrite Hm', Hm. setoid_rewrite lookup_insert_Some. split.
    + intros [(hd & Hhd & Hin)|[-> Hin]]; [|eauto 6].
      exists hd. split; [|done]. right. split; [congruence|done].
    + intros (hd & [[-> <-]|[_ ?]] & Hin); [by right|]. left. eauto.
  - apply map_Forall_insert_2; [|done]. simpl. eauto.
Qed.

Lemma members_of_remove (bs : gmap string B) u c :
  members_of ((λ b, picker_remove b u) <$> bs) c = filter (λ v, v ≠ u) (members_of bs c).
Proof.
  unfold members_of. rewrite lookup_fmap. destruct (bs !! c); simpl; [|done].
  apply picker_members_remove.
Qed.

Lemma hub_wf_remove h u : hub_wf h → hub_wf (removeMeshConnection h u).
Proof.
  intros [Hb Hm Hc]. split; simpl.
  - apply map_Forall_fmap. intros c b Hcb. simpl. by eapply picker_wf_remove, Hb.
  - intros c v. rewrite members_of_remove, list_elem_of_filter, Hm.
    setoid_rewrite lookup_delete_Some. naive_solver.
  - by apply map_Forall_delete.
Qed.

Lemma hub_wf_choose h c b b' :
  hub_wf h → capabilityBalancers h !! c = Some b → picker_wf b' → picker_members b' = picker_members b →
  hub_wf (set_conns h (meshConnections h) (<[c := b']> (capabilityBalancers h)) (started h)).
Proof.
  intros [Hb Hm Hc] Hl Hw Hmem. split; simpl; [by apply map_Forall_insert_2| |done].
  intros c' v. rewrite <- Hm. unfold members_of. rewrite lookup_insert.
  case_decide; [subst; by rewrite Hl, Hmem|done].
Qed.

Lemma connectionExists_false h u :
  hub_wf h → connectionExists h u = false → meshConnections h !! u = None.
Proof.
  intros [_ _ Hc]. unfold connectionExists. destruct (meshConnections h !! u) as [hd|] eqn:E; [|done].
  destruct (Hc u hd E) as (_ & [c ->] & _). done.
Qed.

Lemma hub_wf_setupNew h w conn u bt ints :
  hub_wf h → u ≠ "" → hub_wf (setupNewConnection h w conn u bt ints).1.
Proof.
  intros Hwf Hu. unfold setupNewConnection. destruct (connectionExists h u) eqn:E; [done|].
  apply hub_wf_add; [done..|]. by apply connectionExists_false.
Qed.

Lemma hub_wf_setupOutgoing h w conn u :
  hub_wf h → hub_wf (setupOutgoingConnection h w conn u).1.
Proof.
  intros Hwf. unfold setupOutgoingConnection. destruct (t_OutgoingHandshake _ _ _ _) as [[ack|e] w1]; [|done].
  destruct (negb (Accept ack)); [done|]. repeat case_decide; try done; by apply hub_wf_setupNew.
Qed.

Lemma hub_wf_connectEndpoint h w e u : hub_wf h → hub_wf (connectEndpoint h w e u).1.2.
Proof.
  intros Hwf. unfold connectEndpoint. destruct (negb (hasMesh h)); [done|].
  destruct (t_Connect _ _ _) as [[conn|err] w1]; [|done].
  pose proof (hub_wf_setupOutgoing h w1 conn u Hwf).
  by destruct (setupOutgoingConnection h w1 conn u) as [h1 w2].
Qed.

Lemma hub_wf_incoming h w conn : hub_wf h → hub_wf (handleIncomingConnection h w conn).1.
Proof.
  intros Hwf. unfold handleIncomingConnection.
  destruct (t_IncomingHandshake _ _ _ _) as [[[e|] [hs|]] w1]; try done.
  case_decide; [done|]. destruct (negb _); [done|]. by apply hub_wf_setupNew.
Qed.

Lemma hub_wf_scan errored h w :
  hub_wf h → ∃ h' w', scan errored (map_to_list (meshConnections h)).*2 h w = Val (h', w') ∧ hub_wf h'.
Proof.
  intros Hwf. unfold scan.
  assert (Forall (λ c, is_Some (Conn c)) (failed_conns errored (map_to_list (meshConnections h)).*2)) as Hl.
  { apply Forall_forall. intros c [_ ([u hd] & -> & Hin)%list_elem_of_fmap]%list_elem_of_filter.
    apply elem_of_map_to_list in Hin. by destruct (hw_conns h Hwf u hd Hin) as (_ & ? & _). }
  revert Hl. generalize (failed_conns errored (map_to_list (meshConnections h)).*2) as l. intros l Hl.
  assert (∃ w', close_all l w = Val w') as [w' ->].
  { revert w. induction Hl as [|c l [conn Hc] _ IH]; intros w; simpl; [eauto|].
    unfold handlerClose. rewrite Hc. destruct (t_Close T conn w) as [e w1]. run. apply IH. }
  run. eexists _, w'. split; [done|]. clear Hl. revert h Hwf.
  induction l as [|c l IH]; intros h Hwf; simpl; [done|]. by apply IH, hub_wf_remove.
Qed.

(** Removing peers leaves the others as they are. *)
Lemma remove_all_spec (l : list connectionHandler) h :
  let h' := foldl (λ h c, removeMeshConnection h (h_UUID c)) h l in
  (∀ v hd, meshConnections h' !! v = Some hd ↔ meshConnections h !! v = Some hd ∧ v ∉ h_UUID <$> l) ∧
  (∀ c, members_of (capabilityBalancers h') c `sublist_of` members_of (capabilityBalancers h) c) ∧
  nodeUUID h' = nodeUUID h ∧ belongsTo h' = belongsTo h ∧ interests h' = interests h ∧ hasMesh h' = hasMesh h.
Proof.
  revert h. induction l as [|c l IH]; intros h; simpl.
  - split; [|done]. intros v hd. split; [intros Hv; split; [done|apply not_elem_of_nil]|by intros [Hv _]].
  - destruct (IH (removeMeshConnection h (h_UUID c))) as (E & M & Hrest). split; [|split; [|exact Hrest]].
    + intros v hd. rewrite E. simpl. rewrite lookup_delete_Some, not_elem_of_cons. naive_solver.
    + intros cap. etrans; [apply M|]. simpl. rewrite members_of_remove. apply sublist_filter.
Qed.

(** The scan removes the peers whose connection has failed or that have withdrawn,
    and closes their connections. *)
Lemma scan_spec errored h w h' w' :
  hub_wf h → scan errored (map_to_list (meshConnections h)).*2 h w = Val (h', w') →
  hub_wf h' ∧
  (∀ v hd, meshConnections h' !! v = Some hd ↔
     meshConnections h !! v = Some hd ∧ errored hd = false ∧ PeerWithdrawn (h_Signaler hd) = false) ∧
  (∀ c, members_of (capabilityBalancers h') c `sublist_of` members_of (capabilityBalancers h) c) ∧
  (nodeUUID h' = nodeUUID h ∧ belongsTo h' = belongsTo h ∧ interests h' = interests h ∧ hasMesh h' = hasMesh h) ∧
  close_all (failed_conns errored (map_to_list (meshConnections h)).*2) w = Val w'.
Proof.
  intros Hwf E. destruct (hub_wf_scan errored h w Hwf) as (h1 & w1 & E' & Hwf'). rewrite E in E'. injection E' as <- <-.
  split; [done|]. unfold scan in E. set (l := failed_conns errored (map_to_list (meshConnections h)).*2) in *.
  destruct (close_all l w) as [w1|] eqn:Ec; [|done]. run. injection E as <- <-.
  destruct (remove_all_spec l h) as (Hl & Hm & Hrest). split; [|done]. intros v hd. rewrite Hl.
  assert (∀ c, c ∈ l ↔ (errored c || PeerWithdrawn (h_Signaler c) = true) ∧ meshConnections h !! h_UUID c = Some c) as Hin.
  { intros c. unfold l, failed_conns. rewrite list_elem_of_filter, list_elem_of_fmap. split.
    - intros [Hf ([u c'] & -> & Hu%elem_of_map_to_list)]. split; [done|]. simpl. by destruct (hw_conns h Hwf u c' Hu) as (-> & _).
    - intros [Hf Hc]. split; [done|]. exists (h_UUID c, c). split; [done|]. by apply elem_of_map_to_list. }
  split; intros [Hv Hrest']; (split; [done|]).
  - destruct (hw_conns h Hwf v hd Hv) as (Hu & _). apply orb_false_iff, not_true_is_false. intros Hf. apply Hrest'.
    rewrite <- Hu. apply list_elem_of_fmap_2, Hin. by rewrite Hu.
  - intros (c & -> & Hc%Hin)%list_elem_of_fmap. destruct Hc as [Hf Hc]. rewrite Hv in Hc. injection Hc as ->.
    destruct Hrest' as [H1' H2']. by rewrite H1', H2' in Hf.
Qed.

Lemma hub_wf_withdrew h u : hub_wf h → hub_wf (peerWithdrew h u).
Proof.
  intros [Hb Hm Hc]. split; simpl; [done| |].
  - intros c v. rewrite Hm. destruct (decide (u = v)) as [->|Hne].
    + rewrite lookup_alter_eq. destruct (meshConnections h !! v); naive_solver.
    + by rewrite lookup_alter_ne.
  - intros v hd Hv. apply lookup_alter_Some in Hv as [(-> & hd0 & Hv & ->)|[_ Hv]]; simpl; [|by apply Hc].
    destruct (Hc _ _ Hv) as (? & ? & ?). eauto.
Qed.

Lemma set_conns_self h : set_conns h (meshConnections h) (capabilityBalancers h) (started h) = h.
Proof. by destruct h. Qed.

(** A choice of the balancer and what is left of the hub. *)
Lemma balancer_choose h c b :
  hub_wf h → capabilityBalancers h !! c = Some b →
  ∃ u b', picker_next b = Val (u, b') ∧ picker_members b' = picker_members b ∧
    hub_wf (set_conns h (meshConnections h) (<[c := b']> (capabilityBalancers h)) (started h)) ∧
    (u = "" ∨ ∃ hd conn, meshConnections h !! u = Some hd ∧ c ∈ h_Interests hd ∧ Conn hd = Some conn).
Proof.
  intros Hwf Hb. pose proof (hw_balancers h Hwf c b Hb) as Hbw.
  destruct (decide (picker_members b = [])) as [Em|Em].
  - exists "", b. split; [by apply picker_next_empty|]. split; [done|]. split; [|by left].
    rewrite insert_id by done. by rewrite set_conns_self.
  - destruct (picker_next_member b Hbw Em) as (u & b' & E & Hu & Hm & Hw').
    exists u, b'. split; [done|]. split; [done|]. split; [by eapply hub_wf_choose|]. right.
    destruct (proj1 (hw_members h Hwf c u)) as (hd & Hhd & Hin).
    { unfold members_of. by rewrite Hb. }
    destruct (hw_conns h Hwf u hd Hhd) as (_ & [conn Hc] & _). eauto.
Qed.

(** An attempt writes to one connection of a peer with the capability, or to
    none. *)
Lemma tunnel_attempt_spec h c b msg w :
  hub_wf h → capabilityBalancers h !! c = Some b →
  ∃ b1 w1 r, tunnel_attempt h c b msg w = Val (b1, w1, r) ∧
    hub_wf (set_conns h (meshConnections h) (<[c := b1]> (capabilityBalancers h)) (started h)) ∧
    (w1 = w ∨ ∃ u hd conn, meshConnections h !! u = Some hd ∧ c ∈ h_Interests hd ∧
       PeerWithdrawn (h_Signaler hd) = false ∧ Conn hd = Some conn ∧ w1 = (t_SendMsg T conn msg w).2).
Proof.
  intros Hwf Hb. destruct (balancer_choose h c b Hwf Hb) as (u & b' & E & _ & Hwf' & Hu).
  unfold tunnel_attempt. rewrite E. run. case_decide as Hne; [eauto 7|].
  destruct Hu as [|(hd & conn & Hhd & Hin & Hc)]; [done|].
  rewrite Hhd, Hc. unfold handlerSend. rewrite Hc.
  destruct (PeerWithdrawn (h_Signaler hd)) eqn:Hpw; run; [eauto 7|].
  destruct (t_SendMsg T conn msg w) as [err w1] eqn:Es; run. eexists _, _, _. split; [done|]. split; [done|].
  right. exists u, hd, conn. by rewrite Es.
Qed.

Lemma hub_wf_tunnel h c msg w :
  hub_wf h → ∃ r h' w', sendTunneledMessage (λ _ h, h) h c msg w = Val (r, h', w') ∧ hub_wf h'.
Proof.
  intros Hwf. unfold sendTunneledMessage. destruct (capabilityBalancers h !! c) as [b0|]; [|eauto 7].
  clear b0. revert h w Hwf. induction tunnelRetryCount as [|n IH]; intros h w Hwf; simpl; [eauto 7|].
  destruct (capabilityBalancers h !! c) as [b|] eqn:Hb; [|eauto 7].
  destruct (tunnel_attempt_spec h c b msg w Hwf Hb) as (b1 & w1 & r & -> & Hwf1 & _). run.
  destruct r; [eauto 7|by apply IH|eauto 7].
Qed.

(** ** Histories of a hub *)

Inductive hub_op : Type :=
| OpConnect (endpoint uuid : string)
| OpTopic (topic : string)
| OpIncoming (conn : Z)
| OpDiscovered (endpoint uuid : string)
| OpWithdrawn (uuid : string)
| OpTunnel (capability : string) (msg : Message)
| OpScan (errored : connectionHandler → bool).

Definition hub_step (s : hub * W) (op : hub_op) : outcome (hub * W) :=
  let '(h, w) := s in
  match op with
  | OpConnect e u => let '(_, h1, w1) := connectEndpoint h w e u in Val (h1, w1)
  | OpTopic t => let '(_, h1, w1) := connectBridgeTopic h w t in Val (h1, w1)
  | OpIncoming c => Val (handleIncomingConnection h w c)
  | OpDiscovered e u => Val (discoveryHandler h w e u)
  | OpWithdrawn u => Val (peerWithdrew h u, w)
  | OpTunnel c msg => '(_, h1, w1) ← sendTunneledMessage (λ _ h, h) h c msg w; Val (h1, w1)
  | OpScan errored => scan errored (map_to_list (meshConnections h)).*2 h w
  end.

Fixpoint hub_run (s : hub * W) (ops : list hub_op) : outcome (hub * W) :=
  match ops with [] => Val s | op :: ops => s1 ← hub_step s op; hub_run s1 ops end.

Lemma hub_step_wf s op : hub_wf s.1 → ∃ s', hub_step s op = Val s' ∧ hub_wf s'.1.
Proof.
  destruct s as [h w]. simpl. intros Hwf. destruct op as [e u|t|c|e u|u|c msg|errored]; simpl.
  - pose proof (hub_wf_connectEndpoint h w e u Hwf). destruct (connectEndpoint h w e u) as [[??]?]. eauto.
  - unfold connectBridgeTopic. destruct (negb (hasBridge h)); [eauto|].
    destruct (t_ConnectTopic _ _ _) as [[conn|err] w1]; [|eauto]. eexists. split; [done|]. by destruct Hwf.
  - eexists. split; [done|]. by apply hub_wf_incoming.
  - eexists. split; [done|]. unfold discoveryHandler. case_decide; [done|]. destruct (connectionExists h u); [done|].
    pose proof (hub_wf_connectEndpoint h w e u Hwf). by destruct (connectEndpoint h w e u) as [[??]?].
  - eexists. split; [done|]. by apply hub_wf_withdrew.
  - destruct (hub_wf_tunnel h c msg w Hwf) as (r & h' & w' & -> & Hwf'). run. by eexists.
  - destruct (hub_wf_scan errored h w Hwf) as (h' & w' & -> & Hwf'). by eexists.
Qed.

(** C6: Any list of operations of the hub, one after the other (outgoing and
    incoming connections, discovery, bridge topics, withdrawals of peers, tunnels,
    scans for failed connections), runs without a panic, and then the balancer of
    a capability lists exactly the connected peers that declared that capability
    in their handshake. *)
Theorem hub_capabilities_sound node bt ints mesh bridge ops w :
  ∃ h w', hub_run (initHub node bt ints mesh bridge, w) ops = Val (h, w') ∧
    ∀ c v, v ∈ members_of (capabilityBalancers h) c ↔
      ∃ hd, meshConnections h !! v = Some hd ∧ c ∈ h_Interests hd.
Proof.
  assert (hub_wf (initHub node bt ints mesh bridge, w).1) as Hwf by apply hub_wf_init.
  revert Hwf. generalize (initHub node bt ints mesh bridge, w) as s.
  induction ops as [|op ops IH]; intros s Hwf; simpl.
  - destruct s as [h w']. exists h, w'. split; [done|]. apply (hw_members h Hwf).
  - destruct (hub_step_wf s op Hwf) as (s1 & -> & Hwf1). by apply IH.
Qed.

(** ** Tunnels *)

Section Targets.
Context (capability : string) (msg : Message) (P : W → Prop) (target : Z → Prop).
Hypothesis HP : ∀ conn w, target conn → P w → P (t_SendMsg T conn msg w).2.

(** The connections that the hub has for the capability are [target]s. *)
Definition targets (h : hub) : Prop :=
  hub_wf h ∧
  ∀ u hd conn, meshConnections h !! u = Some hd → capability ∈ h_Interests hd →
               PeerWithdrawn (h_Signaler hd) = false → Conn hd = Some conn → target conn.

(** C7: A tunneled message is only written to connections of peers that advertise
    its capability and have not withdrawn, while other goroutines change the hub
    between the attempts; the call never panics. *)
Theorem tunnel_only_to_capable env h w :
  targets h → (∀ i h, targets h → targets (env i h)) → P w →
  ∃ r h' w', sendTunneledMessage env h capability msg w = Val (r, h', w') ∧ P w'.
Proof.
  intros Ht Henv Hw. unfold sendTunneledMessage.
  destruct (capabilityBalancers h !! capability) as [b|] eqn:Hb; [|eauto 7].
  clear b Hb. revert h w Ht Hw. induction tunnelRetryCount as [|n IH]; intros h w Ht Hw; simpl; [eauto 7|].
  destruct (capabilityBalancers h !! capability) as [b|] eqn:Hb; [|eauto 7]. destruct Ht as [Hwf Ht].
  destruct (tunnel_attempt_spec h capability b msg w Hwf Hb) as (b1 & w1 & r & -> & Hwf1 & Hsent). run.
  assert (P w1) as Hw1.
  { destruct Hsent as [->|(u & hd & conn & Hhd & Hin & Hpw & Hc & ->)]; [done|]. eauto. }
  destruct r; [eauto 7| |eauto 7]. apply IH; [|done]. by apply Henv.
Qed.

End Targets.

(** ** A tunnel gets through *)

Section Reaches.
Context (capability : string) (msg : Message) (good : string) (hd : connectionHandler) (conn : Z).
Hypothesis Hconn : Conn hd = Some conn.
Hypothesis Hstays : PeerWithdrawn (h_Signaler hd) = false.
Hypothesis Hsend : ∀ w, (t_SendMsg T conn msg w).1 = None.
(** the scan takes every error that a sender reports *)
Hypothesis Hheard : ∀ c, heard c = true.

(** An attempt chooses what the balancer chooses; on [good] it succeeds. *)
Lemma tunnel_attempt_good h b u b1 w :
  picker_next b = Val (u, b1) → meshConnections h !! good = Some hd → good ≠ "" → hub_wf h →
  ∃ w1 r, tunnel_attempt h capability b msg w = Val (b1, w1, r) ∧
    match r with SendOk => True | SendErr _ => u ≠ good | SendBlocks => False end.
Proof.
  intros E Hg Hne Hwf. unfold tunnel_attempt. rewrite E. run. case_decide; [eexists _, _; split; [done|congruence]|].
  destruct (meshConnections h !! u) as [hd'|] eqn:Hu; [|eexists _, _; split; [done|congruence]].
  destruct (hw_conns h Hwf u hd' Hu) as (_ & [conn' Hc'] & _). rewrite Hc'. unfold handlerSend. rewrite Hc', Hheard.
  destruct (PeerWithdrawn (h_Signaler hd')) eqn:Hpw; run; [eexists _, _; split; [done|congruence]|].
  destruct (t_SendMsg T conn' msg w) as [[e|] w1] eqn:Es; run; eexists _, _; (split; [done|]); [|done].
  intros ->. specialize (Hsend w). replace conn' with conn in Es by congruence. by rewrite Es in Hsend.
Qed.

(** The attempts of a loop of [n] turns visit what [n] choices visit. *)
Lemma tunnel_loop_reaches n h b us b' w :
  capabilityBalancers h !! capability = Some b → meshConnections h !! good = Some hd → good ≠ "" → hub_wf h →
  picks n b = Val (us, b') → good ∈ us →
  ∃ h' w', tunnel_loop n (λ _ h, h) h capability msg w = Val (TunnelReturns None, h', w').
Proof.
  intros Hb Hg Hne Hwf. revert h b us w Hb Hg Hwf. induction n as [|n IH]; intros h b us w Hb Hg Hwf Hp Hin.
  { simpl in Hp. simplify_eq. by apply not_elem_of_nil in Hin. }
  simpl in Hp. simpl. rewrite Hb. destruct (picker_next b) as [[u b1]|] eqn:E; [|done]. run.
  destruct (picks n b1) as [[us1 b2]|] eqn:Ep; [|done]. run. simplify_eq.
  destruct (tunnel_attempt_spec h capability b msg w Hwf Hb) as (b1' & w1' & r' & Ha & Hwf1 & _).
  destruct (tunnel_attempt_good h b u b1 w E Hg Hne Hwf) as (w1 & r & Ha' & Hr). rewrite Ha' in Ha. simplify_eq.
  rewrite Ha'. run. destruct r' as [|e|]; [eauto| |done].
  apply (IH _ b1' us1); [by apply lookup_insert_eq|done|done|done|].
  by apply elem_of_cons in Hin as [|].
Qed.

Lemma tunnel_loop_more n m h w h' w' :
  tunnel_loop n (λ _ h, h) h capability msg w = Val (TunnelReturns None, h', w') → n ≤ m →
  tunnel_loop m (λ _ h, h) h capability msg w = Val (TunnelReturns None, h', w').
Proof.
  revert m h w. induction n as [|n IH]; intros [|m] h w; simpl; try done; [lia|].
  destruct (capabilityBalancers h !! capability) as [b|]; [|done].
  destruct (tunnel_attempt h capability b msg w) as [[[b1 w1] []]|]; run; try done.
  intros Hl Hle. apply IH; [done|lia].
Qed.

(** The gaps below [n] in which the balancer of the capability changes. *)
Definition gaps (touched : list nat) (n : nat) : nat := length (filter (λ i, i < n) touched).

Lemma gaps_S touched n : gaps touched (S n) ≥ gaps touched n + (if decide (n ∈ touched) then 1 else 0).
Proof.
  unfold gaps. induction touched as [|i l IH].
  { rewrite decide_False by apply not_elem_of_nil. simpl. lia. }
  rewrite !filter_cons. destruct (decide (n ∈ l)) as [Hl|Hl].
  - rewrite (decide_True (P := n ∈ i :: l)) by (by right). repeat case_decide; simpl; lia.
  - destruct (decide (n = i)) as [->|Hne].
    + rewrite (decide_True (P := i ∈ i :: l)) by left. repeat case_decide; simpl; lia.
    + rewrite (decide_False (P := n ∈ i :: l)) by (intros [|]%elem_of_cons; done). repeat case_decide; simpl; lia.
Qed.

Lemma gaps_le touched n : gaps touched n ≤ length touched.
Proof. apply length_filter. Qed.

(** What the other goroutines keep: the good peer stays, and no more than [m] peers
    are listed. *)
Definition steady (m : nat) (h : hub) : Prop :=
  hub_wf h ∧ meshConnections h !! good = Some hd ∧
  length (members_of (capabilityBalancers h) capability) ≤ m.

Lemma steady_next m h b u b1 w :
  steady m h → capabilityBalancers h !! capability = Some b → picker_next b = Val (u, b1) →
  ∃ w1 r, tunnel_attempt h capability b msg w = Val (b1, w1, r) ∧
    match r with SendOk => True | SendErr _ => u ≠ good | SendBlocks => False end ∧
    steady m (set_conns h (meshConnections h) (<[capability := b1]> (capabilityBalancers h)) (started h)).
Proof.
  intros (Hwf & Hg & Hm) Hb E. destruct (hw_conns h Hwf good hd Hg) as (_ & _ & Hne).
  destruct (tunnel_attempt_good h b u b1 w E Hg Hne Hwf) as (w1 & r & Ha & Hr).
  destruct (tunnel_attempt_spec h capability b msg w Hwf Hb) as (b1' & w1' & r' & Ha' & Hwf1 & _).
  rewrite Ha in Ha'. simplify_eq. exists w1', r'. split; [done|]. split; [done|]. split; [done|].
  split; [done|]. simpl. unfold members_of in *. rewrite lookup_insert_eq. rewrite Hb in Hm.
  destruct (decide (picker_members b = [])) as [E0|E0].
  - rewrite (picker_next_empty b E0) in E. injection E as _ <-. by rewrite E0; simpl; lia.
  - destruct (picker_next_member b (hw_balancers h Hwf _ b Hb) E0) as (u' & b'' & E' & _ & Hmem & _).
    rewrite E in E'. injection E' as _ <-. by rewrite Hmem.
Qed.

(** From a well-formed state a round of choices meets the good peer. *)
Lemma steady_round m h :
  steady m h → capability ∈ h_Interests hd →
  ∃ b us b', capabilityBalancers h !! capability = Some b ∧ picks (length (picker_members b)) b = Val (us, b') ∧
    length (picker_members b) ≤ m ∧ good ∈ us.
Proof.
  intros (Hwf & Hg & Hm) Hin. assert (good ∈ members_of (capabilityBalancers h) capability) as Hgm.
  { apply (hw_members h Hwf). eauto. }
  unfold members_of in *. destruct (capabilityBalancers h !! capability) as [b|] eqn:Hb; [|by apply not_elem_of_nil in Hgm].
  destruct (picker_fair b (hw_balancers h Hwf _ b Hb)) as (us & b' & Hp & Hperm).
  exists b, us, b'. split; [done|]. split; [done|]. split; [done|]. by rewrite Hperm.
Qed.

(** [p] more choices meet the good peer; every change of the balancer can cost the
    rest of a round. *)
Lemma tunnel_loop_interfered env touched m n h b p us b' w :
  (∀ i h, steady m h → steady m (env i h)) → capability ∈ h_Interests hd →
  (∀ i h, i ∉ touched → capabilityBalancers (env i h) !! capability = capabilityBalancers h !! capability) →
  steady m h → capabilityBalancers h !! capability = Some b →
  picks p b = Val (us, b') → good ∈ us → p ≤ m → p + gaps touched n * (m - 1) ≤ n →
  ∃ h' w', tunnel_loop n env h capability msg w = Val (TunnelReturns None, h', w').
Proof.
  intros Henv Hin Hsame. revert h b p us b' w.
  induction n as [|n IH]; intros h b p us b' w Hst Hb Hp Hgood Hpm Hn.
  { destruct p; [|nia]. simpl in Hp. simplify_eq. by apply not_elem_of_nil in Hgood. }
  destruct p as [|p]; [simpl in Hp; simplify_eq; by apply not_elem_of_nil in Hgood|].
  simpl in Hp. destruct (picker_next b) as [[u b1]|] eqn:E; [|done]. run.
  destruct (picks p b1) as [[us1 b2]|] eqn:Ep; [|done]. run. simplify_eq.
  simpl. rewrite Hb. destruct (steady_next m h b u b1 w Hst Hb E) as (w1 & r & -> & Hr & Hst1). run.
  destruct r as [|e|]; [eauto| |done]. pose proof (gaps_S touched n) as Hgaps.
  apply elem_of_cons in Hgood as [|Hgood]; [done|].
  assert (p ≠ 0) as Hp0 by (intros ->; simpl in Ep; simplify_eq; by apply not_elem_of_nil in Hgood).
  set (h1 := set_conns h _ _ _) in *. destruct (decide (n ∈ touched)) as [Ht|Ht].
  - destruct (steady_round m (env n h1) (Henv n h1 Hst1) Hin) as (b3 & us3 & b3' & Hb3 & Hp3 & Hl3 & Hg3).
    apply (IH _ b3 (length (picker_members b3)) us3 b3'); [by apply Henv|done..|]. nia.
  - apply (IH _ b1 p us1 b'); [by apply Henv| |done|done|lia|nia].
    rewrite Hsame by done. simpl. by rewrite lookup_insert_eq.
Qed.

(** C5: When a connected peer that advertises the capability has not withdrawn and
    takes messages, and the scan takes the errors that senders report,
    sendTunneledMessage succeeds however the sends to the other peers fail, while
    other goroutines change the hub between the attempts: with at most m peers
    listed for the capability at any time and the balancer of the capability
    changed in at most k of the gaps (a peer added or removed, another tunnel), it
    succeeds when m + k * (m - 1) is at most tunnelRetryCount, 32; without changes
    that is up to 32 peers. With more a working peer can be missed, as Remove puts
    the index into the middle of the list (lemma tunnel_misses_peer). *)
Theorem tunnel_reaches_peer env touched m h w :
  steady m h → capability ∈ h_Interests hd →
  (∀ i h, steady m h → steady m (env i h)) →
  (∀ i h, i ∉ touched → capabilityBalancers (env i h) !! capability = capabilityBalancers h !! capability) →
  m + length touched * (m - 1) ≤ tunnelRetryCount →
  ∃ h' w', sendTunneledMessage env h capability msg w = Val (TunnelReturns None, h', w').
Proof.
  intros Hst Hin Henv Hsame Hle. destruct (steady_round m h Hst Hin) as (b & us & b' & Hb & Hp & Hl & Hg).
  unfold sendTunneledMessage. rewrite Hb.
  apply (tunnel_loop_interfered env touched m _ h b (length (picker_members b)) us b'); [done..|].
  pose proof (gaps_le touched tunnelRetryCount). nia.
Qed.

End Reaches.

(** A sender on a broken connection that the scan has already removed waits for
    ever: nobody receives from its error channel any more. *)
Lemma tunnel_blocks_unheard env h c b u b1 hd conn e msg w :
  capabilityBalancers h !! c = Some b → picker_next b = Val (u, b1) → u ≠ "" →
  meshConnections h !! u = Some hd → PeerWithdrawn (h_Signaler hd) = false → Conn hd = Some conn →
  (t_SendMsg T conn msg w).1 = Some e → heard hd = false →
  ∃ h' w', sendTunneledMessage env h c msg w = Val (TunnelBlocks, h', w').
Proof.
  intros Hb E Hu Hhd Hpw Hc Hs Hh. unfold sendTunneledMessage. rewrite Hb.
  destruct tunnelRetryCount as [|n] eqn:En; [done|]. simpl. rewrite Hb. unfold tunnel_attempt. rewrite E. run.
  rewrite decide_False by done. rewrite Hhd, Hc. unfold handlerSend. rewrite Hpw, Hc, Hh.
  destruct (t_SendMsg T conn msg w) as [[e'|] w1]; [|done]. run. eauto.
Qed.

(** ** Peers that may join *)

Definition compatible (h : hub) (hs : TransportHandshake) : Prop :=
  hs_BelongsTo hs = belongsTo h ∨ hs_BelongsTo hs = "*".

Lemma handshakeAck_compatible h hs : Accept (handshakeAck h hs) = true ↔ compatible h hs.
Proof.
  unfold handshakeAck, compatible. do 2 case_bool_decide; simpl; naive_solver.
Qed.

(** An incoming connection changes the hub only for a peer with a compatible
    handshake, a UUID and no connection yet. *)
Theorem incoming_only_compatible h w conn :
  let '(_, hs, _) := t_IncomingHandshake T conn (handshakeAck h) w in
  (handleIncomingConnection h w conn).1 = h ∨
  ∃ p, hs = Some p ∧ compatible h p ∧ hs_UUID p ≠ "" ∧ connectionExists h (hs_UUID p) = false ∧
    (handleIncomingConnection h w conn).1 =
      addConnection h conn (hs_UUID p) (hs_BelongsTo p) (hs_Interests p).
Proof.
  unfold handleIncomingConnection.
  destruct (t_IncomingHandshake T conn (handshakeAck h) w) as [[[e|] [p|]] w1]; try by left.
  case_decide as Hu; [by left|]. destruct (Accept (handshakeAck h p)) eqn:Ha; simpl; [|by left].
  unfold setupNewConnection. destruct (connectionExists h (hs_UUID p)) eqn:Ee; [by left|]. right.
  exists p. by rewrite <- handshakeAck_compatible.
Qed.

(** [setupNewConnection] checks and adds under two acquisitions of the lock:
    two peers' handshakes with one UUID can both pass the check. *)
Lemma addConnection_twice h c1 c2 u bt ints :
  let h2 := addConnection (addConnection h c1 u bt ints) c2 u bt ints in
  meshConnections h2 !! u = Some (mkHandler u (Some c2) NewSignaler bt ints) ∧ c1 ∈ started h2.
Proof. simpl. rewrite lookup_insert_eq. split; [done|set_solver]. Qed.

End Hub.

(** ** Examples *)

From S2P Require Import Balancer.

(** A transport whose messages are a list in the world, and a hub with the
    peers "a" and "b" that both have the capability "fn". *)
Definition example_transport : Transport (list Z) := {|
  t_Connect e w := (Ok 1%Z, w);
  t_ConnectTopic t w := (Ok 2%Z, w);
  t_OutgoingHandshake c h w := (Ok (mkAck true "peer" "tenant" ["fn"]), w);
  t_IncomingHandshake c ack w := (None, Some (mkHandshake "peer" "tenant" ["fn"]), w);
  t_SendMsg c m w := (if decide (c = 1%Z) then Some (ErrExt "broken pipe") else None, c :: w);
  t_Close c w := (None, w)
|}.

Definition example_hub : @hub Balancer :=
  addConnection (addConnection (initHub "me" "tenant" ["x"] true false) 1 "a" "tenant" ["fn"])
    2 "b" "tenant" ["fn"].

Lemma example_hub_wf : hub_wf example_hub.
Proof.
  apply hub_wf_add; [apply hub_wf_add; [apply hub_wf_init|done|done]|done|done].
Qed.

(** The peer "a" is broken and comes first, and the scan removes it in the first gap:
    the message gets to "b". *)
Definition example_scan (i : nat) (h : @hub Balancer) : @hub Balancer :=
  if decide (i = 31) then removeMeshConnection h "a" else h.

Lemma tunnel_reaches_peer_witness :
  ∃ h' w', sendTunneledMessage example_transport (λ _, true) example_scan example_hub "fn"
             (NewMsg "u" 0 "fn" "data") [] = Val (TunnelReturns None, h', w').
Proof.
  apply (tunnel_reaches_peer example_transport (λ _, true) "fn" (NewMsg "u" 0 "fn" "data") "b"
           (mkHandler "b" (Some 2%Z) NewSignaler "tenant" ["fn"]) 2 eq_refl eq_refl (λ _, eq_refl) (λ _, eq_refl)
           example_scan [31] 2).
  - split; [apply example_hub_wf|]. split; [vm_compute; reflexivity|]. vm_compute. lia.
  - left.
  - intros i h (Hwf & Hg & Hm). unfold example_scan. case_decide; [|done].
    split; [by eapply (hub_wf_remove (λ _, true))|]. split; [simpl; by rewrite lookup_delete_ne|].
    unfold removeMeshConnection; cbn [capabilityBalancers set_conns]. rewrite members_of_remove.
    eapply Nat.le_trans; [apply length_filter|exact Hm].
  - intros i h Hi%not_elem_of_cons. unfold example_scan. by rewrite decide_False by tauto.
  - vm_compute. lia.
Defined.

(** Eleven peers that have withdrawn, and the good one behind them. *)
Definition crowded_hub : @hub Balancer :=
  let gone := ["p0"; "p1"; "p2"; "p3"; "p4"; "p5"; "p6"; "p7"; "p8"; "p9"; "p10"] in
  let h := foldl (λ h u, addConnection h 2 u "tenant" ["fn"]) (initHub "me" "tenant" ["x"] true false) gone in
  addConnection (foldl peerWithdrew h gone) 2 "good" "tenant" ["fn"].

(** The scan removes a withdrawn peer whenever it is the turn of the good one. *)
Definition untimely_scan (i : nat) (h : @hub Balancer) : @hub Balancer :=
  match capabilityBalancers h !! "fn" with
  | Some b => if decide (S (index b) = length (uuids b)) then
                match uuids b with u :: _ :: _ => removeMeshConnection h u | _ => h end
              else h
  | None => h
  end.

(** With more peers the retries may not be enough: [Remove] puts the index into the
    middle of the list, and the good peer is never chosen. *)
Lemma tunnel_misses_peer :
  ∃ h' w', sendTunneledMessage example_transport (λ _, true) untimely_scan crowded_hub "fn"
             (NewMsg "u" 0 "fn" "data") [] =
    Val (TunnelReturns (Some ErrTunnelNotEstablished), h', w') ∧
    is_Some (meshConnections h' !! "good").
Proof.
  eexists _, _. split; [vm_compute; reflexivity|]. vm_compute. by eexists.
Qed.

Lemma tunnel_only_to_capable_witness :
  ∃ r h' w', sendTunneledMessage example_transport (λ _, true) (λ _ h, h) example_hub "fn"
               (NewMsg "u" 0 "fn" "data") [] = Val (r, h', w') ∧
             Forall (λ c, c = 1%Z ∨ c = 2%Z) w'.
Proof.
  apply (tunnel_only_to_capable example_transport (λ _, true) "fn" (NewMsg "u" 0 "fn" "data")
           (Forall (λ c, c = 1%Z ∨ c = 2%Z)) (λ c, c = 1%Z ∨ c = 2%Z)).
  - intros conn w Hc Hw. by constructor.
  - split; [apply example_hub_wf|]. intros u hd conn Hu _ _. change (meshConnections example_hub) with
      (<["b" := mkHandler "b" (Some 2%Z) NewSignaler "tenant" ["fn"]]>
        {["a" := mkHandler "a" (Some 1%Z) NewSignaler "tenant" ["fn"]]} : gmap string connectionHandler) in Hu.
    apply lookup_insert_Some in Hu as [[_ <-]|[_ Hu]]; simpl; [naive_solver|].
    apply lookup_singleton_Some in Hu as [_ <-]. simpl. naive_solver.
  - done.
  - constructor.
Defined.

(** A tunnel, a withdrawal of the peer and the scan that removes it. *)
Lemma example_hub_run :
  ∃ h' w', hub_run example_transport (λ _, true) (example_hub, [])
             [OpTunnel "fn" (NewMsg "u" 0 "fn" "data"); OpWithdrawn "b"; OpScan (λ _, false)] = Val (h', w') ∧
           members_of (capabilityBalancers h') "fn" = ["a"].
Proof. eexists _, _. split; vm_compute; reflexivity. Qed.

Lemma hub_capabilities_sound_witness :
  ∃ h w', hub_run example_transport (λ _, true) (initHub (B := Balancer) "me" "tenant" ["x"] true false, [])
            [OpIncoming 2; OpWithdrawn "peer"] = Val (h, w') ∧
    ∀ c v, v ∈ members_of (capabilityBalancers h) c ↔
      ∃ hd, meshConnections h !! v = Some hd ∧ c ∈ h_Interests hd.
Proof.
  apply (hub_capabilities_sound example_transport (λ _, true) "me" "tenant" ["x"] true false
           [OpIncoming 2; OpWithdrawn "peer"] []).
Defined.
