(* ===== verification/Websocket.v ===== *)
(** * The websocket transport: foundation/bus/transport/websocket/transport.go

    What the mesh says over a websocket.  The library (gorilla/websocket) is
    another module's: [Websocket] is the record of the calls that are used, in a
    world [W], and the section [Laws] states what its documentation promises, the
    frames of a connection arriving in order.  [pipes] is such a library. *)

From S2P Require Import Prelude.
From S2P Require Import Interfaces.
From S2P Require Import Message.
From S2P Require Import Hub.

Definition MsgTypeWebsocketMessage : string := "websocket.message".
Definition withdrawMessage : string := "WITHDRAW".
Definition withdrawAckMessage : string := "WITHDRAW ACK".

Definition ErrConnectionClosed : error := ErrNew "connection was closed".
(** [websocket.ErrCloseSent], of the library *)
Definition ErrCloseSent : error := ErrNew "websocket: close sent".

Inductive messageType : Type := TextMessage | BinaryMessage.
Definition frame : Type := messageType * string.

#[export] Instance messageType_eq_dec : EqDecision messageType.
Proof. solve_decision. Defined.

(** [bus.Withdraw] *)
Record Withdraw : Type := mkWithdraw { Ack : bool }.

Record Websocket (W : Type) : Type := mkWebsocket {
  ws_Parse : string → result string;                       (* url.Parse, URL.String *)
  ws_Dial : string → W → result Z * W;
  ws_Upgrade : W → result Z * W;
  ws_WriteMessage : Z → frame → W → option error * W;
  ws_ReadMessage : Z → W → result frame * W;
  ws_Close : Z → W → option error * W
}.
Arguments ws_Parse {W}.
Arguments ws_Dial {W}.
Arguments ws_Upgrade {W}.
Arguments ws_WriteMessage {W}.
Arguments ws_ReadMessage {W}.
Arguments ws_Close {W}.

(** [errors.Wrap] of an error that may be nil *)
Definition wrap (msg : string) (e : option error) : option error := (λ e, ErrWrap e msg) <$> e.

Section Conn.
Context `{Codec Message, Codec TransportHandshake, Codec TransportHandshakeAck}.
Context {W : Type} (ws : Websocket W).

(** ** Connections *)

(** [strings.HasPrefix(endpoint, "ws")] *)
Definition Connect (endpoint : string) (w : W) : result Z * W :=
  let endpoint1 := if String.prefix "ws" endpoint then endpoint else "ws://" +:+ endpoint in
  match ws_Parse ws endpoint1 with
  | Err e => (Err e, w)
  | Ok url =>
      let '(r, w1) := ws_Dial ws url w in
      (match r with
       | Err e => Err (ErrWrap e "[transport-websocket] failed to Dial endpoint")
       | Ok c => Ok c
       end, w1)
  end.

(** The answer to an incoming request: a status, or the upgraded connection,
    which is handed to [connFunc]. *)
Definition HTTPHandlerFunc (connFunc : option (Z → W → W)) (w : W) : option Z * W :=
  match connFunc with
  | None => (Some 500%Z, w)
  | Some f =>
      let '(r, w1) := ws_Upgrade ws w in
      match r with
      | Err _ => (None, w1)
      | Ok c => (None, f c w1)
      end
  end.

(** [WriteMessage] holds the connection's lock: a frame is written as a whole. *)
Definition WriteMessage (c : Z) (f : frame) (w : W) : option error * W := ws_WriteMessage ws c f w.

Definition SendMsg (c : Z) (msg : Message) (w : W) : option error * W :=
  let '(err, w1) := WriteMessage c (BinaryMessage, Marshal msg) w in
  (match err with
   | None => None
   | Some e =>
       if errors_Is e ErrCloseSent then Some ErrConnectionClosed
       else if decide (e = ErrNodeWithdrawn) then Some e
       else Some (ErrWrap e "[transport-websocket] failed to WriteMessage")
   end, w1).

Definition SendWithdraw (c : Z) (withdraw : Withdraw) (w : W) : option error * W :=
  let message := if Ack withdraw then withdrawAckMessage else withdrawMessage in
  let '(err, w1) := WriteMessage c (TextMessage, message) w in
  (wrap "[transport-websocket] failed to WriteMessage for withdraw" err, w1).

(** What a frame says; [fresh] and [now] are for a message made of raw data. *)
Definition decode_frame (fresh : string) (now : Z) (f : frame) : Message + Withdraw :=
  let as_message := match MsgFromBytes f.2 with
                    | Ok m => m
                    | Err _ => NewMsg fresh now MsgTypeWebsocketMessage f.2
                    end in
  match f.1 with
  | TextMessage =>
      if decide (f.2 = withdrawMessage) then inr (mkWithdraw false)
      else if decide (f.2 = withdrawAckMessage) then inr (mkWithdraw true)
      else inl as_message
  | BinaryMessage => inl as_message
  end.

Definition ReadMsg (fresh : string) (now : Z) (c : Z) (w : W) : result (Message + Withdraw) * W :=
  let '(r, w1) := ws_ReadMessage ws c w in
  (match r with
   | Err e => Err (ErrWrap e "[transport-websocket] failed to ReadMessage, closing")
   | Ok f => Ok (decode_frame fresh now f)
   end, w1).

Definition Close (c : Z) (w : W) : option error * W :=
  let '(err, w1) := ws_Close ws c w in
  (wrap "[transport-websocket] failed to Close connection" err, w1).

(** ** Handshakes *)

Definition OutgoingHandshake (c : Z) (handshake : TransportHandshake) (w : W) :
    result TransportHandshakeAck * W :=
  let '(err, w1) := WriteMessage c (BinaryMessage, marshal handshake) w in
  match err with
  | Some e => (Err (ErrWrap e "failed to WriteMessage handshake"), w1)
  | None =>
      let '(r, w2) := ws_ReadMessage ws c w1 in
      (match r with
       | Err e => Err (ErrWrap e "failed to ReadMessage for handshake ack, terminating connection")
       | Ok (mt, message) =>
           if decide (mt = BinaryMessage) then
             match unmarshal message with
             | Err e => Err (ErrWrap e "failed to Unmarshal handshake ack")
             | Ok ack => Ok ack
             end
           else Err (ErrNew "first message recieved was not handshake ack")
       end, w2)
  end.

(** Also: the handshake that the callback was called with, if it was. *)
Definition IncomingHandshake (c : Z) (callback : TransportHandshake → TransportHandshakeAck) (w : W) :
    option error * option TransportHandshake * W :=
  let '(r, w1) := ws_ReadMessage ws c w in
  match r with
  | Err e => (Some (ErrWrap e "failed to ReadMessage for handshake, terminating connection"), None, w1)
  | Ok (mt, message) =>
      if decide (mt = BinaryMessage) then
        match unmarshal message with
        | Err e => (Some (ErrWrap e "failed to Unmarshal handshake"), None, w1)
        | Ok handshake =>
            let ack := callback handshake in
            let '(err, w2) := WriteMessage c (BinaryMessage, marshal ack) w1 in
            (wrap "failed to WriteMessage handshake ack" err, Some handshake, w2)
        end
      else (Some (ErrNew "first message recieved was not handshake"), None, w1)
  end.

(** The transport as the hub sees it; a mesh transport connects no topics. *)
Definition websocket_transport : Transport W := {|
  t_Connect := Connect;
  t_ConnectTopic _ w := (Err (ErrNew "not a bridge transport"), w);
  t_OutgoingHandshake := OutgoingHandshake;
  t_IncomingHandshake := IncomingHandshake;
  t_SendMsg := SendMsg;
  t_Close := Close
|}.

End Conn.

(** ** What the library promises *)

(** The connections that can be used in [w] can be used in [w1]. *)
Definition stays {W : Type} (alive : W → Z → Prop) (w w1 : W) : Prop := ∀ d, alive w d → alive w1 d.

(** [waiting w c]: the frames that were written to the other end of [c] and not
    read yet; [alive w c]: neither end of the connection [c] was closed, and it has
    not failed.  [Close] sends nothing and takes nothing back, and it ends this
    connection only. *)
Class WebsocketLaws {W : Type} (ws : Websocket W) (peer : Z → Z) (waiting : W → Z → list frame)
    (alive : W → Z → Prop) : Prop := {
  law_write c f w : alive w c → ∃ w1, ws_WriteMessage ws c f w = (None, w1) ∧ stays alive w w1 ∧
    ∀ d, waiting w1 d = waiting w d ++ (if decide (d = peer c) then [f] else []);
  law_read c f fs w : alive w c → waiting w c = f :: fs →
    ∃ w1, ws_ReadMessage ws c w = (Ok f, w1) ∧ stays alive w w1 ∧
    ∀ d, waiting w1 d = if decide (d = c) then fs else waiting w d;
  (** what is read was waiting, whatever became of the connection *)
  law_read_any c w f w1 : ws_ReadMessage ws c w = (Ok f, w1) → ∃ fs, waiting w c = f :: fs;
  law_close c d w : d ≠ c → waiting (ws_Close ws c w).2 d = waiting w d;
  law_close_alive c d w : d ≠ c → d ≠ peer c → alive w d → alive (ws_Close ws c w).2 d;
  law_alive_peer w c : alive w c → alive w (peer c);
  law_peer c : peer (peer c) = c ∧ peer c ≠ c
}.

(** ** What one end says and the other hears *)

Section Laws.
Context `{Codec Message, Codec TransportHandshake, Codec TransportHandshakeAck}.
Context {W : Type} (ws : Websocket W) (peer : Z → Z) (waiting : W → Z → list frame) (alive : W → Z → Prop).
Context `{!WebsocketLaws ws peer waiting alive}.

Definition item : Type := Message + Withdraw.

Definition frame_of (i : item) : frame :=
  match i with
  | inl m => (BinaryMessage, Marshal m)
  | inr wd => (TextMessage, if Ack wd then withdrawAckMessage else withdrawMessage)
  end.

Lemma decode_frame_of fresh now i : decode_frame fresh now (frame_of i) = i.
Proof.
  destruct i as [m|[[]]]; unfold decode_frame, frame_of, MsgFromBytes, Marshal; simpl; try done.
  by rewrite unmarshal_marshal.
Qed.

Definition send_item (c : Z) (i : item) (w : W) : option error * W :=
  match i with inl m => SendMsg ws c m w | inr wd => SendWithdraw ws c wd w end.

Lemma send_item_ok c i w :
  alive w c → ∃ w1, send_item c i w = (None, w1) ∧ stays alive w w1 ∧
    ∀ d, waiting w1 d = waiting w d ++ (if decide (d = peer c) then [frame_of i] else []).
Proof.
  intros Hw. destruct (law_write c (frame_of i) w Hw) as (w1 & E & Hw1 & Hq). exists w1. split; [|done].
  destruct i as [m|wd]; unfold send_item, SendMsg, SendWithdraw, WriteMessage; simpl in E; by rewrite E.
Qed.

(** One end [c] sends, the other end reads when there is something to read, the
    other way round, and other connections are used. *)
Inductive link_step (c : Z) : list item * list item * W → list item * list item * W → Prop :=
| LinkSend i sent got w w1 :
    send_item c i w = (None, w1) → link_step c (sent, got, w) (sent ++ [i], got, w1)
| LinkRead fresh now i sent got w w1 :
    waiting w (peer c) ≠ [] → ReadMsg ws fresh now (peer c) w = (Ok i, w1) →
    link_step c (sent, got, w) (sent, got ++ [i], w1)
| LinkOtherSend d i sent got w w1 :
    d ≠ c → send_item d i w = (None, w1) → link_step c (sent, got, w) (sent, got, w1)
| LinkOtherRead fresh now d sent got w x w1 :
    d ≠ peer c → waiting w d ≠ [] → ReadMsg ws fresh now d w = (x, w1) →
    link_step c (sent, got, w) (sent, got, w1).

(** Sent, in order, is what was heard and what is on its way. *)
Definition link_ok (c : Z) (s : list item * list item * W) : Prop :=
  (∀ d, alive s.2 d) ∧ ∃ flight, waiting s.2 (peer c) = frame_of <$> flight ∧ s.1.1 = s.1.2 ++ flight.

Lemma peer_inj c d : peer c = peer d → c = d.
Proof. intros E. rewrite <- (proj1 (law_peer c)), <- (proj1 (law_peer d)). by rewrite E. Qed.

Lemma ReadMsg_ok fresh now d f fs w :
  alive w d → waiting w d = f :: fs →
  ∃ w1, ReadMsg ws fresh now d w = (Ok (decode_frame fresh now f), w1) ∧ stays alive w w1 ∧
    ∀ d', waiting w1 d' = if decide (d' = d) then fs else waiting w d'.
Proof.
  intros Hw Hq. destruct (law_read d f fs w Hw Hq) as (w1 & E & Hw1 & Hq1). exists w1. split; [|done].
  unfold ReadMsg. by rewrite E.
Qed.

Lemma link_step_ok c s s' : link_step c s s' → link_ok c s → link_ok c s'.
Proof.
  destruct 1 as [i sent got w w1 E|fresh now i sent got w w1 Hne E|d i sent got w w1 Hd E|fresh now d sent got w x w1 Hd Hne E];
    intros (Hw & flight & Hq & Hs); simpl in *.
  - destruct (send_item_ok c i w (Hw _)) as (w2 & E2 & Hw2 & Hq2). rewrite E in E2. injection E2 as <-.
    split; [by intros d'; apply Hw2, Hw|]. exists (flight ++ [i]). simpl. rewrite Hq2, decide_True, Hq, fmap_app by done.
    split; [done|]. by rewrite Hs, app_assoc.
  - destruct flight as [|i0 flight]; [by rewrite Hq in Hne|]. simpl in Hq.
    destruct (ReadMsg_ok fresh now (peer c) _ _ w (Hw _) Hq) as (w2 & E2 & Hw2 & Hq2).
    rewrite E, decode_frame_of in E2. injection E2 as <- <-.
    split; [by intros d'; apply Hw2, Hw|]. exists flight. simpl. rewrite Hq2, decide_True by done. split; [done|].
    by rewrite Hs, <- app_assoc.
  - destruct (send_item_ok d i w (Hw _)) as (w2 & E2 & Hw2 & Hq2). rewrite E in E2. injection E2 as <-.
    split; [by intros d'; apply Hw2, Hw|]. exists flight. simpl. rewrite Hq2, decide_False, app_nil_r; [done|].
    by intros ->%peer_inj.
  - destruct (waiting w d) as [|f fs] eqn:Hf; [done|].
    destruct (ReadMsg_ok fresh now d f fs w (Hw _) Hf) as (w2 & E2 & Hw2 & Hq2). rewrite E in E2. injection E2 as _ <-.
    split; [by intros d'; apply Hw2, Hw|]. exists flight. simpl. rewrite Hq2, decide_False by done. done.
Qed.

(** C26: Under any interleaving of sends and reads over a connection and of the
    use of other connections, what one end sent is what the other end has read, in
    order, followed by what is on its way, and the next read gives the first of
    that: messages and withdrawals are neither lost nor changed nor taken for one
    another. *)
Theorem link_in_order c w sent got w' :
  (∀ d, alive w d) → waiting w (peer c) = [] → rtc (link_step c) ([], [], w) (sent, got, w') →
  ∃ flight, sent = got ++ flight ∧ waiting w' (peer c) = frame_of <$> flight ∧
    ∀ fresh now i rest, flight = i :: rest →
      ∃ w1, ReadMsg ws fresh now (peer c) w' = (Ok i, w1).
Proof.
  intros Hw Hq Hrun.
  assert (link_ok c (sent, got, w')) as (Hw' & flight & Hq' & Hs).
  { assert (link_ok c ([], [], w)) as Hinit by (split; [done|]; by exists []). revert Hinit.
    generalize ([] : list item, [] : list item, w) (sent, got, w') Hrun.
    induction 1; eauto using link_step_ok. }
  simpl in *. exists flight. split; [done|]. split; [done|]. intros fresh now i rest ->. simpl in Hq'.
  destruct (ReadMsg_ok fresh now _ _ _ w' (Hw' _) Hq') as (w1 & E & _). exists w1. by rewrite E, decode_frame_of.
Qed.

(** ** Two hubs *)

Context {B : Type} `{Picker B}.

(** The library as the dialling hub sees it, when the other end of the connection
    is another hub: that hub has handled the incoming connection when the answer
    of a read is there. *)
Definition facing : Websocket (W * hub (B := B)) := {|
  ws_Parse := ws_Parse ws;
  ws_Dial e x := let '(r, w) := ws_Dial ws e x.1 in (r, (w, x.2));
  ws_Upgrade x := let '(r, w) := ws_Upgrade ws x.1 in (r, (w, x.2));
  ws_WriteMessage c f x := let '(r, w) := ws_WriteMessage ws c f x.1 in (r, (w, x.2));
  ws_ReadMessage c x :=
    let '(h, w) := handleIncomingConnection (websocket_transport ws) x.2 x.1 (peer c) in
    let '(r, w1) := ws_ReadMessage ws c w in (r, (w1, h));
  ws_Close c x := let '(r, w) := ws_Close ws c x.1 in (r, (w, x.2))
|}.

Definition handshake_of (h : hub (B := B)) : TransportHandshake := mkHandshake (nodeUUID h) (belongsTo h) (interests h).

(** The other hub reads the handshake and answers. *)
Lemma incoming_handshake (h : hub (B := B)) w d hs :
  alive w d → waiting w d = [(BinaryMessage, marshal hs)] →
  ∃ w1, IncomingHandshake ws d (handshakeAck h) w = (None, Some hs, w1) ∧ stays alive w w1 ∧
    ∀ d', waiting w1 d' = (if decide (d' = d) then [] else waiting w d') ++
                          (if decide (d' = peer d) then [(BinaryMessage, marshal (handshakeAck h hs))] else []).
Proof.
  intros Hw Hq. destruct (law_read d _ _ w Hw Hq) as (w1 & E & Hw1 & Hq1).
  destruct (law_write d (BinaryMessage, marshal (handshakeAck h hs)) w1 (Hw1 d Hw)) as (w2 & E2 & Hw2 & Hq2).
  exists w2. unfold IncomingHandshake, WriteMessage. rewrite E, decide_True, unmarshal_marshal, E2 by done.
  split_and!; [done|by intros d' Hd'; apply Hw2, Hw1|]. intros d'. by rewrite Hq2, Hq1.
Qed.

Lemma Close_keeps c d w : d ≠ c → waiting (Close ws c w).2 d = waiting w d.
Proof.
  intros Hd. unfold Close. pose proof (law_close c d w Hd). by destruct (ws_Close ws c w).
Qed.

(** What the dialling hub learns, and what the other hub does meanwhile. *)
Lemma outgoing_handshake (hA hB : hub (B := B)) w c :
  alive w c → waiting w c = [] → waiting w (peer c) = [] → nodeUUID hA ≠ "" →
  let hs := handshake_of hA in
  ∃ r w', OutgoingHandshake facing c hs (w, hB) =
      (r, (w', if Accept (handshakeAck hB hs)
               then if connectionExists hB (nodeUUID hA) then hB
                    else addConnection hB (peer c) (nodeUUID hA) (belongsTo hA) (interests hA)
               else hB)) ∧
    (∀ ack, r = Ok ack → ack = handshakeAck hB hs) ∧
    (Accept (handshakeAck hB hs) = true → connectionExists hB (nodeUUID hA) = false →
       r = Ok (handshakeAck hB hs) ∧ stays alive w w' ∧ ∀ d, waiting w' d = waiting w d).
Proof.
  intros Hw Hqc Hqp Hid hs. destruct (law_peer c) as [Hpp Hpc].
  destruct (law_write c (BinaryMessage, marshal hs) w Hw) as (w1 & E1 & Hw1 & Hq1).
  assert (waiting w1 (peer c) = [(BinaryMessage, marshal hs)]) as Hq1p.
  { by rewrite Hq1, Hqp, decide_True. }
  destruct (incoming_handshake hB w1 (peer c) hs (Hw1 _ (law_alive_peer _ _ Hw)) Hq1p) as (w2 & E2 & Hw2 & Hq2).
  assert (waiting w2 c = [(BinaryMessage, marshal (handshakeAck hB hs))]) as Hq2c.
  { rewrite Hq2, Hpp, (decide_True (P := c = c)), decide_False, Hq1, Hqc, decide_False by done. done. }
  unfold OutgoingHandshake, WriteMessage. cbn [ws_WriteMessage facing fst snd]. rewrite E1.
  cbn [ws_ReadMessage facing fst snd]. unfold handleIncomingConnection. cbn [t_IncomingHandshake websocket_transport].
  rewrite E2. rewrite decide_False by done.
  assert (∀ w3 r w4, waiting w3 c = [(BinaryMessage, marshal (handshakeAck hB hs))] →
    ws_ReadMessage ws c w3 = (r, w4) →
    ∀ ack, match r with
           | Err e => Err (ErrWrap e "failed to ReadMessage for handshake ack, terminating connection")
           | Ok (mt, message) =>
               if decide (mt = BinaryMessage) then
                 match unmarshal message with
                 | Err e => Err (ErrWrap e "failed to Unmarshal handshake ack")
                 | Ok ack => Ok ack
                 end
               else Err (ErrNew "first message recieved was not handshake ack")
           end = Ok ack → ack = handshakeAck hB hs) as Hread.
  { intros w3 [[mt m]|e] w4 Hq3 E3 ack; [|done]. destruct (law_read_any _ _ _ _ E3) as [fs Hfs].
    rewrite Hq3 in Hfs. injection Hfs as <- <- <-. rewrite decide_True, unmarshal_marshal by done. by intros [= <-]. }
  destruct (Accept (handshakeAck hB hs)) eqn:Hacc; cbn [negb].
  - unfold setupNewConnection. simpl hs_UUID. destruct (connectionExists hB (nodeUUID hA)) eqn:Hex.
    + simpl t_Close. pose proof (Close_keeps (peer c) c w2 (not_eq_sym Hpc)) as Hq3. rewrite Hq2c in Hq3.
      destruct (ws_ReadMessage ws c (Close ws (peer c) w2).2) as [r w4] eqn:E4.
      eexists _, w4. split; [done|]. split; [by eapply Hread|done].
    + destruct (law_read c _ _ w2 (Hw2 _ (Hw1 _ Hw)) Hq2c) as (w3 & E3 & Hw3 & Hq3). rewrite E3. eexists _, w3. split; [done|].
      rewrite decide_True, unmarshal_marshal by done. split; [naive_solver|]. intros _ _. split; [done|]. split; [by intros d Hd; apply Hw3, Hw2, Hw1|].
      intros d. rewrite Hq3, Hq2, Hq1, Hpp. destruct (decide (d = c)) as [->|]; [by rewrite Hqc|].
      rewrite app_nil_r. destruct (decide (d = peer c)) as [->|]; [by rewrite Hqp|]. by rewrite app_nil_r.
  - simpl t_Close. pose proof (Close_keeps (peer c) c w2 (not_eq_sym Hpc)) as Hq3. rewrite Hq2c in Hq3.
    destruct (ws_ReadMessage ws c (Close ws (peer c) w2).2) as [r w4] eqn:E4.
    eexists _, w4. split; [done|]. split; [by eapply Hread|done].
Qed.

(** A peer that was just added is listed for the capabilities it declared. *)
Lemma added_members (h : hub (B := B)) c u bt ints cap :
  hub_wf h → u ≠ "" → meshConnections h !! u = None →
  u ∈ members_of (capabilityBalancers (addConnection h c u bt ints)) cap ↔ cap ∈ ints.
Proof.
  intros Hwf Hu Hn. rewrite (hw_members _ (hub_wf_add h c u bt ints Hwf Hu Hn) cap u). simpl.
  rewrite lookup_insert_eq. naive_solver.
Qed.

Lemma not_connected (h : hub (B := B)) u : meshConnections h !! u = None → connectionExists h u = false.
Proof. unfold connectionExists. by intros ->. Qed.

(** What a dial does to both hubs. *)
Lemma dial_result hA hB w c u :
  alive w c → waiting w c = [] → waiting w (peer c) = [] → nodeUUID hA ≠ "" → nodeUUID hB ≠ "" →
  meshConnections hA !! nodeUUID hB = None → meshConnections hB !! nodeUUID hA = None →
  let '(hA', (w', hB')) := setupOutgoingConnection (websocket_transport facing) hA (w, hB) c u in
  if Accept (handshakeAck hB (handshake_of hA)) then
    hA' = (if decide (u = "" ∨ u = nodeUUID hB)
           then addConnection hA c (nodeUUID hB) (belongsTo hB) (interests hB) else hA) ∧
    hB' = addConnection hB (peer c) (nodeUUID hA) (belongsTo hA) (interests hA) ∧
    (u = "" ∨ u = nodeUUID hB → stays alive w w' ∧ ∀ d, waiting w' d = waiting w d)
  else hA' = hA ∧ hB' = hB.
Proof.
  intros Hw Hqc Hqp HidA HidB HnA HnB.
  destruct (outgoing_handshake hA hB w c Hw Hqc Hqp HidA) as (r & w' & E & Hack & Hok).
  unfold setupOutgoingConnection. fold (handshake_of hA). simpl t_OutgoingHandshake. rewrite E.
  rewrite (not_connected hB _ HnB). assert (∀ x : W * hub (B := B), (Close facing c x).2.2 = x.2) as Hclose.
  { intros x. unfold Close. simpl. by destruct (ws_Close ws c x.1). }
  destruct (Accept (handshakeAck hB (handshake_of hA))) eqn:Hacc.
  - destruct (Hok eq_refl (not_connected hB _ HnB)) as (-> & Hw' & Hq'). rewrite Hacc. cbn [negb].
    assert (ack_UUID (handshakeAck hB (handshake_of hA)) = nodeUUID hB ∧
            ack_BelongsTo (handshakeAck hB (handshake_of hA)) = belongsTo hB ∧
            ack_Interests (handshakeAck hB (handshake_of hA)) = interests hB) as (-> & -> & ->).
    { revert Hacc. unfold handshakeAck. by destruct (_ && _). }
    destruct (decide (u = "")) as [->|Hu].
    + rewrite (decide_False (P := nodeUUID hB = "")) by done. unfold setupNewConnection.
      rewrite (not_connected hA _ HnA). rewrite decide_True by (by left). done.
    + destruct (decide (nodeUUID hB ≠ u)) as [Hne|Heq%dec_stable].
      * rewrite decide_False by naive_solver. simpl t_Close. specialize (Hclose (w', addConnection hB (peer c)
          (nodeUUID hA) (belongsTo hA) (interests hA))). destruct (Close facing c _) as [? [??]].
        split; [done|]. split; [done|]. by intros [|].
      * subst u. unfold setupNewConnection. rewrite (not_connected hA _ HnA), decide_True by (by right). done.
  - simpl t_Close. specialize (Hclose (w', hB)). destruct r as [ack|e].
    + rewrite (Hack ack eq_refl), Hacc. simpl. by destruct (Close facing c _) as [? [??]].
    + by destruct (Close facing c _) as [? [??]].
Qed.

(** C24: When a hub dials another one over an idle connection that has not failed,
    expecting its UUID or any, both have UUIDs, and neither lists the other yet,
    the handshake connects both hubs to each other when the group of the dialling
    hub is that of the other or *, each listing the other for the capabilities
    that it declared and no others; with other groups neither hub changes. *)
Theorem dial_connects_both hA hB w c u :
  alive w c → waiting w c = [] → waiting w (peer c) = [] → hub_wf hA → hub_wf hB →
  nodeUUID hA ≠ "" → nodeUUID hB ≠ "" →
  meshConnections hA !! nodeUUID hB = None → meshConnections hB !! nodeUUID hA = None →
  u = "" ∨ u = nodeUUID hB →
  let '(hA', (_, hB')) := setupOutgoingConnection (websocket_transport facing) hA (w, hB) c u in
  (compatible hB (handshake_of hA) →
     (∀ cap, nodeUUID hB ∈ members_of (capabilityBalancers hA') cap ↔ cap ∈ interests hB) ∧
     (∀ cap, nodeUUID hA ∈ members_of (capabilityBalancers hB') cap ↔ cap ∈ interests hA) ∧
     (Conn <$> meshConnections hA' !! nodeUUID hB) = Some (Some c) ∧
     (Conn <$> meshConnections hB' !! nodeUUID hA) = Some (Some (peer c))) ∧
  (¬ compatible hB (handshake_of hA) → hA' = hA ∧ hB' = hB).
Proof.
  intros Hw Hqc Hqp HwfA HwfB HidA HidB HnA HnB Hu.
  pose proof (dial_result hA hB w c u Hw Hqc Hqp HidA HidB HnA HnB) as Hres.
  destruct (setupOutgoingConnection (websocket_transport facing) hA (w, hB) c u) as [hA' [w' hB']].
  rewrite <- handshakeAck_compatible.
  destruct (Accept (handshakeAck hB (handshake_of hA))); [|split; [done|by intros _]].
  destruct Hres as (-> & -> & _). rewrite decide_True by done. split; [intros _|done].
  split_and!; [intros cap; by apply added_members..| |]; simpl; by rewrite lookup_insert_eq.
Qed.

(** A dial that expects another node than the one that answers: the dialling hub
    drops the connection, the other hub keeps it until its reader fails. *)
Lemma dial_wrong_node hA hB w c u :
  alive w c → waiting w c = [] → waiting w (peer c) = [] → nodeUUID hA ≠ "" → nodeUUID hB ≠ "" →
  meshConnections hA !! nodeUUID hB = None → meshConnections hB !! nodeUUID hA = None →
  u ≠ "" → u ≠ nodeUUID hB → compatible hB (handshake_of hA) →
  let '(hA', (_, hB')) := setupOutgoingConnection (websocket_transport facing) hA (w, hB) c u in
  hA' = hA ∧ hB' = addConnection hB (peer c) (nodeUUID hA) (belongsTo hA) (interests hA).
Proof.
  intros Hw Hqc Hqp HidA HidB HnA HnB Hu Hne Hc%handshakeAck_compatible.
  pose proof (dial_result hA hB w c u Hw Hqc Hqp HidA HidB HnA HnB) as Hres.
  destruct (setupOutgoingConnection (websocket_transport facing) hA (w, hB) c u) as [hA' [w' hB']].
  rewrite Hc in Hres. destruct Hres as (-> & -> & _). by rewrite decide_False by naive_solver.
Qed.

(** The check is made on one side only.  A node of every group can dial a node
    of one group, which cannot dial it. *)
Lemma dial_one_way (hA hB : hub (B := B)) :
  belongsTo hA = "*" → belongsTo hB ≠ "*" →
  compatible hB (handshake_of hA) ∧ ¬ compatible hA (handshake_of hB).
Proof. unfold compatible, handshake_of; simpl. intros -> Hne. naive_solver. Qed.

End Laws.

(** ** A library: two queues per connection *)

Record pipes_state : Type := mkPipes { queues : gmap Z (list frame); closed : gset Z }.

Definition pipe_waiting (w : pipes_state) (c : Z) : list frame := default [] (queues w !! c).

(** The other end of the connection [c]. *)
Definition other_end (c : Z) : Z := (- c - 1)%Z.

Definition pipes : Websocket pipes_state := {|
  ws_Parse e := Ok e;
  ws_Dial e w := (Ok 1%Z, w);
  ws_Upgrade w := (Ok (other_end 1), w);
  ws_WriteMessage c f w :=
    if decide (c ∈ closed w) then (Some ErrCloseSent, w)
    else (None, mkPipes (<[other_end c := pipe_waiting w (other_end c) ++ [f]]> (queues w)) (closed w));
  ws_ReadMessage c w :=
    match pipe_waiting w c with
    | f :: fs => (Ok f, mkPipes (<[c := fs]> (queues w)) (closed w))
    | [] => (Err (ErrExt "unexpected EOF"), w)
    end;
  ws_Close c w := (None, mkPipes (queues w) ({[c]} ∪ closed w))
|}.

Definition pipes_alive (w : pipes_state) (c : Z) : Prop := (c ∉ closed w) ∧ (other_end c ∉ closed w).

Lemma pipe_waiting_insert q cl c fs d :
  pipe_waiting (mkPipes (<[c := fs]> q) cl) d = if decide (d = c) then fs else default [] (q !! d).
Proof.
  unfold pipe_waiting; simpl. rewrite lookup_insert. destruct (decide (c = d)), (decide (d = c)); naive_solver.
Qed.

Lemma other_end_other c : other_end (other_end c) = c.
Proof. unfold other_end. lia. Qed.

#[export] Instance pipes_laws : WebsocketLaws pipes other_end pipe_waiting pipes_alive.
Proof.
  split.
  - intros c f w [Hw _]. eexists. split; [|split].
    + simpl. by rewrite decide_False by done.
    + by intros d Hd.
    + intros d. rewrite pipe_waiting_insert. unfold pipe_waiting.
      destruct (decide (d = other_end c)) as [->|]; [done|]. by rewrite app_nil_r.
  - intros c f fs w Hw Hq. eexists. split; [|split].
    + simpl. by rewrite Hq.
    + by intros d Hd.
    + intros d. by rewrite pipe_waiting_insert.
  - intros c w f w1. simpl. destruct (pipe_waiting w c) as [|f' fs]; [done|]. intros [= <- _]. eauto.
  - done.
  - intros c d w Hc Hp [H1 H2]. split; simpl; rewrite not_elem_of_union, not_elem_of_singleton; (split; [|done]); [done|].
    intros E. apply Hp. by rewrite <- E, other_end_other.
  - intros w c [H1 H2]. split; [done|]. by rewrite other_end_other.
  - intros c. unfold other_end. lia.
Qed.

(** ** Examples *)

From S2P Require Import Balancer.

#[export] Instance example_message_codec : Codec Message.
Proof. apply (@countable_codec Message _ (inj_countable'
  (λ m, (UUID m, ParentID m, ReplyTo m, Type_ m, Timestamp m, Data m))
  (λ '(u, p, r, t, n, d), mkMessage (mkMeta u p r t n) (mkPayload d))
  ltac:(by intros [[] []]))). Defined.

#[export] Instance example_handshake_codec : Codec TransportHandshake.
Proof.
  assert (EqDecision TransportHandshake) by solve_decision.
  apply (@countable_codec TransportHandshake _ (inj_countable'
    (λ h, (hs_UUID h, hs_BelongsTo h, hs_Interests h)) (λ '(u, b, i), mkHandshake u b i) ltac:(by intros []))).
Defined.

#[export] Instance example_ack_codec : Codec TransportHandshakeAck.
Proof.
  assert (EqDecision TransportHandshakeAck) by solve_decision.
  apply (@countable_codec TransportHandshakeAck _ (inj_countable'
    (λ a, (Accept a, ack_UUID a, ack_BelongsTo a, ack_Interests a)) (λ '(a, u, b, i), mkAck a u b i)
    ltac:(by intros []))).
Defined.

Definition no_pipes : pipes_state := mkPipes ∅ ∅.

Lemma no_pipes_alive d : pipes_alive no_pipes d.
Proof. split; apply not_elem_of_empty. Qed.

(** A message and a withdrawal are sent, one of them is read. *)
Lemma link_in_order_witness :
  ∃ w', rtc (link_step pipes other_end pipe_waiting 1) ([], [], no_pipes)
          ([inl (NewMsg "u" 0 "fn" "data"); inr (mkWithdraw false)], [inl (NewMsg "u" 0 "fn" "data")], w') ∧
    pipe_waiting w' (other_end 1) = [(TextMessage, "WITHDRAW")].
Proof.
  set (m := NewMsg "u" 0 "fn" "data").
  assert (∃ w', rtc (link_step pipes other_end pipe_waiting 1) ([], [], no_pipes)
    ([inl m; inr (mkWithdraw false)], [inl m], w')) as [w' Hrun].
  { destruct (send_item_ok pipes other_end pipe_waiting pipes_alive 1 (inl m) no_pipes (no_pipes_alive 1)) as (w1 & E1 & H1 & Q1).
    destruct (send_item_ok pipes other_end pipe_waiting pipes_alive 1 (inr (mkWithdraw false)) w1 (H1 _ (no_pipes_alive 1)))
      as (w2 & E2 & H2 & Q2).
    assert (pipe_waiting w2 (other_end 1) = [(BinaryMessage, Marshal m); (TextMessage, "WITHDRAW")]) as Q.
    { rewrite Q2, Q1. reflexivity. }
    destruct (ReadMsg_ok pipes other_end pipe_waiting pipes_alive "" 0 (other_end 1)
      (BinaryMessage, Marshal m) [(TextMessage, "WITHDRAW")] w2 (H2 _ (H1 _ (no_pipes_alive _))) Q) as (w3 & E3 & _).
    exists w3. eapply rtc_l; [apply (LinkSend pipes other_end pipe_waiting 1 (inl m)); exact E1|].
    eapply rtc_l; [apply (LinkSend pipes other_end pipe_waiting 1 (inr (mkWithdraw false))); exact E2|].
    apply rtc_once. apply (LinkRead pipes other_end pipe_waiting 1 "" 0 (inl m) _ []).
    - rewrite Q. discriminate.
    - rewrite E3. reflexivity. }
  exists w'. split; [exact Hrun|].
  destruct (link_in_order pipes other_end pipe_waiting pipes_alive 1 no_pipes _ _ w' no_pipes_alive eq_refl Hrun)
    as (flight & Hs & Hq & _).
  injection Hs as <-. exact Hq.
Defined.

(** A node of the tenant dials another one that has the capability. *)
Lemma dial_connects_both_witness :
  let hA := initHub (B := Balancer) "a" "tenant" ["x"] true false in
  let hB := initHub (B := Balancer) "b" "tenant" ["fn"] true false in
  let '(hA', (_, hB')) :=
    setupOutgoingConnection (websocket_transport (facing pipes other_end)) hA (no_pipes, hB) 1 "b" in
  "b" ∈ members_of (capabilityBalancers hA') "fn" ∧ "a" ∈ members_of (capabilityBalancers hB') "x".
Proof.
  intros hA hB.
  pose proof (dial_connects_both pipes other_end pipe_waiting pipes_alive hA hB no_pipes 1 "b" (no_pipes_alive 1) eq_refl eq_refl
    (hub_wf_init _ _ _ _ _) (hub_wf_init _ _ _ _ _) ltac:(discriminate) ltac:(discriminate) eq_refl eq_refl
    (or_intror eq_refl)) as Hd.
  destruct (setupOutgoingConnection (websocket_transport (facing pipes other_end)) hA (no_pipes, hB) 1 "b")
    as [hA' [w' hB']].
  destruct (proj1 Hd (or_introl eq_refl)) as (H1 & H2 & _). split; [apply H1|apply H2]; left.
Defined.

(** A node that was restarted, or whose scan dropped the peer first, dials a hub that
    still lists it: the dialled hub acknowledges and then closes the connection as a
    duplicate, and the dialling hub, which reads the acknowledgement, lists a peer
    over a connection that is closed. *)
Lemma dial_half_connected :
  let hA := initHub (B := Balancer) "a" "tenant" ["x"] true false in
  let hB := addConnection (initHub (B := Balancer) "b" "tenant" ["fn"] true false) 7 "a" "tenant" ["x"] in
  let '(hA', (w', hB')) :=
    setupOutgoingConnection (websocket_transport (facing pipes other_end)) hA (no_pipes, hB) 1 "b" in
  hB' = hB ∧ (Conn <$> meshConnections hA' !! "b") = Some (Some 1%Z) ∧
  "b" ∈ members_of (capabilityBalancers hA') "fn" ∧ other_end 1 ∈ closed w'.
Proof.
  vm_compute. split; [done|]. split; [done|]. split; [left|].
  apply (bool_decide_unpack _). vm_compute. exact I.
Qed.
