(* ===== verification/Link.v ===== *)
(** * A connection while it is up: connectionhandler.go, hub.go (withdraw)

    The two goroutines that [connectionHandler.Start] runs over a websocket: one
    reads messages for the pod until the peer withdraws, the other sends the
    withdrawal.  [None] is a goroutine that waits. *)

From S2P Require Import Prelude.
From S2P Require Import Interfaces.
From S2P Require Import Message.
From S2P Require Import Signaler.
From S2P Require Import Hub.
From S2P Require Import Websocket.

Section Link.
Context `{Codec Message, Codec TransportHandshake, Codec TransportHandshakeAck}.
Context {W : Type} (ws : Websocket W) (peer : Z → Z) (waiting : W → Z → list frame) (alive : W → Z → Prop).
Context `{!WebsocketLaws ws peer waiting alive}.

(** ** The reader *)

(** A turn of the reader's loop: a message for the pod, or the end of the
    goroutine with what it sends to the error channel. *)
Definition reader_turn (s : Signaler) (r : result (Message + Withdraw)) : Message + (Signaler * option error) :=
  match r with
  | Err e => inr (s, if SelfWithdrawn s || PeerWithdrawn s then None else Some e)
  | Ok (inr _) => inr (SetPeerWithdrawn s, None)
  | Ok (inl m) => inl m
  end.

(** The loop for as many turns as there are entries in [ids]: the UUID and time
    for a message made of raw data. *)
Fixpoint reader (ids : list (string * Z)) (s : Signaler) (c : Z) (w : W) :
    list Message * option (Signaler * option error) * W :=
  match ids with
  | [] => ([], None, w)
  | (fresh, now) :: ids =>
      let '(r, w1) := ReadMsg ws fresh now c w in
      match reader_turn s r with
      | inr e => ([], Some e, w1)
      | inl m => let '(ms, e, w2) := reader ids s c w1 in (m :: ms, e, w2)
      end
  end.

(** The messages before the first withdrawal, and whether there is one. *)
Fixpoint before_withdrawal (its : list item) : list Message :=
  match its with
  | inl m :: its => m :: before_withdrawal its
  | _ => []
  end.

Definition withdraws (its : list item) : bool := existsb (λ i, match i with inr _ => true | inl _ => false end) its.

Lemma reader_reads ids s c w its :
  alive w c → waiting w c = frame_of <$> its → length ids = length its →
  ∃ w', reader ids s c w =
    (before_withdrawal its, if withdraws its then Some (SetPeerWithdrawn s, None) else None, w') ∧ stays alive w w'.
Proof.
  intros Hw. revert w Hw its. induction ids as [|[fresh now] ids IH]; intros w Hw [|i its] Hq Hl; try done.
  { exists w. split; [reflexivity|by intros d]. }
  simpl in Hq. destruct (ReadMsg_ok ws peer waiting alive fresh now c _ _ w Hw Hq) as (w1 & E & Hw1 & Hq1).
  rewrite decode_frame_of in E. simpl. rewrite E. destruct i as [m|wd]; simpl.
  - destruct (IH w1 (Hw1 _ Hw) its) as (w' & -> & Hw'); [by rewrite Hq1, decide_True|by injection Hl|].
    exists w'. split; [done|]. by intros d Hd; apply Hw', Hw1.
  - by exists w1.
Qed.

(** The other end sends items, one after the other. *)
Fixpoint send_all (c : Z) (its : list item) (w : W) : option error * W :=
  match its with
  | [] => (None, w)
  | i :: its => let '(e, w1) := send_item ws c i w in
               match e with Some e => (Some e, w1) | None => send_all c its w1 end
  end.

Lemma send_all_ok c its w :
  alive w c → ∃ w', send_all c its w = (None, w') ∧ stays alive w w' ∧
    waiting w' (peer c) = waiting w (peer c) ++ (frame_of <$> its).
Proof.
  revert w. induction its as [|i its IH]; intros w Hw; simpl.
  - exists w. rewrite app_nil_r. split; [done|]. split; [by intros d|done].
  - destruct (send_item_ok ws peer waiting alive c i w Hw) as (w1 & -> & Hw1 & Hq1).
    destruct (IH w1 (Hw1 _ Hw)) as (w' & -> & Hw' & Hq'). exists w'. split; [done|]. split; [by intros d Hd; apply Hw', Hw1|].
    by rewrite Hq', Hq1, decide_True, <- app_assoc.
Qed.

(** C25: Of the messages and withdrawals that one end of an idle connection sends,
    the reader at the other end hands its pod exactly the messages before the
    first withdrawal, in order; after a withdrawal the reader has ended without an
    error and every send over the connection is refused, without one all messages
    were delivered and the reader goes on. *)
Theorem delivered_until_withdrawal c its ids w s :
  alive w c → waiting w (peer c) = [] → length ids = length its →
  ∃ w1 w2 e, send_all c its w = (None, w1) ∧
    reader ids s (peer c) w1 = (before_withdrawal its, e, w2) ∧
    (withdraws its = false → e = None ∧ inl <$> before_withdrawal its = its) ∧
    (withdraws its = true → e = Some (SetPeerWithdrawn s, None) ∧
       ∀ T hd msg (w : W), h_Signaler hd = SetPeerWithdrawn s →
         handlerSend T (λ _, true) hd msg w = Val (SendErr ErrNodeWithdrawn, w)).
Proof.
  intros Hw Hq Hl. destruct (send_all_ok c its w Hw) as (w1 & E1 & Hw1 & Hq1). rewrite Hq in Hq1.
  destruct (reader_reads ids s (peer c) w1 its (Hw1 _ (law_alive_peer _ _ Hw)) Hq1 Hl) as (w2 & E2 & _).
  exists w1, w2, (if withdraws its then Some (SetPeerWithdrawn s, None) else None). split_and!; [done..| |].
  - intros Hno. rewrite Hno. split; [done|]. clear -Hno.
    induction its as [|[m|wd] its IH]; [done| |done].
    cbn [before_withdrawal]. rewrite fmap_cons. by rewrite (IH Hno).
  - intros ->. split; [done|]. intros T hd msg w0 Hhd. unfold handlerSend. by rewrite Hhd.
Qed.

(** ** The withdrawal *)

(** The goroutine that waits for the signal: it sends the withdrawal, reports an
    error ([heard]: somebody receives it) and is done.  It does not wait for the
    peer.  The error is what goes to the error channel. *)
Definition withdraw_goroutine (heard : bool) (s : Signaler) (c : Z) (w : W) : option (Signaler * option error * W) :=
  s1 ← Listen s;
  let '(err, w1) := SendWithdraw ws c (mkWithdraw false) w in
  match err with
  | Some e => if heard then s2 ← Done s1; Some (s2, Some e, w1) else None
  | None => s2 ← Done s1; Some (s2, None, w1)
  end.

(** The goroutines of all connections, one after the other. *)
Fixpoint withdraw_goroutines (l : list (string * Signaler * Z)) (w : W) : option (list (string * Signaler) * W) :=
  match l with
  | [] => Some ([], w)
  | (u, s, c) :: l =>
      '(s1, _, w1) ← withdraw_goroutine true s c w;
      '(rest, w2) ← withdraw_goroutines l w1;
      Some ((u, s1) :: rest, w2)
  end.

(** What the goroutine has done when it ends. *)
Lemma withdraw_goroutine_sent s c w s1 e w1 :
  alive w c → withdraw_goroutine true s c w = Some (s1, e, w1) →
  stays alive w w1 ∧ ∀ d, waiting w1 d = waiting w d ++ (if decide (d = peer c) then [(TextMessage, withdrawMessage)] else []).
Proof.
  intros Hw E. destruct (send_item_ok ws peer waiting alive c (inr (mkWithdraw false)) w Hw) as (w2 & Es & Hw2 & Hq).
  unfold send_item in Es. unfold withdraw_goroutine in E. destruct (Listen s) as [s0|]; [|done]. simpl in E. rewrite Es in E.
  destruct (Done s0); [|done]. simpl in E. by injection E as _ _ <-.
Qed.

(** A reader whose signaler says afterwards that the peer has withdrawn has read a
    withdrawal. *)
Lemma reader_withdrawn id s c w e w1 :
  alive w c → PeerWithdrawn s = false → reader [id] s c w = ([], Some (SetPeerWithdrawn s, e), w1) →
  stays alive w w1 ∧ ∃ f fs, waiting w c = f :: fs ∧ (∀ m, f ≠ frame_of (inl m)) ∧ ∀ d, waiting w1 d = if decide (d = c) then fs else waiting w d.
Proof.
  intros Hw Hs E. destruct id as [fresh now]. simpl in E. destruct (waiting w c) as [|f fs] eqn:Hq.
  - unfold ReadMsg in E. destruct (ws_ReadMessage ws c w) as [[f|e'] w2] eqn:Er.
    + destruct (law_read_any c w f w2 Er) as (fs & Hq'). by rewrite Hq in Hq'.
    + simpl in E. injection E as E _ _. apply (f_equal PeerWithdrawn) in E. simpl in E. by rewrite Hs in E.
  - destruct (ReadMsg_ok ws peer waiting alive fresh now c f fs w Hw Hq) as (w2 & Er & Hw2 & Hq2). rewrite Er in E.
    destruct (decode_frame fresh now f) as [m|wd] eqn:Ed; [done|]. simpl in E. injection E as _ <-. split; [done|].
    exists f, fs. split; [done|]. split; [|done]. intros m ->. by rewrite decode_frame_of in Ed.
Qed.

Lemma withdraw_goroutine_ok s c w :
  alive w c → withdrawChan s = 1 → doneChan s = 0 →
  ∃ s1 w1, withdraw_goroutine true s c w = Some (s1, None, w1) ∧ stays alive w w1 ∧ withdrawChan s1 = 0 ∧ doneChan s1 = 1 ∧
    ∀ d, waiting w1 d = waiting w d ++ (if decide (d = peer c) then [(TextMessage, withdrawMessage)] else []).
Proof.
  intros Hw Hs Hd. destruct (send_item_ok ws peer waiting alive c (inr (mkWithdraw false)) w Hw) as (w1 & E & Hw1 & Hq).
  unfold send_item in E. unfold withdraw_goroutine, Listen. rewrite Hs. simpl. rewrite E. unfold Done; simpl. rewrite Hd.
  rewrite decide_True by lia. simpl. eexists _, w1. split; [done|]. done.
Qed.

Lemma withdraw_goroutines_ok l w :
  (∀ x, x ∈ l → alive w x.2) → NoDup (snd <$> l) →
  Forall (λ x, withdrawChan x.1.2 = 1 ∧ doneChan x.1.2 = 0) l →
  ∃ l' w', withdraw_goroutines l w = Some (l', w') ∧ length l' = length l ∧
    Forall (λ x, withdrawChan x.2 = 0 ∧ doneChan x.2 = 1) l' ∧
    (∀ d, d ∉ (peer ∘ snd) <$> l → waiting w' d = waiting w d) ∧
    Forall (λ x, waiting w' (peer x.2) = waiting w (peer x.2) ++ [(TextMessage, withdrawMessage)]) l.
Proof.
  intros Hw Hnd Hf. revert w Hw. induction Hf as [|[[u s] c] l [Hs0 Hd0] _ IH]; intros w Hw; simpl.
  { exists [], w. split; [done|]. split; [done|]. split; [constructor|]. split; [done|constructor]. }
  simpl in *. apply NoDup_cons in Hnd as [Hni Hnd].
  destruct (withdraw_goroutine_ok s c w (Hw (u, s, c) ltac:(by left)) Hs0 Hd0) as (s1 & w1 & -> & Hw1 & Hs1 & Hd1 & Hq1). simpl.
  destruct (IH Hnd w1) as (l' & w' & -> & Hl & Hf' & Hq & Hqs);
    [by intros x Hx; apply Hw1, Hw; right|]. simpl.
  assert (peer c ∉ (peer ∘ snd) <$> l) as Hpc.
  { intros ([[u' s'] c'] & Hc & Hin)%list_elem_of_fmap. simpl in Hc. apply (peer_inj ws peer waiting alive) in Hc as ->.
    apply Hni. apply list_elem_of_fmap. by exists (u', s', c'). }
  eexists _, w'. split; [done|]. split_and!.
  - simpl. by rewrite Hl.
  - by constructor.
  - intros d [Hd Hd']%not_elem_of_cons. rewrite Hq, Hq1, decide_False, app_nil_r; done.
  - constructor; simpl.
    + rewrite Hq, Hq1, decide_True; done.
    + rewrite Forall_forall in Hqs |- *. intros x Hx. rewrite (Hqs x Hx), Hq1, decide_False, app_nil_r; [done|].
      intros E. apply Hpc. apply list_elem_of_fmap. by exists x.
Qed.

(** [Bus.Withdraw] ends well as soon as every withdrawal was written: no peer
    has read one by then. *)
Theorem withdraw_unacknowledged (l : list (string * Signaler * Z)) w :
  (∀ x, x ∈ l → alive w x.2) → NoDup (snd <$> l) → l ≠ [] →
  Forall (λ x, withdrawChan x.1.2 = 1 ∧ doneChan x.1.2 = 0) l →
  Forall (λ x, waiting w (peer x.2) = []) l →
  ∃ l' w', withdraw_goroutines l w = Some (l', w') ∧
    (∃ l'', withdraw_wait [id] l' (Z.of_nat (length l)) = (l'', 0%Z, true)) ∧
    Forall (λ x, waiting w' (peer x.2) = [(TextMessage, withdrawMessage)]) l.
Proof.
  intros Hw Hnd Hne Hf Hq. destruct (withdraw_goroutines_ok l w Hw Hnd Hf) as (l' & w' & E & Hl & Hf' & _ & Hq').
  exists l', w'. split; [done|]. split.
  - rewrite <- Hl. clear -Hf'. simpl. unfold id.
    assert (∀ d, ∃ l'', withdraw_pass l' (Z.of_nat (length l') + d) = (l'', d)) as Hp.
    { induction Hf' as [|[u s] l' [_ Hd] _ IH]; intros d; simpl in *; [by eexists|]. rewrite Hd.
      destruct (IH d) as [l'' El]. replace (Z.of_nat (S (length l')) + d - 1)%Z with (Z.of_nat (length l') + d)%Z by lia.
      rewrite El. by eexists. }
    destruct (Hp 0%Z) as [l'' El]. rewrite Z.add_0_r in El. rewrite El. rewrite decide_True by done. by eexists.
  - rewrite Forall_forall in *. intros x Hx. by rewrite (Hq' x Hx), (Hq x Hx).
Qed.

(** An acknowledgement, which no code sends, would end the connection as a
    withdrawal does. *)
Lemma ack_withdraws s b : reader_turn s (Ok (inr (mkWithdraw b))) = inr (SetPeerWithdrawn s, None).
Proof. done. Qed.

End Link.

(** ** Examples *)

(** Two messages with a withdrawal in between: one is delivered. *)
Lemma delivered_until_withdrawal_witness :
  let m1 := NewMsg "u1" 0 "fn" "data" in
  let its := [inl m1; inr (mkWithdraw false); inl (NewMsg "u2" 0 "fn" "late")] in
  ∃ w1 w2 e, send_all pipes 1 its no_pipes = (None, w1) ∧
    reader pipes [("", 0%Z); ("", 0%Z); ("", 0%Z)] NewSignaler (other_end 1) w1 = ([m1], e, w2) ∧
    e = Some (SetPeerWithdrawn NewSignaler, None).
Proof.
  intros m1 its.
  destruct (delivered_until_withdrawal pipes other_end pipe_waiting pipes_alive 1 its
    [("", 0%Z); ("", 0%Z); ("", 0%Z)] no_pipes NewSignaler (no_pipes_alive 1) eq_refl eq_refl)
    as (w1 & w2 & e & H1 & H2 & _ & H3).
  exists w1, w2, e. split; [exact H1|]. split; [exact H2|]. apply (H3 eq_refl).
Defined.

(** Two peers are told of the withdrawal, and it is over. *)
Example withdraw_unacknowledged_example :
  (λ x, (x.1, pipe_waiting x.2 (other_end 1))) <$>
    withdraw_goroutines pipes [("a", mkSignaler 1 0 true false, 1%Z); ("b", mkSignaler 1 0 true false, 2%Z)] no_pipes =
  Some ([("a", mkSignaler 0 1 true false); ("b", mkSignaler 0 1 true false)], [(TextMessage, "WITHDRAW")]).
Proof. vm_compute. reflexivity. Qed.
