(* ===== verification/Tunnel.v ===== *)
(** * A tunneled message from hub to hub: hub.go, connectionhandler.go and the
    websocket transport together

    What sendTunneledMessage writes to which connection, and what the reader at the
    other end makes of it, over a websocket library that keeps its promises. *)

From S2P Require Import Prelude.
From S2P Require Import Interfaces.
From S2P Require Import Balancer.
From S2P Require Import Message.
From S2P Require Import Signaler.
From S2P Require Import Hub.
From S2P Require Import Websocket.
From S2P Require Import Link.

Section Tunnel.
Context `{Codec Message, Codec TransportHandshake, Codec TransportHandshakeAck}.
Context {W : Type} (ws : Websocket W) (peer : Z → Z) (waiting : W → Z → list frame) (alive : W → Z → Prop).
Context `{!WebsocketLaws ws peer waiting alive}.
Context {B : Type} `{Picker B} (heard : connectionHandler → bool) (capability : string) (msg : Message).

Let T : Transport W := websocket_transport ws.

(** A connected peer that can get a message with the capability. *)
Definition reachable (h : hub (B := B)) (u : string) (hd : connectionHandler) : Prop :=
  meshConnections h !! u = Some hd ∧ capability ∈ h_Interests hd ∧ PeerWithdrawn (h_Signaler hd) = false.

(** The message was written once, to the connection of such a peer. *)
Definition written (h : hub (B := B)) (w w' : W) : Prop :=
  ∃ u hd conn, reachable h u hd ∧ Conn hd = Some conn ∧ stays alive w w' ∧
    ∀ d, waiting w' d = waiting w d ++ (if decide (d = peer conn) then [(BinaryMessage, Marshal msg)] else []).

(** The connections of these peers have not failed. *)
Definition in_reach (h : hub (B := B)) (w : W) : Prop :=
  ∀ u hd conn, reachable h u hd → Conn hd = Some conn → alive w conn.

(** A tunnel changes no more of the hub than who is next in the balancers. *)
Definition keeps_peers (h h' : hub (B := B)) : Prop :=
  hub_wf h' ∧ meshConnections h' = meshConnections h ∧
  (nodeUUID h' = nodeUUID h ∧ belongsTo h' = belongsTo h ∧ interests h' = interests h ∧ hasMesh h' = hasMesh h) ∧
  ∀ cap, members_of (capabilityBalancers h') cap = members_of (capabilityBalancers h) cap.

Lemma keeps_peers_choose h b u b' :
  hub_wf h → capabilityBalancers h !! capability = Some b → picker_next b = Val (u, b') →
  keeps_peers h (set_conns h (meshConnections h) (<[capability := b']> (capabilityBalancers h)) (started h)).
Proof.
  intros Hwf Hb Hn. destruct (balancer_choose h capability b Hwf Hb) as (u' & b'' & E & Hm & Hwf' & _).
  rewrite Hn in E. injection E as <- <-. do 3 (split; [done|]). intros cap. simpl. unfold members_of.
  rewrite lookup_insert. case_decide; [subst; by rewrite Hb, Hm|done].
Qed.

Lemma keeps_peers_trans h1 h2 h3 : keeps_peers h1 h2 → keeps_peers h2 h3 → keeps_peers h1 h3.
Proof.
  intros (_ & E1 & (? & ? & ? & ?) & M1) (Hw & E2 & (? & ? & ? & ?) & M2). split; [done|]. split; [congruence|].
  split; [split_and!; congruence|]. intros cap. by rewrite M2, M1.
Qed.

(** Over connections that have not failed an attempt writes to the peer that was
    chosen, unless that peer has withdrawn. *)
Lemma attempt_alive h b u b1 w :
  hub_wf h → capabilityBalancers h !! capability = Some b → picker_next b = Val (u, b1) → in_reach h w →
  (tunnel_attempt T heard h capability b msg w = Val (b1, w, SendErr ErrTunnelNotEstablished) ∨
   tunnel_attempt T heard h capability b msg w = Val (b1, w, SendErr ErrNodeWithdrawn)) ∧
    (∀ hd, ¬ reachable h u hd) ∨
  ∃ w1, tunnel_attempt T heard h capability b msg w = Val (b1, w1, SendOk) ∧ written h w w1.
Proof.
  intros Hwf Hb Hn Hw. destruct (balancer_choose h capability b Hwf Hb) as (u' & b' & E & _ & _ & Hu).
  rewrite Hn in E. injection E as <- <-. unfold tunnel_attempt. rewrite Hn. run.
  destruct Hu as [->|(hd & conn & Hhd & Hin & Hc)].
  { left. split; [by left|]. intros hd (Hhd & _). by destruct (hw_conns h Hwf "" hd Hhd) as (_ & _ & Hne). }
  destruct (hw_conns h Hwf u hd Hhd) as (_ & _ & Hne). rewrite decide_False by done.
  rewrite Hhd, Hc. unfold handlerSend. rewrite Hc. destruct (PeerWithdrawn (h_Signaler hd)) eqn:Hpw; run.
  { left. split; [by right|]. intros hd' (Hhd' & _ & Hpw'). congruence. }
  right. destruct (send_item_ok ws peer waiting alive conn (inl msg) w (Hw u hd conn ltac:(done) Hc)) as (w1 & Es & Hw1 & Hq).
  unfold send_item in Es. simpl t_SendMsg. rewrite Es. run. exists w1. split; [done|].
  exists u, hd, conn. done.
Qed.

(** The turns of the loop write to the first peer chosen that has not withdrawn. *)
Lemma loop_alive n h b us b' w :
  hub_wf h → capabilityBalancers h !! capability = Some b → picks n b = Val (us, b') → in_reach h w →
  (∃ u hd, u ∈ us ∧ reachable h u hd) →
  ∃ h' w', tunnel_loop T heard n (λ _ h, h) h capability msg w = Val (TunnelReturns None, h', w') ∧ written h w w' ∧
    keeps_peers h h'.
Proof.
  revert h b us w. induction n as [|n IH]; intros h b us w Hwf Hb Hp Hw (u & hd & Hu & Hr).
  { simpl in Hp. injection Hp as <- _. by apply not_elem_of_nil in Hu. }
  simpl in Hp. simpl. rewrite Hb. destruct (picker_next b) as [[u1 b1]|] eqn:E; [|done]. run.
  destruct (picks n b1) as [[us1 b2]|] eqn:Ep; [|done]. run. injection Hp as <- <-.
  destruct (balancer_choose h capability b Hwf Hb) as (u' & b'' & E' & _ & Hwf1 & _).
  rewrite E in E'. injection E' as <- <-.
  destruct (attempt_alive h b u1 b1 w Hwf Hb E Hw) as [[Ha Hno]|(w1 & -> & Hwr)];
    [|run; eexists _, _; split; [done|]; split; [done|by eapply keeps_peers_choose]].
  pose proof (keeps_peers_choose h b u1 b1 Hwf Hb E) as Hk.
  destruct (IH (set_conns h (meshConnections h) (<[capability := b1]> (capabilityBalancers h)) (started h)) b1 us1 w)
    as (h' & w' & El & Hwr & Hk'); [done|by apply lookup_insert_eq|done|done| |].
  - exists u, hd. split; [|done]. apply elem_of_cons in Hu as [->|]; [|done]. by destruct (Hno hd).
  - exists h', w'. split; [by destruct Ha as [-> | ->]; run|]. split; [exact Hwr|]. by eapply keeps_peers_trans.
Qed.

(** The turns of the loop end in any case, with the message written or not. *)
Lemma loop_any n h w :
  hub_wf h → in_reach h w →
  ∃ r h' w', tunnel_loop T heard n (λ _ h, h) h capability msg w = Val (TunnelReturns r, h', w') ∧ keeps_peers h h' ∧
    (r = None ∧ written h w w' ∨ r = Some ErrTunnelNotEstablished ∧ w' = w).
Proof.
  revert h w. induction n as [|n IH]; intros h w Hwf Hw; simpl.
  { eexists _, h, w. split; [done|]. split; [by split_and!|by right]. }
  destruct (capabilityBalancers h !! capability) as [b|] eqn:Hb.
  2: { eexists _, h, w. split; [done|]. split; [by split_and!|by right]. }
  destruct (balancer_choose h capability b Hwf Hb) as (u & b1 & E & _ & Hwf1 & _).
  pose proof (keeps_peers_choose h b u b1 Hwf Hb E) as Hk.
  destruct (attempt_alive h b u b1 w Hwf Hb E Hw) as [[Ha _]|(w1 & -> & Hwr)];
    [|run; eexists None, _, w1; split; [done|]; split; [done|by left]].
  destruct (IH (set_conns h (meshConnections h) (<[capability := b1]> (capabilityBalancers h)) (started h)) w) as (r & h' & w' & El & Hk' & Hr);
    [done|done|].
  exists r, h', w'. split; [by destruct Ha as [-> | ->]; run|]. split; [by eapply keeps_peers_trans|exact Hr].
Qed.

(** A tunnel ends, with the message written to a peer or with an error. *)
Lemma tunnel_any h w :
  hub_wf h → in_reach h w →
  ∃ r h' w', sendTunneledMessage T heard (λ _ h, h) h capability msg w = Val (TunnelReturns r, h', w') ∧ keeps_peers h h' ∧
    (r = None ∧ written h w w' ∨ r = Some ErrTunnelNotEstablished ∧ w' = w).
Proof.
  intros Hwf Hw. unfold sendTunneledMessage. destruct (capabilityBalancers h !! capability) as [b|] eqn:Hb.
  - by apply loop_any.
  - eexists _, h, w. split; [done|]. split; [by split_and!|by right].
Qed.

(** Some connected peer with the capability is told, when there are not more of
    them than attempts. *)
Lemma tunnel_written h w u hd :
  hub_wf h → in_reach h w → reachable h u hd →
  length (members_of (capabilityBalancers h) capability) ≤ tunnelRetryCount →
  ∃ h' w', sendTunneledMessage T heard (λ _ h, h) h capability msg w = Val (TunnelReturns None, h', w') ∧ written h w w' ∧
    keeps_peers h h'.
Proof.
  intros Hwf Hw Hr Hlen. assert (u ∈ members_of (capabilityBalancers h) capability) as Hm.
  { apply (hw_members h Hwf). destruct Hr as (? & ? & _). eauto. }
  unfold sendTunneledMessage, members_of in *.
  destruct (capabilityBalancers h !! capability) as [b|] eqn:Hb; [|by apply not_elem_of_nil in Hm].
  destruct (picker_fair b (hw_balancers h Hwf _ b Hb)) as (us & b' & Hp & Hperm).
  destruct (loop_alive _ h b us b' w Hwf Hb Hp Hw) as (h' & w' & El & Hwr & Hk).
  { exists u, hd. by rewrite Hperm. }
  exists h', w'. split; [by eapply tunnel_loop_more|done].
Qed.

(** Whether the message of [messageHandler] goes to the other end [d] by this
    connection. *)
Definition sends_to (d : Z) (hd : connectionHandler) : bool :=
  negb (PeerWithdrawn (h_Signaler hd)) && bool_decide (peer <$> Conn hd = Some d).

(** [messageHandler] writes the message once to the connection of every peer that
    has not withdrawn. *)
Lemma messageHandler_alive order w :
  (∀ hd c, hd ∈ order → PeerWithdrawn (h_Signaler hd) = false → Conn hd = Some c → alive w c) →
  Forall (λ hd, is_Some (Conn hd)) order →
  ∃ w', messageHandler T heard order msg w = Val (true, w') ∧ stays alive w w' ∧
    ∀ d, waiting w' d = waiting w d ++ ((λ _, (BinaryMessage, Marshal msg)) <$> filter (λ hd, sends_to d hd = true) order).
Proof.
  intros Hw Ho. revert w Hw. induction Ho as [|hd order [c Hc] _ IH]; intros w Hw; simpl.
  { exists w. split; [done|]. split; [by intros d|]. intros d. by rewrite app_nil_r. }
  unfold handlerSend. destruct (PeerWithdrawn (h_Signaler hd)) eqn:Hpw; run.
  { destruct (IH w) as (w' & E & Hw' & Hq); [by intros hx d Hx; apply Hw; right|]. exists w'. split; [done|]. split; [done|]. intros d. rewrite Hq.
    by rewrite filter_cons_False by (unfold sends_to; by rewrite Hpw). }
  rewrite Hc. destruct (send_item_ok ws peer waiting alive c (inl msg) w (Hw hd c ltac:(by left) Hpw Hc)) as (w1 & Es & Hw1 & Hq1).
  unfold send_item in Es. simpl t_SendMsg. rewrite Es. run. destruct (IH w1) as (w' & E & Hw' & Hq);
    [by intros hx d Hx Hxw Hd; apply Hw1, (Hw hx); [right|..]|].
  exists w'. split; [done|]. split; [by intros d Hd; apply Hw', Hw1|]. intros d. rewrite Hq, Hq1, <- app_assoc. f_equal.
  destruct (decide (d = peer c)) as [->|Hd].
  - rewrite filter_cons_True; [done|]. unfold sends_to. rewrite Hpw, Hc. by rewrite bool_decide_eq_true_2.
  - rewrite filter_cons_False; [done|]. unfold sends_to. rewrite Hpw, Hc. simpl.
    rewrite bool_decide_eq_false_2; [done|]. congruence.
Qed.

(** C18: Over websocket connections that have not failed, when some connected peer
    with the capability has not withdrawn, at most tunnelRetryCount peers have it
    and nobody else changes the hub during the call, sendTunneledMessage returns
    without an error and the message is written to exactly one connection, that of
    such a peer, whose reader hands it to its pod behind the messages that were on
    their way, unchanged and once, unless a withdrawal was on its way. *)
Theorem tunneled_message_arrives h w u hd :
  hub_wf h → in_reach h w → reachable h u hd →
  length (members_of (capabilityBalancers h) capability) ≤ tunnelRetryCount →
  ∃ h' w' u1 hd1 conn,
    sendTunneledMessage T heard (λ _ h, h) h capability msg w = Val (TunnelReturns None, h', w') ∧
    reachable h u1 hd1 ∧ Conn hd1 = Some conn ∧
    (∀ d, d ≠ peer conn → waiting w' d = waiting w d) ∧
    ∀ its ids s, waiting w (peer conn) = frame_of <$> its → withdraws its = false → length ids = S (length its) →
      ∃ w2, reader ws ids s (peer conn) w' = (before_withdrawal its ++ [msg], None, w2).
Proof.
  intros Hwf Hw Hr Hlen.
  destruct (tunnel_written h w u hd Hwf Hw Hr Hlen) as (h' & w' & El & (u1 & hd1 & conn & Hr1 & Hc & Hw' & Hq) & _).
  exists h', w', u1, hd1, conn. do 3 (split; [done|]). split.
  - intros d Hd. by rewrite Hq, decide_False, app_nil_r.
  - intros its ids s Hits Hno Hl.
    destruct (reader_reads ws peer waiting alive ids s (peer conn) w' (its ++ [inl msg]) (Hw' _ (law_alive_peer _ _ (Hw _ _ _ Hr1 Hc)))) as (w2 & E & _).
    + rewrite Hq, decide_True, Hits, fmap_app by done. done.
    + rewrite length_app. simpl. lia.
    + exists w2. rewrite E. clear -Hno.
      assert (before_withdrawal (its ++ [inl msg]) = before_withdrawal its ++ [msg] ∧
        withdraws (its ++ [inl msg]) = false) as [-> ->]; [|done].
      induction its as [|[m|wd] its IH]; simpl in *; [done| |done]. destruct (IH Hno) as [-> ->]. done.
Qed.

End Tunnel.

(** ** Examples *)

(** The peer "a" has withdrawn, so the message arrives at "b", behind one that was
    on its way. *)
Lemma tunneled_message_arrives_witness :
  let h := peerWithdrew example_hub "a" in
  let m0 := NewMsg "u0" 0 "fn" "before" in
  let m := NewMsg "u" 0 "fn" "data" in
  let w := (SendMsg pipes 2 m0 no_pipes).2 in
  ∃ h' w' conn, sendTunneledMessage (websocket_transport pipes) (λ _, true) (λ _ h, h) h "fn" m w =
      Val (TunnelReturns None, h', w') ∧
    (conn = 2%Z → ∃ w2, reader pipes [("", 0%Z); ("", 0%Z)] NewSignaler (other_end conn) w' = ([m0; m], None, w2)).
Proof.
  intros h m0 m w.
  destruct (tunneled_message_arrives pipes other_end pipe_waiting pipes_alive (λ _, true) "fn" m h w "b"
    (mkHandler "b" (Some 2%Z) NewSignaler "tenant" ["fn"])) as (h' & w' & u1 & hd1 & conn & E & _ & _ & _ & Hread).
  - apply (hub_wf_withdrew (λ _, true)), example_hub_wf.
  - intros v hd c _ _. split; apply not_elem_of_empty.
  - split; [vm_compute; reflexivity|]. split; [by left|reflexivity].
  - vm_compute. lia.
  - exists h', w', conn. split; [exact E|]. intros ->. apply (Hread [inl m0]); [vm_compute; reflexivity|done|done].
Defined.
