(* ===== verification/Node.v ===== *)
(** * A node of the mesh: foundation/bus/bus/options.go, bus.go, discovery/local,
    and the nodes of e2core/server/server.go and sat/sat/sat.go

    The options of a bus, the bus that [New] makes of them, and the discovery of
    other nodes, whose multicast library is another module's.  Then the two kinds
    of node of the system meet: the control process and a runner. *)

From S2P Require Import Prelude.
From S2P Require Import Interfaces.
From S2P Require Import Message.
From S2P Require Import MessageBus.
From S2P Require Import Signaler.
From S2P Require Import Pod.
From S2P Require Import Hub.
From S2P Require Import Websocket.

(** ** Options *)

(** The plugins are known by a name. *)
Record Options : Type := mkOptions {
  MeshTransport : option string;
  BridgeTransport : option string;
  Discovery : option string;
  Port : string;
  URI : string;
  BelongsTo : string;
  Interests : list string
}.

Definition OptionsModifier : Type := Options → Options.

Definition defaultOptions : Options := mkOptions None None None "8080" "/meta/message" "*" [].

Definition newOptionsWithModifiers (mods : list OptionsModifier) : Options :=
  foldl (λ opts m, m opts) defaultOptions mods.

Definition UseMeshTransport (mesh : string) : OptionsModifier := λ o,
  mkOptions (Some mesh) (BridgeTransport o) (Discovery o) (Port o) (URI o) (BelongsTo o) (Interests o).
Definition UseBridgeTransport (bridge : string) : OptionsModifier := λ o,
  mkOptions (MeshTransport o) (Some bridge) (Discovery o) (Port o) (URI o) (BelongsTo o) (Interests o).
Definition UseDiscovery (discovery : string) : OptionsModifier := λ o,
  mkOptions (MeshTransport o) (BridgeTransport o) (Some discovery) (Port o) (URI o) (BelongsTo o) (Interests o).
Definition UseEndpoint (port uri : string) : OptionsModifier := λ o,
  mkOptions (MeshTransport o) (BridgeTransport o) (Discovery o)
    (if decide (port ≠ "") then port else Port o) (if decide (uri ≠ "") then uri else URI o)
    (BelongsTo o) (Interests o).
Definition UseBelongsTo (belongsTo : string) : OptionsModifier := λ o,
  mkOptions (MeshTransport o) (BridgeTransport o) (Discovery o) (Port o) (URI o) belongsTo (Interests o).
Definition UseInterests (interests : list string) : OptionsModifier := λ o,
  mkOptions (MeshTransport o) (BridgeTransport o) (Discovery o) (Port o) (URI o) (BelongsTo o) interests.

(** ** The bus *)

Record DiscoveryOpts : Type := mkDiscoveryOpts { do_NodeUUID : string; TransportPort : string; TransportURI : string }.

Section Node.
Context {B : Type} `{Picker B}.

(** [b_discovery] is what the discovery plugin is started with, if it is. *)
Record Bus : Type := mkBus {
  NodeUUID : string;
  bus_BelongsTo : string;
  bus_Interests : list string;
  bus_bus : messageBus;
  bus_hub : hub (B := B);
  b_discovery : option DiscoveryOpts
}.

Definition is_configured (p : option string) : bool := match p with Some _ => true | None => false end.

(** [initHub]: discovery starts only beside a mesh transport. *)
Definition init_discovery (nodeUUID : string) (o : Options) : option DiscoveryOpts :=
  match MeshTransport o, Discovery o with
  | Some _, Some _ => Some (mkDiscoveryOpts nodeUUID (Port o) (URI o))
  | _, _ => None
  end.

(** [New]; the hub's own pod is connected to the new bus. *)
Definition New (fresh : string) (mods : list OptionsModifier) : outcome Bus :=
  let o := newOptionsWithModifiers mods in
  bus ← addPod newMessageBus;
  Val (mkBus fresh (BelongsTo o) (Interests o) bus
         (initHub fresh (BelongsTo o) (Interests o) (is_configured (MeshTransport o)) (is_configured (BridgeTransport o)))
         (init_discovery fresh o)).

(** The node of the control process (server.New). *)
Definition server_mods : list OptionsModifier := [UseMeshTransport "websocket"; UseDiscovery "local"].

(** The node of a runner (Sat.setupBus). *)
Definition sat_mods (tenant jobType port : string) : list OptionsModifier :=
  [UseBelongsTo tenant; UseInterests [jobType]; UseMeshTransport "websocket"; UseDiscovery "local";
   UseEndpoint port "/meta/message"].

Lemma sat_options tenant jobType port :
  port ≠ "" →
  newOptionsWithModifiers (sat_mods tenant jobType port) =
    mkOptions (Some "websocket") None (Some "local") port "/meta/message" tenant [jobType].
Proof.
  intros Hp. unfold newOptionsWithModifiers, sat_mods, UseEndpoint. cbn [foldl URI Port].
  rewrite decide_True by done. reflexivity.
Qed.

Lemma New_hub fresh mods b :
  New fresh mods = Val b →
  let o := newOptionsWithModifiers mods in
  bus_hub b = initHub fresh (BelongsTo o) (Interests o) (is_configured (MeshTransport o)) (is_configured (BridgeTransport o)) ∧
  b_discovery b = init_discovery fresh o.
Proof. unfold New. destruct (addPod newMessageBus); [|done]. by intros [= <-]. Qed.

(** ** Local discovery *)

Record payload : Type := mkPayload { p_UUID : string; p_Port : string; p_Path : string }.

Section Discovery.
Context `{Codec payload}.

(** What a node tells the network. *)
Definition payloadFunc (opts : DiscoveryOpts) : string :=
  marshal (mkPayload (do_NodeUUID opts) (TransportPort opts) (TransportURI opts)).

(** What the discovery function is called with for a peer that was found. *)
Definition notifyFunc (address peerPayload : string) : option (string * string) :=
  match unmarshal peerPayload with
  | Err _ => None
  | Ok p => Some (address +:+ ":" +:+ p_Port p +:+ p_Path p, p_UUID p)
  end.

Lemma notify_payload opts address :
  notifyFunc address (payloadFunc opts) =
    Some (address +:+ ":" +:+ TransportPort opts +:+ TransportURI opts, do_NodeUUID opts).
Proof. unfold notifyFunc, payloadFunc. by rewrite unmarshal_marshal. Qed.

(** The fields that its methods set. *)
Record LocalDiscovery : Type := mkLocal { d_opts : option DiscoveryOpts; stopChan : bool; discoveryFunc : option nat }.

Definition local_New : LocalDiscovery := mkLocal None false None.

(** [peerdiscovery.Settings]: no limits, and the node can find itself. *)
Record Settings : Type := mkSettings {
  Limit : Z; PayloadFunc : string; TimeLimit : Z; Notify : string → string → option (string * string); AllowSelf : bool
}.

(** [Discover] is the library's, which runs until it is stopped. *)
Definition local_Start (Discover : Settings → option error) (d : LocalDiscovery) (opts : DiscoveryOpts) (f : nat) :
    option error * LocalDiscovery :=
  (Discover (mkSettings (-1) (payloadFunc opts) (-1) notifyFunc true), mkLocal (Some opts) true (Some f)).

Definition UseDiscoveryFunc (d : LocalDiscovery) (f : nat) : LocalDiscovery := mkLocal (d_opts d) (stopChan d) (Some f).

(** [Stop] sends on a channel without a buffer, which [Start] makes: [started]
    that it did, [listening] that the library receives.  [None] blocks, with the
    lock of the hub that calls it. *)
Definition discovery_Stop (started listening : bool) : option unit :=
  if started && listening then Some tt else None.

(** [Stop] before [Start] blocks, whatever the library does. *)
Lemma Stop_before_Start f listening : discovery_Stop (stopChan (UseDiscoveryFunc local_New f)) listening = None.
Proof. done. Qed.

(** What one node advertises is what another reports, to the function that was last
    set. *)
Lemma advertised_found Discover d opts f address :
  let '(_, d1) := local_Start Discover d opts f in
  stopChan d1 = true ∧ d_opts d1 = Some opts ∧ discoveryFunc d1 = Some f ∧
  notifyFunc address (payloadFunc opts) =
    Some (address +:+ ":" +:+ TransportPort opts +:+ TransportURI opts, do_NodeUUID opts).
Proof. simpl. by rewrite notify_payload. Qed.

(** ** The methods of the bus *)

Section Methods.
Context {W : Type} (T : Transport W) (heard : connectionHandler → bool).

Definition with_hub (b : Bus) (h : hub (B := B)) : Bus :=
  mkBus (NodeUUID b) (bus_BelongsTo b) (bus_Interests b) (bus_bus b) h (b_discovery b).

(** A new pod on the bus. *)
Definition connected (b : Bus) (wantsReplay : bool) : outcome (Pod * Bus) :=
  '(p, mb) ← connectWithOpts (bus_bus b) wantsReplay;
  Val (p, mkBus (NodeUUID b) (bus_BelongsTo b) (bus_Interests b) mb (bus_hub b) (b_discovery b)).

Definition bus_Connect (b : Bus) : outcome (Pod * Bus) := connected b false.
Definition bus_ConnectWithReplay (b : Bus) : outcome (Pod * Bus) := connected b true.

Definition ConnectEndpoint (b : Bus) (endpoint : string) (w : W) : option error * Bus * W :=
  let '(e, h, w1) := connectEndpoint T (bus_hub b) w endpoint "" in (e, with_hub b h, w1).

Definition ConnectBridgeTopic (b : Bus) (topic : string) (w : W) : option error * Bus * W :=
  let '(e, h, w1) := connectBridgeTopic T (bus_hub b) w topic in (e, with_hub b h, w1).

Definition Tunnel (env : nat → hub (B := B) → hub (B := B)) (b : Bus) (capability : string) (msg : Message) (w : W) :
    outcome (tunnel_end * Bus * W) :=
  '(r, h, w1) ← sendTunneledMessage T heard env (bus_hub b) capability msg w; Val (r, with_hub b h, w1).

Definition Stop (order : list connectionHandler) (w : W) : outcome (option error * W) := hub_stop T order None w.

End Methods.

(** [hub.withdraw] under its lock: [passes] are the passes over the done channels
    in the three seconds that it has, with what the connections did before each.
    [None] blocks for ever, in the discovery's [Stop] or in a [Signal]. *)
Definition hub_withdraw (hasDiscovery started listening : bool)
    (passes : list (list (string * Signaler) → list (string * Signaler))) (conns : list (string * Signaler)) :
    option (option error * list (string * Signaler)) :=
  _ ← (if hasDiscovery then discovery_Stop started listening else Some tt);
  signalled ← signalAll conns;
  let '(l, _, complete) := withdraw_wait passes signalled (Z.of_nat (length conns)) in
  Some (if complete then None else Some ErrWaitTimeout, l).


(** The goroutine of a connection listens for one signal: nobody is left for a
    second withdrawal, which times out, and a third blocks with the hub's lock. *)
Theorem withdraw_again u s :
  withdrawChan s = 0 → doneChan s = 0 →
  ∃ l, hub_withdraw false false false [id] [(u, s)] = Some (Some ErrWaitTimeout, l) ∧
    hub_withdraw false false false [id] l = None.
Proof.
  intros Hw Hd. unfold hub_withdraw. cbn [mbind option_bind signalAll]. unfold Signal. rewrite Hw, decide_True by lia.
  cbn [mbind option_bind]. unfold withdraw_wait, id. cbn [withdraw_pass doneChan]. rewrite Hd. simpl.
  eexists. split; [reflexivity|]. simpl. done.
Qed.

(** ** A runner joins *)

Context `{Codec Message, Codec TransportHandshake, Codec TransportHandshakeAck}.
Context {W : Type} (ws : Websocket W) (peer : Z → Z) (waiting : W → Z → list frame) (alive : W → Z → Prop).
Context `{!WebsocketLaws ws peer waiting alive}.

(** A node hears of another one and connects to it, which is running too. *)
Definition hears_of (h : hub (B := B)) (address : string) (other : DiscoveryOpts) (w : W) (ho : hub (B := B)) :
    hub (B := B) * (W * hub (B := B)) :=
  match notifyFunc address (payloadFunc other) with
  | None => (h, (w, ho))
  | Some (endpoint, uuid) => discoveryHandler (websocket_transport (facing ws peer)) h (w, ho) endpoint uuid
  end.

(** [Dial] on the endpoint of a node reaches it: an idle connection. *)
Definition dials (w : W) (address port uri : string) (c : Z) (w1 : W) : Prop :=
  ∃ url, ws_Parse ws ("ws://" +:+ (address +:+ ":" +:+ port +:+ uri)) = Ok url ∧ ws_Dial ws url w = (Ok c, w1) ∧
    stays alive w w1 ∧ alive w1 c ∧ waiting w1 c = [] ∧ waiting w1 (peer c) = [].

Lemma hears_of_dial h address other w ho c w1 :
  hasMesh h = true → do_NodeUUID other ≠ nodeUUID h → meshConnections h !! do_NodeUUID other = None →
  String.prefix "ws" (address +:+ ":" +:+ TransportPort other +:+ TransportURI other) = false →
  dials w address (TransportPort other) (TransportURI other) c w1 →
  hears_of h address other w ho =
    setupOutgoingConnection (websocket_transport (facing ws peer)) h (w1, ho) c (do_NodeUUID other).
Proof.
  intros Hmesh Hself Hnew Hpre (url & Hp & Hd & _). unfold hears_of. rewrite notify_payload.
  unfold discoveryHandler. rewrite decide_False by done. unfold connectionExists. rewrite Hnew.
  unfold connectEndpoint. rewrite Hmesh. cbn [negb t_Connect websocket_transport]. unfold Connect. rewrite Hpre.
  cbn [ws_Parse facing]. rewrite Hp. cbn [ws_Dial facing fst snd]. rewrite Hd.
  by destruct (setupOutgoingConnection _ h (w1, ho) c (do_NodeUUID other)) as [h1 w2].
Qed.

(** What is left of the two hubs and of the world when a node of the group "*", as
    the control process is, has heard of a runner and reached it. *)
Lemma hears_joins hA idB tenant jobType port address w c w1 :
  hasMesh hA = true → belongsTo hA = "*" → interests hA = [] → meshConnections hA !! idB = None →
  nodeUUID hA ≠ "" → idB ≠ "" → nodeUUID hA ≠ idB →
  String.prefix "ws" (address +:+ ":" +:+ port +:+ "/meta/message") = false →
  dials w address port "/meta/message" c w1 →
  ∃ w2, hears_of hA address (mkDiscoveryOpts idB port "/meta/message") w (initHub idB tenant [jobType] true false) =
    (addConnection hA c idB tenant [jobType],
     (w2, addConnection (initHub idB tenant [jobType] true false) (peer c) (nodeUUID hA) "*" [])) ∧
    stays alive w1 w2 ∧ ∀ d, waiting w2 d = waiting w1 d.
Proof.
  intros Hmesh Hbt Hints Hnew HidA HidB Hne Hpre Hdial.
  rewrite (hears_of_dial _ address _ w _ c w1); [|done|simpl; congruence|exact Hnew|exact Hpre|exact Hdial].
  destruct Hdial as (url & _ & _ & _ & Hw1 & Hq1 & Hq2). simpl do_NodeUUID.
  pose proof (dial_result ws peer waiting alive hA (initHub idB tenant [jobType] true false)
    w1 c idB Hw1 Hq1 Hq2 HidA HidB Hnew (lookup_empty _)) as Hres.
  destruct (setupOutgoingConnection _ _ _ c idB) as [hA' [w' hB']].
  assert (Accept (handshakeAck (initHub (B := B) idB tenant [jobType] true false) (handshake_of hA)) = true) as Hacc.
  { apply handshakeAck_compatible. by right. }
  rewrite Hacc in Hres. destruct Hres as (-> & -> & Hw'). rewrite decide_True by (by right).
  rewrite Hbt, Hints. exists w'. split; [done|]. apply Hw'. by right.
Qed.

(** C23: When the control process, whose bus New makes of its options, hears the
    payload of a runner and the dial reaches it, both hubs are connected to each
    other; the balancers of the control process list the runner for its job type
    and for nothing else, and the runner lists the control process for nothing. *)
Theorem sat_joins_mesh idA idB tenant jobType port address bA bB w c w1 :
  New idA server_mods = Val bA → New idB (sat_mods tenant jobType port) = Val bB →
  idA ≠ "" → idB ≠ "" → idA ≠ idB → tenant ≠ "*" → port ≠ "" → 
  String.prefix "ws" (address +:+ ":" +:+ port +:+ "/meta/message") = false →
  dials w address port "/meta/message" c w1 →
  ∃ dB, b_discovery bB = Some dB ∧
    let '(hA, (_, hB)) := hears_of (bus_hub bA) address dB w (bus_hub bB) in
    (∀ cap, idB ∈ members_of (capabilityBalancers hA) cap ↔ cap = jobType) ∧
    (Conn <$> meshConnections hA !! idB) = Some (Some c) ∧ (Conn <$> meshConnections hB !! idA) = Some (Some (peer c)) ∧
    (∀ cap, idA ∉ members_of (capabilityBalancers hB) cap).
Proof.
  intros HA HB HidA HidB Hne Htenant Hport Hpre Hdial.
  apply New_hub in HA as [HhA _]. apply New_hub in HB as [HhB HdB]. rewrite sat_options in HhB, HdB by done.
  rewrite HhA, HhB. cbn [is_configured MeshTransport BridgeTransport BelongsTo Interests newOptionsWithModifiers foldl
    server_mods UseDiscovery UseMeshTransport defaultOptions].
  exists (mkDiscoveryOpts idB port "/meta/message"). split; [exact HdB|].
  destruct (hears_joins (initHub idA "*" [] true false) idB tenant jobType port address w c w1 eq_refl eq_refl eq_refl (lookup_empty _)
    HidA HidB Hne Hpre Hdial) as (w2 & -> & _).
  split_and!; [|simpl; by rewrite lookup_insert_eq..|].
  - intros cap. rewrite added_members by (try done; apply hub_wf_init). simpl. by rewrite list_elem_of_singleton.
  - intros cap. rewrite added_members by (try done; apply hub_wf_init). simpl. apply not_elem_of_nil.
Qed.

(** The runner's own dial is refused: its tenant is not the control process's
    group, so only the control process can connect the two. *)
Theorem sat_dial_refused idA idB tenant jobType port bA bB w c :
  New idA server_mods = Val bA → New idB (sat_mods tenant jobType port) = Val bB →
  idA ≠ "" → idB ≠ "" → tenant ≠ "*" → port ≠ "" → alive w c → waiting w c = [] → waiting w (peer c) = [] →
  let '(hB, (_, hA)) :=
    setupOutgoingConnection (websocket_transport (facing ws peer)) (bus_hub bB) (w, bus_hub bA) c idA in
  hB = bus_hub bB ∧ hA = bus_hub bA.
Proof.
  intros HA HB HidA HidB Htenant Hport Hw Hq1 Hq2.
  apply New_hub in HA as [-> _]. apply New_hub in HB as [-> _]. rewrite sat_options by done.
  cbn [is_configured MeshTransport BridgeTransport BelongsTo Interests newOptionsWithModifiers foldl
    server_mods UseDiscovery UseMeshTransport defaultOptions].
  pose proof (dial_result ws peer waiting alive (initHub idB tenant [jobType] true false) (initHub idA "*" [] true false)
    w c idA Hw Hq1 Hq2 HidB HidA (lookup_empty _) (lookup_empty _)) as Hres.
  destruct (setupOutgoingConnection _ _ _ c idA) as [hB' [w' hA']].
  destruct (Accept (handshakeAck (initHub (B := B) idA "*" [] true false)
    (handshake_of (initHub (B := B) idB tenant [jobType] true false)))) eqn:Hacc; [|done].
  apply handshakeAck_compatible in Hacc as [|]; simpl in *; congruence.
Qed.

End Discovery.
End Node.

(** ** Examples *)

From S2P Require Import Balancer.

#[local] Instance example_payload_codec : Codec payload.
Proof.
  assert (EqDecision payload) by solve_decision.
  apply (@countable_codec payload _ (inj_countable' (λ p, (p_UUID p, p_Port p, p_Path p))
    (λ '(u, p, q), mkPayload u p q) ltac:(by intros []))).
Defined.

Definition example_control : outcome (Bus (B := Balancer)) := New "control" server_mods.
Definition example_sat : outcome (Bus (B := Balancer)) := New "sat" (sat_mods "tenant" "fn" "9000").

Lemma sat_joins_mesh_witness :
  match example_control, example_sat with
  | Val bA, Val bB =>
      ∃ dB, b_discovery bB = Some dB ∧
        let '(hA, _) := hears_of pipes other_end (bus_hub bA) "10.0.0.7" dB no_pipes (bus_hub bB) in
        "sat" ∈ members_of (capabilityBalancers hA) "fn"
  | _, _ => False
  end.
Proof.
  destruct example_control as [bA|] eqn:HA; [|discriminate HA].
  destruct example_sat as [bB|] eqn:HB; [|discriminate HB].
  destruct (sat_joins_mesh pipes other_end pipe_waiting pipes_alive "control" "sat" "tenant" "fn" "9000" "10.0.0.7"
    bA bB no_pipes 1 no_pipes HA HB) as (dB & HdB & Hj); [discriminate|discriminate|discriminate|discriminate|discriminate| | |].
  - reflexivity.
  - exists "ws://10.0.0.7:9000/meta/message". split; [reflexivity|]. split; [reflexivity|]. split; [by intros d|].
    split; [apply no_pipes_alive|]. split; reflexivity.
  - exists dB. split; [exact HdB|].
    destruct (hears_of pipes other_end (bus_hub bA) "10.0.0.7" dB no_pipes (bus_hub bB)) as [hA [w' hB]].
    apply Hj. reflexivity.
Defined.

