(* ===== verification/Bridge.v ===== *)
(** * Bridges to a broker: foundation/bus/transport/kafka, foundation/bus/transport/nats

    A bridge connection publishes the messages of one type that its pod sees and
    sends what comes from the topic to its bus.  [Broker] is what the two
    transports have in common; the brokers themselves are a log of records.  The
    section [Mesh] is any number of nodes that are bridged to one topic. *)

From S2P Require Import Prelude.
From S2P Require Import Interfaces.
From S2P Require Import Message.
From S2P Require Import MessageBus.
From S2P Require Import Pod.

(** ** The contract of a bridge *)

(** [publish] makes the record of a message, [receive] the message of a record;
    the first two arguments are for a message made of raw data. *)
Class Broker (R : Type) : Type := {
  publish : string → Message → R;
  receive : string → Z → string → R → option Message;
  receive_publish fresh now topic m : receive fresh now topic (publish topic m) = Some m
}.

(** ** Kafka *)

Section Kafka.
Context `{Codec Message, Codec _meta}.

Definition busMetadataHeaderKey : string := "bus.metadata".

(** [kgo.Record]; a header's value can be nil. *)
Record Record_ : Type := mkRecord {
  Topic : string;
  Value : string;
  Headers : list (string * option string)
}.

Fixpoint findMetaHeaderValue (key : string) (headers : list (string * option string)) : option string :=
  match headers with
  | [] => None
  | (k, v) :: headers => if decide (k = key) then v else findMetaHeaderValue key headers
  end.

(** The function given to [OnType], up to the call of the client. *)
Definition kafka_publish (topic : string) (msg : Message) : Record_ :=
  mkRecord topic (Data msg) [(busMetadataHeaderKey, Some (MarshalMetadata msg))].

(** The message of a record, if the loop does not skip it. *)
Definition kafka_receive (fresh : string) (now : Z) (topic : string) (record : Record_) : option Message :=
  match findMetaHeaderValue busMetadataHeaderKey (Headers record) with
  | None => Some (NewMsg fresh now topic (Value record))
  | Some metaHeader =>
      match MsgFromDataAndMeta (Value record) metaHeader with
      | Ok msg => Some msg
      | Err _ => None
      end
  end.

#[export] Program Instance kafka_broker : Broker Record_ := {|
  publish := kafka_publish;
  receive := kafka_receive
|}.
Next Obligation.
  intros fresh now topic m. unfold kafka_receive, kafka_publish, MsgFromDataAndMeta, MarshalMetadata; simpl.
  rewrite unmarshal_marshal. simpl. by destruct m as [[] []].
Qed.

(** What a poll brings: errors, or records. *)
Inductive fetches : Type := FetchErrors (e : error) | Fetched (rs : list Record_).

(** The loop of the receiving goroutine: the messages that it sends to the bus.
    It goes on after any errors. *)
Definition kafka_loop (ids : nat → string * Z) (topic : string) (poll : nat → fetches) (fuel : nat) :
    option (list Message) :=
  loop fuel (λ '(n, sent), match poll n with
                           | FetchErrors _ => inl (S n, sent)
                           | Fetched rs =>
                               inl (S n, sent ++ omap (λ r, kafka_receive (ids n).1 (ids n).2 topic r) rs)
                           end) (0, []).

(** The goroutine does not end, not even when its client is closed and every
    poll answers with an error at once. *)
Lemma kafka_loop_never_ends ids topic poll fuel : kafka_loop ids topic poll fuel = None.
Proof.
  unfold kafka_loop. generalize (0, [] : list Message) as s. induction fuel as [|fuel IH]; intros [n sent]; simpl; [done|].
  destruct (poll n); apply IH.
Qed.

(** ** NATS *)

Definition nats_publish (_ : string) (msg : Message) : string := Marshal msg.

Definition nats_receive (fresh : string) (now : Z) (topic : string) (data : string) : option Message :=
  Some (match MsgFromBytes data with Ok msg => msg | Err _ => NewMsg fresh now topic data end).

#[export] Program Instance nats_broker : Broker string := {|
  publish := nats_publish;
  receive := nats_receive
|}.
Next Obligation.
  intros fresh now topic m. unfold nats_receive, nats_publish, MsgFromBytes, Marshal. by rewrite unmarshal_marshal.
Qed.

(** [nats.ErrTimeout], of the library *)
Definition ErrTimeout : error := ErrNew "nats: timeout".

(** The receiving goroutine goes on after a timeout and ends with any other
    error. *)
Definition nats_turn (ids : nat → string * Z) (topic : string) (next : nat → result string)
    (s : nat * list Message) : (nat * list Message) + list Message :=
  let '(n, sent) := s in
  match next n with
  | Err e => if decide (e = ErrTimeout) then inl (S n, sent) else inr sent
  | Ok data => inl (S n, sent ++ option_list (nats_receive (ids n).1 (ids n).2 topic data))
  end.

Definition nats_loop (ids : nat → string * Z) (topic : string) (next : nat → result string) (fuel : nat) :
    option (list Message) :=
  loop fuel (nats_turn ids topic next) (0, []).

Lemma omap_step {A B} (f : A → option B) x l : omap f (x :: l) = option_list (f x) ++ omap f l.
Proof. simpl. by destruct (f x). Qed.

Lemma loop_S {S R} n (body : S → S + R) s :
  loop (Datatypes.S n) body s = match body s with inl s' => loop n body s' | inr r => Some r end.
Proof. done. Qed.

(** The goroutine ends in the turn of the first error that is no timeout, having
    passed on what came before. *)
Theorem nats_loop_ends ids topic next n e :
  next n = Err e → e ≠ ErrTimeout → (∀ k, k < n → next k ≠ Err e ∧ ∀ e', next k = Err e' → e' = ErrTimeout) →
  nats_loop ids topic next (S n) =
    Some (omap (λ k, match next k with
                     | Ok data => nats_receive (ids k).1 (ids k).2 topic data | Err _ => None end) (seq 0 n)).
Proof.
  intros Hn He Hbefore. unfold nats_loop.
  assert (∀ d k sent, k + d = n → loop (S d) (nats_turn ids topic next) (k, sent) =
    Some (sent ++ omap (λ k, match next k with
                     | Ok data => nats_receive (ids k).1 (ids k).2 topic data | Err _ => None end) (seq k d))) as H'.
  { induction d as [|d IH]; intros k sent Hk; rewrite loop_S.
    - replace k with n by lia. unfold nats_turn. rewrite Hn, decide_False by done. cbn. by rewrite app_nil_r.
    - destruct (Hbefore k) as [_ Ht]; [lia|]. cbn [seq]. rewrite omap_step. destruct (next k) as [data|e'] eqn:E.
      + assert (nats_turn ids topic next (k, sent) =
          inl (S k, sent ++ option_list (nats_receive (ids k).1 (ids k).2 topic data))) as -> by (unfold nats_turn; by rewrite E).
        rewrite IH by lia. by rewrite <- app_assoc.
      + assert (nats_turn ids topic next (k, sent) = inl (S k, sent)) as ->.
        { unfold nats_turn. rewrite E. rewrite decide_True; [done|]. by apply Ht. }
        by rewrite IH by lia. }
  by rewrite H'.
Qed.

End Kafka.

(** ** Nodes that share a topic *)

Section Mesh.
Context {R : Type} `{Broker R} (topic : string).

(** The pod of a node's bridge, the bus's channel, the messages that the bus has
    handed to the bridge and whose handler has not run, everything that went over
    the bus, and how far the node has read the topic. *)
Record node : Type := mkNode {
  n_pod : Pod;
  n_chan : list Message;
  n_inbox : list Message;
  n_bus : list Message;
  n_read : nat
}.

Record mesh : Type := mkMesh { log : list R; nodes : list node; used : list string }.

(** [Start]: the pod handles the topic's type. *)
Definition bridge_start (publisher : Message → option error) : option node :=
  p ← OnType (newPod false) topic (Some (OwnerFunc publisher));
  Some (mkNode p [] [] [] 0).

(** The function of the pod runs for a message. *)
Definition handles (p : Pod) (m : Message) : bool :=
  match handleMsg p m with Ignored => false | _ => true end.

Inductive mesh_step (s : mesh) : mesh → Prop :=
| MeshSend i n m :                                   (* another pod of the node sends a new message *)
    nodes s !! i = Some n → UUID m ∉ used s →
    mesh_step s (mkMesh (log s)
      (<[i := mkNode (n_pod n) (n_chan n ++ [m]) (n_inbox n) (n_bus n) (n_read n)]> (nodes s)) (UUID m :: used s))
| MeshBus i n m ms :                                 (* a turn of the bus *)
    nodes s !! i = Some n → n_chan n = m :: ms →
    mesh_step s (mkMesh (log s)
      (<[i := mkNode (n_pod n) ms (m :: n_inbox n) (n_bus n ++ [m]) (n_read n)]> (nodes s)) (used s))
| MeshHandle i n m ms :                              (* a handler goroutine of the bridge *)
    nodes s !! i = Some n → n_inbox n ≡ₚ m :: ms →
    mesh_step s (mkMesh (if handles (n_pod n) m then log s ++ [publish topic m] else log s)
      (<[i := mkNode (n_pod n) (n_chan n) ms (n_bus n) (n_read n)]> (nodes s)) (used s))
| MeshReceive i n r fresh now m t p chan :           (* a turn of the receiving goroutine *)
    nodes s !! i = Some n → log s !! n_read n = Some r → receive fresh now topic r = Some m →
    Send (n_pod n) (n_chan n) m = Some (t, p, chan) →
    mesh_step s (mkMesh (log s)
      (<[i := mkNode p chan (n_inbox n) (n_bus n) (S (n_read n))]> (nodes s)) (used s)).

(** The copies of a message that a node would publish. *)
Definition allowed (n : node) (u : string) : bool :=
  verdict (UUIDMap (podFilter (n_pod n))) (UUIDInclusive (podFilter (n_pod n))) u.

Definition copies (u : string) (n : node) : nat :=
  if allowed n u then length (filter (λ m, UUID m = u) (n_chan n ++ n_inbox n)) else 0.

Definition total (u : string) (ns : list node) : nat := sum_list_with (copies u) ns.

Definition published (u : string) (ms : list Message) : nat := length (filter (λ m, UUID m = u) ms).

(** What a connected node has read of the topic went to its bus. *)
Definition reads (ms : list Message) (n : node) : Prop :=
  n_read n ≤ length ms ∧
  (dead (n_pod n) = false → ∀ k m, k < n_read n → ms !! k = Some m → m ∈ n_bus n ++ n_chan n).

Record mesh_ok (s : mesh) (ms : list Message) : Prop := {
  mo_log : log s = publish topic <$> ms;
  mo_once u : total u (nodes s) + published u ms ≤ 1;
  mo_read : Forall (reads ms) (nodes s);
  mo_used u : u ∉ used s →
    Forall (λ n, Forall (λ m, UUID m ≠ u) (n_chan n ++ n_inbox n)) (nodes s) ∧ Forall (λ m, UUID m ≠ u) ms
}.

Lemma total_insert u ns i n n' :
  ns !! i = Some n → total u (<[i := n']> ns) + copies u n = total u ns + copies u n'.
Proof.
  revert i. induction ns as [|x ns IH]; intros [|i] Hi; simplify_eq/=; unfold total in *; simpl; [lia|].
  specialize (IH i Hi). lia.
Qed.

Lemma handles_allowed n m : handles (n_pod n) m = true → allowed n (UUID m) = true.
Proof.
  unfold handles, handleMsg, allowed. destruct (onFunc (n_pod n)) as [f|]; [|done].
  destruct (allow (podFilter (n_pod n)) m) eqn:E; [|done]. rewrite allow_verdict in E. by apply andb_true_iff in E as [_ ->].
Qed.

(** How many messages of a list have the UUID. *)
Lemma filter_length_app u (l k : list Message) :
  length (filter (λ m, UUID m = u) (l ++ k)) = length (filter (λ m, UUID m = u) l) + length (filter (λ m, UUID m = u) k).
Proof. by rewrite filter_app, length_app. Qed.

Lemma filter_length_one u m : length (filter (λ m, UUID m = u) [m]) = if decide (UUID m = u) then 1 else 0.
Proof. rewrite filter_cons. by case_decide. Qed.

Lemma filter_none u (l : list Message) : Forall (λ m, UUID m ≠ u) l → length (filter (λ m, UUID m = u) l) = 0.
Proof.
  induction 1 as [|m l Hm _ IH]; [done|]. rewrite filter_cons. by rewrite decide_False.
Qed.

Lemma total_none u ns : Forall (λ n, Forall (λ m, UUID m ≠ u) (n_chan n ++ n_inbox n)) ns → total u ns = 0.
Proof.
  unfold total. induction 1 as [|n ns Hn _ IH]; simpl; [done|]. rewrite IH. unfold copies.
  rewrite filter_none by done. by destruct (allowed n u).
Qed.

Lemma reads_prefix ms ms' n : ms `prefix_of` ms' → reads ms n → reads ms' n.
Proof.
  intros [k ->] [Hl Hr]. split; [rewrite length_app; lia|]. intros Hd j m Hj Hm. apply (Hr Hd j m Hj).
  by rewrite lookup_app_l in Hm by lia.
Qed.

(** A node is replaced by one with fewer copies, and what it lost may have been
    published; or a new message has its first copy. *)
Lemma mesh_ok_update s ms i n n' ms' us :
  mesh_ok s ms → nodes s !! i = Some n → ms `prefix_of` ms' → (reads ms n → reads ms' n') →
  (∀ u, copies u n' + published u ms' ≤ copies u n + published u ms ∨
        ((u ∉ used s) ∧ copies u n' ≤ 1 ∧ ms' = ms)) →
  (∀ u, u ∉ us → (u ∉ used s) ∧ (Forall (λ m, UUID m ≠ u) (n_chan n ++ n_inbox n) → Forall (λ m, UUID m ≠ u) ms →
     Forall (λ m, UUID m ≠ u) (n_chan n' ++ n_inbox n') ∧ Forall (λ m, UUID m ≠ u) ms')) →
  mesh_ok (mkMesh (publish topic <$> ms') (<[i := n']> (nodes s)) us) ms'.
Proof.
  intros [Hl Ho Hr Hu] Hi Hp Hrn Hc Hus. split; simpl; [done| | |].
  - intros u. specialize (Ho u). pose proof (total_insert u _ _ _ n' Hi).
    destruct (Hc u) as [|(Hnu & Hn' & ->)]; [lia|]. destruct (Hu u Hnu) as [Hns Hms].
    pose proof (total_none u _ Hns). unfold published in *. rewrite (filter_none u ms) by done. lia.
  - apply Forall_insert; [|by apply Hrn, (Forall_lookup_1 _ _ _ _ Hr Hi)].
    eapply Forall_impl; [exact Hr|]. intros x. by apply reads_prefix.
  - intros u Hnu. destruct (Hus u Hnu) as [Hnu' Hf]. destruct (Hu u Hnu') as [Hns Hms].
    assert (Forall (λ m, UUID m ≠ u) (n_chan n ++ n_inbox n)) as Hn by exact (Forall_lookup_1 _ _ _ _ Hns Hi).
    destruct (Hf Hn Hms) as [Hn' Hms']. split; [|done]. by apply Forall_insert.
Qed.

(** The messages of the channel and the inbox of a node, with the pod's verdict. *)
Lemma copies_app u n : copies u n =
  (if allowed n u then length (filter (λ m, UUID m = u) (n_chan n)) + length (filter (λ m, UUID m = u) (n_inbox n)) else 0).
Proof. unfold copies. by rewrite filter_length_app. Qed.

(** [Send] denies the message that it sends, and only that one. *)
Lemma send_denies p chan m t p' chan' :
  Send p chan m = Some (t, p', chan') →
  (p' = p ∧ chan' = chan ∧ dead p = true) ∨
  (chan' = chan ++ [m] ∧ dead p' = dead p ∧ ∀ u, verdict (UUIDMap (podFilter p')) (UUIDInclusive (podFilter p')) u =
     if decide (UUID m = u) then false else verdict (UUIDMap (podFilter p)) (UUIDInclusive (podFilter p)) u).
Proof.
  unfold Send. destruct (dead p) eqn:E; [intros [= _ <- <-]; by left|]. case_decide; [|done]. intros [= _ <- <-]. right.
  split; [done|]. split; [done|]. intros u. simpl. apply verdict_insert.
Qed.

Lemma published_app u ms m : published u (ms ++ [m]) = published u ms + (if decide (UUID m = u) then 1 else 0).
Proof. unfold published. by rewrite filter_length_app, filter_length_one. Qed.

Lemma mesh_step_ok s s' ms : mesh_step s s' → mesh_ok s ms → ∃ ms', mesh_ok s' ms' ∧ ms `prefix_of` ms'.
Proof.
  intros Hstep Hok. pose proof (mo_log s ms Hok) as Hlog.
  destruct Hstep as [i n m Hi Hm|i n m ms0 Hi Hch|i n m ms0 Hi Hin|i n r fresh now m t p chan Hi Hr Hrec Hs].
  - exists ms. split; [|done]. rewrite Hlog. apply (mesh_ok_update s ms i n); [done..| | |].
    + intros [Hl Hr]. split; [done|]. simpl. intros Hd k x Hk Hx. specialize (Hr Hd k x Hk Hx). set_solver.
    + intros u. rewrite !copies_app. unfold allowed; simpl. rewrite filter_length_app, filter_length_one.
      destruct (decide (UUID m = u)) as [<-|]; [right|left; case_match; lia].
      destruct (mo_used s ms Hok _ Hm) as [Hns _]. pose proof (Forall_lookup_1 _ _ _ _ Hns Hi) as Hn.
      apply Forall_app in Hn as [Hc Hb]. rewrite !filter_none by done. split_and!; [done|case_match; lia|done].
    + intros u [Hne Hnu]%not_elem_of_cons. split; [done|]. simpl. rewrite !Forall_app, Forall_singleton. naive_solver.
  - exists ms. split; [|done]. rewrite Hlog. apply (mesh_ok_update s ms i n); [done..| | |].
    + intros [Hl Hr]. split; [done|]. simpl. intros Hd k x Hk Hx. specialize (Hr Hd k x Hk Hx). rewrite Hch in Hr. set_solver.
    + intros u. left. rewrite !copies_app. unfold allowed; simpl. rewrite Hch.
      change (m :: ms0) with ([m] ++ ms0). change (m :: n_inbox n) with ([m] ++ n_inbox n).
      rewrite !filter_length_app. case_match; lia.
    + intros u Hnu. split; [done|]. simpl. rewrite Hch, !Forall_app, !Forall_cons. naive_solver.
  - assert (∀ u, length (filter (λ m, UUID m = u) (n_inbox n)) =
      (if decide (UUID m = u) then 1 else 0) + length (filter (λ m, UUID m = u) ms0)) as Hlen.
    { intros u. rewrite Hin. change (m :: ms0) with ([m] ++ ms0). by rewrite filter_length_app, filter_length_one. }
    assert (∀ u, Forall (λ m, UUID m ≠ u) (n_inbox n) → UUID m ≠ u ∧ Forall (λ m, UUID m ≠ u) ms0) as Hfor.
    { intros u. rewrite Hin. by rewrite Forall_cons. }
    destruct (handles (n_pod n) m) eqn:Hh.
    + exists (ms ++ [m]). split; [|by exists [m]]. rewrite Hlog.
      replace ((publish topic <$> ms) ++ [publish topic m]) with (publish topic <$> (ms ++ [m])) by by rewrite fmap_app.
      apply (mesh_ok_update s ms i n); [done|done|by exists [m]| | |].
      * intros Hr. apply (reads_prefix ms); [by exists [m]|exact Hr].
      * intros u. left. rewrite !copies_app, published_app. unfold allowed; simpl. fold (allowed n u). rewrite Hlen.
        destruct (decide (UUID m = u)) as [<-|]; [rewrite (handles_allowed n m Hh); lia|case_match; lia].
      * intros u Hnu. split; [done|]. simpl. rewrite !Forall_app, Forall_singleton. naive_solver.
    + exists ms. split; [|done]. rewrite Hlog. apply (mesh_ok_update s ms i n); [done..| |].
      * intros u. left. rewrite !copies_app. unfold allowed; simpl. fold (allowed n u). rewrite Hlen. case_match; lia.
      * intros u Hnu. split; [done|]. simpl. rewrite !Forall_app. naive_solver.
  - exists ms. split; [|done]. rewrite Hlog. rewrite Hlog in Hr. apply list_lookup_fmap_Some in Hr as (m' & -> & Hm').
    rewrite receive_publish in Hrec. injection Hrec as ->.
    pose proof (lookup_lt_Some _ _ _ Hm') as Hlt.
    destruct (send_denies _ _ _ _ _ _ Hs) as [(-> & -> & Hdead)|(-> & Hdead & Hv)]; apply (mesh_ok_update s ms i n); try done.
    + intros [Hl Hr]. split; [simpl; lia|]. simpl. intros Hd. by rewrite Hdead in Hd.
    + intros u. by left.
    + intros [Hl Hr]. split; [simpl; lia|]. simpl. rewrite Hdead. intros Hd k x Hk Hx.
      destruct (decide (k = n_read n)) as [->|]; [rewrite Hm' in Hx; injection Hx as ->; set_solver|].
      assert (k < n_read n) as Hk' by lia. specialize (Hr Hd k x Hk' Hx). set_solver.
    + intros u. left. rewrite !copies_app. unfold allowed; simpl. rewrite Hv, filter_length_app, filter_length_one.
      destruct (decide (UUID m = u)); [|fold (allowed n u)]; case_match; lia.
    + intros u Hnu. split; [done|]. simpl. intros Hc Hms. rewrite !Forall_app, Forall_singleton in *.
      split; [|done]. split; [|naive_solver]. split; [naive_solver|]. exact (Forall_lookup_1 _ _ _ _ Hms Hm').
Qed.

(** No two messages with one UUID. *)
Lemma published_NoDup ms : (∀ u, published u ms ≤ 1) → NoDup (UUID <$> ms).
Proof.
  intros Ho. induction ms as [|m ms IH]; [constructor|]. apply NoDup_cons. split.
  - intros (m' & Hu & Hin)%list_elem_of_fmap. specialize (Ho (UUID m)). unfold published in Ho.
    rewrite filter_cons, decide_True in Ho by done. simpl in Ho.
    assert (m' ∈ filter (λ x, UUID x = UUID m) ms) as Hf by (by apply list_elem_of_filter).
    destruct (filter (λ x, UUID x = UUID m) ms); [by apply not_elem_of_nil in Hf|]. simpl in Ho. lia.
  - apply IH. intros u. specialize (Ho u). unfold published in *. rewrite filter_cons in Ho. case_decide; simpl in Ho; lia.
Qed.

(** C27: However the nodes that are bridged to one topic send, receive and handle
    messages, the topic never holds two records of one message, although every
    node sends what it reads to its own bus, where its bridge listens; and every
    message of a record that a connected node has read went to its bus. *)
Theorem bridge_publishes_once ns s :
  Forall (λ n, n_chan n = [] ∧ n_inbox n = [] ∧ n_read n = 0) ns → rtc mesh_step (mkMesh [] ns []) s →
  ∃ ms, log s = publish topic <$> ms ∧ NoDup (UUID <$> ms) ∧
    ∀ i n k m, nodes s !! i = Some n → dead (n_pod n) = false → k < n_read n → ms !! k = Some m →
      m ∈ n_bus n ++ n_chan n.
Proof.
  intros Hns Hrun.
  assert (mesh_ok (mkMesh [] ns []) []) as Hok.
  { rewrite Forall_forall in Hns. split; simpl; [done| | |].
    - intros u. rewrite total_none; [unfold published; simpl; lia|].
      apply Forall_forall. intros n Hn. destruct (Hns n Hn) as (-> & -> & _). constructor.
    - apply Forall_forall. intros n Hn. destruct (Hns n Hn) as (_ & _ & Hr). split; [rewrite Hr; simpl; lia|].
      intros _ k m Hk. lia.
    - intros u _. split; [|constructor]. apply Forall_forall. intros n Hn. destruct (Hns n Hn) as (-> & -> & _). constructor. }
  assert (∃ ms, mesh_ok s ms) as [ms Hok'].
  { revert Hok. generalize ([] : list Message). induction Hrun as [|s1 s2 s3 Hstep _ IH]; intros ms Hok; [by exists ms|].
    destruct (mesh_step_ok _ _ _ Hstep Hok) as (ms2 & Hok2 & _). by eapply IH. }
  exists ms. split; [apply (mo_log _ _ Hok')|]. split.
  - apply published_NoDup. intros u. pose proof (mo_once _ _ Hok' u). lia.
  - intros i n k m Hi Hd Hk Hm. destruct (Forall_lookup_1 _ _ _ _ (mo_read _ _ Hok') Hi) as [_ Hr]. by eapply Hr.
Qed.

End Mesh.

(** ** Examples *)

From S2P Require Import Websocket.

Definition example_node : node :=
  default (mkNode (newPod false) [] [] [] 0) (bridge_start "topic" (λ _, None)).

Definition example_msg : Message := NewMsg "u" 0 "topic" "data".

(** A message of the first node: published, and read by both nodes.  It goes
    over the bus of the first node twice, over that of the second once. *)
Definition mesh_at (l : list string) (n1 n2 : node) (us : list string) : mesh := mkMesh l [n1; n2] us.

Lemma own_message_twice :
  ∃ s p1 p2, rtc (mesh_step "topic") (mesh_at [] example_node example_node []) s ∧
    log s = [publish "topic" example_msg] ∧
    nodes s = [mkNode p1 [] [] [example_msg; example_msg] 1; mkNode p2 [] [] [example_msg] 1].
Proof.
  set (pod0 := n_pod example_node). set (m := example_msg).
  destruct (Send pod0 [] m) as [[[t1 p1] c1]|] eqn:E; [|discriminate E].
  assert (c1 = [m] ∧ handles pod0 m = true ∧ handles p1 m = false) as (-> & Hh0 & Hh1).
  { vm_compute in E. injection E as <- <- <-. vm_compute. done. }
  exists (mkMesh [publish "topic" m] [mkNode p1 [] [] [m; m] 1; mkNode p1 [] [] [m] 1] ["u"]), p1, p1.
  split; [|done].
  eapply rtc_l; [apply (MeshSend "topic" _ 0 example_node m); [done|set_solver]|].
  eapply rtc_l; [by apply (MeshBus "topic" _ 0 (mkNode pod0 [m] [] [] 0) m [])|].
  eapply rtc_l; [by apply (MeshHandle "topic" _ 0 (mkNode pod0 [] [m] [m] 0) m [])|].
  simpl. rewrite Hh0.
  eapply rtc_l; [eapply (MeshReceive "topic" _ 0 (mkNode pod0 [] [] [m] 0) _ "" 0 m t1 p1 [m]);
    [reflexivity|reflexivity|exact (receive_publish "" 0 "topic" m)|exact E]|].
  eapply rtc_l; [by apply (MeshBus "topic" _ 0 (mkNode p1 [m] [] [m] 1) m [])|].
  eapply rtc_l; [by apply (MeshHandle "topic" _ 0 (mkNode p1 [] [m] [m; m] 1) m [])|].
  simpl. rewrite Hh1.
  eapply rtc_l; [eapply (MeshReceive "topic" _ 1 (mkNode pod0 [] [] [] 0) _ "" 0 m t1 p1 [m]);
    [reflexivity|reflexivity|exact (receive_publish "" 0 "topic" m)|exact E]|].
  eapply rtc_l; [by apply (MeshBus "topic" _ 1 (mkNode p1 [m] [] [] 1) m [])|].
  eapply rtc_l; [by apply (MeshHandle "topic" _ 1 (mkNode p1 [] [m] [m] 1) m [])|].
  simpl. rewrite Hh1. apply rtc_refl.
Qed.

Lemma bridge_publishes_once_witness :
  ∃ s, rtc (mesh_step "topic") (mesh_at [] example_node example_node []) s ∧
    log s = [publish "topic" example_msg] ∧
    ∃ ms, log s = publish "topic" <$> ms ∧ NoDup (UUID <$> ms).
Proof.
  destruct own_message_twice as (s & p1 & p2 & Hrun & Hlog & _). exists s. split; [exact Hrun|]. split; [exact Hlog|].
  assert (Forall (λ n, n_chan n = [] ∧ n_inbox n = [] ∧ n_read n = 0) [example_node; example_node]) as Hns
    by (repeat constructor).
  destruct (bridge_publishes_once "topic" [example_node; example_node] s Hns Hrun) as (ms & H1 & H2 & _).
  exists ms. split; [exact H1|exact H2].
Defined.
