(* ===== verification/BridgeConn.v ===== *)
(** * Connecting a bridge: the Transport and Conn of kafka/transport.go and nats/transport.go

    What a bridge transport is for the hub, and the two transports over the calls
    of their client libraries.  The loops of a connection and the nodes that share
    a topic are in [Bridge]. *)

From S2P Require Import Prelude.
From S2P Require Import Interfaces.
From S2P Require Import Message.
From S2P Require Import PodConn.
From S2P Require Import Pod.
From S2P Require Import Bridge.

(** The logger and the custom value are left out. *)
Record MeshOptions : Type := mkMeshOptions { mesh_NodeUUID : string; mesh_Port : string; mesh_URI : string }.
Record BridgeOptions : Type := mkBridgeOptions { bridge_NodeUUID : string }.

(** ** The plugin, over the world [W] *)

(** [handler] is the function that [Start] gives to [OnType]; [set_pod] the
    assignment to the field. *)
Class BridgeConnection (C W : Type) : Type := {
  conn_topic : C → string;
  conn_pod : C → option Pod;
  set_pod : C → Pod → C;
  handler : C → Message → W → option error * W;
  Close_ : C → W → W
}.

Class BridgeTransport (Tr C W : Type) : Type := {
  Setup : Tr → BridgeOptions → option error * Tr;
  ConnectTopic : Tr → string → W → result C * W
}.

(** [Start] in the world [w]: the pod handles the messages of the topic. *)
Definition Start {C W : Type} `{BridgeConnection C W} (c : C) (pod : Pod) (w : W) : option (C * Pod) :=
  p ← OnType pod (conn_topic c) (Some (OwnerFunc (λ msg, (handler c msg w).1)));
  Some (set_pod c p, p).

(** What a transport promises: a connection is one to the topic that was asked
    for, and what its function has published without an error is one more record
    on the topic, which is the message again for whoever reads it there.  [records]
    is what the broker has of a topic, [made] holds of connections that the
    transport has made. *)
Class BridgeLaws (Tr C W R : Type) `{BridgeTransport Tr C W, BridgeConnection C W, Broker R}
    (records : W → string → list R) (made : C → Prop) : Prop := {
  law_connect t topic w c w1 :
    ConnectTopic t topic w = (Ok c, w1) → conn_topic c = topic ∧ conn_pod c = None ∧ made c;
  law_set_pod c p : conn_topic (set_pod c p) = conn_topic c ∧ conn_pod (set_pod c p) = Some p;
  law_publish c m w w1 :
    made c → handler c m w = (None, w1) → records w1 (conn_topic c) = records w (conn_topic c) ++ [publish (conn_topic c) m]
}.

(** The end of [initHub]: the plugin, if there is one, is told the node's UUID; its
    error is logged. *)
Definition setup_bridge {Tr C W : Type} `{BridgeTransport Tr C W} (bridge : option Tr) (nodeUUID : string) :
    option (option error * Tr) :=
  (λ t, Setup (C := C) (W := W) t (mkBridgeOptions nodeUUID)) <$> bridge.

Section Use.
Context {Tr C W R : Type} `{BridgeLaws Tr C W R records made}.

(** From connecting to a topic to a message on it: a connection that was started
    on a new pod runs its function for exactly the messages whose type is the
    topic; when the function succeeds the topic holds one more record, which every
    node of the topic receives as that message; when it fails the message is
    reported as failed. *)
Lemma started_bridge t topic w c w1 c1 p m w2 :
  ConnectTopic t topic w = (Ok c, w1) → Start c (newPod false) w2 = Some (c1, p) →
  conn_pod c1 = Some p ∧
  handleMsg p m =
    (if decide (Type_ m = topic)
     then Reported (match (handler c m w2).1 with Some _ => FailedMsg (Some m) | None => podFeedbackMsgSuccess end)
     else Ignored) ∧
  ∀ w3, handler c m w2 = (None, w3) →
    ∃ r, records w3 topic = records w2 topic ++ [r] ∧ ∀ fresh now, receive fresh now topic r = Some m.
Proof.
  intros Hc Hs. destruct (law_connect t topic w c w1 Hc) as (<- & _ & Hm). unfold Start in Hs.
  destruct (OnType _ _ _) as [p1|] eqn:E; [|done]. simpl in Hs. injection Hs as <- <-.
  split; [apply law_set_pod|]. split.
  - cbv [OnType mbind option_bind setOnFunc newPod] in E. simpl in E. injection E as <-.
    unfold handleMsg. simpl onFunc. cbv iota. rewrite allow_verdict. simpl. unfold verdict.
    rewrite lookup_empty, lookup_insert. simpl. rewrite andb_true_r. repeat case_decide; try congruence; [|done].
    simpl. by destruct (handler c m w2) as [[e|] ?].
  - intros w3 Hh. exists (publish (conn_topic c) m). split; [by apply law_publish|]. intros fresh now. apply receive_publish.
Qed.

End Use.

(** ** NATS *)

(** The calls of the client. *)
Class NatsClient (Nc Sub W : Type) : Type := {
  nats_Dial : string → W → result Nc * W;
  nats_SubscribeSync : Nc → string → W → result Sub * W;
  nats_Publish : Nc → string → string → W → option error * W;
  nats_Unsubscribe : Sub → W → option error * W
}.

Section Nats.
Context {Nc Sub W : Type} `{NatsClient Nc Sub W} `{Codec Message, Codec _meta}.

Record nats_Transport : Type := mkNats { n_opts : option BridgeOptions; serverConn : Nc }.

Record nats_Conn : Type := mkNatsConn {
  nc_topic : string; nc_pod : option Pod; sub : Sub; pubFn : string → W → option error * W
}.

Definition nats_New (endpoint : string) (w : W) : result nats_Transport * W :=
  match nats_Dial endpoint w with
  | (Err e, w1) => (Err (ErrWrap e "failed to nats.Connect"), w1)
  | (Ok nc, w1) => (Ok (mkNats None nc), w1)
  end.

Definition nats_Setup (t : nats_Transport) (opts : BridgeOptions) : option error * nats_Transport :=
  (None, mkNats (Some opts) (serverConn t)).

Definition nats_ConnectTopic (t : nats_Transport) (topic : string) (w : W) : result nats_Conn * W :=
  match nats_SubscribeSync (serverConn t) topic w with
  | (Err e, w1) => (Err (ErrWrap e "failed to SubscribeSync"), w1)
  | (Ok s, w1) => (Ok (mkNatsConn topic None s (λ data, nats_Publish (serverConn t) topic data)), w1)
  end.

Definition nats_handler (c : nats_Conn) (msg : Message) (w : W) : option error * W :=
  match pubFn c (nats_publish (nc_topic c) msg) w with
  | (Some e, w1) => (Some (ErrWrap e "failed to pubFn"), w1)
  | (None, w1) => (None, w1)
  end.

(** An error is logged. *)
Definition nats_Close (c : nats_Conn) (w : W) : W := (nats_Unsubscribe (sub c) w).2.

#[export] Instance nats_transport : BridgeTransport nats_Transport nats_Conn W := {|
  Setup := nats_Setup; ConnectTopic := nats_ConnectTopic
|}.

#[export] Instance nats_connection : BridgeConnection nats_Conn W := {|
  conn_topic := nc_topic; conn_pod := nc_pod;
  set_pod c p := mkNatsConn (nc_topic c) (Some p) (sub c) (pubFn c);
  handler := nats_handler; Close_ := nats_Close
|}.

(** A connection that [ConnectTopic] made publishes to its topic. *)
Definition nats_made (c : nats_Conn) : Prop := ∃ nc, pubFn c = λ data, nats_Publish nc (nc_topic c) data.

(** Publishing without an error is one more message on the subject. *)
#[export] Instance nats_laws (records : W → string → list string) :
  (∀ nc topic data w w1, nats_Publish nc topic data w = (None, w1) → records w1 topic = records w topic ++ [data]) →
  BridgeLaws nats_Transport nats_Conn W string records nats_made.
Proof.
  intros Hp. split.
  - intros t topic w c w1. simpl. unfold nats_ConnectTopic. destruct (nats_SubscribeSync _ _ _) as [[s|e] w2]; [|done].
    intros [= <- _]. split; [done|]. split; [done|]. by exists (serverConn t).
  - done.
  - intros c m w w1 [nc Hc]. simpl. unfold nats_handler. rewrite Hc.
    destruct (nats_Publish _ _ _ _) as [[e|] w2] eqn:E; [done|]. intros [= <-]. by apply (Hp _ _ _ _ _ E).
Qed.

End Nats.

(** ** Kafka *)

(** The calls of the client; [kgo_NewClient] gets the broker and the topic, and
    consumes from the end of it. *)
Class KafkaClient (Cl W : Type) : Type := {
  kgo_NewClient : string → string → W → result Cl * W;
  kgo_ProduceSync : Cl → Record_ → W → option error * W;
  kgo_Close : Cl → W → W
}.

Section Kafka.
Context {Cl W : Type} `{KafkaClient Cl W} `{Codec Message, Codec _meta}.

Record kafka_Transport : Type := mkKafka { k_opts : option BridgeOptions; endpoint : string }.

Record kafka_Conn : Type := mkKafkaConn { kc_topic : string; kc_pod : option Pod; client : Cl }.

(** The broker is not called before a topic is connected to. *)
Definition kafka_New (endpoint : string) : result kafka_Transport := Ok (mkKafka None endpoint).

Definition kafka_Setup (t : kafka_Transport) (opts : BridgeOptions) : option error * kafka_Transport :=
  (None, mkKafka (Some opts) (endpoint t)).

Definition kafka_ConnectTopic (t : kafka_Transport) (topic : string) (w : W) : result kafka_Conn * W :=
  match kgo_NewClient (endpoint t) topic w with
  | (Err e, w1) => (Err (ErrWrap e "failed to NewClient"), w1)
  | (Ok client, w1) => (Ok (mkKafkaConn topic None client), w1)
  end.

Definition kafka_handler (c : kafka_Conn) (msg : Message) (w : W) : option error * W :=
  match kgo_ProduceSync (client c) (kafka_publish (kc_topic c) msg) w with
  | (Some e, w1) => (Some (ErrWrap e "failed to ProduceSync"), w1)
  | (None, w1) => (None, w1)
  end.

#[export] Instance kafka_transport : BridgeTransport kafka_Transport kafka_Conn W := {|
  Setup := kafka_Setup; ConnectTopic := kafka_ConnectTopic
|}.

#[export] Instance kafka_connection : BridgeConnection kafka_Conn W := {|
  conn_topic := kc_topic; conn_pod := kc_pod; set_pod c p := mkKafkaConn (kc_topic c) (Some p) (client c);
  handler := kafka_handler; Close_ c w := kgo_Close (client c) w
|}.

(** Producing without an error is one more record on the topic of the record. *)
#[export] Instance kafka_laws (records : W → string → list Record_) :
  (∀ c r w w1, kgo_ProduceSync c r w = (None, w1) → records w1 (Topic r) = records w (Topic r) ++ [r]) →
  BridgeLaws kafka_Transport kafka_Conn W Record_ records (λ _, True).
Proof.
  intros Hp. split.
  - intros t topic w c w1. simpl. unfold kafka_ConnectTopic. destruct (kgo_NewClient _ _ _) as [[s|e] w2]; [|done].
    by intros [= <- _].
  - done.
  - intros c m w w1 _. simpl. unfold kafka_handler.
    destruct (kgo_ProduceSync _ _ _) as [[e|] w2] eqn:E; [done|]. intros [= <-]. by apply (Hp _ _ _ _ E).
Qed.

End Kafka.
