(* ===== verification/Worker.v ===== *)
(** * Workers and their scaling: foundation/scheduler/worker.go, scaler.go,
    opts.go, ratetracker.go, core.go (register), workthread.go

    A worker keeps a list of threads and a target; [reconcile] is the loop that
    makes them agree.  What the runnable answers to [OnChange] comes from
    outside, so it is a function of a world [W].  A thread is the flag of its
    context: whether it was cancelled. *)

From S2P Require Import Prelude.

Inductive ChangeEvent : Type := ChangeTypeStart | ChangeTypeStop.

Definition defaultChanSize : nat := 256.
Definition ErrJobTimeout : error := ErrNew "job timeout".

Record workerOpts : Type := mkOpts {
  jobType : string;
  poolSize : Z;
  autoscaleMax : Z;
  jobTimeoutSeconds : Z;
  numRetries : Z;
  retrySecs : Z;
  preWarm : bool
}.

Definition defaultOpts (jt : string) : workerOpts := mkOpts jt 1 1 0 5 3 false.

(** The options of opts.go; [numCPU] is [runtime.NumCPU()]. *)
Definition PoolSize (size : Z) (o : workerOpts) : workerOpts :=
  mkOpts (jobType o) size (autoscaleMax o) (jobTimeoutSeconds o) (numRetries o) (retrySecs o) (preWarm o).
Definition Autoscale (numCPU max : Z) (o : workerOpts) : workerOpts :=
  let max1 := if decide (max = 0)%Z then numCPU else max in
  mkOpts (jobType o) (poolSize o) max1 (jobTimeoutSeconds o) (numRetries o) (retrySecs o) (preWarm o).
Definition TimeoutSeconds (t : Z) (o : workerOpts) : workerOpts :=
  mkOpts (jobType o) (poolSize o) (autoscaleMax o) t (numRetries o) (retrySecs o) (preWarm o).
Definition RetrySeconds (s : Z) (o : workerOpts) : workerOpts :=
  mkOpts (jobType o) (poolSize o) (autoscaleMax o) (jobTimeoutSeconds o) (numRetries o) s (preWarm o).
Definition MaxRetries (n : Z) (o : workerOpts) : workerOpts :=
  mkOpts (jobType o) (poolSize o) (autoscaleMax o) (jobTimeoutSeconds o) n (retrySecs o) (preWarm o).
Definition PreWarm (o : workerOpts) : workerOpts :=
  mkOpts (jobType o) (poolSize o) (autoscaleMax o) (jobTimeoutSeconds o) (numRetries o) (retrySecs o) true.

Record worker : Type := mkWorker {
  options : workerOpts;
  targetThreadCount : Z;
  threads : list bool;       (* true: the thread's context is cancelled *)
  rate_count : Z
}.

Definition newWorker (o : workerOpts) : worker := mkWorker o (poolSize o) [] 0.

Definition set_threads (w : worker) (ts : list bool) : worker :=
  mkWorker (options w) (targetThreadCount w) ts (rate_count w).

Section Worker.
Context {W : Type} (OnChange : ChangeEvent → W → option error * W).

Definition addThread (w : worker) (s : W) : option error * worker * W :=
  let '(err, s1) := OnChange ChangeTypeStart s in
  match err with
  | Some e => (Some (ErrWrap e "runnable returned OnChange error"), w, s1)
  | None => (None, set_threads w (threads w ++ [false]), s1)
  end.

(** The last thread is cancelled before the runnable is asked. *)
Definition removeThread (w : worker) (s : W) : outcome (option error * worker * W) :=
  match threads w with
  | [] => Panic IndexRange
  | _ =>
      let n := length (threads w) - 1 in
      let w1 := set_threads w (<[n := true]> (threads w)) in
      let '(err, s1) := OnChange ChangeTypeStop s in
      match err with
      | Some e => Val (Some (ErrWrap e "runnable returned OnChange error"), w1, s1)
      | None => Val (None, set_threads w1 (take n (threads w1)), s1)
      end
  end.

Definition shouldReturn (attempts retries : Z) : bool := bool_decide (retries < attempts)%Z.

(** One turn of the loop of [reconcilePoolSize]. *)
Definition reconcile_body (st : Z * worker * W) :
    (Z * worker * W) + outcome (option error * worker * W) :=
  let '(attempts, w, s) := st in
  let actual := Z.of_nat (length (threads w)) in
  let retries := numRetries (options w) in
  if decide (actual < targetThreadCount w)%Z then
    let '(err, w1, s1) := addThread w s in
    match err with
    | Some e =>
        if shouldReturn attempts retries
        then inr (Val (Some (ErrWrap e "failed to addThread more than numRetries"), w1, s1))
        else inl ((attempts + 1)%Z, w1, s1)
    | None => inl (attempts, w1, s1)
    end
  else if decide (targetThreadCount w < actual)%Z then
    match removeThread w s with
    | Panic p => inr (Panic p)
    | Val (Some e, w1, s1) =>
        if shouldReturn attempts retries
        then inr (Val (Some (ErrWrap e "failed to removeThread more than numRetries"), w1, s1))
        else inl ((attempts + 1)%Z, w1, s1)
    | Val (None, w1, s1) => inl (attempts, w1, s1)
    end
  else inr (Val (None, w, s)).

Definition reconcilePoolSize (fuel : nat) (w : worker) (s : W) :
    option (outcome (option error * worker * W)) :=
  loop fuel reconcile_body (0%Z, w, s).

Definition setThreadCount (fuel : nat) (w : worker) (size : Z) (s : W) :
    option (outcome (option error * worker * W)) :=
  match reconcilePoolSize fuel (mkWorker (options w) size (threads w) (rate_count w)) s with
  | Some (Val (Some e, w1, s1)) => Some (Val (Some (ErrWrap e "failed to reconcilePoolSize"), w1, s1))
  | r => r
  end.

Definition worker_start (fuel : nat) (w : worker) (s : W) : option (outcome (option error * worker * W)) :=
  if preWarm (options w) then
    match reconcilePoolSize fuel w s with
    | Some (Val (Some e, w1, s1)) => Some (Val (Some (ErrWrap e "failed to reconcilePoolSize"), w1, s1))
    | r => r
    end
  else Some (Val (None, w, s)).

Definition worker_stop (fuel : nat) (w : worker) (s : W) : option (outcome (option error * worker * W)) :=
  setThreadCount fuel w 0 s.

(** ** The loop ends *)

(** The distance to the target and the failures left. *)
Definition reconcile_measure (st : Z * worker * W) : nat :=
  let '(attempts, w, _) := st in
  Z.to_nat (Z.abs (Z.of_nat (length (threads w)) - targetThreadCount w)) +
  Z.to_nat (numRetries (options w) + 1 - attempts).

(** How a turn that goes on changes the state, and how one that ends ends. *)
Lemma reconcile_turn attempts w s :
  (0 ≤ targetThreadCount w)%Z →
  match reconcile_body (attempts, w, s) with
  | inl (attempts1, w1, s1) =>
      options w1 = options w ∧ targetThreadCount w1 = targetThreadCount w ∧
      reconcile_measure (attempts1, w1, s1) < reconcile_measure (attempts, w, s)
  | inr (Val (None, w1, _)) => w1 = w ∧ Z.of_nat (length (threads w)) = targetThreadCount w
  | inr (Val (Some e, _, _)) => (numRetries (options w) < attempts)%Z
  | inr (Panic _) => False
  end.
Proof.
  intros Ht. unfold reconcile_body, addThread, removeThread, shouldReturn, reconcile_measure.
  case_decide as H1; [|case_decide as H2].
  - destruct (OnChange ChangeTypeStart s) as [[e|] s1]; [case_bool_decide|]; simpl; [done|..];
      (split; [done|split; [done|]]); rewrite ?length_app; simpl; lia.
  - destruct (threads w) as [|t ts] eqn:Et; [simpl in H2; lia|]. rewrite <- Et in *.
    destruct (OnChange ChangeTypeStop s) as [[e|] s1]; [case_bool_decide|]; simpl; [done|..];
      (split; [done|split; [done|]]); rewrite ?length_take, ?length_insert; rewrite Et in *; simpl in *; lia.
  - split; [done|lia].
Qed.

(** C13: reconcilePoolSize ends whatever the runnable answers to OnChange, within
    the distance to the target plus the retries; without an error the pool then
    has exactly the target number of threads. *)
Theorem reconcile_ends w s fuel :
  (0 ≤ targetThreadCount w)%Z → reconcile_measure (0%Z, w, s) < fuel →
  ∃ err w1 s1, reconcilePoolSize fuel w s = Some (Val (err, w1, s1)) ∧
    options w1 = options w ∧ targetThreadCount w1 = targetThreadCount w ∧
    (err = None → Z.of_nat (length (threads w1)) = targetThreadCount w).
Proof.
  intros Ht. unfold reconcilePoolSize. generalize 0%Z as attempts. revert w s Ht.
  induction fuel as [|fuel IH]; intros w s Ht attempts Hm; [lia|]. cbn [loop].
  pose proof (reconcile_turn attempts w s Ht) as Hturn.
  destruct (reconcile_body (attempts, w, s)) as [[[a1 w1] s1]|[[[[e|] w1] s1]|p]] eqn:E.
  - destruct Hturn as (Ho & Htt & Hlt).
    destruct (IH w1 s1 ltac:(lia) a1) as (err & w2 & s2 & -> & Ho2 & Ht2 & He); [lia|].
    exists err, w2, s2. split_and!; [done|congruence|congruence|]. by rewrite Htt in He.
  - exists (Some e), w1, s1. split; [done|]. clear IH Hm Hturn.
    unfold reconcile_body, addThread, removeThread in E. repeat case_decide; try done;
      destruct (OnChange _ s) as [[e'|] s']; try (destruct (threads w); try done);
      destruct (shouldReturn _ _); by simplify_eq.
  - destruct Hturn as [-> ?]. eauto 8.
  - done.
Qed.

(** The number of [OnChange] failures that [reconcile] puts up with: an
    [OnChange] that always fails is called [numRetries + 2] times. *)
Lemma reconcile_failing_loop w s (count : W → nat) fuel attempts :
  (∀ s, ∃ e, (OnChange ChangeTypeStart s).1 = Some e ∧ count (OnChange ChangeTypeStart s).2 = S (count s)) →
  (Z.of_nat (length (threads w)) < targetThreadCount w)%Z →
  (0 ≤ attempts ≤ numRetries (options w) + 1)%Z →
  Z.to_nat (numRetries (options w) + 1 - attempts) < fuel →
  ∃ e s1, loop fuel reconcile_body (attempts, w, s) = Some (Val (Some e, w, s1)) ∧
    Z.of_nat (count s1) = (Z.of_nat (count s) + numRetries (options w) + 2 - attempts)%Z.
Proof.
  intros Hfail Hlt. revert attempts s. induction fuel as [|fuel IH]; intros attempts s Ha Hf; [lia|].
  cbn [loop]. unfold reconcile_body at 1, addThread. rewrite decide_True by done.
  destruct (Hfail s) as (e & He & Hc). destruct (OnChange ChangeTypeStart s) as [err s1]. simpl in *. subst err.
  unfold shouldReturn. case_bool_decide.
  - eexists _, _. split; [done|]. lia.
  - destruct (IH (attempts + 1)%Z s1) as (e' & s2 & E & Hc2); [lia|lia|]. exists e', s2. split; [done|]. lia.
Qed.

(** A runnable that always fails is asked [numRetries + 2] times. *)
Theorem reconcile_retries w s (count : W → nat) fuel :
  (∀ s, ∃ e, (OnChange ChangeTypeStart s).1 = Some e ∧ count (OnChange ChangeTypeStart s).2 = S (count s)) →
  (Z.of_nat (length (threads w)) < targetThreadCount w)%Z → (0 ≤ numRetries (options w))%Z →
  Z.to_nat (numRetries (options w) + 1) < fuel →
  ∃ e s1, reconcilePoolSize fuel w s = Some (Val (Some e, w, s1)) ∧
    Z.of_nat (count s1) = (Z.of_nat (count s) + numRetries (options w) + 2)%Z.
Proof.
  intros Hfail Hlt Hr Hf. destruct (reconcile_failing_loop w s count fuel 0) as (e & s1 & E & Hc);
    [done|done|lia|lia|]. exists e, s1. split; [done|]. lia.
Qed.

End Worker.

(** ** The autoscaler *)

Record WorkerMetrics : Type := mkMetrics {
  m_TargetThreadCount : Z;
  m_ThreadCount : Z;
  m_JobCount : Z;
  m_JobRate : Z * Z          (* jobs counted, nanoseconds since the last average *)
}.

(** [average]: the rate is a quotient; the comparisons below multiply it out,
    which agrees with the floating-point ones on an infinite rate and on the
    rate of no jobs in no time. *)
Definition average (w : worker) (elapsed : Z) : (Z * Z) * worker :=
  ((rate_count w, elapsed), mkWorker (options w) (targetThreadCount w) (threads w) 0).

Definition rate_gt (r : Z * Z) (n : Z) : bool := bool_decide (n * r.2 < r.1 * 10 ^ 9)%Z.
Definition rate_lt (r : Z * Z) (n : Z) : bool := bool_decide (r.1 * 10 ^ 9 < n * r.2)%Z.

Definition worker_metrics (w : worker) (queued elapsed : Z) : WorkerMetrics * worker :=
  let '(r, w1) := average w elapsed in
  (mkMetrics (targetThreadCount w) (Z.of_nat (length (threads w))) queued r, w1).

(** The decision of [startAutoscaler] for one worker: the new thread count, if
    it sets one. *)
Definition autoscale (o : workerOpts) (m : WorkerMetrics) : option Z :=
  let tc := m_ThreadCount m in
  if bool_decide (tc * 2 < m_JobCount m)%Z || rate_gt (m_JobRate m) (tc * 2) then
    if bool_decide (tc * 2 ≤ autoscaleMax o)%Z then Some (tc * 2)%Z else Some (autoscaleMax o)
  else if bool_decide (m_JobCount m < tc ÷ 2)%Z && rate_lt (m_JobRate m) (tc ÷ 2) then
    if bool_decide (poolSize o < tc ÷ 2)%Z then Some (tc ÷ 2)%Z else Some (poolSize o)
  else None.

(** The autoscaler stays between the pool size and its maximum, and moves the way
    the load asks for. *)
Theorem autoscale_bounds o m n :
  (0 ≤ poolSize o ≤ m_ThreadCount m)%Z → (m_ThreadCount m ≤ autoscaleMax o)%Z →
  autoscale o m = Some n →
  (poolSize o ≤ n ≤ autoscaleMax o)%Z ∧
  (if bool_decide (m_ThreadCount m * 2 < m_JobCount m)%Z || rate_gt (m_JobRate m) (m_ThreadCount m * 2)
   then m_ThreadCount m ≤ n ≤ m_ThreadCount m * 2 else n ≤ m_ThreadCount m)%Z.
Proof.
  intros Hp Hm. unfold autoscale. rewrite Z.quot_div_nonneg by lia.
  pose proof (Z.div_lt_upper_bound (m_ThreadCount m) 2 (m_ThreadCount m + 1)) as Hd.
  destruct (bool_decide (_ < m_JobCount m)%Z || _).
  - case_bool_decide; intros [= <-]; lia.
  - destruct (_ && _); [|done]. case_bool_decide; intros [= <-]; lia.
Qed.

(** A pool that is larger than [autoscaleMax] is shrunk under load. *)
Theorem autoscale_shrinks o m :
  (autoscaleMax o < m_ThreadCount m)%Z → (0 ≤ m_ThreadCount m)%Z →
  (m_ThreadCount m * 2 < m_JobCount m)%Z →
  ∃ n, autoscale o m = Some n ∧ (n < m_ThreadCount m)%Z.
Proof.
  intros Hmax H0 Hj. unfold autoscale. rewrite (bool_decide_eq_true_2 (_ < m_JobCount m)%Z) by done. simpl.
  case_bool_decide; eexists; (split; [done|lia]).
Qed.

(** The default pool of four threads is what a runnable gets that asks for a
    pool and not for scaling. *)
Example autoscale_pool_of_four :
  autoscale (PoolSize 4 (defaultOpts "fn")) (mkMetrics 4 4 9 (0%Z, 1%Z)) = Some 1%Z.
Proof. reflexivity. Qed.

(** ** The scaler's workers and core.register *)

Record scaler : Type := mkScaler { workers : gmap string worker; autoscaling : bool }.

Definition newScaler : scaler := mkScaler ∅ false.
Definition startAutoscaler (s : scaler) : scaler := mkScaler (workers s) true.
Definition addWorker (s : scaler) (jt : string) (w : worker) : scaler :=
  mkScaler (<[jt := w]> (workers s)) (autoscaling s).
Definition findWorker (s : scaler) (jt : string) : option worker := workers s !! jt.

Definition removeWorker {W} (OnChange : ChangeEvent → W → option error * W) (fuel : nat) (s : scaler)
    (jt : string) (w : W) : option (outcome (option error * scaler * W)) :=
  match workers s !! jt with
  | None => Some (Val (None, s, w))
  | Some wk =>
      let s1 := mkScaler (delete jt (workers s)) (autoscaling s) in
      match worker_stop OnChange fuel wk w with
      | None => None
      | Some r => Some ('(err, _, w1) ← r;
                        Val (match err with Some e => Some (ErrWrap e "failed to worker.stop") | None => None end,
                             s1, w1))
      end
  end.

Definition core_register (s : scaler) (jt : string) (opts : list (workerOpts → workerOpts)) : scaler :=
  let o := foldl (λ o f, f o) (defaultOpts jt) opts in
  let s1 := if decide (poolSize o < autoscaleMax o)%Z then startAutoscaler s else s in
  addWorker s1 jt (newWorker o).

Definition hasWorker (s : scaler) (jt : string) : bool :=
  match findWorker s jt with Some _ => true | None => false end.

(** [metrics] of the scaler; [queued] is the length of a worker's channel. *)
Record ScalerMetrics : Type := mkScalerMetrics {
  TotalThreadCount : Z;
  TotalJobCount : Z;
  m_Workers : gmap string WorkerMetrics
}.

Definition scaler_metrics (queued elapsed : string → Z) (s : scaler) : ScalerMetrics * scaler :=
  let ms := map_imap (λ name w, Some (worker_metrics w (queued name) (elapsed name))) (workers s) in
  let total (f : WorkerMetrics → Z) := map_fold (λ _ m acc, (acc + f m)%Z) 0%Z (fst <$> ms) in
  (mkScalerMetrics (total m_ThreadCount) (total m_JobCount) (fst <$> ms),
   mkScaler (snd <$> ms) (autoscaling s)).

(** Reading the metrics changes nothing but the counters of the rates: every
    worker keeps its options, its target and its threads. *)
Theorem metrics_only_reset_rates queued elapsed s jt :
  match findWorker s jt, findWorker (scaler_metrics queued elapsed s).2 jt with
  | Some w, Some w1 => w1 = mkWorker (options w) (targetThreadCount w) (threads w) 0 ∧
      m_Workers (scaler_metrics queued elapsed s).1 !! jt =
        Some (mkMetrics (targetThreadCount w) (Z.of_nat (length (threads w))) (queued jt) (rate_count w, elapsed jt))
  | None, None => True
  | _, _ => False
  end.
Proof.
  unfold findWorker, scaler_metrics; simpl. rewrite !lookup_fmap, map_lookup_imap.
  by destruct (workers s !! jt).
Qed.

(** A registered job type has a worker; deregistering it removes that worker and
    no other. *)
Theorem register_deregister {W} (OnChange : ChangeEvent → W → option error * W) fuel s jt opts w :
  hasWorker (core_register s jt opts) jt = true ∧
  (∀ err s' w', removeWorker OnChange fuel (core_register s jt opts) jt w = Some (Val (err, s', w')) →
     hasWorker s' jt = false ∧ ∀ jt', jt' ≠ jt → findWorker s' jt' = findWorker s jt').
Proof.
  assert (∀ s1 wk, hasWorker (addWorker s1 jt wk) jt = true) as Hhas.
  { intros s1 wk. unfold hasWorker, findWorker; simpl. by rewrite lookup_insert_eq. }
  split; [apply Hhas|]. intros err s' w'. unfold core_register, removeWorker.
  set (o := foldl _ _ _). set (s1 := if decide _ then _ else _). simpl. rewrite lookup_insert_eq.
  destruct (worker_stop _ _ _ _) as [[[[e w1] w2]|p]|]; run; [|done..]. intros [= _ <- _].
  unfold hasWorker, findWorker; simpl. rewrite lookup_delete_eq. split; [done|].
  intros jt' Hne. rewrite lookup_delete_ne, lookup_insert_ne by done. subst s1. by case_decide.
Qed.

(** ** Examples *)

(** A runnable whose [OnChange] fails the first two times. *)
Definition flaky (ev : ChangeEvent) (n : nat) : option error * nat :=
  (if decide (n < 2) then Some (ErrExt "not ready") else None, S n).

Lemma reconcile_ends_witness :
  ∃ err w1 s1, reconcilePoolSize flaky 20 (newWorker (PoolSize 3 (defaultOpts "fn"))) 0 = Some (Val (err, w1, s1)) ∧
    options w1 = PoolSize 3 (defaultOpts "fn") ∧ targetThreadCount w1 = 3%Z ∧
    (err = None → Z.of_nat (length (threads w1)) = 3%Z).
Proof.
  apply (reconcile_ends flaky (newWorker (PoolSize 3 (defaultOpts "fn"))) 0 20); vm_compute; [discriminate|lia].
Defined.
