(* ===== verification/Jobs.v ===== *)
(** * Jobs and their results: foundation/scheduler/job.go, result.go, group.go,
    ctx.go, run_error.go

    A value of type [interface{}] is a [value]; results and groups are pointers
    into a heap, because a result can be the data of another one.  The
    goroutines that forward such a result are the elements of [forwards]. *)

From S2P Require Import Prelude.
From S2P Require Import Message.

(** [VOther] is any other Go value. *)
Inductive value : Type :=
| VNil
| VBytes (b : string)
| VString (s : string)
| VInt (n : Z)
| VMsg (m : Message)
| VRequest (p : nat)
| VResult (p : nat)
| VGroup (p : nat)
| VOther (tag : nat).

(** ** Jobs *)

Record Job : Type := mkJob { job_uuid : string; job_type : string; job_data : value; job_req : option nat }.

Definition NewJob (fresh jt : string) (data : value) : Job :=
  mkJob fresh jt data (match data with VRequest p => Some p | _ => None end).

Definition Job_String (j : Job) : string :=
  match job_data j with VString s => s | VBytes b => b | _ => "" end.
Definition Job_Bytes (j : Job) : option string :=
  match job_data j with VBytes b => Some b | VString s => Some s | _ => None end.
Definition Job_Int (j : Job) : Z := match job_data j with VInt n => n | _ => 0%Z end.
Definition Job_Data (j : Job) : value := job_data j.
Definition Req (j : Job) : option nat := job_req j.
Definition Job_Unmarshal {T} (decode : string → result T) (j : Job) : result T :=
  match job_data j with
  | VBytes b => decode b
  | _ => Err (ErrNew "failed to Unmarshal, job data is not []byte")
  end.

(** ** Results *)

Record Result : Type := mkResult {
  res_uuid : string;
  res_data : value;
  res_err : option error;
  resultChan : nat;
  errChan : nat
}.

Definition newResult (uuid : string) : Result := mkResult uuid VNil None 0 0.

Inductive forward : Type :=
| FwdResult (src dst : nat)
| FwdGroup (grp dst : nat).

Record heap : Type := mkHeap {
  results : gmap nat Result;
  groups : gmap nat (list nat);
  forwards : list forward
}.

Definition set_result (h : heap) (p : nat) (r : Result) : heap :=
  mkHeap (<[p := r]> (results h)) (groups h) (forwards h).
Definition spawn (h : heap) (f : forward) : heap := mkHeap (results h) (groups h) (forwards h ++ [f]).

(** [sendErr]; [None]: the write to the full channel blocks. *)
Definition sendErr (h : heap) (p : nat) (e : error) : option heap :=
  r ← results h !! p;
  if decide (errChan r < 1)
  then Some (set_result h p (mkResult (res_uuid r) (res_data r) (Some e) (resultChan r) (S (errChan r))))
  else None.

Definition sendResult (h : heap) (p : nat) (data : value) : option heap :=
  match data with
  | VResult q => Some (spawn h (FwdResult q p))
  | VGroup g => Some (spawn h (FwdGroup g p))
  | _ =>
      r ← results h !! p;
      if decide (resultChan r < 1)
      then Some (set_result h p (mkResult (res_uuid r) data (res_err r) (S (resultChan r)) (errChan r)))
      else None
  end.

(** The end of a turn of [run] of a work thread: the job's result gets the answer. *)
Definition report (h : heap) (p : nat) (o : value + error) : option heap :=
  match o with inr e => sendErr h p e | inl v => sendResult h p v end.

(** What [Then] may answer: either ready channel can be chosen. *)
Inductive Then (h : heap) (p : nat) : value + option error → heap → Prop :=
| ThenData r n :
    results h !! p = Some r → resultChan r = S n →
    Then h p (inl (res_data r)) (set_result h p (mkResult (res_uuid r) (res_data r) (res_err r) n (errChan r)))
| ThenErr r n :
    results h !! p = Some r → errChan r = S n →
    Then h p (inr (res_err r)) (set_result h p (mkResult (res_uuid r) (res_data r) (res_err r) (resultChan r) n)).

Definition ThenInt (o : value + option error) : result Z :=
  match o with
  | inr (Some e) => Err e
  | inr None => Ok 0%Z
  | inl (VInt n) => Ok n
  | inl _ => Err (ErrNew "failed to convert result to Int")
  end.

Definition ThenJSON {T} (decode : string → result T) (o : value + option error) : result T :=
  match o with
  | inl (VBytes b) => match decode b with
                      | Ok t => Ok t
                      | Err e => Err (ErrWrap e "failed to Unmarshal result")
                      end
  | inr (Some e) => Err e
  | _ => Err (ErrNew "cannot unmarshal, result is not []byte")
  end.

(** ** Groups *)

Definition Group_Add (h : heap) (g p : nat) : heap :=
  mkHeap (results h) (<[g := default [] (groups h !! g) ++ [p]]> (groups h)) (forwards h).

(** The goroutines of [Wait] in the order in which their results come in; the
    error group keeps the first error. *)
Inductive awaits : heap → list nat → option error → heap → Prop :=
| AwaitNil h : awaits h [] None h
| AwaitOk h p v h1 ps e h2 :
    Then h p (inl v) h1 → awaits h1 ps e h2 → awaits h (p :: ps) e h2
| AwaitErr h p e h1 ps e' h2 :
    Then h p (inr e) h1 → awaits h1 ps e' h2 →
    awaits h (p :: ps) (match e with Some _ => e | None => e' end) h2.

Inductive Wait (h : heap) (g : nat) (e : option error) (h' : heap) : Prop :=
| WaitAll ps order : groups h !! g = Some ps → order ≡ₚ ps → awaits h order e h' → Wait h g e h'.

(** ** The steps: a forwarding goroutine finishes *)

(** Forwarding an error that is nil calls [sendResult]. *)
Definition forward_end (h : heap) (dst : nat) (o : value + option error) : option heap :=
  match o with
  | inl v => sendResult h dst v
  | inr (Some e) => sendErr h dst e
  | inr None => sendResult h dst VNil
  end.

Definition set_forwards (h : heap) (fs : list forward) : heap := mkHeap (results h) (groups h) fs.

Inductive heap_step : heap → heap → Prop :=
| StepFwdResult h fs1 fs2 src dst o h1 h2 :
    forwards h = fs1 ++ FwdResult src dst :: fs2 →
    Then (set_forwards h (fs1 ++ fs2)) src o h1 → forward_end h1 dst o = Some h2 → heap_step h h2
| StepFwdGroup h fs1 fs2 g dst e h1 h2 :
    forwards h = fs1 ++ FwdGroup g dst :: fs2 →
    Wait (set_forwards h (fs1 ++ fs2)) g e h1 →
    forward_end h1 dst (match e with Some e => inr (Some e) | None => inl VNil end) = Some h2 →
    heap_step h h2.

(** ** A result is never a result *)

Definition plain (v : value) : Prop :=
  match v with VResult _ | VGroup _ => False | _ => True end.

Definition heap_ok (h : heap) : Prop := map_Forall (λ _ r, plain (res_data r)) (results h).

Lemma set_result_ok h p r : heap_ok h → plain (res_data r) → heap_ok (set_result h p r).
Proof. intros Hh Hr. by apply map_Forall_insert_2. Qed.

Lemma Then_ok h p o h' : Then h p o h' → heap_ok h →
  heap_ok h' ∧ match o with inl v => plain v | inr _ => True end.
Proof.
  intros Ht Hh. destruct Ht as [r n Hr _|r n Hr _]; pose proof (Hh _ _ Hr) as Hp; simpl in Hp;
    (split; [by apply set_result_ok|done]).
Qed.

Lemma send_ok h p h' : heap_ok h →
  (∀ v, sendResult h p v = Some h' → heap_ok h') ∧ (∀ e, sendErr h p e = Some h' → heap_ok h').
Proof.
  intros Hh. split.
  - intros v. destruct v; simpl; try (intros [= <-]; exact Hh);
      destruct (results h !! p) as [r|] eqn:Er; simpl; try done; case_decide; try done;
      intros [= <-]; by apply set_result_ok.
  - intros e. unfold sendErr. destruct (results h !! p) as [r|] eqn:Er; simpl; [|done].
    case_decide; [|done]. intros [= <-]. apply set_result_ok; [done|]. exact (Hh _ _ Er).
Qed.

Lemma awaits_ok h ps e h' : awaits h ps e h' → heap_ok h → heap_ok h'.
Proof.
  induction 1 as [|h p v h1 ps e h2 Ht _ IH|h p e h1 ps e' h2 Ht _ IH]; intros Hh; [done|..];
    destruct (Then_ok _ _ _ _ Ht Hh); auto.
Qed.

Lemma heap_step_ok h h' : heap_step h h' → heap_ok h → heap_ok h'.
Proof.
  intros Hstep Hh.
  assert (∀ h1 dst o h2, heap_ok h1 → forward_end h1 dst o = Some h2 → heap_ok h2) as Hend.
  { intros h1 dst o h2 H1. destruct (send_ok h1 dst h2 H1) as [Hs He].
    destruct o as [v|[e|]]; [apply Hs|apply He|apply (Hs VNil)]. }
  destruct Hstep as [h fs1 fs2 src dst o h1 h2 _ Ht He|h fs1 fs2 g dst e h1 h2 _ [ps order _ _ Hw] He].
  - eapply Hend, He. exact (proj1 (Then_ok _ _ _ _ Ht Hh)).
  - eapply Hend, He. exact (awaits_ok _ _ _ _ Hw Hh).
Qed.

(** [Then] never answers with a result or a group. *)
Theorem then_is_plain h h' p o h'' :
  heap_ok h → rtc heap_step h h' → Then h' p o h'' →
  match o with inl v => plain v | inr _ => True end.
Proof.
  intros Hh Hsteps Ht. assert (heap_ok h') as Hh'; [|by eapply Then_ok].
  induction Hsteps; eauto using heap_step_ok.
Qed.

(** ** One answer per send *)

(** Answers that wait in the channels of a result. *)
Definition answers (h : heap) (p : nat) : nat :=
  match results h !! p with Some r => resultChan r + errChan r | None => 0 end.

Lemma answers_set h p r q :
  answers (set_result h p r) q = if decide (p = q) then resultChan r + errChan r else answers h q.
Proof. unfold answers; simpl. rewrite lookup_insert. by case_decide. Qed.

Lemma then_consumes h p o h' q :
  Then h p o h' → answers h q = answers h' q + (if decide (p = q) then 1 else 0).
Proof.
  destruct 1 as [r n Hr Hn|r n Hr Hn]; rewrite answers_set; simpl; case_decide; subst; try lia;
    unfold answers; rewrite Hr, Hn; lia.
Qed.

(** A result that was sent a value answers [Then] with that value, once: a second
    [Then] finds nothing; no other result changes. *)
Theorem result_answers_once h p v h1 o h2 :
  answers h p = 0 → plain v → sendResult h p v = Some h1 → Then h1 p o h2 →
  o = inl v ∧ (∀ o' h3, ¬ Then h2 p o' h3) ∧ ∀ q, q ≠ p → answers h2 q = answers h q.
Proof.
  intros H0 Hv Hs Ht.
  assert (∃ r, results h !! p = Some r ∧ h1 = set_result h p
    (mkResult (res_uuid r) v (res_err r) (S (resultChan r)) (errChan r))) as (r & Hr & ->).
  { destruct v; simpl in Hs, Hv; try done; destruct (results h !! p) as [r|] eqn:Er; simpl in Hs;
      try done; case_decide; simplify_eq; eauto. }
  unfold answers in H0. rewrite Hr in H0.
  assert (answers h2 p = 0) as H2.
  { pose proof (then_consumes _ _ _ _ p Ht) as E. rewrite answers_set, !decide_True in E by done.
    simpl in E. lia. }
  split_and!.
  - destruct Ht as [r' n Hr' Hn|r' n Hr' Hn]; simpl in Hr'; rewrite lookup_insert_eq in Hr';
      simplify_eq; simpl in *; [done|lia].
  - intros o' h3 Ht'. pose proof (then_consumes _ _ _ _ p Ht') as E.
    rewrite decide_True in E by done. lia.
  - intros q Hq. pose proof (then_consumes _ _ _ _ q Ht) as E.
    rewrite answers_set, !decide_False in E by done. lia.
Qed.

(** ** Results of results *)

Definition plain_answer (o : value + error) : Prop := match o with inl v => plain v | inr _ => True end.

Definition then_of (o : value + error) : value + option error :=
  match o with inl v => inl v | inr e => inr (Some e) end.

(** The result has no answer yet. *)
Definition unanswered (rs : gmap nat Result) (p : nat) : Prop :=
  ∃ r, rs !! p = Some r ∧ resultChan r = 0 ∧ errChan r = 0.

(** The result has the answer [o], and no other. *)
Definition holds (rs : gmap nat Result) (p : nat) (o : value + error) : Prop :=
  ∃ r, rs !! p = Some r ∧
    match o with
    | inl v => resultChan r = 1 ∧ errChan r = 0 ∧ res_data r = v
    | inr e => resultChan r = 0 ∧ errChan r = 1 ∧ res_err r = Some e
    end.

(** What the threads have still to report when the job of each result of [p :: ps]
    answers with the result of the next and the last one with [o]. *)
Fixpoint nest_reports (p : nat) (ps : list nat) (o : value + error) : list (nat * (value + error)) :=
  match ps with
  | [] => [(p, o)]
  | q :: ps => (p, inl (VResult q)) :: nest_reports q ps o
  end.

(** The threads report and the forwarding goroutines run in any order. *)
Inductive nest_step : heap * list (nat * (value + error)) → heap * list (nat * (value + error)) → Prop :=
| NestReport h l1 p o l2 h1 :
    report h p o = Some h1 → nest_step (h, l1 ++ (p, o) :: l2) (h1, l1 ++ l2)
| NestForward h h1 l : heap_step h h1 → nest_step (h, l) (h1, l).

Section Nest.
Context (o : value + error).
Hypothesis Ho : plain_answer o.

(** The results [ps] wait for each other, the last of them for [o]: these reports
    are still to come, these goroutines are there. *)
Inductive nest (rs : gmap nat Result) : list nat → list (nat * (value + error)) → list forward → Prop :=
| NestHolds p : holds rs p o → nest rs [p] [] []
| NestLast p : unanswered rs p → nest rs [p] [(p, o)] []
| NestUnsent p q ps l fs :
    unanswered rs p → nest rs (q :: ps) l fs → nest rs (p :: q :: ps) ((p, inl (VResult q)) :: l) fs
| NestForwarded p q ps l fs :
    unanswered rs p → nest rs (q :: ps) l fs → nest rs (p :: q :: ps) l (FwdResult q p :: fs).

Lemma nest_start rs p ps :
  Forall (unanswered rs) (p :: ps) → nest rs (p :: ps) (nest_reports p ps o) [].
Proof.
  revert p. induction ps as [|q ps IH]; intros p [Hp Hps]%Forall_cons; simpl; [by constructor|].
  constructor; [done|]. by apply IH.
Qed.

(** A result that is not among them does not matter. *)
Lemma nest_frame rs p r ps l fs : p ∉ ps → nest rs ps l fs → nest (<[p := r]> rs) ps l fs.
Proof.
  intros Hp Hn. induction Hn as [q Hq|q Hq|q q' ps l fs Hq _ IH|q q' ps l fs Hq _ IH];
    constructor; try (apply IH; set_solver);
    destruct Hq as (r' & Hr & Hq); exists r'; (split; [|exact Hq]); rewrite lookup_insert_ne; set_solver.
Qed.

Lemma nest_fst rs ps l fs : nest rs ps l fs → ∀ x, x ∈ l → x.1 ∈ ps.
Proof. induction 1; set_solver. Qed.

(** An answer of a job whose result is no result. *)
Lemma report_plain h p :
  unanswered (results h) p →
  ∃ r, report h p o = Some (set_result h p r) ∧ holds (<[p := r]> (results h)) p o.
Proof.
  intros (r & Hr & H1 & H2). destruct o as [v|e]; simpl in *.
  - exists (mkResult (res_uuid r) v (res_err r) 1 0).
    split; [|eexists; split; [apply lookup_insert_eq|done]].
    destruct v; simpl in Ho; try done; unfold sendResult; rewrite Hr; simpl;
      rewrite decide_True by lia; by rewrite H1, H2.
  - exists (mkResult (res_uuid r) (res_data r) (Some e) 0 1).
    split; [|eexists; split; [apply lookup_insert_eq|done]].
    unfold sendErr. rewrite Hr; simpl. rewrite decide_True by lia. by rewrite H1, H2.
Qed.

(** A report changes no other result. *)
Lemma report_frame h p x h1 q : report h p x = Some h1 → p ≠ q → results h1 !! q = results h !! q.
Proof.
  intros E Hne. destruct x as [v|e]; simpl in E; [destruct v; simpl in E|]; unfold sendErr in E;
    simplify_option_eq; simpl; rewrite ?lookup_insert_ne by done; done.
Qed.

Lemma forward_end_frame h p x h1 q :
  forward_end h p x = Some h1 → p ≠ q → results h1 !! q = results h !! q.
Proof.
  destruct x as [v|[e|]]; [apply (report_frame h p (inl v))|apply (report_frame h p (inr e))|].
  apply (report_frame h p (inl VNil)).
Qed.

(** A report of the nest goes through: it starts a goroutine, or is the answer. *)
Lemma nest_report h ps l fs p x l1 l2 :
  nest (results h) ps l fs → NoDup ps → l = l1 ++ (p, x) :: l2 →
  ∃ h1 new, report h p x = Some h1 ∧ forwards h1 = forwards h ++ new ∧ length new ≤ 1 ∧
    ∃ fs1, fs1 ≡ₚ fs ++ new ∧ nest (results h1) ps (l1 ++ l2) fs1.
Proof.
  intros Hn. revert l1. induction Hn as [q Hq|q Hq|q q' ps l fs Hq Hn IH|q q' ps l fs Hq Hn IH];
    intros l1 Hnd El; [by destruct l1| | |].
  - destruct l1 as [|? [|]]; simpl in El; [|done..]. injection El as <- <- <-.
    destruct (report_plain h q Hq) as (r1 & -> & Hh).
    eexists _, []. split; [done|]. split; [by rewrite app_nil_r|]. split; [simpl; lia|].
    exists []. split; [done|]. by constructor.
  - apply NoDup_cons in Hnd as [Hq' Hnd]. destruct l1 as [|y l1]; simplify_eq/=.
    + eexists _, [FwdResult q' p]. split; [done|]. split; [done|]. split; [simpl; lia|]. exists (FwdResult q' p :: fs).
      split; [by rewrite (Permutation_app_comm fs)|]. by constructor.
    + destruct (IH l1 Hnd eq_refl) as (h1 & new & E & Hf & Hl & fs1 & Hp & Hn1).
      exists h1, new. do 3 (split; [done|]). exists fs1. split; [done|]. constructor; [|done].
      unfold unanswered. rewrite (report_frame _ _ _ _ q E); [done|].
      intros ->. apply Hq', (nest_fst _ _ _ _ Hn (q, x)). set_solver.
  - apply NoDup_cons in Hnd as [Hq' Hnd].
    destruct (IH l1 Hnd El) as (h1 & new & E & Hf & Hl & fs1 & Hp & Hn1).
    exists h1, new. do 3 (split; [done|]). exists (FwdResult q' q :: fs1).
    split; [by rewrite Hp|]. constructor; [|done].
    unfold unanswered. rewrite (report_frame _ _ _ _ q E); [done|].
    intros ->. apply Hq', (nest_fst _ _ _ _ Hn (q, x)). set_solver.
Qed.

(** What [Then] takes from a result of the nest: only the last one has an answer. *)
Lemma nest_then h ps l fs p x h1 :
  nest (results h) ps l fs → NoDup ps → p ∈ ps → Then h p x h1 →
  x = then_of o ∧ ∃ ps', ps = ps' ++ [p].
Proof.
  intros Hn Hnd. revert Hnd. induction Hn as [q Hq|q Hq|q q' ps l fs Hq _ IH|q q' ps l fs Hq _ IH];
    intros Hnd Hp Ht.
  - apply list_elem_of_singleton in Hp as ->. split; [|by exists []].
    destruct Hq as (r & Hr & Hq). destruct Ht as [r' n Hr' Hn|r' n Hr' Hn];
      rewrite Hr in Hr'; injection Hr' as <-; destruct o; simpl; destruct Hq as (? & ? & ?); try lia; congruence.
  - apply list_elem_of_singleton in Hp as ->. destruct Hq as (r & Hr & ? & ?).
    destruct Ht; simplify_eq; lia.
  - apply elem_of_cons in Hp as [->|Hp].
    + destruct Hq as (r & Hr & ? & ?). destruct Ht; simplify_eq; lia.
    + apply NoDup_cons in Hnd as [_ Hnd]. destruct (IH Hnd Hp Ht) as [? [ps' ->]].
      split; [done|]. by exists (q :: ps').
  - apply elem_of_cons in Hp as [->|Hp].
    + destruct Hq as (r & Hr & ? & ?). destruct Ht; simplify_eq; lia.
    + apply NoDup_cons in Hnd as [_ Hnd]. destruct (IH Hnd Hp Ht) as [? [ps' ->]].
      split; [done|]. by exists (q :: ps').
Qed.

Lemma then_frame h p x h1 q : Then h p x h1 → p ≠ q → results h1 !! q = results h !! q.
Proof. intros Ht Hne. destruct Ht; simpl; by rewrite lookup_insert_ne. Qed.

Lemma forward_end_report h p : forward_end h p (then_of o) = report h p o.
Proof. by destruct o. Qed.

(** Forwarding closes the nest by its last result. *)
Lemma nest_forward h ps l fs src dst x h1 h2 :
  nest (results h) ps l fs → NoDup ps → FwdResult src dst ∈ fs →
  Then h src x h1 → forward_end h1 dst x = Some h2 →
  ∃ ps' fs', ps = ps' ++ [src] ∧ dst ∈ ps' ∧ fs ≡ₚ FwdResult src dst :: fs' ∧ nest (results h2) ps' l fs'.
Proof.
  intros Hn Hnd Hf Ht He. pose proof Hn as Hn0. revert Hnd Hf.
  induction Hn as [q Hq|q Hq|q q' ps l fs Hq Hn IH|q q' ps l fs Hq Hn IH]; intros Hnd Hf;
    [by apply not_elem_of_nil in Hf..| |]; apply NoDup_cons in Hnd as [Hq' Hnd].
  - destruct (IH Hn Hnd Hf) as (ps' & fs' & E & Hd & Hp & Hn1). exists (q :: ps'), fs'.
    rewrite E. split; [done|]. split; [set_solver|]. split; [done|].
    destruct ps' as [|a ps']; [by apply not_elem_of_nil in Hd|]. injection E as <- E.
    constructor; [|done]. unfold unanswered.
    rewrite (forward_end_frame _ _ _ _ q He), (then_frame _ _ _ _ q Ht); [done|set_solver..].
  - apply elem_of_cons in Hf as [Hf|Hf].
    + injection Hf as -> ->. destruct (nest_then _ _ _ _ _ _ _ Hn Hnd (list_elem_of_here _ _) Ht) as [-> [ps' E]].
      assert (ps = []) as ->.
      { destruct ps' as [|a ps']; simplify_eq/=; [done|]. apply NoDup_cons in Hnd as [Hnd _]. set_solver. }
      inversion Hn; subst; [|destruct H0 as (r & ? & ? & ?); destruct Ht; simplify_eq; lia].
      exists [q], []. do 3 (split; [done||set_solver|]).
      rewrite forward_end_report in He.
      destruct (report_plain h1 q) as (r & E' & Hh); [unfold unanswered; by rewrite (then_frame _ _ _ _ _ Ht) by set_solver|].
      rewrite E' in He. injection He as <-. by constructor.
    + destruct (IH Hn Hnd Hf) as (ps' & fs' & E & Hd & Hp & Hn1). exists (q :: ps'), (FwdResult q' q :: fs').
      rewrite E. split; [done|]. split; [set_solver|]. split; [rewrite Hp; by rewrite (Permutation_swap (FwdResult q' q))|].
      destruct ps' as [|a ps']; [by apply not_elem_of_nil in Hd|]. injection E as <- E.
      constructor; [|done]. unfold unanswered.
      rewrite (forward_end_frame _ _ _ _ q He), (then_frame _ _ _ _ q Ht); [done|set_solver..].
Qed.

Lemma holds_then h p : holds (results h) p o → ∃ h1, Then h p (then_of o) h1.
Proof.
  intros (r & Hr & Hh). destruct o as [v|e]; simpl.
  - destruct Hh as (H1 & _ & <-). eexists. by eapply ThenData.
  - destruct Hh as (_ & H1 & <-). eexists. by eapply ThenErr.
Qed.

(** Forwarding in a nest starts no new goroutine. *)
Lemma forward_end_forwards h ps l fs src dst x h1 h2 :
  nest (results h) ps l fs → NoDup ps → src ∈ ps → Then h src x h1 →
  forward_end h1 dst x = Some h2 → forwards h2 = forwards h.
Proof.
  intros Hn Hnd Hs Ht He. destruct (nest_then _ _ _ _ _ _ _ Hn Hnd Hs Ht) as [-> _].
  rewrite forward_end_report in He.
  assert (forwards h2 = forwards h1) as ->; [|by destruct Ht].
  destruct o as [v|e]; simpl in *.
  - destruct v; simpl in Ho; try done; simpl in He; simplify_option_eq; done.
  - unfold sendErr in He. simplify_option_eq. done.
Qed.

(** With nothing left to report the nest is closed, or a goroutine can go on. *)
Lemma nest_ready rs ps fs :
  nest rs ps [] fs →
  (∃ p, ps = [p] ∧ holds rs p o) ∨
  ∃ src dst, FwdResult src dst ∈ fs ∧ src ∈ ps ∧ holds rs src o ∧ unanswered rs dst.
Proof.
  remember [] as l eqn:El. intros Hn. revert El.
  induction Hn as [q Hq|q Hq|q q' ps l fs Hq Hn IH|q q' ps l fs Hq Hn IH]; intros El; try done; [left; eauto|].
  right. destruct (IH El) as [(p & [= -> ->] & Hp)|(src & dst & Hf & Hs & Hh & Hu)].
  - exists p, q. set_solver.
  - exists src, dst. set_solver.
Qed.

Lemma nest_forwards rs ps l fs f : nest rs ps l fs → f ∈ fs → ∃ src dst, f = FwdResult src dst ∧ src ∈ ps.
Proof.
  induction 1 as [| |p q ps l fs _ _ IH|p q ps l fs _ _ IH]; intros Hf; try by apply not_elem_of_nil in Hf.
  - destruct (IH Hf) as (src & dst & -> & ?). set_solver.
  - apply elem_of_cons in Hf as [->|(src & dst & -> & ?)%IH]; set_solver.
Qed.

(** ** The whole nest *)

Definition nest_state : Type := heap * list (nat * (value + error)).

Definition nest_ok (p : nat) (s : nest_state) : Prop :=
  ∃ ps fs, nest (results s.1) (p :: ps) s.2 fs ∧ NoDup (p :: ps) ∧ forwards s.1 ≡ₚ fs.

Definition nest_left (s : nest_state) : nat := 2 * length s.2 + length (forwards s.1).

Lemma nest_step_ok p s s1 : nest_step s s1 → nest_ok p s → nest_ok p s1 ∧ nest_left s1 < nest_left s.
Proof.
  intros Hstep (ps & fs & Hn & Hnd & Hf).
  destruct Hstep as [h l1 q x l2 h1 Hr|h h1 l Hstep]; simpl in *.
  - destruct (nest_report h _ _ _ q x l1 l2 Hn Hnd eq_refl) as (h1' & new & E & Hf1 & Hl & fs1 & Hp & Hn1).
    rewrite Hr in E. injection E as <-. split.
    + exists ps, fs1. split; [done|]. split; [done|]. simpl. by rewrite Hf1, Hf.
    + unfold nest_left; simpl. rewrite Hf1, !length_app. simpl. lia.
  - inversion Hstep as [? fs1 fs2 src dst x h' h2 Hfw Ht He|? fs1 fs2 g dst e h' h2 Hfw _ _]; subst.
    2: { exfalso. destruct (nest_forwards _ _ _ _ (FwdGroup g dst) Hn) as (? & ? & [=] & _).
         rewrite <- Hf, Hfw. set_solver. }
    assert (src ∈ p :: ps) as Hsrc.
    { destruct (nest_forwards _ _ _ _ (FwdResult src dst) Hn) as (? & ? & [= -> ->] & ?); [|done].
      rewrite <- Hf, Hfw. set_solver. }
    destruct (nest_forward (set_forwards h (fs1 ++ fs2)) (p :: ps) l fs src dst x h' h1 Hn Hnd)
      as (ps' & fs' & E & Hd & Hp & Hn1); [rewrite <- Hf, Hfw; set_solver|done|done|].
    destruct ps' as [|p' ps']; [by apply not_elem_of_nil in Hd|]. injection E as <- E.
    assert (forwards h1 = fs1 ++ fs2) as Hf1 by
      (apply (forward_end_forwards (set_forwards h (fs1 ++ fs2)) _ _ _ _ _ _ _ _ Hn Hnd Hsrc Ht He)).
    split.
    + exists ps', fs'. split; [done|]. split.
      * rewrite E in Hnd. change (p :: ps' ++ [src]) with ((p :: ps') ++ [src]) in Hnd. by apply NoDup_app in Hnd as [? _].
      * simpl. rewrite Hf1. apply (Permutation_cons_inv (a := FwdResult src dst)).
        rewrite <- Hp, <- Hf, Hfw. by rewrite Permutation_middle.
    + unfold nest_left; simpl. rewrite Hf1, Hfw, !length_app. simpl. lia.
Qed.

Lemma nest_progress p s :
  nest_ok p s → (∃ h, Then s.1 p (then_of o) h) ∨ ∃ s1, nest_step s s1.
Proof.
  intros (ps & fs & Hn & Hnd & Hf). destruct s as [h l]. simpl in *. destruct l as [|[q x] l].
  - destruct (nest_ready _ _ _ Hn) as [(q & [= -> ->] & Hh)|(src & dst & Hin & Hs & Hh & Hu)].
    + left. by apply holds_then.
    + right. rewrite <- Hf in Hin. destruct (list_elem_of_split _ _ Hin) as (fs1 & fs2 & Hfw).
      destruct (holds_then (set_forwards h (fs1 ++ fs2)) src Hh) as [h1 Ht].
      assert (src ≠ dst) as Hne.
      { intros ->. destruct Hh as (r & Hr & Hh), Hu as (r' & Hr' & ? & ?). simplify_eq. destruct o; lia. }
      destruct (report_plain h1 dst) as (r & E & _).
      { unfold unanswered. rewrite (then_frame _ _ _ _ dst Ht) by done. exact Hu. }
      eexists (_, []). apply NestForward. eapply StepFwdResult; [done|exact Ht|].
      by rewrite forward_end_report.
  - right. destruct (nest_report h _ _ _ q x [] l Hn Hnd eq_refl) as (h1 & _ & E & _).
    exists (h1, l). by apply (NestReport h [] q x l h1).
Qed.

End Nest.

(** C34: Jobs whose results are results of other jobs, to any depth, while nothing
    else receives these results: in whatever order the threads report what the
    runnables returned and the goroutines that sendResult starts forward it, the
    outermost result is never answered with anything but the value or error of the
    innermost job; it has that answer or some thread or goroutine can go on, and
    they go on at most two steps per report that is left and one per goroutine. *)
Theorem nested_result_arrives h o p ps s :
  plain_answer o → NoDup (p :: ps) → Forall (unanswered (results h)) (p :: ps) → forwards h = [] →
  rtc nest_step (h, nest_reports p ps o) s →
  (∀ x h', Then s.1 p x h' → x = then_of o) ∧
  ((∃ h', Then s.1 p (then_of o) h') ∨ ∃ s', nest_step s s') ∧
  ∀ n s', nsteps nest_step n s s' → n ≤ nest_left s.
Proof.
  intros Ho Hnd Hu Hf Hs.
  assert (nest_ok o p s) as Hok.
  { assert (nest_ok o p (h, nest_reports p ps o)) as H0.
    { exists ps, []. split; [by apply nest_start|]. simpl. by rewrite Hf. }
    revert H0. induction Hs as [|s1 s2 s3 Hstep _ IH]; [done|]. intros H1. apply IH.
    by apply (nest_step_ok o Ho p s1). }
  split; [|split].
  - intros x h' Ht. destruct Hok as (ps' & fs & Hn & Hnd' & _).
    by eapply nest_then; [..|exact Ht]; [|exact Hn|exact Hnd'|left].
  - by apply nest_progress.
  - clear Hs. intros n s' Hn. revert Hok. induction Hn as [|n s1 s2 s3 Hstep _ IH]; [lia|].
    intros Hok. destruct (nest_step_ok o Ho p _ _ Hstep Hok) as [Hok2 Hlt]. specialize (IH Hok2). lia.
Qed.

(** ** Examples *)

(** The job of the result 1 answers with the result 0, whose job answers 42. *)
Definition example_heap : heap :=
  mkHeap {[0 := newResult "a"; 1 := newResult "b"]} ∅ [].

Lemma nested_result_arrives_witness :
  (∃ h', Then example_heap 1 (inl (VInt 42)) h') ∨
  ∃ s', nest_step (example_heap, [(1, inl (VResult 0)); (0, inl (VInt 42))]) s'.
Proof.
  refine (proj1 (proj2 (nested_result_arrives example_heap (inl (VInt 42)) 1 [0] _ I _ _ eq_refl (rtc_refl _ _)))).
  - apply (bool_decide_unpack _). vm_compute. exact I.
  - repeat constructor; eexists; by split.
Defined.


Lemma result_answers_once_witness :
  let h := mkHeap {[0 := newResult "a"]} ∅ [] in
  ∃ h1 h2, sendResult h 0 (VInt 42) = Some h1 ∧ Then h1 0 (inl (VInt 42)) h2 ∧ ∀ o' h3, ¬ Then h2 0 o' h3.
Proof.
  intros h. eexists _, _. split; [reflexivity|].
  assert (Then (set_result h 0 (mkResult "a" (VInt 42) None 1 0)) 0 (inl (VInt 42)) _) as Ht
    by (apply (ThenData _ 0 (mkResult "a" (VInt 42) None 1 0) 0); reflexivity).
  split; [exact Ht|].
  exact (proj1 (proj2 (result_answers_once h 0 (VInt 42) _ _ _ eq_refl I eq_refl Ht))).
Defined.
