(* ===== verification/Threads.v ===== *)
(** * Work threads: foundation/scheduler/workthread.go, worker.go (schedule)

    The threads of a worker and the queue they share, as steps.  A thread that
    is cancelled while it waits for a job still takes one. *)

From S2P Require Import Prelude.
From S2P Require Import Jobs.
From S2P Require Import Worker.

(** Where a thread is in its loop. *)
Inductive phase : Type :=
| Checking                (* at the test of the context *)
| Waiting                 (* at the receive of the next job *)
| Running (job : nat).    (* in the runnable *)

Record thread : Type := mkThread { where_ : phase; cancelled : bool }.

Record pool : Type := mkThreads {
  queue : list nat;
  workers_ : gmap nat thread;
  finished : list nat
}.

(** What a step does that can be seen: a thread is started or cancelled, a job is
    queued, a thread takes one or is done with it. *)
Inductive event : Type :=
| Silent
| Managed
| Queued (job : nat)
| Took (thread job : nat)
| Done (thread job : nat).

Inductive thread_step (s : pool) : event → pool → Prop :=
| StepQueue j :
    length (queue s) < defaultChanSize →
    thread_step s (Queued j) (mkThreads (queue s ++ [j]) (workers_ s) (finished s))
| StepSpawn i :
    workers_ s !! i = None →
    thread_step s Managed (mkThreads (queue s) (<[i := mkThread Checking false]> (workers_ s)) (finished s))
| StepCancel i t :
    workers_ s !! i = Some t →
    thread_step s Managed (mkThreads (queue s) (<[i := mkThread (where_ t) true]> (workers_ s)) (finished s))
| StepDie i :
    workers_ s !! i = Some (mkThread Checking true) →
    thread_step s Silent (mkThreads (queue s) (delete i (workers_ s)) (finished s))
| StepWait i :
    workers_ s !! i = Some (mkThread Checking false) →
    thread_step s Silent (mkThreads (queue s) (<[i := mkThread Waiting false]> (workers_ s)) (finished s))
| StepTake i c j q :
    workers_ s !! i = Some (mkThread Waiting c) → queue s = j :: q →
    thread_step s (Took i j) (mkThreads q (<[i := mkThread (Running j) c]> (workers_ s)) (finished s))
| StepFinish i c j :
    workers_ s !! i = Some (mkThread (Running j) c) →
    thread_step s (Done i j) (mkThreads (queue s) (<[i := mkThread Checking c]> (workers_ s)) (j :: finished s)).

Inductive thread_run : pool → list event → pool → Prop :=
| RunNil s : thread_run s [] s
| RunCons s e s1 es s2 : thread_step s e s1 → thread_run s1 es s2 → thread_run s (e :: es) s2.

Definition queued (es : list event) : list nat :=
  omap (λ e, match e with Queued j => Some j | _ => None end) es.
Definition taken (es : list event) : list nat :=
  omap (λ e, match e with Took _ j => Some j | _ => None end) es.
Definition taken_by (i : nat) (es : list event) : list nat :=
  omap (λ e, match e with Took k j => if decide (k = i) then Some j else None | _ => None end) es.

(** [runWithTimeout]: what the select answers, by which of the channels won. *)
Inductive race : Type := RunnerDone (o : value + error) | TimedOut.

Definition runWithTimeout (r : race) : value + error :=
  match r with RunnerDone o => o | TimedOut => inr ErrJobTimeout end.

Definition thread_result (timeoutSeconds : Z) (direct : value + error) (r : race) : value + error :=
  if decide (timeoutSeconds = 0)%Z then direct else runWithTimeout r.

(** Jobs are taken in the order in which they were queued. *)
Lemma thread_run_fifo s es s' : thread_run s es s' → queue s ++ queued es = taken es ++ queue s'.
Proof.
  induction 1 as [s|s e s1 es s2 Hstep _ IH]; [by rewrite app_nil_r|].
  destruct Hstep as [j Hl|i Hi|i t Hi|i Hi|i Hi|i c j q Hi Hq|i c j Hi]; simpl in *; try done.
  - by rewrite <- IH, <- app_assoc.
  - rewrite Hq. simpl. by rewrite IH.
Qed.

(** Jobs are taken in the order in which they were queued. *)
Theorem jobs_fifo threads es s' :
  thread_run (mkThreads [] threads []) es s' → queued es = taken es ++ queue s'.
Proof. intros H. by apply thread_run_fifo in H. Qed.

(** A cancelled thread can still take this many jobs. *)
Definition allowance (t : thread) : nat := match where_ t with Waiting => 1 | _ => 0 end.

Lemma cancelled_step i s e s' t :
  thread_step s e s' → workers_ s !! i = Some t → cancelled t = true →
  (workers_ s' !! i = None ∧ taken_by i [e] = []) ∨
  ∃ t', workers_ s' !! i = Some t' ∧ cancelled t' = true ∧
        length (taken_by i [e]) + allowance t' ≤ allowance t.
Proof.
  intros Hstep Hi Hc.
  destruct Hstep as [j Hl|k Hk|k t' Hk|k Hk|k Hk|k c j q Hk Hq|k c j Hk]; simpl in *.
  - right. by exists t.
  - right. exists t. rewrite lookup_insert_ne by congruence. by split_and!.
  - right. rewrite lookup_insert. case_decide; [|by exists t]. subst. eexists. split; [done|].
    rewrite Hi in Hk. injection Hk as <-. by split.
  - rewrite lookup_delete. case_decide; [by left|]. right. by exists t.
  - right. rewrite lookup_insert. case_decide; [|by exists t]. subst. by simplify_eq.
  - right. rewrite lookup_insert. case_decide; [|by exists t]. subst. simplify_eq. eexists. split; [done|].
    by split.
  - right. rewrite lookup_insert. case_decide; [|by exists t]. subst. simplify_eq. eexists. split; [done|].
    by split.
Qed.

Lemma taken_by_cons i e es : taken_by i (e :: es) = taken_by i [e] ++ taken_by i es.
Proof. unfold taken_by. simpl. by destruct e; simpl; try case_decide. Qed.

(** A run in which no thread is started under the name [i] of an old one. *)
Inductive run_without (i : nat) : pool → list event → pool → Prop :=
| WithoutNil s : run_without i s [] s
| WithoutCons s e s1 es s2 :
    thread_step s e s1 → (workers_ s !! i = None → workers_ s1 !! i = None) →
    run_without i s1 es s2 → run_without i s (e :: es) s2.

Lemma gone_takes_nothing i s es s' :
  run_without i s es s' → workers_ s !! i = None → taken_by i es = [].
Proof.
  induction 1 as [|s e s1 es s2 Hstep Hk _ IH]; intros Hi; [done|].
  rewrite taken_by_cons, IH by auto. rewrite app_nil_r.
  destruct Hstep; simpl; try done. rewrite decide_False by congruence. done.
Qed.

(** After its context was cancelled a work thread takes at most one more job, and
    none unless it was waiting for one at that moment. *)
Theorem cancelled_takes_one i s es s' t :
  run_without i s es s' → workers_ s !! i = Some t → cancelled t = true →
  length (taken_by i es) ≤ match where_ t with Waiting => 1 | _ => 0 end.
Proof.
  intros Hrun. revert t. change (∀ t, workers_ s !! i = Some t → cancelled t = true →
    length (taken_by i es) ≤ allowance t).
  induction Hrun as [|s e s1 es s2 Hstep Hk Hrun IH]; intros t Hi Hc; [simpl; lia|].
  rewrite taken_by_cons, length_app.
  destruct (cancelled_step i s e s1 t Hstep Hi Hc) as [[Hn ->]|(t' & Ht' & Hc' & Hle)].
  - rewrite (gone_takes_nothing _ _ _ _ Hrun Hn). simpl. lia.
  - specialize (IH t' Ht' Hc'). lia.
Qed.

(** Nothing is lost: a job taken is being run or was finished. *)
Definition accounted (s : pool) (es : list event) : Prop :=
  ∀ j, j ∈ taken es → j ∈ finished s ∨ ∃ i c, workers_ s !! i = Some (mkThread (Running j) c).

Lemma busy_step s e s' j :
  thread_step s e s' →
  (j ∈ finished s ∨ ∃ i c, workers_ s !! i = Some (mkThread (Running j) c)) ∨ (∃ i, e = Took i j) →
  j ∈ finished s' ∨ ∃ i c, workers_ s' !! i = Some (mkThread (Running j) c).
Proof.
  intros Hstep [[Hf|(k & d & Hk)]|[k ->]].
  - left. destruct Hstep; simpl; set_solver.
  - destruct Hstep as [j' Hl|i Hi|i t Hi|i Hi|i Hi|i c j' q Hi Hq|i c j' Hi]; simpl.
    5,6,7: destruct (decide (i = k)) as [->|Hne]; [simplify_eq|].
    7: left; set_solver.
    + right; eauto.
    + right. exists k, d. by rewrite lookup_insert_ne by congruence.
    + right. destruct (decide (i = k)) as [->|Hne].
      * exists k, true. rewrite lookup_insert_eq. simplify_eq. done.
      * exists k, d. by rewrite lookup_insert_ne.
    + right. exists k, d. rewrite lookup_delete_ne; [done|]. congruence.
    + right. exists k, d. by rewrite lookup_insert_ne.
    + right. exists k, d. by rewrite lookup_insert_ne.
    + right. exists k, d. by rewrite lookup_insert_ne.
  - right. inversion Hstep; subst. simpl. eexists _, _. apply lookup_insert_eq.
Qed.

(** Every job that a work thread has taken from the queue is being run by a thread
    or was finished, under any interleaving with threads that are started and
    cancelled. *)
Theorem taken_jobs_accounted s es s' :
  thread_run s es s' → accounted s' es.
Proof.
  intros Hrun. assert (∀ j, (j ∈ taken es ∨ j ∈ finished s ∨ ∃ i c, workers_ s !! i = Some (mkThread (Running j) c)) →
    j ∈ finished s' ∨ ∃ i c, workers_ s' !! i = Some (mkThread (Running j) c)) as H by
    (induction Hrun as [|s e s1 es s2 Hstep _ IH]; intros j Hj;
     [destruct Hj as [Hj|]; [by apply not_elem_of_nil in Hj|done]|];
     apply IH; destruct Hj as [Hj|Hj]; [|right; eapply busy_step; eauto];
     destruct e as [| |j'|i j'|i j']; simpl in Hj; try (by left);
     apply elem_of_cons in Hj as [->|Hj]; [right; eapply busy_step; eauto|by left]).
  intros j Hj. apply H. by left.
Qed.

(** ** Examples *)

(** The thread 0 waits when it is cancelled; a job is queued after that. *)
Definition cancelled_waiting : pool := mkThreads [] {[0 := mkThread Waiting true]} [].

Lemma cancelled_takes_one_witness :
  ∃ s', run_without 0 cancelled_waiting [Queued 7; Took 0 7] s' ∧
        length (taken_by 0 [Queued 7; Took 0 7]) ≤ 1.
Proof.
  assert (run_without 0 cancelled_waiting [Queued 7; Took 0 7]
    (mkThreads [] (<[0 := mkThread (Running 7) true]> {[0 := mkThread Waiting true]}) [])) as Hrun.
  { eapply WithoutCons; [apply StepQueue; vm_compute; lia|done|].
    eapply WithoutCons; [by eapply (StepTake _ 0 true 7 [])|done|constructor]. }
  eexists. split; [exact Hrun|].
  exact (cancelled_takes_one 0 _ _ _ (mkThread Waiting true) Hrun eq_refl eq_refl).
Defined.

Lemma taken_jobs_accounted_witness :
  ∃ s', thread_run cancelled_waiting [Queued 7; Took 0 7] s' ∧ accounted s' [Queued 7; Took 0 7].
Proof.
  assert (thread_run cancelled_waiting [Queued 7; Took 0 7]
    (mkThreads [] (<[0 := mkThread (Running 7) true]> {[0 := mkThread Waiting true]}) [])) as Hrun.
  { eapply RunCons; [apply StepQueue; vm_compute; lia|].
    eapply RunCons; [by eapply (StepTake _ 0 true 7 [])|constructor]. }
  eexists. split; [exact Hrun|]. exact (taken_jobs_accounted _ _ _ Hrun).
Defined.
