(* ===== verification/Core.v ===== *)
(** * The life of a job: foundation/scheduler/core.go, worker.go (schedule),
    workthread.go (run), result.go

    A job is known by the pointer of its result.  A worker is known by its place
    in [core_pools], which has the queue and the threads of every worker that was
    ever registered: a type that is registered again gets a new worker, and the
    jobs of the old one stay with it.  [job_step] is what goes on by itself: the
    goroutines of [schedule], the threads, the goroutines that forward results,
    and the callers of [Then]; [core_step] adds new jobs and the registrations,
    and the threads that [reconcilePoolSize] starts and cancels (Worker). *)

From S2P Require Import Prelude.
From S2P Require Import Jobs.
From S2P Require Import Worker.
From S2P Require Import Threads.
From Stdlib Require Import Ascii.

(** Where a job is before its result gets an answer. *)
Inductive job_phase : Type :=
| Scheduling (w : nat)      (* in the goroutine of schedule of the worker [w] *)
| InQueue (w : nat)         (* in the channel of the worker [w] *)
| OnThread (w i : nat).     (* in the runnable, on the thread [i] of the worker [w] *)

Record core : Type := mkCore {
  core_scaler : scaler;
  core_heap : heap;
  jobs : gmap nat job_phase;
  core_ids : gmap string nat;       (* which worker a type has in the scaler *)
  core_pools : list pool
}.

Definition newCore : core := mkCore newScaler (mkHeap ∅ ∅ []) ∅ ∅ [].

Definition put_heap (s : core) (h : heap) : core :=
  mkCore (core_scaler s) h (jobs s) (core_ids s) (core_pools s).
Definition put_jobs (s : core) (js : gmap nat job_phase) : core :=
  mkCore (core_scaler s) (core_heap s) js (core_ids s) (core_pools s).
Definition put_pool (s : core) (w : nat) (pl : pool) : core :=
  mkCore (core_scaler s) (core_heap s) (jobs s) (core_ids s) (<[w := pl]> (core_pools s)).
Definition put_scaler (s : core) (sc : scaler) : core :=
  mkCore sc (core_heap s) (jobs s) (core_ids s) (core_pools s).

(** [strconv.Quote], which the verb %q stands for; a byte of a character that is
    not ASCII is kept, as in UTF-8 of characters that can be printed. *)
Definition backslash (c : ascii) : string := String (ascii_of_N 92) (String c "").

Definition hex_digit (n : N) : ascii := ascii_of_N (if decide (n < 10)%N then n + 48 else n + 87).

Definition quote_byte (c : ascii) : string :=
  let n := N_of_ascii c in
  if decide (n = 34 ∨ n = 92)%N then backslash c
  else if decide (n = 7)%N then backslash "a"
  else if decide (n = 8)%N then backslash "b"
  else if decide (n = 12)%N then backslash "f"
  else if decide (n = 10)%N then backslash "n"
  else if decide (n = 13)%N then backslash "r"
  else if decide (n = 9)%N then backslash "t"
  else if decide (n = 11)%N then backslash "v"
  else if decide (n < 32 ∨ n = 127)%N
    then backslash "x" +:+ String (hex_digit (n / 16)) (String (hex_digit (n mod 16)) "")
  else String c "".

Fixpoint quote_bytes (s : string) : string :=
  match s with "" => "" | String c s => quote_byte c +:+ quote_bytes s end.

Definition Quote (s : string) : string :=
  let q := String (ascii_of_N 34) "" in q +:+ quote_bytes s +:+ q.

Definition no_worker (jt : string) : error := ErrNew ("failed to getWorker for jobType " +:+ Quote jt).

(** [do] with the result at [p]: the error of a type without a worker is sent at
    once; otherwise the job goes to the [schedule] of its worker. *)
Definition core_do (s : core) (p : nat) (uuid jt : string) : option core :=
  let s1 := put_heap s (set_result (core_heap s) p (newResult uuid)) in
  match findWorker (core_scaler s) jt with
  | None => h1 ← sendErr (core_heap s1) p (no_worker jt); Some (put_heap s1 h1)
  | Some _ => w ← core_ids s !! jt; Some (put_jobs s1 (<[p := Scheduling w]> (jobs s1)))
  end.

(** [register]: the new worker has an empty channel and no threads. *)
Definition register (s : core) (jt : string) (opts : list (workerOpts → workerOpts)) : core :=
  mkCore (core_register (core_scaler s) jt opts) (core_heap s) (jobs s)
    (<[jt := length (core_pools s)]> (core_ids s)) (core_pools s ++ [mkThreads [] ∅ []]).

(** [deRegister], as far as the scaler's map goes: the threads of the worker are
    stopped by steps of its pool. *)
Definition deRegister (s : core) (jt : string) : core :=
  mkCore (mkScaler (delete jt (workers (core_scaler s))) (autoscaling (core_scaler s))) (core_heap s) (jobs s)
    (delete jt (core_ids s)) (core_pools s).

(** A step of what goes on by itself, with the results whose answers are received
    in it. *)
Inductive job_step (s : core) : list nat → core → Prop :=
| JobNoThreads p w e h :                 (* schedule: reconcilePoolSize fails *)
    jobs s !! p = Some (Scheduling w) →
    sendErr (core_heap s) p (ErrWrap e "failed to reconcilePoolSize") = Some h →
    job_step s [] (put_jobs (put_heap s h) (delete p (jobs s)))
| JobQueue p w pl pl1 :                  (* schedule: the channel has room *)
    jobs s !! p = Some (Scheduling w) → core_pools s !! w = Some pl → thread_step pl (Queued p) pl1 →
    job_step s [] (put_pool (put_jobs s (<[p := InQueue w]> (jobs s))) w pl1)
| JobTake p w i pl pl1 :                 (* a thread receives the job *)
    core_pools s !! w = Some pl → thread_step pl (Took i p) pl1 →
    job_step s [] (put_pool (put_jobs s (<[p := OnThread w i]> (jobs s))) w pl1)
| JobThread w pl pl1 :                   (* a thread tests its context *)
    core_pools s !! w = Some pl → thread_step pl Silent pl1 → job_step s [] (put_pool s w pl1)
| JobFinish p w i pl pl1 o h :           (* the thread sends what the runnable returned *)
    core_pools s !! w = Some pl → thread_step pl (Done i p) pl1 → report (core_heap s) p o = Some h →
    job_step s [] (put_pool (put_jobs (put_heap s h) (delete p (jobs s))) w pl1)
| JobForward fs1 fs2 src dst o h1 h2 :
    forwards (core_heap s) = fs1 ++ FwdResult src dst :: fs2 →
    Then (set_forwards (core_heap s) (fs1 ++ fs2)) src o h1 → forward_end h1 dst o = Some h2 →
    job_step s [src] (put_heap s h2)
| JobForwardGroup fs1 fs2 g dst ps order e h1 h2 :
    forwards (core_heap s) = fs1 ++ FwdGroup g dst :: fs2 →
    groups (core_heap s) !! g = Some ps → order ≡ₚ ps →
    awaits (set_forwards (core_heap s) (fs1 ++ fs2)) order e h1 →
    forward_end h1 dst (match e with Some e => inr (Some e) | None => inl VNil end) = Some h2 →
    job_step s order (put_heap s h2)
| JobWait g ps order e h :               (* Wait on a group *)
    groups (core_heap s) !! g = Some ps → order ≡ₚ ps → awaits (core_heap s) order e h →
    job_step s order (put_heap s h)
| JobThen p o h :                        (* Then, ThenDo, Discard *)
    Then (core_heap s) p o h → job_step s [p] (put_heap s h).

Inductive core_step (s : core) : list nat → core → Prop :=
| CoreJob l s1 : job_step s l s1 → core_step s l s1
| CoreDo p uuid jt s1 :
    results (core_heap s) !! p = None → core_do s p uuid jt = Some s1 → core_step s [] s1
| CoreGroupAdd g p : core_step s [] (put_heap s (Group_Add (core_heap s) g p))
| CoreRegister jt opts : core_step s [] (register s jt opts)
| CoreDeRegister jt : core_step s [] (deRegister s jt)
| CoreScale sc :                         (* thread counts and rates, by whoever changes them *)
    (∀ jt, is_Some (findWorker sc jt) ↔ is_Some (findWorker (core_scaler s) jt)) →
    core_step s [] (put_scaler s sc)
| CoreThreads w pl pl1 :                 (* addThread and removeThread *)
    core_pools s !! w = Some pl → thread_step pl Managed pl1 → core_step s [] (put_pool s w pl1).

Inductive core_run : list nat → core → Prop :=
| CoreStart : core_run [] newCore
| CoreRun l s l1 s1 : core_run l s → core_step s l1 s1 → core_run (l ++ l1) s1.

(** ** Jobs, queues and threads agree *)

Definition phase_worker (ph : job_phase) : nat :=
  match ph with Scheduling w | InQueue w | OnThread w _ => w end.

(** A pool [w] whose queue and threads hold what [jobs] says. *)
Record pool_placed (js : gmap nat job_phase) (w : nat) (pl : pool) : Prop := {
  pp_nodup : NoDup (queue pl);
  pp_queue p : p ∈ queue pl ↔ js !! p = Some (InQueue w);
  pp_run p i : (∃ c, workers_ pl !! i = Some (mkThread (Running p) c)) ↔ js !! p = Some (OnThread w i)
}.

Record placed (s : core) : Prop := {
  pl_pools w pl : core_pools s !! w = Some pl → pool_placed (jobs s) w pl;
  pl_jobs p ph : jobs s !! p = Some ph → is_Some (core_pools s !! phase_worker ph);
  pl_ids jt : is_Some (findWorker (core_scaler s) jt) ↔ is_Some (core_ids s !! jt);
  pl_known jt w : core_ids s !! jt = Some w → is_Some (core_pools s !! w)
}.

Lemma pool_placed_new js w : (∀ p ph, js !! p = Some ph → phase_worker ph ≠ w) → pool_placed js w (mkThreads [] ∅ []).
Proof.
  intros Hn. split; simpl; [constructor|..].
  - intros p. split; [by intros ?%not_elem_of_nil|]. by intros ?%Hn.
  - intros p i. split; [by intros [c ?]|]. by intros ?%Hn.
Qed.

(** A pool does not see a change of a job that it does not have. *)
Lemma pool_placed_other js js1 w pl p :
  (∀ q, q ≠ p → js1 !! q = js !! q) →
  js !! p ≠ Some (InQueue w) → js1 !! p ≠ Some (InQueue w) →
  (∀ i, js !! p ≠ Some (OnThread w i)) → (∀ i, js1 !! p ≠ Some (OnThread w i)) →
  pool_placed js w pl → pool_placed js1 w pl.
Proof.
  intros Hj Hq Hq1 Ht Ht1 [Hnd Hpq Hpr]. split; [done|..].
  - intros q. rewrite Hpq. destruct (decide (q = p)) as [->|]; [done|by rewrite Hj].
  - intros q i. rewrite Hpr. destruct (decide (q = p)) as [->|]; [|by rewrite Hj].
    split; [by intros ?%Ht|by intros ?%Ht1].
Qed.

(** A step of the job [p] in the worker [w]. *)
Lemma placed_move s s1 w pl pl1 p :
  placed s → core_pools s !! w = Some pl →
  core_scaler s1 = core_scaler s → core_ids s1 = core_ids s → core_pools s1 = <[w := pl1]> (core_pools s) →
  (∀ q, q ≠ p → jobs s1 !! q = jobs s !! q) →
  (∀ ph, jobs s !! p = Some ph ∨ jobs s1 !! p = Some ph → phase_worker ph = w) →
  pool_placed (jobs s1) w pl1 → placed s1.
Proof.
  intros [Hp Hj Hi Hk] Hw Hsc Hids Hps Hjs Hph Hpl.
  assert (∀ w1, is_Some (core_pools s !! w1) → is_Some (core_pools s1 !! w1)) as Hsome.
  { intros w1. rewrite Hps, !lookup_lt_is_Some. by rewrite length_insert. }
  split; [intros w1 pl2|intros q ph|by rewrite Hsc, Hids|intros jt w1; rewrite Hids; by intros ?%Hk%Hsome].
  - rewrite Hps. intros [(<- & -> & _)|[Hne H2]]%list_lookup_insert_Some; [done|].
    eapply pool_placed_other; [exact Hjs|..|by apply Hp]; [| |intros i|intros i]; intros Heq; apply Hne; symmetry;
      [apply (Hph (InQueue w1))|apply (Hph (InQueue w1))|apply (Hph (OnThread w1 i))|apply (Hph (OnThread w1 i))]; by auto.
  - intros Hq. apply Hsome. destruct (decide (q = p)) as [->|Hne].
    + rewrite (Hph ph) by auto. by eexists.
    + rewrite Hjs in Hq by done. by eapply Hj.
Qed.

(** A step of a pool that touches no job. *)
Lemma placed_pool s w pl pl1 :
  placed s → core_pools s !! w = Some pl → pool_placed (jobs s) w pl1 → placed (put_pool s w pl1).
Proof.
  intros [Hp Hj Hi Hk] Hw Hpl.
  assert (∀ w1, is_Some (core_pools s !! w1) → is_Some (<[w := pl1]> (core_pools s) !! w1)) as Hsome.
  { intros w1. rewrite !lookup_lt_is_Some. by rewrite length_insert. }
  split; simpl; [|by eauto..|done|by eauto].
  intros w1 pl2 [(<- & -> & _)|[Hne H2]]%list_lookup_insert_Some; [done|by apply Hp].
Qed.

(** Each step of a thread keeps a pool in agreement with its jobs. *)
Lemma pool_placed_queue js w pl pl1 p :
  pool_placed js w pl → js !! p = Some (Scheduling w) → thread_step pl (Queued p) pl1 →
  pool_placed (<[p := InQueue w]> js) w pl1.
Proof.
  intros [Hnd Hq Hr] Hp Hst. inversion Hst; subst; clear Hst. split; simpl.
  - apply NoDup_app. split_and!; [done| |apply NoDup_singleton]. intros q Hin ->%list_elem_of_singleton. apply Hq in Hin. congruence.
  - intros q. rewrite elem_of_app, Hq, list_elem_of_singleton, lookup_insert.
    case_decide; [subst|]; naive_solver.
  - intros q i. rewrite Hr, lookup_insert. case_decide; [subst|done]. rewrite Hp. naive_solver.
Qed.

Lemma pool_placed_take js w pl pl1 p i :
  pool_placed js w pl → thread_step pl (Took i p) pl1 →
  js !! p = Some (InQueue w) ∧ pool_placed (<[p := OnThread w i]> js) w pl1.
Proof.
  intros [Hnd Hq Hr] Hst. inversion Hst as [| | | | |? c ? q Hi Hqe|]; subst; clear Hst.
  assert (js !! p = Some (InQueue w)) as Hp by (apply Hq; rewrite Hqe; by left).
  split; [done|]. rewrite Hqe in Hnd. apply NoDup_cons in Hnd as [Hpq Hnd]. split; simpl; [done|..].
  - intros x. specialize (Hq x). rewrite Hqe, elem_of_cons in Hq. rewrite lookup_insert. case_decide; [subst; naive_solver|]. naive_solver.
  - intros x k. specialize (Hr x k). rewrite !lookup_insert.
    destruct (decide (i = k)) as [->|Hik], (decide (p = x)) as [->|Hpx]; naive_solver.
Qed.

Lemma pool_placed_done js w pl pl1 p i :
  pool_placed js w pl → thread_step pl (Done i p) pl1 →
  js !! p = Some (OnThread w i) ∧ pool_placed (delete p js) w pl1.
Proof.
  intros [Hnd Hq Hr] Hst. inversion Hst as [| | | | | |? c ? Hi]; subst; clear Hst.
  assert (js !! p = Some (OnThread w i)) as Hp by (apply Hr; by exists c).
  split; [done|]. split; simpl; [done|..].
  - intros x. rewrite Hq, lookup_delete. case_decide; [subst; naive_solver|done].
  - intros x k. specialize (Hr x k). rewrite lookup_insert, lookup_delete.
    destruct (decide (i = k)) as [->|Hik], (decide (p = x)) as [->|Hpx]; naive_solver.
Qed.

(** What starts, cancels, tests or ends a thread touches no job. *)
Lemma pool_placed_quiet js w pl e pl1 :
  pool_placed js w pl → thread_step pl e pl1 → e = Silent ∨ e = Managed → pool_placed js w pl1.
Proof.
  intros [Hnd Hq Hr] Hst He.
  assert (queue pl1 = queue pl ∧ ∀ i p, (∃ c, workers_ pl1 !! i = Some (mkThread (Running p) c)) ↔
    ∃ c, workers_ pl !! i = Some (mkThread (Running p) c)) as [Hqe Hrun].
  { destruct Hst as [| i Hi|i t Hi|i Hi|i Hi| |]; try (by destruct He); (split; [done|]); intros k p; simpl.
    all: rewrite ?lookup_insert, ?lookup_delete; case_decide; [subst k; rewrite Hi|done]; destruct_and?; try naive_solver.
    destruct t as [wh c]; simpl. split; intros [c1 [= -> ?]]; by eexists. }
  split; [by rewrite Hqe|intros p; by rewrite Hqe|intros p i; by rewrite Hrun].
Qed.

(** ** Every result is owed one answer *)

Definition dst (f : forward) : nat := match f with FwdResult _ d | FwdGroup _ d => d end.

(** The answers of a result that are there or on their way through a forwarding
    goroutine. *)
Definition owed (h : heap) (p : nat) : nat :=
  answers h p + length (filter (λ f, dst f = p) (forwards h)).

Definition pending (s : core) (p : nat) : nat := match jobs s !! p with Some _ => 1 | None => 0 end.
Definition received (l : list nat) (p : nat) : nat := length (filter (λ q, q = p) l).

(** An allocated result has one answer in all: received, owed or still to come;
    nothing is owed to a pointer that is not allocated. *)
Definition balanced (l : list nat) (s : core) : Prop := ∀ p,
  owed (core_heap s) p + pending s p + received l p =
    match results (core_heap s) !! p with Some _ => 1 | None => 0 end.

Lemma received_app l1 l2 p : received (l1 ++ l2) p = received l1 p + received l2 p.
Proof. unfold received. by rewrite filter_app, length_app. Qed.

Lemma received_cons q l p : received (q :: l) p = (if decide (q = p) then 1 else 0) + received l p.
Proof. unfold received. rewrite filter_cons. by case_decide. Qed.

Definition same_results (h h1 : heap) : Prop := ∀ p, is_Some (results h !! p) ↔ is_Some (results h1 !! p).

Lemma set_result_same h p r r0 : results h !! p = Some r0 → same_results h (set_result h p r).
Proof.
  intros Hp q. simpl. rewrite lookup_insert. case_decide; [subst|done]. rewrite Hp.
  split; intros _; by eexists.
Qed.

(** [Then] takes one answer. *)
Lemma then_owed h p o h1 q :
  Then h p o h1 → owed h q = owed h1 q + received [p] q ∧ same_results h h1 ∧ forwards h1 = forwards h.
Proof.
  intros Ht. pose proof (then_consumes h p o h1 q Ht) as Ha.
  assert (forwards h1 = forwards h ∧ same_results h h1) as [Hf Hs]
    by (destruct Ht; (split; [done|by eapply set_result_same])).
  split; [|done]. unfold owed. rewrite Hf, Ha, received_cons. unfold received. simpl. lia.
Qed.

Lemma awaits_owed h ps e h1 q :
  awaits h ps e h1 → owed h q = owed h1 q + received ps q ∧ same_results h h1 ∧ forwards h1 = forwards h.
Proof.
  induction 1 as [h|h p v h1 ps e h2 Ht _ (IHo & IHs & IHf)|h p e h1 ps e' h2 Ht _ (IHo & IHs & IHf)].
  1: { unfold received. simpl. split; [lia|]. split; [by intros|done]. }
  all: destruct (then_owed _ _ _ _ q Ht) as (Ho & Hs & Hf);
    split; [rewrite Ho, IHo, (received_cons p ps); unfold received; simpl; rewrite filter_cons;
            case_decide; simpl; lia|split; [intros x; rewrite (Hs x); apply IHs|congruence]].
Qed.

(** A send adds one answer. *)
Definition sent (h h1 : heap) (p : nat) : Prop :=
  same_results h h1 ∧ ∀ q, owed h1 q = owed h q + (if decide (p = q) then 1 else 0).

Lemma spawn_sent h f : sent h (spawn h f) (dst f).
Proof.
  split; [done|]. intros q. unfold owed, spawn; simpl. rewrite filter_app, length_app, filter_cons.
  change (answers (mkHeap (results h) (groups h) (forwards h ++ [f])) q) with (answers h q).
  case_decide; simpl; lia.
Qed.

Lemma set_result_sent h p r r1 :
  results h !! p = Some r → resultChan r1 + errChan r1 = S (resultChan r + errChan r) →
  sent h (set_result h p r1) p.
Proof.
  intros Hp Hr. split; [by eapply set_result_same|]. intros q. unfold owed. rewrite answers_set. simpl.
  case_decide; [subst q|lia]. unfold answers. rewrite Hp. lia.
Qed.

Lemma sendErr_sent h p e h1 : sendErr h p e = Some h1 → sent h h1 p.
Proof.
  unfold sendErr. destruct (results h !! p) as [r|] eqn:Hp; simpl; [|done]. case_decide; [|done].
  intros [= <-]. eapply set_result_sent; [done|]. simpl. lia.
Qed.

Lemma sendResult_sent h p v h1 : sendResult h p v = Some h1 → sent h h1 p.
Proof.
  destruct v; simpl; try (intros [= <-]; apply spawn_sent).
  all: destruct (results h !! p) as [r|] eqn:Hp; simpl; [|done]; case_decide; [|done];
    intros [= <-]; eapply set_result_sent; [done|]; simpl; lia.
Qed.

Lemma report_sent h p o h1 : report h p o = Some h1 → sent h h1 p.
Proof. destruct o; [apply sendResult_sent|apply sendErr_sent]. Qed.

Lemma forward_end_sent h p o h1 : forward_end h p o = Some h1 → sent h h1 p.
Proof. destruct o as [v|[e|]]; [apply sendResult_sent|apply sendErr_sent|apply sendResult_sent]. Qed.

(** A send to a result without an answer does not block. *)
Lemma send_free h p :
  is_Some (results h !! p) → answers h p = 0 →
  (∀ v, ∃ h1, sendResult h p v = Some h1) ∧ ∀ e, ∃ h1, sendErr h p e = Some h1.
Proof.
  intros [r Hr] Ha. unfold answers in Ha. rewrite Hr in Ha. split.
  - intros v. destruct v; simpl; try (by eexists); rewrite Hr; simpl; rewrite decide_True by lia; by eexists.
  - intros e. unfold sendErr. rewrite Hr. simpl. rewrite decide_True by lia. by eexists.
Qed.

(** Removing a forwarding goroutine. *)
Lemma owed_forward h fs1 f fs2 q :
  forwards h = fs1 ++ f :: fs2 →
  owed h q = owed (set_forwards h (fs1 ++ fs2)) q + (if decide (dst f = q) then 1 else 0).
Proof.
  intros Hf. unfold owed, set_forwards; simpl. rewrite Hf, !filter_app, !length_app, filter_cons.
  change (answers (mkHeap (results h) (groups h) (fs1 ++ fs2)) q) with (answers h q).
  case_decide; simpl; lia.
Qed.

Lemma balanced_known l s p : balanced l s → 0 < owed (core_heap s) p + pending s p → is_Some (results (core_heap s) !! p).
Proof. intros Hb. specialize (Hb p). destruct (results _ !! p); [by eexists|lia]. Qed.

Lemma pending_insert s s1 p ph q :
  jobs s1 = <[p := ph]> (jobs s) → pending s1 q = if decide (p = q) then 1 else pending s q.
Proof. intros Hj. unfold pending. rewrite Hj, lookup_insert. by case_decide. Qed.

Lemma pending_delete s s1 p q :
  jobs s1 = delete p (jobs s) → pending s1 q = if decide (p = q) then 0 else pending s q.
Proof. intros Hj. unfold pending. rewrite Hj, lookup_delete. by case_decide. Qed.

(** A step in which what is received comes off what is owed or pending. *)
Lemma balanced_heap l l1 s s1 :
  balanced l s → same_results (core_heap s) (core_heap s1) →
  (∀ q, owed (core_heap s1) q + pending s1 q + received l1 q = owed (core_heap s) q + pending s q) →
  balanced (l ++ l1) s1.
Proof.
  intros Hb Hs Hq q. specialize (Hb q). specialize (Hq q). rewrite received_app.
  specialize (Hs q). destruct (results (core_heap s) !! q), (results (core_heap s1) !! q); try lia.
  - by destruct (proj1 Hs ltac:(by eexists)).
  - by destruct (proj2 Hs ltac:(by eexists)).
Qed.

(** A job that leaves the core with a send to its result. *)
Lemma balanced_finish l s s1 p ph :
  balanced l s → jobs s !! p = Some ph → sent (core_heap s) (core_heap s1) p →
  jobs s1 = delete p (jobs s) → balanced l s1.
Proof.
  intros Hb Hj [Hs Ho] Hd. rewrite <- (app_nil_r l). apply (balanced_heap l [] s); [done|done|].
  intros q. rewrite (pending_delete s s1 p q Hd), Ho. unfold received, pending; simpl.
  case_decide; [subst q; rewrite Hj; lia|lia].
Qed.

Lemma balanced_phase l s s1 p ph ph1 :
  balanced l s → jobs s !! p = Some ph → core_heap s1 = core_heap s →
  jobs s1 = <[p := ph1]> (jobs s) → balanced l s1.
Proof.
  intros Hb Hj Hh Hi. rewrite <- (app_nil_r l). apply (balanced_heap l [] s); [done|by rewrite Hh|].
  intros q. rewrite (pending_insert s s1 p ph1 q Hi), Hh. unfold received, pending; simpl.
  case_decide; [subst q; rewrite Hj; lia|lia].
Qed.

(** A step that leaves heap and jobs. *)
Lemma balanced_same l s s1 : balanced l s → core_heap s1 = core_heap s → jobs s1 = jobs s → balanced l s1.
Proof. intros Hb Hh Hj p. specialize (Hb p). unfold pending. by rewrite Hh, Hj. Qed.

Lemma balanced_fresh l s p : balanced l s → results (core_heap s) !! p = None → jobs s !! p = None ∧ owed (core_heap s) p = 0.
Proof.
  intros Hb Hp. specialize (Hb p). rewrite Hp in Hb. unfold pending in Hb. destruct (jobs s !! p); [lia|]. split; [done|lia].
Qed.

Lemma balanced_do l s p uuid jt s1 :
  balanced l s → results (core_heap s) !! p = None → core_do s p uuid jt = Some s1 → balanced l s1.
Proof.
  intros Hb Hp. destruct (balanced_fresh l s p Hb Hp) as [Hjp Hop]. unfold core_do. simpl.
  set (h := set_result (core_heap s) p (newResult uuid)). pose proof (Hb p) as Hbp. rewrite Hp in Hbp.
  assert (∀ q, owed h q = owed (core_heap s) q) as Ho.
  { intros q. unfold owed, h. rewrite answers_set. simpl. case_decide; [subst q|done]. unfold owed in Hop. lia. }
  assert (∀ q, results h !! q = if decide (p = q) then Some (newResult uuid) else results (core_heap s) !! q) as Hr
    by (intros q; apply lookup_insert).
  destruct (findWorker (core_scaler s) jt) as [wk|].
  - destruct (core_ids s !! jt) as [w|]; simpl; [|done]. intros [= <-] q. specialize (Hb q).
    rewrite (pending_insert s _ p (Scheduling w) q) by done. simpl. rewrite Hr, Ho.
    case_decide; [subst q|done]. lia.
  - destruct (sendErr h p _) as [h1|] eqn:E; simpl; [|done]. intros [= <-] q. specialize (Hb q).
    apply sendErr_sent in E as [Hs Hs1]. simpl. rewrite Hs1, Ho. unfold pending in *; simpl.
    specialize (Hs q). rewrite Hr in Hs. case_decide; [subst q|].
    + destruct (results h1 !! p); [lia|]. by destruct (proj1 Hs ltac:(by eexists)).
    + destruct (results h1 !! q), (results (core_heap s) !! q); try lia.
      * by destruct (proj2 Hs ltac:(by eexists)).
      * by destruct (proj1 Hs ltac:(by eexists)).
Qed.

Lemma balanced_job l s l1 s1 : balanced l s → placed s → job_step s l1 s1 → balanced (l ++ l1) s1.
Proof.
  intros Hb Hpl Hstep.
  destruct Hstep as [p w e h Hj Hsend|p w pl pl1 Hj Hw Hst|p w i pl pl1 Hw Hst|w pl pl1 Hw Hst|p w i pl pl1 o h Hw Hst Hsend
    |fs1 fs2 src d o h1 h2 Hf Ht Hend|fs1 fs2 g d ps order e h1 h2 Hf Hg Hperm Haw Hend|g ps order e h Hg Hperm Haw|p o h Ht];
    rewrite ?app_nil_r.
  - eapply balanced_finish; [done..| |done]. by eapply sendErr_sent.
  - by eapply balanced_phase.
  - destruct (pool_placed_take _ _ _ _ _ _ (pl_pools s Hpl w pl Hw) Hst) as [Hj _]. by eapply balanced_phase.
  - by eapply balanced_same.
  - destruct (pool_placed_done _ _ _ _ _ _ (pl_pools s Hpl w pl Hw) Hst) as [Hj _].
    eapply balanced_finish; [done..| |done]. by eapply report_sent.
  - apply forward_end_sent in Hend as [Hs Ho]. apply (balanced_heap l _ s); [done| |].
    + intros q. destruct (then_owed _ _ _ _ q Ht) as (_ & Hs1 & _). simpl. rewrite <- (Hs q). apply Hs1.
    + intros q. destruct (then_owed _ _ _ _ q Ht) as (Ho1 & _ & _). simpl. rewrite Ho.
      rewrite (owed_forward _ _ _ _ q Hf), Ho1. unfold pending. simpl. lia.
  - apply forward_end_sent in Hend as [Hs Ho]. apply (balanced_heap l _ s); [done| |].
    + intros q. destruct (awaits_owed _ _ _ _ q Haw) as (_ & Hs1 & _). simpl. rewrite <- (Hs q). apply Hs1.
    + intros q. destruct (awaits_owed _ _ _ _ q Haw) as (Ho1 & _ & _). simpl. rewrite Ho.
      rewrite (owed_forward _ _ _ _ q Hf), Ho1. unfold pending. simpl. lia.
  - apply (balanced_heap l _ s); [done| |]; intros q; destruct (awaits_owed _ _ _ _ q Haw) as (Ho & Hs & _);
      simpl; [apply Hs|]. rewrite Ho. unfold pending; simpl. lia.
  - apply (balanced_heap l _ s); [done| |]; intros q; destruct (then_owed _ _ _ _ q Ht) as (Ho & Hs & _);
      simpl; [apply Hs|]. rewrite Ho. unfold pending; simpl. lia.
Qed.

Lemma balanced_step l s l1 s1 : balanced l s → placed s → core_step s l1 s1 → balanced (l ++ l1) s1.
Proof.
  intros Hb Hpl Hstep. destruct Hstep as [l1 s1 Hj|p uuid jt s1 Hp Hdo|g p|jt opts|jt|sc Hsc|w pl pl1 Hw Hst];
    rewrite ?app_nil_r; [by eapply balanced_job|by eapply balanced_do|..]; exact Hb.
Qed.

(** ** Steps keep jobs, queues and threads in agreement *)

(** A step that changes only the heap. *)
Lemma placed_heap s h : placed s → placed (put_heap s h).
Proof. by intros []. Qed.

Lemma placed_do l s p uuid jt s1 :
  balanced l s → placed s → results (core_heap s) !! p = None → core_do s p uuid jt = Some s1 → placed s1.
Proof.
  intros Hb Hpl Hp. destruct (balanced_fresh l s p Hb Hp) as [Hj _]. unfold core_do. simpl.
  destruct (findWorker (core_scaler s) jt) as [wk|].
  - destruct (core_ids s !! jt) as [w|] eqn:Hw; simpl; [|done]. intros [= <-].
    destruct (pl_known s Hpl jt w Hw) as [pl Hwp].
    apply (placed_move s _ w pl pl p); simpl; try done.
    + symmetry. by apply list_insert_id.
    + intros q Hq. by rewrite lookup_insert_ne.
    + rewrite lookup_insert_eq, Hj. by intros ph [|[= <-]].
    + eapply pool_placed_other; [intros q Hq; by apply lookup_insert_ne| | |intros i|intros i|by apply (pl_pools s Hpl)];
        simpl; rewrite ?lookup_insert_eq, ?Hj; congruence.
  - destruct (sendErr _ _ _) as [h1|]; simpl; [|done]. intros [= <-]. by do 2 apply placed_heap.
Qed.

Lemma placed_job s l s1 : placed s → job_step s l s1 → placed s1.
Proof.
  intros Hpl Hstep. pose proof (pl_pools s Hpl) as Hpp.
  destruct Hstep as [p w e h Hj Hsend|p w pl pl1 Hj Hw Hst|p w i pl pl1 Hw Hst|w pl pl1 Hw Hst|p w i pl pl1 o h Hw Hst Hsend
    |fs1 fs2 src d o h1 h2|fs1 fs2 g d ps order e h1 h2|g ps order e h|p o h]; try by apply placed_heap.
  - destruct (pl_jobs s Hpl p _ Hj) as [pl Hw]. simpl in Hw. apply (placed_move s _ w pl pl p); simpl; try done.
    + symmetry. by apply list_insert_id.
    + intros q Hq. by rewrite lookup_delete_ne.
    + rewrite lookup_delete_eq, Hj. by intros ph [[= <-]|].
    + eapply pool_placed_other; [intros q Hq; by apply lookup_delete_ne| | |intros i|intros i|by apply Hpp];
        simpl; rewrite ?lookup_delete_eq, ?Hj; congruence.
  - eapply (placed_move s _ w pl pl1 p); simpl; try done; [intros q Hq; by rewrite lookup_insert_ne| |].
    + rewrite lookup_insert_eq, Hj. by intros ph [[= <-]|[= <-]].
    + by eapply pool_placed_queue; [apply Hpp|..].
  - destruct (pool_placed_take _ _ _ _ _ _ (Hpp w pl Hw) Hst) as [Hj Hpl1].
    eapply (placed_move s _ w pl pl1 p); simpl; try done; [intros q Hq; by rewrite lookup_insert_ne|].
    rewrite lookup_insert_eq, Hj. by intros ph [[= <-]|[= <-]].
  - by eapply placed_pool, pool_placed_quiet; [..|apply Hpp| |left].
  - destruct (pool_placed_done _ _ _ _ _ _ (Hpp w pl Hw) Hst) as [Hj Hpl1].
    eapply (placed_move s _ w pl pl1 p); simpl; try done; [intros q Hq; by rewrite lookup_delete_ne|].
    rewrite lookup_delete_eq, Hj. by intros ph [[= <-]|].
Qed.

Lemma placed_register s jt opts : placed s → placed (register s jt opts).
Proof.
  intros [Hp Hj Hi Hk]. unfold register, core_register, findWorker in *.
  assert (∀ w, is_Some (core_pools s !! w) → is_Some ((core_pools s ++ [mkThreads [] ∅ []]) !! w)) as Hsome.
  { intros w. rewrite !lookup_lt_is_Some, length_app. simpl. lia. }
  split; simpl.
  - intros w pl. rewrite lookup_app_Some, list_lookup_singleton_Some.
    intros [|(Hl & Hw & <-)]; [by apply Hp|]. apply pool_placed_new. intros p ph [pl1 Hl1]%Hj Heq.
    apply lookup_lt_Some in Hl1. lia.
  - intros p ph Hph. by eapply Hsome, Hj.
  - intros jt1. unfold findWorker. simpl. rewrite !lookup_insert. case_decide; [by split|].
    destruct (decide _); apply Hi.
  - intros jt1 w. rewrite lookup_insert. case_decide; [|by intros ?%Hk%Hsome].
    intros [= <-]. rewrite lookup_lt_is_Some, length_app. simpl. lia.
Qed.

Lemma placed_deRegister s jt : placed s → placed (deRegister s jt).
Proof.
  intros [Hp Hj Hi Hk]. unfold findWorker in *. split; simpl; [done|done|..].
  - intros jt1. unfold findWorker. simpl. rewrite !lookup_delete. case_decide; [|apply Hi]. split; by intros [].
  - intros jt1 w. rewrite lookup_delete. case_decide; [done|]. apply Hk.
Qed.

Lemma placed_step l s l1 s1 : balanced l s → placed s → core_step s l1 s1 → placed s1.
Proof.
  intros Hb Hpl Hstep. destruct Hstep as [l1 s1 Hj|p uuid jt s1 Hp Hdo|g p|jt opts|jt|sc Hsc|w pl pl1 Hw Hst].
  - by eapply placed_job.
  - by eapply placed_do.
  - by apply placed_heap.
  - by apply placed_register.
  - by apply placed_deRegister.
  - destruct Hpl as [Hp Hj Hi Hk]. split; simpl; try done. intros jt. by rewrite Hsc.
  - eapply placed_pool; [done..|]. eapply pool_placed_quiet; [by apply (pl_pools s Hpl)|done|by right].
Qed.

Lemma core_run_ok l s : core_run l s → balanced l s ∧ placed s.
Proof.
  induction 1 as [|l s l1 s1 _ [Hb Hpl] Hstep]; [|split; [by eapply balanced_step|by eapply placed_step]].
  split; [done|]. split; simpl; try done. intros jt. split; by intros [].
Qed.

Lemma core_run_balanced l s : core_run l s → balanced l s.
Proof. intros Hr. by destruct (core_run_ok l s Hr). Qed.

(** A thread and a goroutine of schedule never block when they send. *)
Lemma core_sends l s :
  core_run l s →
  (∀ p w i, jobs s !! p = Some (OnThread w i) → ∀ o, ∃ h, report (core_heap s) p o = Some h) ∧
  ∀ p w, jobs s !! p = Some (Scheduling w) → ∀ e, ∃ h, sendErr (core_heap s) p e = Some h.
Proof.
  intros Hb%core_run_balanced.
  assert (∀ p ph, jobs s !! p = Some ph → is_Some (results (core_heap s) !! p) ∧ answers (core_heap s) p = 0) as Hfree.
  { intros p ph Hj. split.
    - apply (balanced_known l). { done. } unfold pending. rewrite Hj. lia.
    - specialize (Hb p). unfold pending, owed in Hb. rewrite Hj in Hb. destruct (results _ !! p); lia. }
  split; intros p w; [intros i|]; intros Hj; destruct (Hfree p _ Hj) as [Hr Ha]; destruct (send_free (core_heap s) p Hr Ha) as [Hv He]; [|done].
  intros o. destruct o; [apply Hv|apply He].
Qed.

(** C35: Whatever calls of do, schedulings, runs, forwarding goroutines, groups
    and callers are interleaved, every result that was made has exactly one
    answer: still to come from its job, on its way, in its channel, or received;
    nobody receives a second one; and no thread, schedule goroutine or forwarding
    goroutine ever blocks when it sends. *)
Theorem core_answers_once l s :
  core_run l s →
  (∀ p, received l p ≤ 1) ∧
  (∀ p r, results (core_heap s) !! p = Some r → owed (core_heap s) p + pending s p + received l p = 1) ∧
  (∀ p w i, jobs s !! p = Some (OnThread w i) → ∀ o, ∃ h, report (core_heap s) p o = Some h) ∧
  (∀ p w, jobs s !! p = Some (Scheduling w) → ∀ e, ∃ h, sendErr (core_heap s) p e = Some h) ∧
  ∀ fs1 src d fs2 o h1, forwards (core_heap s) = fs1 ++ FwdResult src d :: fs2 →
    Then (set_forwards (core_heap s) (fs1 ++ fs2)) src o h1 → ∃ h2, forward_end h1 d o = Some h2.
Proof.
  intros Hrun. destruct (core_sends l s Hrun) as [Hrep Herr]. apply core_run_balanced in Hrun as Hb. split_and!; [..|done|done|].
  - intros p. specialize (Hb p). destruct (results _ !! p); lia.
  - intros p r Hr. specialize (Hb p). by rewrite Hr in Hb.
  - intros fs1 src d fs2 o h1 Hf Ht. pose proof (owed_forward _ _ _ _ d Hf) as Ho. rewrite decide_True in Ho by done.
    destruct (then_owed _ _ _ _ d Ht) as (Ho1 & Hs & _).
    destruct (send_free h1 d) as [Hv He].
    + apply Hs, (balanced_known l s d Hb). lia.
    + specialize (Hb d). unfold owed in Ho1 at 2. destruct (results (core_heap s) !! d); lia.
    + destruct o as [v|[e|]]; [apply Hv|apply He|apply Hv].
Qed.

(** ** Examples *)

(** A job of an unknown type, and its caller. *)
Definition example_failed : core :=
  put_heap newCore (mkHeap {[0 := mkResult "u" VNil (Some (no_worker "fn")) 0 1]} ∅ []).

(** Go's quotation marks are around the type, and inside it they are escaped. *)
Example example_quote :
  String.length (Quote "fn") = 4 ∧ String.length (Quote (String (ascii_of_N 34) "")) = 4 ∧
  quote_bytes (String (ascii_of_N 10) (String (ascii_of_N 1) "")) = "\n\x01".
Proof. vm_compute. by split_and!. Qed.

Lemma example_core_run : core_run [] example_failed.
Proof.
  apply (CoreRun [] newCore [] example_failed CoreStart).
  eapply (CoreDo newCore 0 "u" "fn"); [done|]. vm_compute. reflexivity.
Qed.

(** Its result is owed one answer, and nobody received one. *)
Lemma core_answers_once_witness :
  owed (core_heap example_failed) 0 + pending example_failed 0 + received [] 0 = 1 ∧ received [] 0 = 0.
Proof.
  split; [|reflexivity].
  exact (proj1 (proj2 (core_answers_once [] example_failed example_core_run)) 0 _ eq_refl).
Defined.
