(* ===== verification/Schedule.v ===== *)
(** * Schedules and their watcher: foundation/scheduler/schedule.go, watcher.go

    Times are nanoseconds.  A tick of the watcher asks every schedule at one
    time [now]; the schedules do not depend on each other, so the order in
    which Go goes through the map does not matter. *)

From S2P Require Import Prelude.
From S2P Require Import Jobs.

Definition second : Z := 10 ^ 9.

(** [jobFunc] is the job that the schedule's function makes. *)
Inductive Schedule : Type :=
| everySchedule (seconds : Z) (jobFunc : Job) (last : option Z)
| afterSchedule (seconds : Z) (jobFunc : Job) (created : Z) (done : bool).

Definition Every (seconds : Z) (jobFunc : Job) : Schedule := everySchedule seconds jobFunc None.
Definition After (seconds : Z) (jobFunc : Job) (now : Z) : Schedule :=
  afterSchedule seconds jobFunc now false.

Definition sched_Check (s : Schedule) (now : Z) : option Job * Schedule :=
  match s with
  | everySchedule secs j last =>
      if match last with None => true | Some l => bool_decide (secs * second ≤ now - l)%Z end
      then (Some j, everySchedule secs j (Some now)) else (None, s)
  | afterSchedule secs j created d =>
      if bool_decide (secs * second ≤ now - created)%Z
      then (Some j, afterSchedule secs j created true) else (None, s)
  end.

Definition sched_Done (s : Schedule) : bool :=
  match s with everySchedule _ _ _ => false | afterSchedule _ _ _ d => d end.

Record watcher : Type := mkWatcher { schedules : gmap string Schedule }.

Definition watch (w : watcher) (fresh : string) (s : Schedule) : watcher :=
  mkWatcher (<[fresh := s]> (schedules w)).

(** A turn of the watcher's loop for one schedule: a schedule that is done is
    removed, another is checked. *)
Definition turn (now : Z) (s : Schedule) : option Job * option Schedule :=
  if sched_Done s then (None, None) else let '(j, s1) := sched_Check s now in (j, Some s1).

(** The jobs that a tick gives to the scheduler, by schedule, and the watcher. *)
Definition tick (w : watcher) (now : Z) : gmap string Job * watcher :=
  (omap (λ s, (turn now s).1) (schedules w), mkWatcher (omap (λ s, (turn now s).2) (schedules w))).

(** The times of the ticks at which the schedule [u] fired. *)
Fixpoint fired (w : watcher) (u : string) (ticks : list Z) : list Z :=
  match ticks with
  | [] => []
  | now :: ticks =>
      let '(jobs, w1) := tick w now in
      (match jobs !! u with Some _ => [now] | None => [] end) ++ fired w1 u ticks
  end.

Lemma tick_lookup w now u :
  (tick w now).1 !! u = (schedules w !! u ≫= λ s, (turn now s).1) ∧
  schedules (tick w now).2 !! u = (schedules w !! u ≫= λ s, (turn now s).2).
Proof. unfold tick; simpl. by rewrite !lookup_omap. Qed.

Lemma fired_none w u ticks : schedules w !! u = None → fired w u ticks = [].
Proof.
  revert w. induction ticks as [|now ticks IH]; intros w Hu; [done|].
  destruct (tick_lookup w now u) as [E1 E2]. cbn [fired].
  destruct (tick w now) as [jobs w1]. simpl in *. rewrite E1, Hu. simpl. apply IH. by rewrite E2, Hu.
Qed.

(** The first tick at which [secs] seconds have gone by. *)
Fixpoint first_due (secs created : Z) (ticks : list Z) : list Z :=
  match ticks with
  | [] => []
  | now :: ticks => if bool_decide (secs * second ≤ now - created)%Z then [now]
                    else first_due secs created ticks
  end.

(** An After schedule fires at the first tick at which its seconds have gone by,
    and never again. *)
Theorem after_fires_once w u secs j created ticks :
  schedules w !! u = Some (After secs j created) → fired w u ticks = first_due secs created ticks.
Proof.
  revert w. induction ticks as [|now ticks IH]; intros w Hu; [done|].
  destruct (tick_lookup w now u) as [E1 E2]. cbn [fired first_due].
  destruct (tick w now) as [jobs w1] eqn:Et. simpl in E1, E2. rewrite E1, Hu. simpl.
  rewrite Hu in E2. cbn [mbind option_bind] in E2. unfold turn, After in *. simpl in *.
  case_bool_decide; simpl in *; [|by apply IH].
  f_equal. destruct ticks as [|now2 ticks]; [done|]. cbn [fired].
  destruct (tick_lookup w1 now2 u) as [F1 F2]. destruct (tick w1 now2) as [jobs2 w2]. simpl in *.
  rewrite F1, E2. simpl. apply fired_none. by rewrite F2, E2.
Qed.

(** What [Every] should do: fire when it never did, or when the last firing was
    [secs] seconds ago. *)
Fixpoint every_due (secs : Z) (last : option Z) (ticks : list Z) : list Z :=
  match ticks with
  | [] => []
  | now :: ticks =>
      if match last with None => true | Some l => bool_decide (secs * second ≤ now - l)%Z end
      then now :: every_due secs (Some now) ticks else every_due secs last ticks
  end.

Lemma every_fired w u secs j last ticks :
  schedules w !! u = Some (everySchedule secs j last) → fired w u ticks = every_due secs last ticks.
Proof.
  revert w last. induction ticks as [|now ticks IH]; intros w last Hu; [done|].
  destruct (tick_lookup w now u) as [E1 E2]. cbn [fired every_due].
  destruct (tick w now) as [jobs w1]. simpl in *. rewrite E1, Hu. rewrite Hu in E2.
  cbn [mbind option_bind] in *. unfold turn in *. simpl in *.
  destruct (match last with Some _ => _ | None => _ end); simpl in *; [f_equal|]; by apply IH.
Qed.

(** Two firings in a row are at least [gap] apart. *)
Fixpoint spaced (gap : Z) (last : option Z) (l : list Z) : Prop :=
  match l with
  | [] => True
  | t :: l => match last with Some a => gap ≤ t - a | None => True end ∧ spaced gap (Some t) l
  end%Z.

Lemma every_due_spaced secs last ticks : spaced (secs * second) last (every_due secs last ticks).
Proof.
  revert last. induction ticks as [|now ticks IH]; intros last; [done|]. cbn [every_due].
  destruct last as [l|]; [case_bool_decide|]; simpl; auto.
Qed.

(** Two firings of an [Every] schedule are at least its seconds apart, and the
    first is at the first tick. *)
Theorem every_spaced w u secs j ticks :
  schedules w !! u = Some (Every secs j) →
  spaced (secs * second) None (fired w u ticks) ∧ head (fired w u ticks) = head ticks.
Proof.
  intros Hu. rewrite (every_fired _ _ _ _ _ _ Hu). split; [apply every_due_spaced|]. by destruct ticks.
Qed.

(** While the ticks come at most [step] apart, the firings come at most
    [secs] seconds and [step] apart. *)
Fixpoint close (step : Z) (last : Z) (ticks : list Z) : Prop :=
  match ticks with [] => True | t :: ticks => (last ≤ t ≤ last + step)%Z ∧ close step t ticks end.

(** The firings that follow one at [last], up to the end of the ticks. *)
Fixpoint within (bound last : Z) (fires : list Z) (final : Z) : Prop :=
  match fires with
  | [] => (final - last ≤ bound)%Z
  | t :: fires => (t - last ≤ bound)%Z ∧ within bound t fires final
  end.

Lemma every_due_within secs step l seen ticks :
  (0 < step)%Z → (l ≤ seen < l + secs * second)%Z ∨ (seen = l ∧ 0 ≤ secs)%Z → close step seen ticks →
  within (secs * second + step) l (every_due secs (Some l) ticks) (List.last ticks seen).
Proof.
  intros Hstep. revert l seen. induction ticks as [|now ticks IH]; intros l seen Hs Hc.
  { simpl. unfold second in *. lia. }
  destruct Hc as [Hnow Hc]. cbn [every_due].
  assert (List.last (now :: ticks) seen = List.last ticks now) as ->.
  { clear. revert now seen. induction ticks as [|a ticks IH]; intros; [done|].
    change (List.last (a :: ticks) seen = List.last (a :: ticks) now). by rewrite (IH a seen), (IH a now). }
  case_bool_decide as Hd; simpl.
  - split; [unfold second in *; lia|]. apply IH; [unfold second in *; lia|done].
  - apply IH; [left; unfold second in *; lia|done].
Qed.

(** An Every schedule fires at the first tick and then again and again: while the
    ticks come at most step apart, two firings are never more than its seconds and
    one step apart. *)
Theorem every_keeps_up w u secs j step t0 ticks :
  (0 < step)%Z → (0 ≤ secs)%Z → close step t0 ticks →
  schedules w !! u = Some (Every secs j) →
  ∃ fires, fired w u (t0 :: ticks) = t0 :: fires ∧
           within (secs * second + step) t0 fires (List.last ticks t0).
Proof.
  intros Hstep Hsecs Hc Hu. rewrite (every_fired _ _ _ _ _ _ Hu). cbn [every_due].
  eexists. split; [done|]. apply every_due_within; [done| |done]. right. lia.
Qed.

(** ** Examples *)

Definition example_job : Job := NewJob "u" "fn" VNil.

Lemma after_fires_once_witness :
  let w := watch (mkWatcher ∅) "u" (After 2 example_job 0) in
  fired w "u" [second; 2 * second; 3 * second; 4 * second]%Z = [2 * second]%Z.
Proof. apply (after_fires_once _ "u" 2 example_job 0). reflexivity. Defined.

Lemma every_keeps_up_witness :
  let w := watch (mkWatcher ∅) "u" (Every 2 example_job) in
  ∃ fires, fired w "u" [second; 2 * second; 3 * second; 4 * second]%Z = second :: fires ∧
           within (2 * second + second) second fires (4 * second).
Proof.
  apply (every_keeps_up _ "u" 2 example_job second second [2 * second; 3 * second; 4 * second]%Z);
    [vm_compute; reflexivity|lia|unfold second; simpl; lia|reflexivity].
Defined.
