(* ===== verification/Ctx.v ===== *)
(** * Job contexts: foundation/scheduler/ctx.go

    The result of a host call and the variables a module stores for one are
    set once and used once.  [FFISize] is the 32-bit number a module gets. *)

From S2P Require Import Prelude.

(** [int32(z)] *)
Definition int32 (z : Z) : Z := ((z + 2 ^ 31) mod 2 ^ 32 - 2 ^ 31)%Z.

Definition in_int32 (z : Z) : Prop := (- 2 ^ 31 ≤ z < 2 ^ 31)%Z.

Lemma int32_id z : in_int32 z → int32 z = z.
Proof. unfold in_int32, int32. intros. rewrite Z.mod_small by lia. lia. Qed.

Lemma int32_range z : in_int32 (int32 z).
Proof. unfold in_int32, int32. pose proof (Z.mod_pos_bound (z + 2 ^ 31) (2 ^ 32)). lia. Qed.

Section Ctx.
Context (errText : error → string).

Record FFIResult : Type := mkFFI { ffi_Result : string; ffi_Err : option error }.

Record Ctx : Type := mkCtx {
  ffiResult : option FFIResult;
  ffiVars : option (list (string * string))
}.

Definition newCtx : Ctx := mkCtx None (Some []).

Definition SetFFIResult (c : Ctx) (res : string) (err : option error) : result (FFIResult * Ctx) :=
  match ffiResult c with
  | Some _ => Err (ErrNew "context's ffiResult is already set")
  | None => let r := mkFFI res err in Ok (r, mkCtx (Some r) (ffiVars c))
  end.

Definition UseFFIResult (c : Ctx) : result (FFIResult * Ctx) :=
  match ffiResult c with
  | None => Err (ErrNew "context's ffiResult is not set")
  | Some r => Ok (r, mkCtx None (ffiVars c))
  end.

Definition HasFFIResult (c : Ctx) : bool := match ffiResult c with Some _ => true | None => false end.

Definition AddVar (c : Ctx) (name val : string) : Ctx :=
  mkCtx (ffiResult c)
    (match ffiVars c with None => Some [(name, val)] | Some vs => Some (vs ++ [(name, val)]) end).

Definition UseVars (c : Ctx) : result (list (string * string) * Ctx) :=
  match ffiVars c with
  | None => Err (ErrNew "context's ffiVars is not set")
  | Some vs => Ok (vs, mkCtx (ffiResult c) None)
  end.

Definition FFISize (r : FFIResult) : Z :=
  match ffi_Err r with
  | Some e => int32 (Z.of_nat (String.length (errText e)) * -1)
  | None => int32 (Z.of_nat (String.length (ffi_Result r)))
  end.

(** A result is set when none is there, and used once. *)
Theorem ffi_result_used_once c res err r c1 :
  SetFFIResult c res err = Ok (r, c1) →
  HasFFIResult c = false ∧ HasFFIResult c1 = true ∧
  (∀ res' err', ∃ e, SetFFIResult c1 res' err' = Err e) ∧
  ∃ c2, UseFFIResult c1 = Ok (mkFFI res err, c2) ∧ (∃ e, UseFFIResult c2 = Err e) ∧ ffiVars c2 = ffiVars c.
Proof.
  unfold SetFFIResult, HasFFIResult. destruct (ffiResult c) eqn:E; [done|]. intros [= <- <-]. simpl.
  split_and!; eauto 6.
Qed.

(** The variables come back in the order in which they were added. *)
Theorem vars_in_order c vs :
  UseVars (foldl (λ c '(n, v), AddVar c n v) c vs) =
    match ffiVars c, vs with
    | None, [] => Err (ErrNew "context's ffiVars is not set")
    | old, _ => Ok (default [] old ++ vs, mkCtx (ffiResult c) None)
    end.
Proof.
  revert c. induction vs as [|[n v] vs IH]; intros c; simpl.
  - unfold UseVars. destruct (ffiVars c); simpl; [by rewrite app_nil_r|done].
  - rewrite IH. simpl. destruct (ffiVars c) as [old|]; simpl; [by rewrite <- app_assoc|done].
Qed.

(** The size is the length of the result, negative for an error, when it fits. *)
Theorem FFISize_sign r :
  (Z.of_nat (String.length (match ffi_Err r with Some e => errText e | None => ffi_Result r end)) < 2 ^ 31)%Z →
  (match ffi_Err r with
   | Some e => FFISize r = - Z.of_nat (String.length (errText e)) ∧ (FFISize r < 0 ↔ errText e ≠ "")
   | None => FFISize r = Z.of_nat (String.length (ffi_Result r)) ∧ 0 ≤ FFISize r
   end)%Z.
Proof.
  unfold FFISize. destruct (ffi_Err r) as [e|]; intros Hl; rewrite int32_id by (unfold in_int32; lia).
  - split; [lia|]. destruct (errText e) as [|a s]; simpl; split; try done; lia.
  - lia.
Qed.

(** An error with an empty text and an empty result have one size; a result of
    2^31 bytes has the size of an error. *)
Lemma FFISize_ambiguous e : errText e = "" → FFISize (mkFFI "" (Some e)) = FFISize (mkFFI "" None).
Proof. unfold FFISize; simpl. by intros ->. Qed.

Lemma FFISize_wraps s :
  Z.of_nat (String.length s) = (2 ^ 31)%Z → FFISize (mkFFI s None) = (- 2 ^ 31)%Z.
Proof. unfold FFISize; simpl. by intros ->. Qed.

End Ctx.
