(* ===== verification/Listen.v ===== *)
(** * Jobs from messages: foundation/scheduler/scheduler.go (Listen, ListenAndRun)

    How the answer of a job becomes a reply message. *)

From S2P Require Import Prelude.
From S2P Require Import Message.
From S2P Require Import PodConn.
From S2P Require Import Pod.
From S2P Require Import Jobs.

Definition MsgTypeReactrJobErr : string := "reactr.joberr".
Definition MsgTypeReactrRunErr : string := "reactr.runerr".
Definition MsgTypeReactrResult : string := "reactr.result".
Definition MsgTypeReactrNilResult : string := "reactr.nil".

(** [errors.As(err, runErr)]: the first RunErr of the chain. *)
Fixpoint as_RunErr (e : error) : option (Z * string) :=
  match e with
  | ErrRun c m => Some (c, m)
  | ErrWrap e _ => as_RunErr e
  | _ => None
  end.

Section Listen.
(** [runErrJSON] is the JSON text of a RunErr, [errText] is [err.Error()],
    [jsonMarshal] is [json.Marshal]; the fresh UUID and the time are those of the
    reply. *)
Context (runErrJSON : Z * string → string) (jsonMarshal : value → result string) (errText : error → string) (fresh : string) (now : Z).

(** The reply message that the callback of [Listen] builds. *)
Definition replyMsg (msg : Message) (r : value + error) : Message :=
  match r with
  | inr err =>
      match as_RunErr err with
      | Some re => NewMsgWithParentID fresh now MsgTypeReactrRunErr (ParentID msg) (runErrJSON re)
      | None => NewMsgWithParentID fresh now MsgTypeReactrJobErr (ParentID msg) (errText err)
      end
  | inl VNil => NewMsgWithParentID fresh now MsgTypeReactrNilResult (ParentID msg) ""
  | inl (VMsg resultMsg) => SetReplyTo resultMsg (UUID msg)
  | inl (VBytes b) => NewMsgWithParentID fresh now MsgTypeReactrResult (ParentID msg) b
  | inl (VString s) => NewMsgWithParentID fresh now MsgTypeReactrResult (ParentID msg) s
  | inl v =>
      match jsonMarshal v with
      | Ok json => NewMsgWithParentID fresh now MsgTypeReactrResult (ParentID msg) json
      | Err e => NewMsgWithParentID fresh now MsgTypeReactrJobErr (ParentID msg)
                   (errText (ErrWrap e "failed to Marshal job result"))
      end
  end.

(** The whole callback: the reply is sent with [ReplyTo]. *)
Definition listen_reply (p : Pod) (chan : list Message) (msg : Message) (r : value + error) :
    option (option MsgReceipt * Pod * list Message) :=
  PodReplyTo p chan msg (replyMsg msg r).

(** Every job is answered: the reply names the message it answers, and unless it
    is the job's own message, its parent and one of the four reply types. *)
Lemma replyMsg_fresh msg r :
  (∃ m, r = inl (VMsg m)) ∨
  ParentID (replyMsg msg r) = ParentID msg ∧ UUID (replyMsg msg r) = fresh ∧
  Type_ (replyMsg msg r) ∈
    [MsgTypeReactrJobErr; MsgTypeReactrRunErr; MsgTypeReactrResult; MsgTypeReactrNilResult].
Proof.
  unfold replyMsg. destruct r as [v|e]; [|right; destruct (as_RunErr e); by set_solver].
  destruct v; [| | |..]; try (left; by eexists); right; try destruct (jsonMarshal _); by set_solver.
Qed.

(** The callback of Listen sends one reply that answers the message, carries the
    result or error of the job under the matching type and the parent of the
    message, and that the pod itself ignores. *)
Theorem listen_replies p chan msg r t p' chan' :
  listen_reply p chan msg r = Some (Some t, p', chan') →
  ∃ reply, chan' = chan ++ [reply] ∧ ReplyTo reply = UUID msg ∧ receipt_UUID t = UUID reply ∧
    Data reply = Data (replyMsg msg r) ∧ Type_ reply = Type_ (replyMsg msg r) ∧
    handleMsg p' reply = Ignored ∧
    ((∃ m, r = inl (VMsg m)) ∨
     ParentID reply = ParentID msg ∧
     (Type_ reply = MsgTypeReactrRunErr ↔ ∃ e re, r = inr e ∧ as_RunErr e = Some re) ∧
     (Type_ reply = MsgTypeReactrNilResult ↔ r = inl VNil)).
Proof.
  unfold listen_reply, PodReplyTo. intros Hs. exists (SetReplyTo (replyMsg msg r) (UUID msg)).
  unfold Send in Hs. destruct (dead p); [done|]. case_decide; [|done]. injection Hs as <- <- <-.
  split_and!; try done.
  - unfold handleMsg; simpl. destruct (onFunc p); [|done]. rewrite allow_FilterUUID_false.
    by rewrite bool_decide_eq_false_2 by (intros Hn; by apply Hn).
  - destruct r as [v|e].
    + destruct v; try (left; by eexists); right; (split; [|split]);
        unfold replyMsg; try destruct (jsonMarshal _); try done; (split; [try done|naive_solver]).
    + right. unfold replyMsg. destruct (as_RunErr e) eqn:Ee; (split; [done|split]);
        (split; [try done|naive_solver]); eauto.
Qed.

(** ** ListenAndRun *)

(** The job that a message becomes; [jobID] is the fresh UUID of the job. *)
Definition listen_job (jobID msgType : string) (msg : Message) : Job := NewJob jobID msgType (VBytes (Data msg)).

(** [ListenAndRun]: the function of the pod runs the job, calls [run] with its
    result, and returns nil; what [run] does is [listen_reply] for [Listen]. *)
Definition ListenAndRun (p : Pod) (msgType : string) : option Pod :=
  OnType p msgType (Some (OwnerFunc (λ _, None))).

(** After ListenAndRun the pod calls its function for the messages of the type and
    ignores the others. *)
Lemma ListenAndRun_handles p msgType p1 msg :
  ListenAndRun p msgType = Some p1 →
  handleMsg p1 msg = if decide (Type_ msg = msgType) then Reported podFeedbackMsgSuccess else Ignored.
Proof.
  unfold ListenAndRun, OnType. intros H. destruct (setOnFunc p _) as [p2|] eqn:E; [|done]. simpl in H.
  injection H as <-. destruct (setOnFunc_spec _ _ _ E) as (Hf & Hm & _). unfold handleMsg; simpl.
  rewrite Hf, Hm, allow_verdict; simpl. rewrite verdict_insert. unfold verdict. rewrite !lookup_empty.
  destruct (decide (msgType = Type_ msg)), (decide (Type_ msg = msgType)); simpl; congruence.
Qed.

(** C19: A message of a type to which a scheduler listens calls the function of
    its pod, which runs a job with the data of the message; the reply says by its
    type whether the job returned data, nothing, a RunErr or another error, and
    carries that data or error: a nil result is answered too, with a message of
    type reactr.nil, against the comment at scheduler.go:81 that nothing is sent
    then (a finding); a pod that waits for a reply to the message takes it, the
    pod of the scheduler ignores it, and messages that reply to something else
    keep the first pod waiting. *)
Theorem question_answered asker chan q t asker1 chan1 waiting listener p1 msgType :
  Send asker chan q = Some (Some t, asker1, chan1) →
  setOnFunc asker1 (Some (WaitFunc (replyFilter t))) = Some waiting →
  ListenAndRun listener msgType = Some p1 → Type_ q = msgType →
  chan1 = chan ++ [q] ∧ handleMsg p1 q = Reported podFeedbackMsgSuccess ∧
  Job_Bytes (listen_job fresh msgType q) = Some (Data q) ∧
  ∀ r bus t1 p2 bus1, listen_reply p1 bus q r = Some (Some t1, p2, bus1) →
    ∃ reply, bus1 = bus ++ [reply] ∧ handleMsg p2 reply = Ignored ∧ handleMsg waiting reply = Sending None ∧
      match r with
      | inl VNil => Type_ reply = MsgTypeReactrNilResult ∧ Data reply = ""
      | inl (VBytes s) | inl (VString s) => Type_ reply = MsgTypeReactrResult ∧ Data reply = s
      | inl (VMsg m) => Type_ reply = Type_ m ∧ Data reply = Data m
      | inl v => match jsonMarshal v with
                 | Ok s => Type_ reply = MsgTypeReactrResult ∧ Data reply = s
                 | Err _ => Type_ reply = MsgTypeReactrJobErr
                 end
      | inr e => match as_RunErr e with
                 | Some re => Type_ reply = MsgTypeReactrRunErr ∧ Data reply = runErrJSON re
                 | None => Type_ reply = MsgTypeReactrJobErr ∧ Data reply = errText e
                 end
      end ∧
      ∀ other, ReplyTo other ≠ UUID q → handleMsg waiting other = Reported podFeedbackMsgSuccess.
Proof.
  intros Hs Hw Hl Ht. destruct (setOnFunc_spec _ _ _ Hw) as (Hf & Hm & _).
  assert (receipt_UUID t = UUID q ∧ chan1 = chan ++ [q]) as [Hu Hc].
  { unfold Send in Hs. destruct (dead asker); [done|]. case_decide; [|done]. by injection Hs as <- <- <-. }
  split; [done|]. split; [by rewrite (ListenAndRun_handles _ _ _ _ Hl), decide_True|]. split; [done|].
  intros r bus t1 p2 bus1 Hr. unfold listen_reply, PodReplyTo in Hr.
  exists (SetReplyTo (replyMsg q r) (UUID q)). unfold Send in Hr.
  destruct (dead p1); [done|]. case_decide; [|done]. injection Hr as <- <- <-. split_and!; try done.
  - unfold handleMsg; simpl. destruct (onFunc p1); [|done]. rewrite allow_FilterUUID_false.
    by rewrite bool_decide_eq_false_2 by (intros Hn; by apply Hn).
  - unfold handleMsg. rewrite Hf, Hm, allow_new. unfold replyFilter. rewrite Hu.
    case_decide as Hne; [by destruct Hne|done].
  - unfold replyMsg. destruct r as [[| | | | | | | |]|e]; try done; first [by destruct (jsonMarshal _)|by destruct (as_RunErr e)].
  - intros other Ho. unfold handleMsg. rewrite Hf, Hm, allow_new. unfold replyFilter. rewrite Hu.
    case_decide; [by rewrite decide_True|tauto].
Qed.

End Listen.

(** ** Examples *)

Lemma question_answered_witness :
  ∃ t asker1 waiting p1, Send (newPod false) [] example_question = Some (Some t, asker1, [example_question]) ∧
    ListenAndRun (newPod false) (Type_ example_question) = Some p1 ∧
    ∃ t1 p2 bus1 reply, listen_reply (λ _, "") (λ _, Ok "") (λ _, "") "r" 0 p1 [] example_question (inl (VString "yes"))
        = Some (Some t1, p2, bus1) ∧
      bus1 = [reply] ∧ Data reply = "yes" ∧ handleMsg waiting reply = Sending None.
Proof.
  eexists _, _, _, _. split; [reflexivity|]. split; [reflexivity|]. eexists _, _, _.
  edestruct (question_answered (λ _, "") (λ _, Ok "") (λ _, "") "r" 0 (newPod false) [] example_question _ _ _ _
    (newPod false) _ (Type_ example_question) eq_refl eq_refl eq_refl eq_refl) as (_ & _ & _ & Ha).
  edestruct (Ha (inl (VString "yes")) []) as (reply & Hb & _ & Hw & [_ Hd] & _); [reflexivity|].
  exists reply. split; [reflexivity|]. split; [exact Hb|]. split; [exact Hd|exact Hw].
Defined.


Lemma listen_replies_witness :
  ∃ t p' chan', listen_reply (λ _, "") (λ _, Ok "") (λ _, "") "r" 0 (newPod false) []
                  example_question (inl (VString "yes")) = Some (Some t, p', chan') ∧
    ∃ reply, chan' = [reply] ∧ ReplyTo reply = "q" ∧ Data reply = "yes" ∧ handleMsg p' reply = Ignored.
Proof.
  eexists _, _, _. split; [reflexivity|].
  destruct (listen_replies (λ _, "") (λ _, Ok "") (λ _, "") "r" 0 (newPod false) [] example_question
    (inl (VString "yes")) _ _ _ eq_refl) as (reply & Hc & Hr & _ & Hd & _ & Hh & _).
  by exists reply.
Defined.
