(* ===== verification/Scheduler.v ===== *)
(** * The scheduler as its clients see it: foundation/scheduler/scheduler.go

    The methods of [Scheduler] hand over to the core; [Register] also returns a
    function that runs a job of the registered type.  A job that was given to the
    scheduler is answered by what its runnable returns. *)

From S2P Require Import Prelude.
From S2P Require Import Jobs.
From S2P Require Import Worker.
From S2P Require Import Threads.
From S2P Require Import Core.
From S2P Require Schedule.

(** The core with its watcher of schedules. *)
Record Scheduler : Type := mkScheduler { s_core : core; s_watcher : Schedule.watcher }.

Definition New : Scheduler := mkScheduler newCore (Schedule.mkWatcher ∅).

Definition set_core (r : Scheduler) (c : core) : Scheduler := mkScheduler c (s_watcher r).

(** [Do] with a fresh result at [p]; also [Ctx.Do], whose function is the core's. *)
Definition Do (r : Scheduler) (p : nat) (job : Job) : option Scheduler :=
  c ← core_do (s_core r) p (job_uuid job) (job_type job); Some (set_core r c).

Definition Schedule_ (r : Scheduler) (fresh : string) (s : Schedule.Schedule) : Scheduler :=
  mkScheduler (s_core r) (Schedule.watch (s_watcher r) fresh s).

(** The function that [Register] returns; [fresh] is the UUID of the new job. *)
Definition JobFunc : Type := Scheduler → nat → string → value → option Scheduler.

Definition Register (r : Scheduler) (jobType : string) (options : list (workerOpts → workerOpts)) :
    Scheduler * JobFunc :=
  let c := s_core r in
  (set_core r (register c jobType options),
   λ r p fresh data, Do r p (NewJob fresh jobType data)).

(** [DeRegister]: [None] when the loop that stops the worker needs more fuel. *)
Definition DeRegister {W} (OnChange : ChangeEvent → W → option error * W) (fuel : nat) (r : Scheduler)
    (jobType : string) (w : W) : option (outcome (option error * Scheduler * W)) :=
  match removeWorker OnChange fuel (core_scaler (s_core r)) jobType w with
  | None => None
  | Some (Panic q) => Some (Panic q)
  | Some (Val (err, sc, w1)) =>
      Some (Val ((λ e, ErrWrap e "failed to removeWorker") <$> err,
                 set_core r (put_scaler (deRegister (s_core r) jobType) sc), w1))
  end.

Definition IsRegistered (r : Scheduler) (jobType : string) : bool := hasWorker (core_scaler (s_core r)) jobType.

(** ** Answers *)

(** From the core, [Then] of the result at [p] can answer [o]. *)
Definition answered (c : core) (p : nat) (o : value + option error) : Prop :=
  ∃ c1 h, rtc (λ x y, ∃ l, core_step x l y) c c1 ∧ Then (core_heap c1) p o h.

Abbreviation core_steps := (rtc (λ x y, ∃ l, core_step x l y)).

(** A worker without threads and jobs starts a thread for the job that was given to
    it, and the thread takes the job. *)
Lemma scheduled_taken c p w fin :
  jobs c !! p = Some (Scheduling w) → core_pools c !! w = Some (mkThreads [] ∅ fin) →
  ∃ c2, core_steps c c2 ∧ core_heap c2 = core_heap c ∧
    core_pools c2 !! w = Some (mkThreads [] {[0 := mkThread (Running p) false]} fin).
Proof.
  intros Hj Hw. pose proof (lookup_lt_Some _ _ _ Hw) as Hl.
  set (t ph := ({[0 := mkThread ph false]} : gmap nat thread)).
  set (c1 := put_pool c w (mkThreads [] (t Checking) fin)).
  set (c2 := put_pool c1 w (mkThreads [] (t Waiting) fin)).
  set (c3 := put_pool (put_jobs c2 (<[p := InQueue w]> (jobs c2))) w (mkThreads [p] (t Waiting) fin)).
  set (c4 := put_pool (put_jobs c3 (<[p := OnThread w 0]> (jobs c3))) w (mkThreads [] (t (Running p)) fin)).
  assert (∀ x ph, <[0 := x]> (t ph) = {[0 := x]}) as Ht by (intros; apply (insert_singleton_eq (M := gmap nat))).
  exists c4. split; [|split; [done|simpl; by rewrite list_lookup_insert_eq by (rewrite !length_insert; lia)]].
  eapply rtc_l; [|eapply rtc_l; [|eapply rtc_l; [|eapply rtc_l; [|apply rtc_refl]]]].
  - exists []. by eapply (CoreThreads c w _ _ Hw), (StepSpawn _ 0).
  - exists []. apply CoreJob. eapply (JobThread c1 w); [simpl; by rewrite list_lookup_insert_eq|].
    pose proof (StepWait (mkThreads [] (t Checking) fin) 0) as Hst. simpl in Hst. rewrite Ht in Hst. by apply Hst.
  - exists []. apply CoreJob. eapply (JobQueue c2 p w); [done|simpl; by rewrite list_lookup_insert_eq by (rewrite length_insert; lia)|].
    apply (StepQueue (mkThreads [] (t Waiting) fin) p). simpl. unfold defaultChanSize. lia.
  - exists []. apply CoreJob. eapply (JobTake c3 p w 0); [simpl; by rewrite list_lookup_insert_eq by (rewrite !length_insert; lia)|].
    pose proof (StepTake (mkThreads [p] (t Waiting) fin) 0 false p []) as Hst. simpl in Hst. rewrite Ht in Hst. by apply Hst.
Qed.

(** It gets the answer that its runnable gives. *)
Lemma scheduled_answered c p w fin uuid :
  jobs c !! p = Some (Scheduling w) → core_pools c !! w = Some (mkThreads [] ∅ fin) →
  results (core_heap c) !! p = Some (newResult uuid) →
  (∀ v, plain v → answered c p (inl v)) ∧ ∀ e, answered c p (inr (Some e)).
Proof.
  intros Hj Hw Hr. destruct (scheduled_taken c p w fin Hj Hw) as (c2 & Hrun & Hh & Hw2).
  assert (∀ o h h2 a, report (core_heap c) p o = Some h → Then h p a h2 → answered c p a) as Hans.
  { intros o h h2 a Ho Ht. rewrite <- Hh in Ho. eexists (put_pool (put_jobs (put_heap c2 h) _) _ _), h2. split; [|exact Ht]. eapply rtc_r; [exact Hrun|].
    exists []. apply CoreJob. eapply (JobFinish c2 p w 0); [done| |done].
    apply (StepFinish (mkThreads [] {[0 := mkThread (Running p) false]} fin) 0 false p). apply lookup_singleton_eq. }
  split.
  - intros v Hv. eapply (Hans (inl v)).
    + simpl. unfold sendResult. by destruct v; try done; rewrite Hr.
    + eapply (ThenData _ p (mkResult uuid v None 1 0)); [|done]. simpl. by rewrite lookup_insert_eq.
  - intros e. eapply (Hans (inr e)).
    + simpl. unfold sendErr. by rewrite Hr.
    + eapply (ThenErr _ p (mkResult uuid VNil (Some e) 0 1)); [|done]. simpl. by rewrite lookup_insert_eq.
Qed.

(** The function that [Register] returns runs a job of its type: the job waits for
    the new worker, and when that has started a thread its result can be answered
    with every value and every error that the runnable may return.  Without a
    worker the answer is an error at once. *)
Theorem registered_job_answered r p fresh jobType options data :
  results (core_heap (s_core r)) !! p = None →
  let '(r1, jobFunc) := Register r jobType options in
  IsRegistered r1 jobType = true ∧
  (∃ r2, jobFunc r1 p fresh data = Some r2 ∧
     jobs (s_core r2) !! p = Some (Scheduling (length (core_pools (s_core r)))) ∧
     (∀ v, plain v → answered (s_core r2) p (inl v)) ∧ ∀ e, answered (s_core r2) p (inr (Some e))) ∧
  (IsRegistered r jobType = false →
     ∃ r2 h, Do r p (NewJob fresh jobType data) = Some r2 ∧ jobs (s_core r2) = jobs (s_core r) ∧
       Then (core_heap (s_core r2)) p (inr (Some (no_worker jobType))) h).
Proof.
  intros Hp. unfold Register, IsRegistered, hasWorker; simpl.
  assert (∃ wk, findWorker (core_register (core_scaler (s_core r)) jobType options) jobType = Some wk) as [wk Hfind].
  { unfold core_register, findWorker; simpl. rewrite lookup_insert_eq. by eexists. }
  rewrite Hfind. split; [done|]. split.
  - unfold Do, core_do; simpl. rewrite Hfind. simpl. rewrite lookup_insert_eq. simpl. eexists. split; [done|].
    simpl. rewrite lookup_insert_eq. split; [done|].
    apply (scheduled_answered _ p (length (core_pools (s_core r))) [] fresh); simpl; rewrite ?lookup_insert_eq; try done.
    by rewrite lookup_app_r, Nat.sub_diag by lia.
  - destruct (findWorker (core_scaler (s_core r)) jobType) eqn:E; [done|]. intros _.
    unfold Do, core_do; simpl. rewrite E. unfold sendErr at 1. simpl. rewrite lookup_insert_eq. simpl.
    eexists _, _. split; [done|]. split; [done|]. simpl.
    eapply (ThenErr _ p (mkResult fresh VNil (Some _) 0 1)); [|done]. simpl. by rewrite lookup_insert_eq.
Qed.
