(* ===== verification/MeshNode.v ===== *)
(** * One message on the bus of a node: messagebus.go, podconnection.go and pod.go
    together

    A node has a bus with a pod on each of its connections.  [publish] follows a
    message that one of the pods sends: through the bus goroutine to every
    connection, from there to the pods, and back as feedback. *)

From S2P Require Import Prelude.
From S2P Require Import Message.
From S2P Require MsgBuffer.
From S2P Require Import PodConn.
From S2P Require Import Pool.
From S2P Require Import MessageBus.
From S2P Require Import Pod.

(** The bus of a node and the pods, by the IDs of their connections. *)
Record node : Type := mkNode { nd_bus : messageBus; nd_pods : list (Z * Pod) }.

Definition pod_at {A} (l : list (Z * A)) (i : Z) : option A := (list_to_map l : gmap Z A) !! i.

Definition set_pod (i : Z) (p : Pod) (l : list (Z * Pod)) : list (Z * Pod) :=
  (λ x, if decide (x.1 = i) then (i, p) else x) <$> l.

(** The goroutine of [send] runs and the pod receives from the message channel. *)
Definition receive (c : connState) : option (Message * connState) :=
  match run_send c 0 with
  | Some (Val c1) =>
      match messageChan c1 with
      | Some m :: ms => Some (m, mkState (sending c1) ms (closed c1) (feedbackChan c1) (failed c1) (connected c1))
      | _ => None
      end
  | _ => None
  end.

(** The pod handles the message and reports to the feedback channel. *)
Definition pod_turn (p : Pod) (c : connState) : option (handling * connState) :=
  '(m, c1) ← receive c;
  let h := handleMsg p m in
  match h with
  | Ignored => Some (h, c1)
  | Reported f =>
      if decide (length (feedbackChan c1) < defaultPodChanSize) then
        Some (h, mkState (sending c1) (messageChan c1) (closed c1) (feedbackChan c1 ++ [f]) (failed c1) (connected c1))
      else None
  | Sending _ => None
  end.

Fixpoint pods_turn (pods : list (Z * Pod)) (p : connectionPool) : option (list (Z * handling) * connectionPool) :=
  match pods with
  | [] => Some ([], p)
  | (i, pod) :: pods =>
      match deref (conns p) (Some i) with
      | Panic _ => None
      | Val x =>
          '(h, c) ← pod_turn pod (state x);
          match on_conn p (Some i) (λ _, c) with
          | Panic _ => None
          | Val p1 => '(hs, p2) ← pods_turn pods p1; Some ((i, h) :: hs, p2)
          end
      end
  end.

(** The pod on connection [i] sends the message, the bus goroutine takes its next
    message, and the pods handle it.  [None]: something blocks or panics. *)
Definition publish (fuel : nat) (n : node) (i : Z) (msg : Message) : option (list (Z * handling) * node) :=
  pod ← pod_at (nd_pods n) i;
  '(t, pod1, chan) ← Send pod (busChan (nd_bus n)) msg;
  match t, chan with
  | Some _, m :: ms =>
      match handle fuel (mkBus ms (pool (nd_bus n)) (buffer (nd_bus n))) m with
      | Some (Val b) =>
          let pods := set_pod i pod1 (nd_pods n) in
          '(hs, p) ← pods_turn pods (pool b);
          Some (hs, mkNode (mkBus (busChan b) p (buffer b)) pods)
      | _ => None
      end
  | _, _ => None
  end.

(** ** A node between two messages *)

(** A connection with nothing under way; the pod may have reported a success. *)
Record quiet (c : connState) : Prop := {
  q_sending : sending c = [];
  q_chan : messageChan c = [];
  q_open : closed c = false;
  q_failed : failed c = [];
  q_connected : connected c = true;
  q_feedback : feedbackChan c = [] ∨ feedbackChan c = [podFeedbackMsgSuccess]
}.

(** A pod that never reports a failure. *)
Definition pod_ok (p : Pod) : Prop :=
  dead p = false ∧ ∀ m, handleMsg p m = Ignored ∨ handleMsg p m = Reported podFeedbackMsgSuccess.

(** [bm]: the messages in the replay buffer. *)
Record node_ok (n : node) (bm : list Message) : Prop := {
  no_ring : ∃ q, ring (pool (nd_bus n)) q ∧ Forall (λ x, quiet x.2) q ∧ q.*1 ≡ₚ (nd_pods n).*1;
  no_pods : Forall (λ x, pod_ok x.2) (nd_pods n);
  no_buffer : MsgBuffer.buffered (buffer (nd_bus n)) bm;
  no_chan : busChan (nd_bus n) = []
}.

(** The state of a quiet connection that was handed a message. *)
Definition handed (msg : Message) : connState := send newConnState (Some msg).

Lemma quiet_new : quiet newConnState.
Proof. split; simpl; auto. Qed.

Lemma quiet_keeps c : quiet c → keeps c = true ∧ closed c = false.
Proof.
  intros [Hs Hm Hc Hf Hco Hfb]. split; [|done]. unfold keeps. rewrite Hf.
  by destruct Hfb as [-> | ->].
Qed.

Lemma quiet_prepared ms c : quiet c → prepared ms c = newConnState.
Proof.
  destruct c as [sd mc cl fb fl co]. intros [Hs Hm Hc Hf Hco Hfb]. simpl in *. subst.
  destruct Hfb as [-> | ->]; reflexivity.
Qed.

(** On a ring of healthy connections the turn of the bus drops none. *)
Lemma walk_kept ms msg todo :
  Forall (λ x, keeps x.2 = true) todo → walk ms msg false todo = ((λ x, deliver msg (prepare ms x)) <$> todo, true).
Proof. induction 1 as [|x todo Hx _ IH]; simpl; [done|]. by rewrite Hx, IH. Qed.

Lemma pod_turn_handed p msg :
  pod_ok p → ∃ c, pod_turn p (handed msg) = Some (handleMsg p msg, c) ∧ quiet c.
Proof.
  intros [_ Hp]. unfold pod_turn. change (receive (handed msg)) with (Some (msg, newConnState)). cbn [mbind option_bind].
  destruct (Hp msg) as [-> | ->]; eexists; (split; [reflexivity|]); split; simpl; auto.
Qed.

Lemma pods_turn_ok msg pods p q :
  ring p q → NoDup pods.*1 → Forall (λ x, pod_ok x.2) pods →
  (∀ i, i ∈ pods.*1 → (i, handed msg) ∈ q) →
  ∃ p' q', pods_turn pods p = Some ((λ x, (x.1, handleMsg x.2 msg)) <$> pods, p') ∧ ring p' q' ∧ q'.*1 = q.*1 ∧
    ∀ x, x ∈ q' → (x.1 ∈ pods.*1 → quiet x.2) ∧ (x.1 ∉ pods.*1 → x ∈ q).
Proof.
  intros Hr Hnd Hok. revert p q Hr Hnd. induction Hok as [|[i pod] pods Hp _ IH]; intros p q Hr Hnd Hin; simpl.
  { eexists p, q. split; [done|]. split; [done|]. split; [done|]. set_solver. }
  simpl in Hnd. apply NoDup_cons in Hnd as [Hni Hnd].
  destruct (list_elem_of_split q (i, handed msg)) as (q1 & q2 & ->); [apply Hin; set_solver|].
  destruct (pod_turn_handed pod msg Hp) as (c & Ec & Hc).
  destruct (on_conn_ring_at p q1 _ q2 (λ _, c) Hr) as (n & p1 & Ex & E1 & Hr1). simpl in Ex, E1, Hr1.
  rewrite Ex. simpl state. rewrite Ec. simpl. rewrite E1.
  assert (NoDup (q1 ++ (i, handed msg) :: q2).*1) as Hq by apply Hr.
  rewrite fmap_app in Hq. simpl in Hq.
  destruct (IH p1 _ Hr1 Hnd) as (p' & q' & -> & Hr' & Hids & Hst).
  { intros j Hj. assert (j ≠ i) by (by intros ->). specialize (Hin j).
    apply elem_of_app. rewrite elem_of_cons. assert ((j, handed msg) ∈ q1 ++ (i, handed msg) :: q2) as Hjq by (apply Hin; set_solver).
    apply elem_of_app in Hjq. rewrite elem_of_cons in Hjq. naive_solver. }
  simpl. eexists p', q'. split; [done|]. split; [done|]. split; [by rewrite Hids, !fmap_app|].
  intros x Hx. destruct (Hst x Hx) as [Hquiet Hold]. rewrite elem_of_cons. split.
  - intros [Hxi|]; [|by apply Hquiet]. destruct (decide (x.1 ∈ pods.*1)) as [|Hn]; [by apply Hquiet|].
    specialize (Hold Hn). rewrite elem_of_app, elem_of_cons in Hold.
    destruct Hold as [Ho|[->|Ho]]; [|done|]; exfalso; apply (list_elem_of_fmap_2 fst) in Ho; simpl in Hxi;
      rewrite Hxi in Ho; apply NoDup_app in Hq as (_ & Hq1 & Hq2).
    + apply (Hq1 i Ho). set_solver.
    + by apply NoDup_cons in Hq2 as [? _].
  - intros Hn. specialize (Hold ltac:(tauto)). rewrite elem_of_app, elem_of_cons in *.
    destruct Hold as [|[->|]]; [by left|by destruct Hn; left|by right; right].
Qed.

(** ** A message is handled by every pod *)

Lemma pod_at_elem {A} (l : list (Z * A)) i x : NoDup l.*1 → pod_at l i = Some x ↔ (i, x) ∈ l.
Proof. intros Hnd. unfold pod_at. symmetry. by apply elem_of_list_to_map. Qed.

Lemma pod_at_fmap {A A'} (g : Z → A → A') (l : list (Z * A)) i :
  pod_at ((λ x, (x.1, g x.1 x.2)) <$> l) i = g i <$> pod_at l i.
Proof.
  unfold pod_at. induction l as [|[k x] l IH]; simpl; [by rewrite !lookup_empty|].
  rewrite !lookup_insert. case_decide; [by subst|done].
Qed.

Lemma set_pod_ids i p l : (set_pod i p l).*1 = l.*1.
Proof.
  unfold set_pod. rewrite <- list_fmap_compose. apply list_fmap_ext. intros _ [j x] _. simpl. by case_decide.
Qed.

Lemma set_pod_at i p l j : pod_at (set_pod i p l) j = if decide (j = i) then (λ _, p) <$> pod_at l i else pod_at l j.
Proof.
  unfold pod_at. induction l as [|[k x] l IH]; simpl.
  { rewrite !lookup_empty. by case_decide. }
  destruct (decide (k = i)) as [->|Hk]; simpl.
  - rewrite !lookup_insert, IH. repeat case_decide; by simplify_eq.
  - rewrite !lookup_insert, IH. repeat case_decide; by simplify_eq.
Qed.

(** What a pod that has sent a message makes of messages. *)
Lemma Send_alive p msg :
  dead p = false →
  ∃ t p1, Send p [] msg = Some (Some t, p1, [msg]) ∧ dead p1 = false ∧ onFunc p1 = onFunc p ∧
    ∀ m, handleMsg p1 m = if decide (UUID m = UUID msg) then Ignored else handleMsg p m.
Proof.
  intros Hd. assert (∃ t p1, Send p [] msg = Some (Some t, p1, [msg]) ∧ dead p1 = false ∧ onFunc p1 = onFunc p)
    as (t & p1 & E & Hd1 & Hf1).
  { unfold Send. rewrite Hd. rewrite decide_True by (unfold defaultBusChanSize; simpl; lia). by eexists _, _. }
  exists t, p1. split_and!; [done..|]. intros m. destruct (pod_no_bounce _ _ _ _ _ _ E) as (_ & _ & Hi & Hn).
  case_decide; auto.
Qed.

Lemma handle_chan fuel b msg b' : handle fuel b msg = Some (Val b') → busChan b' = busChan b.
Proof.
  unfold handle. destruct (loop _ _ _) as [[p1|]|]; [|done..]. destruct (pool_next p1) as [[c p2]|]; [|done].
  destruct (traverse _ _ _ _ _) as [[p3|]|]; [|done..]. run. destruct (MsgBuffer.Push _ _); run; [|done].
  by intros [= <-].
Qed.

(** A message that a pod sends on a node between two messages goes around the
    bus in one turn of the bus goroutine; every pod of the node but the sender
    handles it exactly once, as it would handle it at any time, the sender ignores
    it and from then on ignores that UUID and no other; no pod is dropped, the
    message is in the replay buffer, and the node is ready for the next message. *)
Lemma publish_handled n bm fuel i pod msg :
  node_ok n bm → pod_at (nd_pods n) i = Some pod → UUID msg ∉ UUID <$> bm → length (nd_pods n) < fuel →
  ∃ n' pod', publish fuel n i msg =
      Some ((λ x, (x.1, if decide (x.1 = i) then Ignored else handleMsg x.2 msg)) <$> nd_pods n, n') ∧
    node_ok n' (MsgBuffer.queue_push (MsgBuffer.limit (buffer (nd_bus n))) bm msg) ∧
    nd_pods n' = set_pod i pod' (nd_pods n) ∧
    ∀ m, handleMsg pod' m = if decide (UUID m = UUID msg) then Ignored else handleMsg pod m.
Proof.
  intros [(q & Hr & Hq & Hids) Hp Hbuf Hchan] Hpod Hfresh Hfuel.
  assert (NoDup (nd_pods n).*1) as Hnd by (rewrite <- Hids; apply Hr).
  apply pod_at_elem in Hpod as Hin; [|done].
  assert (pod_ok pod) as [Hd Hpo] by (rewrite Forall_forall in Hp; apply (Hp _ Hin)).
  destruct (Send_alive pod msg Hd) as (t & pod1 & Es & Hd1 & _ & Hh1).
  assert (Forall (λ x, pod_ok x.2) (set_pod i pod1 (nd_pods n))) as Hset.
  { unfold set_pod. rewrite Forall_fmap. eapply Forall_impl; [exact Hp|]. intros [j y] [Hdy Hy]. simpl.
    case_decide; [|done]. split; [done|]. intros m. simpl. rewrite Hh1. case_decide; auto. }
  unfold publish. rewrite Hpod, Hchan. cbn [mbind option_bind]. rewrite Es. cbn [mbind option_bind].
  set (b0 := mkBus [] (pool (nd_bus n)) (buffer (nd_bus n))).
  assert (Forall (λ x, keeps x.2 = true) q) as Hk by (eapply Forall_impl; [exact Hq|]; intros x Hx; by apply quiet_keeps).
  pose proof (handle_spec b0 msg q Hr) as Hh.
  specialize (Hh ltac:(eapply Forall_impl; [exact Hq|]; intros x Hx; by apply quiet_keeps)
    (MsgBuffer.buffer_wf_cursor _ (proj1 Hbuf)) fuel).
  assert (length q = length (nd_pods n)) as Hlen.
  { pose proof (Permutation_length Hids) as Hl. by rewrite !length_fmap in Hl. }
  specialize (Hh ltac:(by rewrite Hlen)).
  destruct q as [|x q].
  { simpl in Hlen. destruct (nd_pods n); [|done]. by apply not_elem_of_nil in Hin. }
  apply Forall_cons in Hk as [Hkx Hk]. simpl in Hh. rewrite Hkx, walk_kept in Hh by done.
  destruct Hh as (b1 & Eh & Hr1 & Hpush & _). rewrite Eh. simpl in Hr1.
  destruct (MsgBuffer.push_buffered _ bm msg Hbuf Hfresh) as (buf & Hpush' & _ & Hb1).
  simpl in Hpush. rewrite Hpush' in Hpush. injection Hpush as ->.
  rewrite (MsgBuffer.buffered_contents _ _ Hbuf) in Hr1.
  assert (∀ y, quiet y.2 → deliver msg (prepare (Some <$> bm) y) = (y.1, handed msg)) as Hdel.
  { intros y Hy. unfold deliver, prepare. simpl. by rewrite quiet_prepared. }
  apply Forall_cons in Hq as [Hqx Hq].
  destruct (pods_turn_ok msg (set_pod i pod1 (nd_pods n)) (pool b1) _ Hr1) as (p' & q' & Et & Hr' & Hids' & Hst).
  { by rewrite set_pod_ids. }
  { exact Hset. }
  { intros j Hj. rewrite set_pod_ids, <- Hids in Hj. apply elem_of_app.
    apply list_elem_of_fmap in Hj as ([j' y] & -> & [->|Hj]%elem_of_cons).
    - right. rewrite Hdel by done. simpl. by left.
    - left. apply list_elem_of_fmap. exists (j', y). split; [|done]. rewrite Hdel; [done|].
      rewrite Forall_forall in Hq. by apply (Hq (j', y)). }
  rewrite Et. cbn [mbind option_bind]. eexists _, pod1. split; [|split; [|split]]; [..|done].
  - do 2 f_equal. unfold set_pod. rewrite <- list_fmap_compose. apply list_fmap_ext. intros k [j y] Hy. simpl.
    case_decide; simpl; [|done]. subst. rewrite Hh1. by rewrite decide_True.
  - split; simpl.
    + exists q'. split; [done|]. assert (q'.*1 ≡ₚ (nd_pods n).*1) as Hp'.
      { rewrite Hids', <- Hids, fmap_app, <- list_fmap_compose. simpl.
        rewrite (Permutation_app_comm _ [_]). simpl. done. }
      split; [|by rewrite set_pod_ids]. apply Forall_forall. intros y Hy. apply (Hst y Hy).
      rewrite set_pod_ids, <- Hp'. by apply list_elem_of_fmap_2.
    + exact Hset.
    + done.
    + by rewrite (handle_chan _ _ _ _ Eh).
  - done.
Qed.
