(* ===== verification/Arrival.v ===== *)
(** * A message arrives at a runner: Sat.setupBus (sat/sat/sat.go) with initHub
    (hub.go), and the way of a message from the hub of the runner over its bus to
    its scheduler

    The node that setupBus makes, with the three pods on its bus: that of the hub,
    that of the runner and that on which the engine listens. *)

From S2P Require Import Prelude.
From S2P Require Import Interfaces.
From S2P Require Import Balancer.
From S2P Require Import Message.
From S2P Require Import PodConn.
From S2P Require Import Pool.
From S2P Require Import MessageBus.
From S2P Require Import Pod.
From S2P Require Import Hub.
From S2P Require Import Jobs.
From S2P Require Import Listen.
From S2P Require MsgBuffer.
From S2P Require Node.

Section Arrival.
Context {B : Type} `{Picker B}.

(** The pod of the hub after [initHub] has given it [messageHandler], which
    returns nil.  [None] blocks. *)
Definition hub_pod : option Pod := On (newPod false) (Some (OwnerFunc (λ _, None))).

(** [setupBus]: the node, the runner's pod and the pod on which the engine listens
    for jobs of the type. *)
Definition setupBus (fresh tenant jobType port : string) : outcome (option (Node.Bus (B := B) * Pod * Pod)) :=
  b ← Node.New fresh (Node.sat_mods tenant jobType port);
  '(pod, bus1) ← connectWithOpts (Node.bus_bus b) false;
  '(engine, bus2) ← connectWithOpts bus1 false;
  Val ((λ listening, (Node.mkBus (Node.NodeUUID b) (Node.bus_BelongsTo b) (Node.bus_Interests b) bus2
                        (Node.bus_hub b) (Node.b_discovery b), pod, listening))
       <$> ListenAndRun engine jobType).

Lemma addPod_ring b q :
  ring (pool b) q →
  ∃ b', addPod b = Val b' ∧ ring (pool b') ((maxID (pool b) + 1, newConnState)%Z :: q) ∧
    maxID (pool b') = (maxID (pool b) + 1)%Z ∧ buffer b' = buffer b ∧ busChan b' = busChan b.
Proof.
  intros Hr. destruct (pool_insert_ring (pool b) q Hr) as (p & E & Hr1).
  unfold addPod. rewrite E. run. eexists. split; [done|]. split; [done|]. split; [|done]. simpl.
  by apply pool_insert_maxID.
Qed.

(** The bus of a runner: three idle connections. *)
Lemma setupBus_ring fresh tenant jobType port :
  ∃ node pod engine, setupBus fresh tenant jobType port = Val (Some (node, pod, engine)) ∧
    ring (pool (Node.bus_bus node)) [(3%Z, newConnState); (2%Z, newConnState); (1%Z, newConnState)] ∧
    buffer (Node.bus_bus node) = MsgBuffer.NewMsgBuffer defaultBufferSize ∧ busChan (Node.bus_bus node) = [] ∧
    Node.bus_hub node = initHub fresh tenant [jobType] true false ∧
    pod = newPod false ∧ ListenAndRun (newPod false) jobType = Some engine.
Proof.
  assert (ring (pool newMessageBus) []) as Hr0 by (repeat split; constructor).
  destruct (addPod_ring newMessageBus [] Hr0) as (b1 & E1 & Hr1 & M1 & F1 & G1).
  destruct (addPod_ring b1 _ Hr1) as (b2 & E2 & Hr2 & M2 & F2 & G2).
  destruct (addPod_ring b2 _ Hr2) as (b3 & E3 & Hr3 & M3 & F3 & G3).
  eexists _, _, _. split.
  { unfold setupBus, Node.New. rewrite E1. run. unfold connectWithOpts. cbn [Node.bus_bus]. rewrite E2. run.
    rewrite E3. run. reflexivity. }
  cbn [Node.bus_bus Node.bus_hub]. rewrite M2, M1 in Hr3. split; [exact Hr3|]. rewrite F3, F2, F1, G3, G2, G1. done.
Qed.

(** A connection to which the message was sent, before and after the goroutine of
    that send has run. *)
Definition handed (msg : Message) : connState := send newConnState (Some msg).
Definition delivered (msg : Message) : connState := mkState [] [Some msg] false [] [] true.

Lemma run_handed msg : run_send (handed msg) 0 = Some (Val (delivered msg)).
Proof. reflexivity. Qed.

(** On a runner that setupBus has just made, a message from the mesh that the pod
    of the hub sends goes to the three pods of the bus once each in one turn of
    the bus goroutine; the pod on which the engine listens runs a job exactly when
    the type is the job type of the runner, and the pod of the hub ignores the
    message, so it is not sent back to the mesh, while any other message of the
    bus is. *)
Theorem mesh_message_runs_job fresh tenant jobType port hubPod msg :
  hub_pod = Some hubPod →
  ∃ node pod engine, setupBus fresh tenant jobType port = Val (Some (node, pod, engine)) ∧
    ∃ t hubPod1, Send hubPod (busChan (Node.bus_bus node)) msg = Some (Some t, hubPod1, [msg]) ∧
    (∀ fuel, 3 < fuel → ∃ b q, handle fuel (Node.bus_bus node) msg = Some (Val b) ∧ ring (pool b) q ∧
       length q = 3 ∧ Forall (λ x, x.2 = handed msg) q ∧ run_send (handed msg) 0 = Some (Val (delivered msg))) ∧
    handleMsg engine msg = (if decide (Type_ msg = jobType) then Reported podFeedbackMsgSuccess else Ignored) ∧
    handleMsg hubPod1 msg = Ignored ∧ handleMsg pod msg = Ignored ∧
    ∀ other, UUID other ≠ UUID msg → handleMsg hubPod1 other = Reported podFeedbackMsgSuccess.
Proof.
  intros [= <-].
  destruct (setupBus_ring fresh tenant jobType port) as (node & pod & engine & E & Hr & Hb & Hc & _ & -> & He).
  exists node, (newPod false), engine. split; [done|]. rewrite Hc.
  eexists _, _. split; [reflexivity|]. split.
  { intros fuel Hf. pose proof (handle_spec (Node.bus_bus node) msg _ Hr) as Hh.
    specialize (Hh ltac:(by repeat constructor)). rewrite Hb in Hh.
    specialize (Hh ltac:(by apply MsgBuffer.cursor_ok_new) fuel ltac:(done)).
    destruct Hh as (b & Eh & Hq & _). eexists b, _. split; [exact Eh|]. split; [exact Hq|].
    split; [done|]. split; [by repeat constructor|]. apply run_handed. }
  split; [by apply (ListenAndRun_handles (newPod false))|]. split.
  - unfold handleMsg; simpl. rewrite allow_FilterUUID_false. by rewrite bool_decide_eq_false_2 by tauto.
  - split; [done|]. intros other Ho. unfold handleMsg; simpl. rewrite allow_FilterUUID_false.
    by rewrite bool_decide_eq_true_2.
Qed.

(** A message that is read before the goroutine of [initHub] has called [On] is
    sent back to the mesh: [On] forgets that the pod sent it. *)
Lemma early_message_returns msg t p1 p2 :
  Send (newPod false) [] msg = Some (Some t, p1, [msg]) → On p1 (Some (OwnerFunc (λ _, None))) = Some p2 →
  handleMsg p2 msg = Reported podFeedbackMsgSuccess.
Proof. intros Hs Ho. by rewrite (pod_bounce_after_On _ _ _ _ _ _ _ _ Hs Ho). Qed.
End Arrival.

(** ** Examples *)

Lemma mesh_message_runs_job_witness :
  ∃ node pod engine, setupBus (B := Balancer.Balancer) "me" "acme" "fn" "8081" = Val (Some (node, pod, engine)) ∧
    handleMsg engine (NewMsg "u" 0 "fn" "data") = Reported podFeedbackMsgSuccess.
Proof.
  destruct (mesh_message_runs_job (B := Balancer.Balancer) "me" "acme" "fn" "8081" _ (NewMsg "u" 0 "fn" "data") eq_refl)
    as (node & pod & engine & E & _ & _ & _ & _ & Hh & _).
  exists node, pod, engine. split; [exact E|exact Hh].
Defined.
