(* ===== verification/Common.v ===== *)
(** * Errors, atomic references and clocks: foundation/common/error.go, atomic.go
    and clock.go

    The errors of the shared packages, the generic wrapper of [atomic.Value], and
    the clock that is ticked by hand.  A tick is a load and a swap, so two ticks
    that run at once can count as one. *)

From S2P Require Import Prelude.

(** ** Errors *)

Definition ErrAccess : error := ErrNew "unauthorized".
Definition ErrExists : error := ErrNew "already exists".
Definition ErrNotExists : error := ErrNew "does not exist".
Definition ErrCanceled : error := ErrNew "execution canceled".
Definition ErrInvalid : error := ErrNew "invalid argument".
Definition ErrLimit : error := ErrNew "too many requests".

(** [Error]; [detail] is the text that the format and its arguments make. *)
Definition Error_ (err : option error) (detail : string) : option error := (λ e, ErrWrap e detail) <$> err.

Definition AuthorizationError (detail : string) : error := ErrWrap ErrAccess detail.
Definition DuplicateEntryError (detail : string) : error := ErrWrap ErrExists detail.
Definition DoesNotExistError (detail : string) : error := ErrWrap ErrNotExists detail.
Definition InvalidArgument (detail : string) : error := ErrWrap ErrInvalid detail.
Definition TooManyRequests (detail : string) : error := ErrWrap ErrLimit detail.

(** [errors.Is] of errors that may be nil. *)
Definition IsError (err target : option error) : bool :=
  match err, target with
  | None, Some _ => false
  | None, None => true
  | Some _, None => false
  | Some e, Some t => errors_Is e t
  end.

Definition Must (err : option error) : outcome unit :=
  match err with Some e => Panic (Raised (ErrWrap e "Error must not be raised")) | None => Val tt end.

Definition MustReturn {T} (value : T) (err : option error) : outcome T :=
  match err with Some e => Panic (Raised (ErrWrap e "Error must not be raised")) | None => Val value end.

Lemma errors_Is_refl e : errors_Is e e = true.
Proof. destruct e; simpl; by rewrite bool_decide_eq_true_2. Qed.

(** A wrapped error is still the error that was wrapped, at any depth. *)
Lemma Error_is err detail e : Error_ (Some err) detail = Some e → ∀ t, errors_Is err t = true → IsError (Some e) (Some t) = true.
Proof. intros [= <-] t Ht. simpl. by rewrite Ht, orb_true_r. Qed.

(** The constructors make errors of their own kind and of no other. *)
Lemma kinds_distinct detail :
  let made := [AuthorizationError detail; DuplicateEntryError detail; DoesNotExistError detail;
               InvalidArgument detail; TooManyRequests detail] in
  let kinds := [ErrAccess; ErrExists; ErrNotExists; ErrInvalid; ErrLimit] in
  ∀ i j e k, made !! i = Some e → kinds !! j = Some k → IsError (Some e) (Some k) = bool_decide (i = j).
Proof.
  intros made kinds i j e k Hi Hj.
  destruct i as [|[|[|[|[|i]]]]], j as [|[|[|[|[|j]]]]]; simpl in *; simplify_eq; reflexivity.
Qed.

(** [Must] and [MustReturn] go on exactly without an error. *)
Lemma MustReturn_result {T} (v : T) err : (MustReturn v err = Val v ↔ err = None) ∧ (returns (Must err) ↔ err = None).
Proof. unfold returns. destruct err; simpl; naive_solver. Qed.

(** ** Atomic references *)

(** The zero value holds nothing, and its type assertions panic. *)
Record AtomicReference (T : Type) : Type := mkRef { ref_value : option T }.
Arguments mkRef {T}.
Arguments ref_value {T}.

Section Ref.
Context {T : Type}.

Definition Load_ (ref : AtomicReference T) : outcome T :=
  match ref_value ref with Some v => Val v | None => Panic BadAssert end.

Definition Store_ (ref : AtomicReference T) (value : T) : AtomicReference T := mkRef (Some value).

(** The value that was there, and the reference. *)
Definition Swap (ref : AtomicReference T) (value : T) : outcome T * AtomicReference T :=
  (match ref_value ref with Some v => Val v | None => Panic BadAssert end, mkRef (Some value)).

Definition NewAtomicReference (init : T) : AtomicReference T := Store_ (mkRef None) init.

(** A reference that was made with a value always has the one stored last. *)
Lemma ref_operations init v w :
  Load_ (NewAtomicReference init) = Val init ∧ Load_ (Store_ (NewAtomicReference init) v) = Val v ∧
  (Swap (Store_ (NewAtomicReference init) v) w).1 = Val v ∧ Load_ (Swap (Store_ (NewAtomicReference init) v) w).2 = Val w.
Proof. done. Qed.

End Ref.

(** ** Clocks *)

(** [Clock]: the readings, given the time of the system. *)
Class Clock (C : Type) : Type := {
  Now : C → Z → outcome Z;
  In_ : C → Z → Z → outcome Z
}.

(** What the users of a clock rely on. *)
Class ClockLaws (C : Type) `{Clock C} : Prop := {
  clock_in c t d : In_ c t d = (n ← Now c t; Val (n + d)%Z)
}.

Record systemClock : Type := SystemTime {}.

#[export] Instance systemClock_clock : Clock systemClock := {|
  Now _ t := Val t;
  In_ _ t d := Val (t + d)%Z
|}.

Record stableClock : Type := mkStable { epoch : AtomicReference Z }.

Definition StableTime (t : Z) : stableClock := mkStable (NewAtomicReference t).

#[export] Instance stableClock_clock : Clock stableClock := {|
  Now c _ := Load_ (epoch c);
  In_ c _ d := n ← Load_ (epoch c); Val (n + d)%Z
|}.

#[export] Instance systemClock_laws : ClockLaws systemClock.
Proof. by split. Qed.

#[export] Instance stableClock_laws : ClockLaws stableClock.
Proof. by split. Qed.

(** [Tick]: the load, then the swap with what was loaded. *)
Definition Tick_swap (c : stableClock) (seen d : Z) : stableClock := mkStable (Swap (epoch c) (seen + d)%Z).2.

Definition Tick (c : stableClock) (d : Z) : outcome stableClock :=
  n ← Load_ (epoch c); Val (Tick_swap c n d).

(** Ticks in goroutines of their own: not begun, or between load and swap. *)
Inductive ticking : Type := Ticks (d : Z) | Loaded (seen d : Z).

Inductive tick_step : stableClock * list ticking → stableClock * list ticking → Prop :=
| TickLoad c ts1 ts2 d n : Load_ (epoch c) = Val n → tick_step (c, ts1 ++ Ticks d :: ts2) (c, ts1 ++ Loaded n d :: ts2)
| TickSwap c ts1 ts2 seen d : tick_step (c, ts1 ++ Loaded seen d :: ts2) (Tick_swap c seen d, ts1 ++ ts2).

(** One tick after the other adds up. *)
Lemma ticks_in_turn t ds :
  foldl (λ c d, c ← c; Tick c d) (Val (StableTime t)) ds = Val (StableTime (foldl Z.add t ds)).
Proof. revert t. induction ds as [|d ds IH]; intros t; simpl; [done|]. apply IH. Qed.

(** Of two ticks at once one can be lost, and the clock can show less than after
    the first. *)
Lemma tick_lost t d1 d2 :
  (0 ≤ d2 < d1)%Z →
  ∃ c1 c2 ts, rtc tick_step (StableTime t, [Ticks d1; Ticks d2]) (c1, ts) ∧ rtc tick_step (c1, ts) (c2, []) ∧
    Now c1 0 = Val (t + d1)%Z ∧ Now c2 0 = Val (t + d2)%Z.
Proof.
  intros Hd. exists (StableTime (t + d1)), (StableTime (t + d2)), [Loaded t d2]. split; [|split; [|done]].
  - eapply rtc_l; [by apply (TickLoad _ [] [Ticks d2] d1 t)|]. simpl.
    eapply rtc_l; [by apply (TickLoad _ [Loaded t d1] [] d2 t)|]. simpl.
    apply rtc_once. apply (TickSwap _ [] [Loaded t d2] t d1).
  - apply rtc_once. apply (TickSwap _ [] [] t d2).
Qed.
