(* ===== verification/Store.v ===== *)
(** * Stores of the loading cache: foundation/common/cache.go (CacheStore)

    The loading cache keeps pointers to its entries in a store that it is given.
    [CacheStore] is the interface with its laws; the map store is one, and so is
    the tree store over a radix tree library that keeps its promises. *)

From S2P Require Import Prelude.

(** The operations, on a store of entries with addresses in [nat]. *)
Class CacheStore (S : Type) : Type := {
  st_New : S;
  st_Get : S → string → option nat;
  st_Put : S → string → nat → S;
  st_Delete : S → string → S
}.

(** What the cache relies on. *)
Class StoreLaws (S : Type) `{CacheStore S} : Prop := {
  store_get_new k : st_Get st_New k = None;
  store_get_put s k e k' : st_Get (st_Put s k e) k' = if decide (k = k') then Some e else st_Get s k';
  store_get_delete s k k' : st_Get (st_Delete s k) k' = if decide (k = k') then None else st_Get s k'
}.

(** ** The map store *)

Record MapStore : Type := mkMapStore { map_store : gmap string nat }.

Definition NewMapStore : MapStore := mkMapStore ∅.
Definition MapStore_Get (s : MapStore) (key : string) : option nat := map_store s !! key.
Definition MapStore_Put (s : MapStore) (key : string) (val : nat) : MapStore := mkMapStore (<[key := val]> (map_store s)).
Definition MapStore_Delete (s : MapStore) (key : string) : MapStore := mkMapStore (delete key (map_store s)).

#[export] Instance MapStore_ops : CacheStore MapStore := {|
  st_New := NewMapStore; st_Get := MapStore_Get; st_Put := MapStore_Put; st_Delete := MapStore_Delete
|}.

#[export] Instance MapStore_laws : StoreLaws MapStore.
Proof.
  split; simpl; unfold MapStore_Get; simpl.
  - apply lookup_empty.
  - intros s k e k'. by rewrite lookup_insert.
  - intros s k k'. by rewrite lookup_delete.
Qed.

(** ** The tree store *)

(** The calls of the adaptive radix tree library that are used; a search answers
    with a value and whether it was found. *)
Class ArtTree (T : Type) : Type := {
  art_New : T;
  art_Search : T → string → option nat;
  art_Insert : T → string → nat → T;
  art_Delete : T → string → T
}.

(** The library is a map from keys to the values inserted last. *)
Class ArtLaws (T : Type) `{ArtTree T} : Prop := {
  art_search_new k : art_Search art_New k = None;
  art_search_insert t k v : art_Search (art_Insert t k v) k = Some v;
  art_search_insert_ne t k v k' : k ≠ k' → art_Search (art_Insert t k v) k' = art_Search t k';
  art_search_delete t k : art_Search (art_Delete t k) k = None;
  art_search_delete_ne t k k' : k ≠ k' → art_Search (art_Delete t k) k' = art_Search t k'
}.

Section TreeStore.
Context {T : Type} `{ArtTree T}.

Record TreeStore : Type := mkTreeStore { tree_store : T }.

Definition NewTreeStore : TreeStore := mkTreeStore art_New.
Definition TreeStore_Get (s : TreeStore) (key : string) : option nat :=
  match art_Search (tree_store s) key with Some val => Some val | None => None end.
Definition TreeStore_Put (s : TreeStore) (key : string) (val : nat) : TreeStore :=
  mkTreeStore (art_Insert (tree_store s) key val).
Definition TreeStore_Delete (s : TreeStore) (key : string) : TreeStore := mkTreeStore (art_Delete (tree_store s) key).

#[export] Instance TreeStore_ops : CacheStore TreeStore := {|
  st_New := NewTreeStore; st_Get := TreeStore_Get; st_Put := TreeStore_Put; st_Delete := TreeStore_Delete
|}.

Context `{!ArtLaws T}.

Lemma TreeStore_Get_search s k : TreeStore_Get s k = art_Search (tree_store s) k.
Proof. unfold TreeStore_Get. by destruct (art_Search _ _). Qed.

#[export] Instance TreeStore_laws : StoreLaws TreeStore.
Proof.
  split; simpl.
  - intros k. rewrite TreeStore_Get_search. apply art_search_new.
  - intros s k e k'. rewrite !TreeStore_Get_search. simpl.
    case_decide as Hk; [subst; apply art_search_insert|by apply art_search_insert_ne].
  - intros s k k'. rewrite !TreeStore_Get_search. simpl.
    case_decide as Hk; [subst; apply art_search_delete|by apply art_search_delete_ne].
Qed.

End TreeStore.

Arguments TreeStore T : clear implicits.

(** A library that keeps its promises. *)
Module MapTree.

#[export] Instance map_tree : ArtTree (gmap string nat) := {|
  art_New := ∅; art_Search t k := t !! k; art_Insert t k v := <[k := v]> t; art_Delete t k := delete k t
|}.

#[export] Instance map_tree_laws : ArtLaws (gmap string nat).
Proof.
  split; simpl.
  - intros k. apply lookup_empty.
  - intros t k v. apply lookup_insert_eq.
  - intros t k v k' Hk. by apply lookup_insert_ne.
  - intros t k. apply lookup_delete_eq.
  - intros t k k' Hk. by apply lookup_delete_ne.
Qed.

End MapTree.
