(* ===== verification/Cache.v ===== *)
(** * The loading cache: foundation/common/cache.go

    The operations under the cache's lock are functions on [cache]; what runs
    beside them are the loads that [asyncLoad] started, the callers of [Get]
    that wait on a condition, and the broadcasts that [Cancel] makes after it
    released the lock.  [cache_step] interleaves them. *)

From S2P Require Import Prelude.
From S2P Require Import Common.
From S2P Require Import Store.

Inductive EntryState : Type := EntryInit | EntryPending | EntryError | EntryCanceled | EntryReady.

#[export] Instance EntryState_eq_dec : EqDecision EntryState.
Proof. solve_decision. Defined.

Definition EntryState_String (s : EntryState) : string :=
  match s with
  | EntryInit => "[EntryState=INIT]"
  | EntryPending => "[EntryState=PENDING]"
  | EntryError => "[EntryState=ERROR]"
  | EntryCanceled => "[EntryState=CANCELED]"
  | EntryReady => "[EntryState=READY]"
  end.

Section Cache.
Context {V St : Type} `{St_ops : CacheStore St} `{St_laws : !StoreLaws St}.

(** [value] is [None] for the zero value, a nil pointer. *)
Record Value : Type := mkValue { State : EntryState; Value_ : option V; Error_ : option error }.

(** [loadingFunc] is a function, known by its name. *)
Record Entry : Type := mkEntry {
  state : EntryState; loadingFunc : nat; value : option V; err : option error
}.

(** A load: its goroutine has not called the function yet, or has. *)
Inductive load : Type := Starting (entry : nat) | Loading (entry fn : nat).

(** A caller of [Get]: on the condition of an entry, asleep or woken. *)
Record waiter : Type := mkWaiter { w_entry : nat; w_asleep : bool }.

Record cache : Type := mkCache {
  store : St;                     (* pointers to entries *)
  entries : gmap nat Entry;
  loads : list load;
  waiters : list waiter;
  broadcasts : list nat           (* Cancel released the lock, has not broadcast *)
}.

Definition NewLoadingCache (store : St) : cache := mkCache store ∅ [] [] [].

Definition set_entry (c : cache) (e : nat) (x : Entry) : cache :=
  mkCache (store c) (<[e := x]> (entries c)) (loads c) (waiters c) (broadcasts c).

Definition lookup_key (c : cache) (key : string) : option (nat * Entry) :=
  e ← st_Get (store c) key; x ← entries c !! e; Some (e, x).

Definition snapshot (x : Entry) : Value := mkValue (state x) (value x) (err x).

Definition broadcast (e : nat) (ws : list waiter) : list waiter :=
  (λ w, if decide (w_entry w = e) then mkWaiter e false else w) <$> ws.

Definition asyncLoad (c : cache) (e : nat) (x : Entry) : cache :=
  mkCache (store c) (<[e := mkEntry EntryPending (loadingFunc x) (value x) (err x)]> (entries c))
    (loads c ++ [Starting e]) (waiters c) (broadcasts c).

(** [Get] up to its return ([inl]) or its first wait ([inr]). *)
Definition Get (c : cache) (key : string) : (Value + nat) * cache :=
  match lookup_key c key with
  | None => (inl (mkValue EntryError None (Some (DoesNotExistError "[LoadingCache] Get"))), c)
  | Some (e, x) =>
      match state x with
      | EntryError => (inl (snapshot x), c)
      | EntryInit =>
          let c1 := asyncLoad c e x in
          (inr e, mkCache (store c1) (entries c1) (loads c1) (waiters c1 ++ [mkWaiter e true]) (broadcasts c1))
      | EntryPending =>
          (inr e, mkCache (store c) (entries c) (loads c) (waiters c ++ [mkWaiter e true]) (broadcasts c))
      | EntryCanceled | EntryReady => (inl (snapshot x), c)
      end
  end.

Definition Check_ (c : cache) (key : string) : bool :=
  match lookup_key c key with Some _ => true | None => false end.

(** [fresh] is the address of the new entry. *)
Definition newEntry (c : cache) (fresh : nat) (key : string) (fn : nat) : cache :=
  mkCache (st_Put (store c) key fresh) (<[fresh := mkEntry EntryInit fn None None]> (entries c))
    (loads c) (waiters c) (broadcasts c).

Definition Put (c : cache) (fresh : nat) (key : string) (fn : nat) : option error * cache :=
  match lookup_key c key with
  | Some _ => (Some (DuplicateEntryError "[LoadingCache] Put"), c)
  | None => (None, newEntry c fresh key fn)
  end.

Definition Replace (c : cache) (fresh : nat) (key : string) (fn : nat) : cache :=
  match lookup_key c key with
  | None => newEntry c fresh key fn
  | Some (e, x) => set_entry c e (mkEntry EntryInit fn (value x) (err x))
  end.

Definition Refresh (c : cache) (key : string) : option error * cache :=
  match lookup_key c key with
  | None => (Some (DoesNotExistError "[LoadingCache] Pending"), c)
  | Some (e, x) => (None, asyncLoad c e x)
  end.

(** [Cancel] up to the release of the lock; the broadcast comes later. *)
Definition Cancel (c : cache) (key : string) : cache :=
  match lookup_key c key with
  | None => c
  | Some (e, x) =>
      let x1 := match state x with
                | EntryInit | EntryPending => mkEntry EntryCanceled (loadingFunc x) (value x) (Some ErrCanceled)
                | _ => x
                end in
      mkCache (store c) (<[e := x1]> (entries c)) (loads c) (waiters c) (e :: broadcasts c)
  end.

Definition Drop (c : cache) (key : string) : cache :=
  match lookup_key c key with
  | None => c
  | Some (e, x) =>
      let x1 := match state x with
                | EntryPending => mkEntry EntryCanceled (loadingFunc x) (value x) (err x)
                | _ => x
                end in
      mkCache (st_Delete (store c) key) (<[e := x1]> (entries c)) (loads c) (broadcast e (waiters c))
        (broadcasts c)
  end.

(** The end of the goroutine of [asyncLoad], with what the function returned. *)
Definition finishLoad (c : cache) (e : nat) (ls : list load) (r : result V) : cache :=
  match entries c !! e with
  | None => mkCache (store c) (entries c) ls (waiters c) (broadcasts c)
  | Some x =>
      match state x with
      | EntryCanceled =>
          mkCache (store c) (<[e := mkEntry EntryCanceled (loadingFunc x) (value x) (Some ErrCanceled)]> (entries c))
            ls (waiters c) (broadcasts c)
      | _ =>
          let x1 := match r with
                    | Ok v => mkEntry EntryReady (loadingFunc x) (Some v) None
                    | Err er => mkEntry EntryError (loadingFunc x) (value x) (Some er)
                    end in
          mkCache (store c) (<[e := x1]> (entries c)) ls (broadcast e (waiters c)) (broadcasts c)
      end
  end.

(** A woken waiter has the lock again: it returns, or waits again. *)
Definition wake (c : cache) (e : nat) : option Value :=
  match entries c !! e with
  | Some x => if decide (state x = EntryPending) then None else Some (snapshot x)
  | None => None
  end.

Definition set_waiters (c : cache) (ws : list waiter) : cache :=
  mkCache (store c) (entries c) (loads c) ws (broadcasts c).
Definition set_loads (c : cache) (ls : list load) : cache :=
  mkCache (store c) (entries c) ls (waiters c) (broadcasts c).

Inductive cache_step (c : cache) : cache → Prop :=
| StepGet key : cache_step c (Get c key).2
| StepPut key fn fresh : entries c !! fresh = None → cache_step c (Put c fresh key fn).2
| StepReplace key fn fresh : entries c !! fresh = None → cache_step c (Replace c fresh key fn)
| StepRefresh key : cache_step c (Refresh c key).2
| StepCancel key : cache_step c (Cancel c key)
| StepDrop key : cache_step c (Drop c key)
| StepCall ls1 ls2 e x :
    loads c = ls1 ++ Starting e :: ls2 → entries c !! e = Some x →
    cache_step c (set_loads c (ls1 ++ Loading e (loadingFunc x) :: ls2))
| StepFinish ls1 ls2 e fn r :
    loads c = ls1 ++ Loading e fn :: ls2 → cache_step c (finishLoad c e (ls1 ++ ls2) r)
| StepBroadcast bs1 bs2 e :
    broadcasts c = bs1 ++ e :: bs2 →
    cache_step c (mkCache (store c) (entries c) (loads c) (broadcast e (waiters c)) (bs1 ++ bs2))
| StepReturn ws1 ws2 e v :
    waiters c = ws1 ++ mkWaiter e false :: ws2 → wake c e = Some v →
    cache_step c (set_waiters c (ws1 ++ ws2))
| StepSleep ws1 ws2 e :
    waiters c = ws1 ++ mkWaiter e false :: ws2 → wake c e = None →
    cache_step c (set_waiters c (ws1 ++ mkWaiter e true :: ws2)).

(** ** No wakeup is lost *)

Definition load_entry (l : load) : nat := match l with Starting e => e | Loading e _ => e end.

(** Somebody will wake the waiters of [e]: a load that will broadcast when it
    ends, or a broadcast on its way. *)
Definition will_wake (c : cache) (e : nat) : Prop :=
  e ∈ broadcasts c ∨
  (e ∈ load_entry <$> loads c ∧ ∃ x, entries c !! e = Some x ∧ state x ≠ EntryCanceled).

Record cache_ok (c : cache) : Prop := {
  ok_store key e : st_Get (store c) key = Some e → is_Some (entries c !! e);
  ok_loads e : e ∈ load_entry <$> loads c → is_Some (entries c !! e);
  ok_waiters w : w ∈ waiters c → is_Some (entries c !! w_entry w);
  (** a pending entry is being loaded *)
  ok_pending e x : entries c !! e = Some x → state x = EntryPending → e ∈ load_entry <$> loads c;
  ok_asleep w : w ∈ waiters c → w_asleep w = true → will_wake c (w_entry w);
  (** an entry that is ready has a value and no error, a failed one an error *)
  ok_entry e x : entries c !! e = Some x →
    match state x with
    | EntryReady => is_Some (value x) ∧ err x = None
    | EntryError => is_Some (err x)
    | _ => True
    end
}.

Lemma cache_ok_new : cache_ok (NewLoadingCache st_New).
Proof. split; simpl; intros *; rewrite ?lookup_empty, ?store_get_new; set_solver. Qed.

Lemma lookup_key_some c key e x :
  lookup_key c key = Some (e, x) → st_Get (store c) key = Some e ∧ entries c !! e = Some x.
Proof.
  unfold lookup_key. destruct (st_Get (store c) key) as [e'|] eqn:E; [|done]. simpl.
  destruct (entries c !! e') eqn:E2; simpl; [|done]. by intros [= <- <-].
Qed.

Lemma elem_broadcast e w ws :
  w ∈ broadcast e ws → (w ∈ ws ∧ w_entry w ≠ e) ∨ (w = mkWaiter e false ∧ e ∈ w_entry <$> ws).
Proof.
  intros (w' & -> & Hw)%list_elem_of_fmap. case_decide as He; [|by left]. right.
  split; [done|]. rewrite <- He. by apply list_elem_of_fmap_2.
Qed.

Definition entry_ok (x : Entry) : Prop :=
  match state x with
  | EntryReady => is_Some (value x) ∧ err x = None
  | EntryError => is_Some (err x)
  | _ => True
  end.

(** Every operation but the last steps writes one entry [e]; this is what is
    left to show of it. *)
Lemma cache_ok_write c st e x1 ls ws bs :
  cache_ok c → entry_ok x1 →
  (∀ key e', st_Get st key = Some e' → st_Get (store c) key = Some e' ∨ e' = e) →
  (∀ e', e' ∈ load_entry <$> ls → e' ∈ load_entry <$> loads c ∨ e' = e) →
  (∀ e', e' ≠ e → e' ∈ load_entry <$> loads c → e' ∈ load_entry <$> ls) →
  (state x1 = EntryPending → e ∈ load_entry <$> ls) →
  (∀ w, w ∈ ws → w ∈ waiters c ∨ w_entry w = e) →
  (∀ b, b ∈ broadcasts c → b ∈ bs) →
  (∀ w, w ∈ ws → w_asleep w = true → w_entry w = e →
     e ∈ bs ∨ (e ∈ load_entry <$> ls ∧ state x1 ≠ EntryCanceled)) →
  cache_ok (mkCache st (<[e := x1]> (entries c)) ls ws bs).
Proof.
  intros [Hst Hl Hw Hp Ha He] Hx Hst' Hl1 Hl2 Hpend Hws Hbs Hasleep.
  assert (∀ e', is_Some (entries c !! e') → is_Some (<[e := x1]> (entries c) !! e')) as Hmono.
  { intros e' ?. rewrite lookup_insert. case_decide; eauto. }
  assert (is_Some (<[e := x1]> (entries c) !! e)) as Hself by (rewrite lookup_insert_eq; eauto).
  split; simpl.
  - intros key e' [H| ->]%Hst'; eauto.
  - intros e' [H| ->]%Hl1; eauto.
  - intros w [H|H]%Hws; [eauto|by rewrite H].
  - intros e' x. rewrite lookup_insert. case_decide; [intros; simplify_eq; eauto|]. eauto.
  - intros w Hin Has. destruct (decide (w_entry w = e)) as [E|E].
    + rewrite E. destruct (Hasleep w Hin Has E) as [?|[? ?]]; [by left|right].
      split; [done|]. exists x1. simpl. by rewrite lookup_insert_eq.
    + destruct (Hws w Hin) as [H|H]; [|done].
      destruct (Ha w H Has) as [?|[? (x & ? & ?)]]; [left; simpl; auto|right].
      split; [simpl; auto|]. exists x. simpl. by rewrite lookup_insert_ne.
  - intros e' x. rewrite lookup_insert. case_decide; [by intros [= <-]|]. apply He.
Qed.

Lemma fmap_load_mid (ls1 ls2 : list load) l e :
  e ∈ load_entry <$> ls1 ++ l :: ls2 ↔ e = load_entry l ∨ e ∈ load_entry <$> ls1 ++ ls2.
Proof. rewrite !fmap_app, fmap_cons, !elem_of_app, elem_of_cons. tauto. Qed.

Lemma asyncLoad_ok c e x : cache_ok c → entries c !! e = Some x → cache_ok (asyncLoad c e x).
Proof.
  intros Hok Hx. apply cache_ok_write; try done; rewrite ?fmap_app; set_solver.
Qed.

Lemma Get_ok c key : cache_ok c → cache_ok (Get c key).2.
Proof.
  intros Hok. unfold Get. destruct (lookup_key c key) as [[e x]|] eqn:E; [|done].
  apply lookup_key_some in E as [_ Hx].
  assert (∀ c1 x1, cache_ok c1 → entries c1 !! e = Some x1 → state x1 = EntryPending →
    cache_ok (mkCache (store c1) (entries c1) (loads c1) (waiters c1 ++ [mkWaiter e true]) (broadcasts c1)))
    as Hpark.
  { intros c1 x1 [H1 H2 H3 H4 H5 H6] Hx1 Hp. split; simpl; try done.
    - intros w [?| ->%list_elem_of_singleton]%elem_of_app; [auto|simpl; eauto].
    - intros w [Hw| ->%list_elem_of_singleton]%elem_of_app; [exact (H5 w Hw)|]. intros _. right. simpl.
      split; [by apply (H4 _ x1)|]. exists x1. split; [done|]. by rewrite Hp. }
  destruct (state x) eqn:Es; simpl; try done.
  - eapply (Hpark (asyncLoad c e x)); [by apply asyncLoad_ok|apply lookup_insert_eq|done].
  - by eapply Hpark.
Qed.

Lemma newEntry_ok c fresh key fn :
  cache_ok c → entries c !! fresh = None → cache_ok (newEntry c fresh key fn).
Proof.
  intros Hok Hf. apply cache_ok_write; try done; try set_solver.
  - intros k e'. rewrite store_get_put. case_decide; naive_solver.
  - intros w Hw _ E. destruct (ok_waiters c Hok w Hw) as [y Hy]. congruence.
Qed.

Lemma Replace_ok c fresh key fn :
  cache_ok c → entries c !! fresh = None → cache_ok (Replace c fresh key fn).
Proof.
  intros Hok Hf. unfold Replace. destruct (lookup_key c key) as [[e x]|] eqn:E; [|by apply newEntry_ok].
  apply lookup_key_some in E as [_ Hx]. apply cache_ok_write; try done; try set_solver.
  intros w Hw Has Ew. destruct (ok_asleep c Hok w Hw Has) as [?|[? _]]; rewrite Ew in *; [by left|by right].
Qed.

Lemma Cancel_ok c key : cache_ok c → cache_ok (Cancel c key).
Proof.
  intros Hok. unfold Cancel. destruct (lookup_key c key) as [[e x]|] eqn:E; [|done].
  apply lookup_key_some in E as [_ Hx]. pose proof (ok_entry c Hok e x Hx) as Hex.
  apply cache_ok_write; try set_solver.
  - destruct (state x) eqn:Es; unfold entry_ok; simpl; rewrite ?Es; done.
  - destruct (state x) eqn:Es; simpl; rewrite ?Es; done.
Qed.

Lemma broadcast_awake e w ws : w ∈ broadcast e ws → w_entry w = e → w_asleep w = false.
Proof. intros [[_ ?]|[-> _]]%elem_broadcast E; done. Qed.

Lemma broadcast_from e w ws : w ∈ broadcast e ws → w ∈ ws ∨ w_entry w = e.
Proof. intros [[? _]|[-> _]]%elem_broadcast; auto. Qed.

Lemma Drop_ok c key : cache_ok c → cache_ok (Drop c key).
Proof.
  intros Hok. unfold Drop. destruct (lookup_key c key) as [[e x]|] eqn:E; [|done].
  apply lookup_key_some in E as [_ Hx]. pose proof (ok_entry c Hok e x Hx) as Hex.
  apply cache_ok_write; try set_solver.
  - destruct (state x) eqn:Es; unfold entry_ok; simpl; rewrite ?Es; done.
  - intros k e'. rewrite store_get_delete. case_decide; naive_solver.
  - destruct (state x) eqn:Es; simpl; rewrite ?Es; done.
  - intros w Hw. apply broadcast_from in Hw. tauto.
  - intros w Hw Has Ew. by rewrite (broadcast_awake _ _ _ Hw Ew) in Has.
Qed.

Lemma finishLoad_ok c e fn ls1 ls2 r :
  cache_ok c → loads c = ls1 ++ Loading e fn :: ls2 → cache_ok (finishLoad c e (ls1 ++ ls2) r).
Proof.
  intros Hok Hls. pose proof (fmap_load_mid ls1 ls2 (Loading e fn)) as Hmid. simpl in Hmid.
  assert (∀ e', e' ∈ load_entry <$> ls1 ++ ls2 → e' ∈ load_entry <$> loads c ∨ e' = e) as Hl1.
  { intros e' He. left. rewrite Hls, Hmid. by right. }
  assert (∀ e', e' ≠ e → e' ∈ load_entry <$> loads c → e' ∈ load_entry <$> ls1 ++ ls2) as Hl2.
  { intros e' Hne. rewrite Hls, Hmid. by intros [|]. }
  unfold finishLoad.
  destruct (ok_loads c Hok e) as [x Hx]. { rewrite Hls, Hmid. by left. }
  rewrite Hx. destruct (decide (state x = EntryCanceled)) as [Hc|Hc].
  - rewrite Hc. apply cache_ok_write; try done; [by left|auto..|].
    intros w Hw Has E. destruct (ok_asleep c Hok w Hw Has) as [?|[_ (y & Hy & ?)]]; rewrite E in *;
      [by left|]. congruence.
  - assert (∀ x1, entry_ok x1 → state x1 ≠ EntryPending → cache_ok (mkCache (store c)
      (<[e := x1]> (entries c)) (ls1 ++ ls2) (broadcast e (waiters c)) (broadcasts c))) as Hend.
    { intros x1 Hx1 Hnp. apply cache_ok_write; try done; [by left|auto..| |].
      - intros w Hw. apply broadcast_from in Hw. tauto.
      - intros w Hw Has Ew. by rewrite (broadcast_awake _ _ _ Hw Ew) in Has. }
    assert (cache_ok (mkCache (store c)
      (<[e := match r with Ok v => mkEntry EntryReady (loadingFunc x) (Some v) None
              | Err er => mkEntry EntryError (loadingFunc x) (value x) (Some er) end]> (entries c))
      (ls1 ++ ls2) (broadcast e (waiters c)) (broadcasts c))).
    { apply Hend; destruct r; unfold entry_ok; simpl; eauto. }
    by destruct (state x).
Qed.

(** Taking a waiter off, or having it look again, and a load calling its
    function change no entry. *)
Lemma set_waiters_ok c ws :
  cache_ok c →
  (∀ w, w ∈ ws → is_Some (entries c !! w_entry w) ∧ (w_asleep w = true → will_wake c (w_entry w))) →
  cache_ok (set_waiters c ws).
Proof.
  intros [H1 H2 H3 H4 H5 H6] Hws. split; simpl; try done.
  - intros w Hw. by apply Hws.
  - intros w Hw Has. by apply (Hws w Hw).
Qed.

Lemma set_loads_ok c ls :
  cache_ok c → (∀ e, e ∈ load_entry <$> ls ↔ e ∈ load_entry <$> loads c) → cache_ok (set_loads c ls).
Proof.
  intros [H1 H2 H3 H4 H5 H6] Hls. split; simpl; try done.
  - intros e. rewrite Hls. apply H2.
  - intros e x. rewrite Hls. apply H4.
  - intros w Hw Has. unfold will_wake; simpl. rewrite Hls. by apply H5.
Qed.

Lemma cache_step_ok c c' : cache_step c c' → cache_ok c → cache_ok c'.
Proof.
  intros Hstep Hok. destruct Hstep as [key|key fn fresh Hf|key fn fresh Hf|key|key|key|ls1 ls2 e x Hl Hx
    |ls1 ls2 e fn r Hl|bs1 bs2 e Hb|ws1 ws2 e v Hw Hv|ws1 ws2 e Hw Hv].
  - by apply Get_ok.
  - unfold Put. destruct (lookup_key c key); [done|]. by apply newEntry_ok.
  - by apply Replace_ok.
  - unfold Refresh. destruct (lookup_key c key) as [[e x]|] eqn:E; [|done].
    apply lookup_key_some in E as [_ Hx]. by apply asyncLoad_ok.
  - by apply Cancel_ok.
  - by apply Drop_ok.
  - apply set_loads_ok; [done|]. intros e'. by rewrite Hl, !fmap_load_mid.
  - by eapply finishLoad_ok.
  - destruct Hok as [H1 H2 H3 H4 H5 H6]. split; simpl; try done.
    + intros w [[Hw _]|[-> Hw]]%elem_broadcast; [by apply H3|]. simpl.
      apply list_elem_of_fmap in Hw as (w' & -> & Hw). by apply H3.
    + intros w [[Hw Hne]|[-> _]]%elem_broadcast Has; [|done].
      destruct (H5 w Hw Has) as [Hin|?]; [left; simpl|by right].
      rewrite Hb in Hin. set_solver.
  - apply set_waiters_ok; [done|]. intros w Hw'.
    assert (w ∈ waiters c) as Hin by (rewrite Hw; set_solver).
    split; [by apply ok_waiters|by apply ok_asleep].
  - apply set_waiters_ok; [done|]. intros w Hw'.
    assert (is_Some (entries c !! e)) as [x Hx]
      by (apply (ok_waiters c Hok (mkWaiter e false)); rewrite Hw; set_solver).
    apply elem_of_app in Hw' as [Hin|[->|Hin]%elem_of_cons].
    2: { simpl. split; [eauto|]. intros _. right. unfold wake in Hv. rewrite Hx in Hv.
         case_decide as Hp; [|done]. split; [by eapply ok_pending|]. exists x. by rewrite Hp. }
    all: assert (w ∈ waiters c) as Hin' by (rewrite Hw; set_solver);
      split; [by apply ok_waiters|by apply ok_asleep].
Qed.

Lemma cache_reach_ok c c' : rtc cache_step c c' → cache_ok c → cache_ok c'.
Proof. induction 1; eauto using cache_step_ok. Qed.

(** C4: In every reachable state of the loading cache, under any interleaving of
    Get, Put, Replace, Refresh, Cancel, Drop and the loads, a caller that sleeps
    on an entry has a broadcast on its way or a running load of that entry whose
    end wakes every sleeper, and a caller that was woken returns or finds a load
    still running: no wakeup is lost. *)
Theorem cache_no_lost_wakeup c w :
  rtc cache_step (NewLoadingCache st_New) c → w ∈ waiters c →
  (∃ x, entries c !! w_entry w = Some x) ∧
  if w_asleep w then
    w_entry w ∈ broadcasts c ∨
    ∃ l ls1 ls2, loads c = ls1 ++ l :: ls2 ∧ load_entry l = w_entry w ∧
      ∀ r ws, waiters (finishLoad c (w_entry w) (ls1 ++ ls2) r) = ws →
              Forall (λ w', w_entry w' = w_entry w → w_asleep w' = false) ws
  else
    (∃ v, wake c (w_entry w) = Some v) ∨ w_entry w ∈ load_entry <$> loads c.
Proof.
  intros Hr Hw. pose proof (cache_reach_ok _ _ Hr cache_ok_new) as Hok.
  destruct (ok_waiters c Hok w Hw) as [x Hx]. split; [eauto|]. destruct (w_asleep w) eqn:Has.
  - destruct (ok_asleep c Hok w Hw Has) as [?|[Hin (y & Hy & Hnc)]]; [by left|right].
    apply list_elem_of_fmap in Hin as (l & Hl & (ls1 & ls2 & E)%list_elem_of_split).
    exists l, ls1, ls2. split_and!; [done|done|]. intros r ws <-. unfold finishLoad.
    rewrite Hy. apply Forall_forall. intros w' Hw' E'.
    destruct (state y); try done; by eapply broadcast_awake.
  - unfold wake. rewrite Hx. case_decide as Hp; [right|left; eauto]. by eapply ok_pending.
Qed.

(** What [Get] answers with is never pending; a ready value has no error, and an
    error entry has one. *)
Theorem cache_value_consistent c key v c' :
  rtc cache_step (NewLoadingCache st_New) c → Get c key = (inl v, c') →
  State v ≠ EntryPending ∧
  match State v with
  | EntryReady => is_Some (Value_ v) ∧ Error_ v = None
  | EntryError => is_Some (Error_ v)
  | _ => True
  end.
Proof.
  intros Hr Hg. pose proof (cache_reach_ok _ _ Hr cache_ok_new) as Hok. unfold Get in Hg.
  destruct (lookup_key c key) as [[e x]|] eqn:E; [|injection Hg as <- _; simpl; eauto].
  apply lookup_key_some in E as [_ Hx]. pose proof (ok_entry c Hok e x Hx) as Hex.
  destruct (state x) eqn:Es; simplify_eq; simpl; rewrite Es; done.
Qed.

(** Replace on an entry that is being loaded does not stop that load: when it
    ends, its value is stored as ready, and Get answers with the value of the
    function that was replaced. *)
Theorem replace_during_load c key e x fn fresh old ls1 ls2 v :
  lookup_key c key = Some (e, x) → loads c = ls1 ++ Loading e old :: ls2 →
  let c1 := Replace c fresh key fn in
  let c2 := finishLoad c1 e (ls1 ++ ls2) (Ok v) in
  cache_step c1 c2 ∧ loads c2 = ls1 ++ ls2 ∧ ∃ c3, Get c2 key = (inl (mkValue EntryReady (Some v) None), c3).
Proof.
  intros Hk Hl. destruct (lookup_key_some _ _ _ _ Hk) as [Hs Hx]. unfold Replace. rewrite Hk.
  cbv zeta. split_and!.
  - apply StepFinish with old. done.
  - unfold finishLoad; simpl. by rewrite lookup_insert_eq.
  - eexists. unfold finishLoad; simpl. rewrite lookup_insert_eq. simpl.
    unfold Get, lookup_key; simpl. rewrite Hs. simpl. by rewrite lookup_insert_eq.
Qed.

(** [Put] registers a key once, and a second [Put] changes nothing. *)
Theorem cache_put_once c fresh key fn fn' fresh' :
  st_Get (store c) key = None →
  (Put c fresh key fn).1 = None ∧ Check_ (Put c fresh key fn).2 key = true ∧
  Put (Put c fresh key fn).2 fresh' key fn' =
    (Some (DuplicateEntryError "[LoadingCache] Put"), (Put c fresh key fn).2) ∧
  errors_Is (DuplicateEntryError "[LoadingCache] Put") ErrExists = true ∧
  ∀ key', key' ≠ key → st_Get (store (Put c fresh key fn).2) key' = st_Get (store c) key'.
Proof.
  intros Hn. unfold Put, Check_.
  assert (lookup_key c key = None) as -> by (unfold lookup_key; by rewrite Hn). simpl.
  assert (lookup_key (newEntry c fresh key fn) key = Some (fresh, mkEntry EntryInit fn None None)) as ->.
  { unfold lookup_key; simpl. rewrite store_get_put, decide_True by done. simpl. by rewrite lookup_insert_eq. }
  split_and!; try done. intros key' Hne. by rewrite store_get_put, decide_False.
Qed.

End Cache.

(** ** Examples *)

(** One caller waits for the load of the only key. *)
Definition example_cache : cache (V := string) (St := MapStore) :=
  (Get (newEntry (NewLoadingCache st_New) 0 "k" 7) "k").2.

Lemma example_cache_reach : rtc cache_step (NewLoadingCache st_New) example_cache.
Proof.
  eapply rtc_l; [apply (StepPut _ "k" 7 0); apply lookup_empty|].
  apply rtc_once. apply (StepGet _ "k").
Qed.

Lemma cache_no_lost_wakeup_witness :
  (∃ x, entries example_cache !! 0 = Some x) ∧
  (0 ∈ broadcasts example_cache ∨
   ∃ l ls1 ls2, loads example_cache = ls1 ++ l :: ls2 ∧ load_entry l = 0 ∧
     ∀ r ws, waiters (finishLoad example_cache 0 (ls1 ++ ls2) r) = ws →
             Forall (λ w', w_entry w' = 0 → w_asleep w' = false) ws).
Proof.
  apply (cache_no_lost_wakeup example_cache (mkWaiter 0 true)); [apply example_cache_reach|].
  vm_compute. apply list_elem_of_here.
Defined.

(** The entry's first load is running when its loading function is replaced. *)
Lemma replace_during_load_witness :
  let c := set_loads example_cache [Loading 0 7] in
  let c2 := finishLoad (Replace c 1 "k" 8) 0 [] (Ok "value of 7") in
  loads c2 = [] ∧ (Get c2 "k").1 = inl (mkValue EntryReady (Some "value of 7") None).
Proof.
  intros c c2.
  destruct (replace_during_load (St := MapStore) c "k" 0 (mkEntry EntryPending 7 None None) 8 1 7 [] [] "value of 7")
    as (_ & Hl & c3 & Hget); [reflexivity|reflexivity|].
  split; [exact Hl|]. exact (f_equal fst Hget).
Defined.
