(* ===== verification/AuthCache.v ===== *)
(** * The authorization cache: e2core/auth/cache.go

    A client of the loading cache.  Requests are handled one after the other
    here, so a load that [Get] waits for runs to its end; [spec_get] is what
    the cache should do: answer from a decision that is not expired, otherwise
    ask, and remember a success. *)

From S2P Require Import Prelude.
From S2P Require Import Store.
From S2P Require Import Cache.

Record TenantInfo : Type := mkTenant {
  AuthorizedParty : string; Environment : string; TenantID : string; TenantName : string
}.

Record expiringContext : Type := mkExpiring { exp : Z; ctx : option TenantInfo }.

Section AuthCache.
Context {St : Type} `{St_ops : CacheStore St} `{St_laws : !StoreLaws St} (ttl : Z).

Definition acache : Type := cache (V := expiringContext) (St := St).

(** [loadingFunc]: the loader around the request to the control plane, whose
    answer is [authorize fn]; [now] is the clock when it returns. *)
Definition loadingFunc_ (authorize : nat → result (option TenantInfo)) (now : Z) (fn : nat) :
    result expiringContext :=
  c ← authorize fn; Ok (mkExpiring (now + ttl) c).

(** [Get] of the loading cache, with the load it waits for run to its end. *)
Definition get_wait (run : nat → result expiringContext) (c : acache) (key : string) :
    option (Value * acache) :=
  match Get c key with
  | (inl v, c1) => Some (v, c1)
  | (inr e, c1) =>
      match loads c1, entries c1 !! e with
      | [Starting e'], Some x =>
          let c2 := finishLoad c1 e' [] (run (loadingFunc x)) in
          match waiters c2, wake c2 e with
          | [w], Some v => Some (v, set_waiters c2 [])
          | _, _ => None
          end
      | _, _ => None
      end
  end.

(** The end of [AuthorizationCache.Get]. *)
Definition auth_finish (fresh : nat) (key : string) (newFunc : nat) (entry : Value) (c : acache) :
    outcome (result (option TenantInfo)) * acache :=
  match Error_ entry with
  | Some e => (Val (Err e), Replace c fresh key newFunc)
  | None => (match Value_ entry with Some x => Val (Ok (ctx x)) | None => Panic NilDeref end, c)
  end.

(** [AuthorizationCache.Get]: [now] is the time of the test, [now'] that of the
    load.  A Get that loads twice, because the first load failed over an expired
    value, gets the same answer of the authorizer at the same time from both.  The
    code reads the clock for the test after the first load; the histories below take
    [now] not later than [now'], which differs for a new decision only when the
    time to live passes between its load and the test. *)
Definition AuthGet (authorize : nat → result (option TenantInfo)) (now now' : Z) (fresh : nat)
    (c : acache) (key : string) (newFunc : nat) : option (outcome (result (option TenantInfo)) * acache) :=
  let run := loadingFunc_ authorize now' in
  let c1 := if Check_ c key then c else (Put c fresh key newFunc).2 in
  '(entry, c2) ← get_wait run c1 key;
  match Value_ entry with
  | Some x =>
      if decide (now < exp x)%Z
      then Some (Val (match Error_ entry with Some e => Err e | None => Ok (ctx x) end), c2)
      else
        '(entry2, c3) ← get_wait run (Refresh c2 key).2 key;
        Some (auth_finish fresh key newFunc entry2 c3)
  | None => Some (auth_finish fresh key newFunc entry c2)
  end.

(** ** What the cache should do *)

Definition spec_get (a : gmap string expiringContext) (key : string) (now now' : Z)
    (r : result (option TenantInfo)) : result (option TenantInfo) * gmap string expiringContext :=
  let ask := match r with
             | Ok c => (Ok c, <[key := mkExpiring (now' + ttl) c]> a)
             | Err e => (Err e, a)
             end in
  match a !! key with
  | Some x => if decide (now < exp x)%Z then (Ok (ctx x), a) else ask
  | None => ask
  end.

Context (fnOf : string → nat).

(** An entry against the remembered decision: ready, or to be loaded with
    nothing in it that is still valid at [t]. *)
Definition entry_rel (t : Z) (key : string) (x : Entry) (m : option expiringContext) : Prop :=
  Cache.loadingFunc x = fnOf key ∧ value x = m ∧
  (state x = EntryReady ∧ err x = None ∧ is_Some m ∨
   state x = EntryInit ∧ ∀ v, m = Some v → (exp v ≤ t)%Z).

Record rel (t : Z) (c : acache) (a : gmap string expiringContext) : Prop := {
  rel_loads : loads c = [];
  rel_waiters : waiters c = [];
  rel_inj k k' e : st_Get (store c) k = Some e → st_Get (store c) k' = Some e → k = k';
  rel_stored k e : st_Get (store c) k = Some e → ∃ x, entries c !! e = Some x ∧ entry_rel t k x (a !! k);
  rel_absent k : st_Get (store c) k = None → a !! k = None
}.

Lemma rel_new t : rel t (NewLoadingCache st_New) ∅.
Proof. split; simpl; intros *; rewrite ?store_get_new; done. Qed.

Lemma entry_rel_later t t' key x m : (t ≤ t')%Z → entry_rel t key x m → entry_rel t' key x m.
Proof.
  intros Ht (H1 & H2 & [H|[H3 H4]]); (split; [done|split; [done|]]); [by left|right].
  split; [done|]. intros v Hv. specialize (H4 v Hv). lia.
Qed.

(** Overwriting the entry of [key] and its decision. *)
Lemma rel_write t t' c a key e x1 m bs :
  rel t c a → (t ≤ t')%Z → st_Get (store c) key = Some e → entry_rel t' key x1 m →
  rel t' (mkCache (store c) (<[e := x1]> (entries c)) [] [] bs)
    (match m with Some v => <[key := v]> a | None => delete key a end).
Proof.
  intros [Hl Hw Hi Hs Ha] Ht Hk Hx.
  assert (∀ k, (match m with Some v => <[key := v]> a | None => delete key a end) !! k =
               if decide (key = k) then m else a !! k) as Hlk.
  { intros k. destruct m; rewrite ?lookup_insert, ?lookup_delete; by case_decide. }
  split; simpl; try done.
  - intros k e' He'. rewrite Hlk. destruct (Hs k e' He') as (y & Hy & Hrel).
    destruct (decide (key = k)) as [->|Hne].
    + assert (e' = e) as -> by congruence. exists x1. by rewrite lookup_insert_eq.
    + exists y. rewrite lookup_insert_ne by (intros ->; apply Hne; by eapply Hi).
      split; [done|]. by eapply entry_rel_later.
  - intros k Hk'. rewrite Hlk, decide_False by congruence. by apply Ha.
Qed.

Lemma rel_lookup_key t c a key e :
  rel t c a → st_Get (store c) key = Some e →
  ∃ x, lookup_key c key = Some (e, x) ∧ entries c !! e = Some x ∧ entry_rel t key x (a !! key).
Proof.
  intros Hr He. destruct (rel_stored _ _ _ Hr key e He) as (x & Hx & Hrel).
  exists x. split; [|done]. unfold lookup_key. rewrite He. simpl. by rewrite Hx.
Qed.

(** Registering a key that the cache does not know. *)
Lemma rel_put t c a key fresh :
  rel t c a → st_Get (store c) key = None → entries c !! fresh = None →
  rel t (newEntry c fresh key (fnOf key)) a.
Proof.
  intros [Hl Hw Hi Hs Ha] Hk Hf.
  assert (∀ k, st_Get (store c) k = Some fresh → False) as Hfresh.
  { intros k Hk'. destruct (Hs k fresh Hk') as (x & Hx & _). congruence. }
  split; simpl; try done.
  - intros k k' e. rewrite !store_get_put. repeat case_decide; naive_solver.
  - intros k e. rewrite store_get_put. case_decide as E.
    + intros [= <-]. exists (mkEntry EntryInit (fnOf key) None None). subst k.
      rewrite lookup_insert_eq. split; [done|]. split; [done|]. rewrite (Ha _ Hk). split; [done|].
      right. by split.
    + intros He. rewrite lookup_insert_ne by (intros ->; eauto). by apply Hs.
  - intros k. rewrite store_get_put. case_decide; [done|]. apply Ha.
Qed.

(** A load that is waited for. *)
Lemma get_wait_load run (c : acache) key e x :
  lookup_key c key = Some (e, x) → entries c !! e = Some x → waiters c = [] →
  (state x = EntryInit ∧ loads c = []) ∨ (state x = EntryPending ∧ loads c = [Starting e]) →
  let x1 := match run (Cache.loadingFunc x) with
            | Ok v => mkEntry EntryReady (Cache.loadingFunc x) (Some v) None
            | Err er => mkEntry EntryError (Cache.loadingFunc x) (value x) (Some er)
            end in
  ∃ c', get_wait run c key = Some (snapshot x1, c') ∧ store c' = store c ∧
        entries c' = <[e := x1]> (entries c) ∧ loads c' = [] ∧ waiters c' = [].
Proof.
  intros Hk Hx Hw Hs. cbv zeta. unfold get_wait, Get. rewrite Hk.
  destruct Hs as [[Hst Hl]|[Hst Hl]]; rewrite Hst; simpl; rewrite ?Hl, ?Hw; simpl;
    unfold finishLoad; simpl; rewrite ?lookup_insert_eq, ?Hx; simpl;
    rewrite ?lookup_insert_eq, ?Hst; simpl; unfold wake; simpl; rewrite ?lookup_insert_eq;
    rewrite decide_False by (by destruct (run _));
    eexists; (split; [done|]); simpl; rewrite ?insert_insert_eq; done.
Qed.

(** What a load leaves in an entry with the value [m]. *)
Definition loaded (key : string) (m : option expiringContext) (r : result expiringContext) : Entry :=
  match r with
  | Ok v => mkEntry EntryReady (fnOf key) (Some v) None
  | Err er => mkEntry EntryError (fnOf key) m (Some er)
  end.

(** The answer and the cache after a load. *)
Lemma auth_finish_rel t t' c c' a key e fresh r now' :
  rel t c a → (t ≤ t')%Z → st_Get (store c) key = Some e →
  (∀ v, a !! key = Some v → exp v ≤ t')%Z →
  store c' = store c → loads c' = [] → waiters c' = [] →
  entries c' = <[e := loaded key (a !! key) (c ← r; Ok (mkExpiring (now' + ttl) c))]> (entries c) →
  ∃ c'', auth_finish fresh key (fnOf key) (snapshot (loaded key (a !! key) (c ← r; Ok (mkExpiring (now' + ttl) c)))) c' =
           (Val r, c'') ∧
         rel t' c'' (match r with Ok c => <[key := mkExpiring (now' + ttl) c]> a | Err _ => a end).
Proof.
  intros Hr Ht Hk Hexp Hst Hl Hw He. destruct r as [v|er]; simpl in *.
  - eexists. split; [done|]. destruct c' as [st es ls ws bs]. simpl in *. subst.
    apply (rel_write t t' c a key e _ (Some (mkExpiring (now' + ttl) v)) bs Hr Ht Hk).
    split; [done|]. split; [done|]. left. eauto.
  - unfold auth_finish; simpl. eexists. split; [done|].
    unfold Replace, lookup_key. rewrite Hst, Hk. simpl. rewrite He, lookup_insert_eq. simpl.
    unfold set_entry. rewrite Hst, Hl, Hw, He, insert_insert_eq.
    assert (a = match a !! key with Some v => <[key := v]> a | None => delete key a end) as Ha.
    { destruct (a !! key) eqn:E; [by rewrite insert_id|by rewrite delete_id]. }
    rewrite Ha at 2. apply (rel_write t); [done..|].
    split; [done|]. split; [done|]. right. split; [done|]. exact Hexp.
Qed.

Lemma get_wait_refresh run (c : acache) key e x :
  lookup_key c key = Some (e, x) → entries c !! e = Some x → waiters c = [] → loads c = [] →
  Cache.loadingFunc x = fnOf key →
  ∃ c', get_wait run (Refresh c key).2 key = Some (snapshot (loaded key (value x) (run (fnOf key))), c') ∧
        store c' = store c ∧ entries c' = <[e := loaded key (value x) (run (fnOf key))]> (entries c) ∧
        loads c' = [] ∧ waiters c' = [].
Proof.
  intros Hk Hx Hw Hl Hfn. unfold Refresh. rewrite Hk. simpl.
  destruct (lookup_key_some _ _ _ _ Hk) as [Hs _].
  destruct (get_wait_load run (asyncLoad c e x) key e
    (mkEntry EntryPending (Cache.loadingFunc x) (value x) (err x))) as (c' & E & H1 & H2 & H3 & H4).
  - unfold lookup_key; simpl. rewrite Hs. simpl. by rewrite lookup_insert_eq.
  - apply lookup_insert_eq.
  - done.
  - right. simpl. by rewrite Hl.
  - exists c'. unfold loaded. simpl in *. rewrite Hfn in *.
    destruct (run (fnOf key)); simpl in *; rewrite H2, insert_insert_eq; split_and!; done.
Qed.

(** The request for a key that is registered and was not loaded, or not since its
    decision has expired. *)
Lemma auth_get_stale authorize t now now' fresh c a key e x :
  rel t c a → (t ≤ now ≤ now')%Z → (0 < ttl)%Z → st_Get (store c) key = Some e →
  lookup_key c key = Some (e, x) → entries c !! e = Some x → Cache.loadingFunc x = fnOf key → value x = a !! key →
  state x = EntryInit → (∀ v, a !! key = Some v → (exp v ≤ t)%Z) →
  let '(r, a') := spec_get a key now now' (authorize (fnOf key)) in
  ∃ c', AuthGet authorize now now' fresh c key (fnOf key) = Some (Val r, c') ∧ rel now' c' a'.
Proof.
  intros Hr Ht Httl Hk Hlk Hx Hfn Hv Hst Hstale.
  unfold AuthGet, spec_get. assert (Check_ c key = true) as -> by (unfold Check_; by rewrite Hlk).
  cbv zeta iota.
  destruct (get_wait_load (loadingFunc_ authorize now') c key e x Hlk Hx (rel_waiters _ _ _ Hr)) as
    (c' & E1 & H1 & H2 & H3 & H4); [left; split; [done|apply Hr]|].
  rewrite Hfn in E1, H2.
  change (match loadingFunc_ authorize now' (fnOf key) with
          | Ok v => mkEntry EntryReady (fnOf key) (Some v) None
          | Err er => mkEntry EntryError (fnOf key) (value x) (Some er) end)
    with (loaded key (value x) (loadingFunc_ authorize now' (fnOf key))) in E1, H2.
  rewrite E1. cbn [mbind option_bind].
  assert (∀ v, a !! key = Some v → (exp v ≤ now')%Z) as Hstale'.
  { intros v Hv'. specialize (Hstale v Hv'). lia. }
  destruct (auth_finish_rel t now' c c' a key e fresh (authorize (fnOf key)) now') as (c'' & E & Hr'');
    [done|lia|done|done|done|done|done|by rewrite <- Hv|].
  assert (match a !! key with
          | Some x0 => if decide (now < exp x0)%Z then (Ok (ctx x0), a)
              else match authorize (fnOf key) with
                   | Ok c0 => (Ok c0, <[key:=mkExpiring (now' + ttl) c0]> a) | Err e0 => (Err e0, a) end
          | None => match authorize (fnOf key) with
                   | Ok c0 => (Ok c0, <[key:=mkExpiring (now' + ttl) c0]> a) | Err e0 => (Err e0, a) end
          end = match authorize (fnOf key) with
                   | Ok c0 => (Ok c0, <[key:=mkExpiring (now' + ttl) c0]> a) | Err e0 => (Err e0, a) end) as ->.
  { destruct (a !! key) as [v|]; [|done]. rewrite decide_False; [done|]. specialize (Hstale v eq_refl). lia. }
  rewrite Hv. unfold loadingFunc_ in *. destruct (authorize (fnOf key)) as [tn|er] eqn:Eau; simpl in *.
  + rewrite decide_True by lia. unfold auth_finish in E; simpl in E. simplify_eq. eauto.
  + destruct (a !! key) as [v|] eqn:Eak; [|rewrite E; eauto].
    rewrite decide_False by (specialize (Hstale v eq_refl); lia).
    destruct (get_wait_refresh (λ fn, c0 ← authorize fn; Ok (mkExpiring (now' + ttl) c0)) c' key e
      (mkEntry EntryError (fnOf key) (value x) (Some er))) as (c3 & -> & F1 & F2 & F3 & F4).
    { unfold lookup_key. rewrite H1, Hk. simpl. by rewrite H2, lookup_insert_eq. }
    { by rewrite H2, lookup_insert_eq. }
    { done. } { done. } { done. }
    destruct (auth_finish_rel t now' c c3 a key e fresh (Err er) now') as (c4 & E4 & Hr4);
      [done|lia|done|by rewrite Eak|congruence|done|done| |].
    { rewrite F2, H2, insert_insert_eq, Eau. simpl. by rewrite Hv, Eak. }
    rewrite Eau. simpl in *. rewrite Eak in E4. rewrite Hv, E4. eauto.
Qed.

(** The request for a key that is registered. *)
Lemma auth_get_known authorize t now now' fresh c a key e :
  rel t c a → (t ≤ now ≤ now')%Z → (0 < ttl)%Z → st_Get (store c) key = Some e →
  let '(r, a') := spec_get a key now now' (authorize (fnOf key)) in
  ∃ c', AuthGet authorize now now' fresh c key (fnOf key) = Some (Val r, c') ∧ rel now' c' a'.
Proof.
  intros Hr Ht Httl Hk. destruct (rel_lookup_key _ _ _ _ _ Hr Hk) as (x & Hlk & Hx & Hfn & Hv & Hst).
  destruct Hst as [(Hst & Her & [v Ev])|[Hst Hstale]]; [|by eapply auth_get_stale].
  unfold AuthGet, spec_get. assert (Check_ c key = true) as -> by (unfold Check_; by rewrite Hlk).
  cbv zeta iota. assert (get_wait (loadingFunc_ authorize now') c key = Some (snapshot x, c)) as ->
    by (unfold get_wait, Get; by rewrite Hlk, Hst). cbn [mbind option_bind snapshot Value_ Error_].
  rewrite Hv, Ev. case_decide as Hfresh.
  { rewrite Her. eexists. split; [done|]. destruct Hr as [H1 H2 H3 H4 H5]. split; try done.
    intros k e' He'. destruct (H4 k e' He') as (y & ? & Hy). exists y. split; [done|].
    eapply entry_rel_later, Hy. lia. }
  destruct (get_wait_refresh (loadingFunc_ authorize now') c key e x Hlk Hx (rel_waiters _ _ _ Hr)
    (rel_loads _ _ _ Hr) Hfn) as (c' & -> & H1 & H2 & H3 & H4). cbn [mbind option_bind].
  destruct (auth_finish_rel t now' c c' a key e fresh (authorize (fnOf key)) now') as (c'' & E & Hr'');
    [done|lia|done| |done|done|done|by rewrite <- Hv|].
  { rewrite Ev. intros ? [= <-]. lia. }
  rewrite <- Hv in E. unfold loadingFunc_. rewrite E.
  destruct (authorize (fnOf key)); eauto.
Qed.

(** ** Histories of requests *)

Record request : Type := mkReq {
  r_key : string; r_now : Z; r_load : Z; r_answer : nat → result (option TenantInfo)
}.

Fixpoint auth_run (c : acache) (reqs : list request) : option (list (outcome (result (option TenantInfo)))) :=
  match reqs with
  | [] => Some []
  | q :: reqs =>
      '(r, c1) ← AuthGet (r_answer q) (r_now q) (r_load q) (fresh (dom (entries c))) c (r_key q) (fnOf (r_key q));
      rs ← auth_run c1 reqs; Some (r :: rs)
  end.

Fixpoint spec_run (a : gmap string expiringContext) (reqs : list request) : list (result (option TenantInfo)) :=
  match reqs with
  | [] => []
  | q :: reqs =>
      let '(r, a1) := spec_get a (r_key q) (r_now q) (r_load q) (r_answer q (fnOf (r_key q))) in
      r :: spec_run a1 reqs
  end.

(** The requests come one after the other. *)
Fixpoint in_time (t : Z) (reqs : list request) : Prop :=
  match reqs with
  | [] => True
  | q :: reqs => (t ≤ r_now q ≤ r_load q)%Z ∧ in_time (r_load q) reqs
  end.

(** A request, whether its key is registered or not. *)
Lemma auth_get_rel authorize t now now' fr c a key :
  rel t c a → (t ≤ now ≤ now')%Z → (0 < ttl)%Z → entries c !! fr = None →
  let '(r, a') := spec_get a key now now' (authorize (fnOf key)) in
  ∃ c', AuthGet authorize now now' fr c key (fnOf key) = Some (Val r, c') ∧ rel now' c' a'.
Proof.
  intros Hr Ht Httl Hf. destruct (st_Get (store c) key) as [e|] eqn:Hk; [by eapply auth_get_known|].
  assert (Check_ c key = false) as Hck by (unfold Check_, lookup_key; by rewrite Hk).
  assert ((Put c fr key (fnOf key)).2 = newEntry c fr key (fnOf key)) as Hput
    by (unfold Put, lookup_key; by rewrite Hk).
  pose proof (rel_put t c a key fr Hr Hk Hf) as Hr1.
  assert (st_Get (store (newEntry c fr key (fnOf key))) key = Some fr) as Hk1 by (simpl; by rewrite store_get_put, decide_True).
  pose proof (auth_get_known authorize t now now' fr _ a key fr Hr1 Ht Httl Hk1) as Hknown.
  assert (AuthGet authorize now now' fr c key (fnOf key) =
          AuthGet authorize now now' fr (newEntry c fr key (fnOf key)) key (fnOf key)) as ->; [|done].
  unfold AuthGet. rewrite Hck, Hput.
  assert (Check_ (newEntry c fr key (fnOf key)) key = true) as ->; [|done].
  unfold Check_, lookup_key. rewrite Hk1. simpl. by rewrite lookup_insert_eq.
Qed.

Lemma auth_run_rel t c a reqs :
  (0 < ttl)%Z → rel t c a → in_time t reqs → auth_run c reqs = Some (Val <$> spec_run a reqs).
Proof.
  intros Httl. revert t c a. induction reqs as [|q reqs IH]; intros t c a Hr Ht; [done|].
  destruct Ht as [Hq Ht]. cbn [auth_run spec_run].
  pose proof (auth_get_rel (r_answer q) t (r_now q) (r_load q) (fresh (dom (entries c))) c a (r_key q)
    Hr Hq Httl) as Hget.
  destruct (spec_get a (r_key q) (r_now q) (r_load q) (r_answer q (fnOf (r_key q)))) as [r a1].
  destruct Hget as (c1 & -> & Hr1).
  { apply not_elem_of_dom. apply is_fresh. }
  simpl. rewrite (IH (r_load q) c1 a1 Hr1 Ht). done.
Qed.

(** What a remembered decision is: an answer of the control plane to the same
    key, less than [ttl] old when it is given again. *)
Definition remembered (a : gmap string expiringContext) (hist : list request) : Prop :=
  ∀ key x, a !! key = Some x →
    ∃ q, q ∈ hist ∧ r_key q = key ∧ r_answer q (fnOf key) = Ok (ctx x) ∧ exp x = (r_load q + ttl)%Z.

Lemma spec_get_remembered a hist q :
  remembered a hist →
  let '(r, a') := spec_get a (r_key q) (r_now q) (r_load q) (r_answer q (fnOf (r_key q))) in
  remembered a' (hist ++ [q]) ∧
  ∀ tn, r = Ok tn → ∃ p, p ∈ hist ++ [q] ∧ r_key p = r_key q ∧
    r_answer p (fnOf (r_key q)) = Ok tn ∧ (p = q ∨ (r_now q < r_load p + ttl)%Z).
Proof.
  intros Ha. assert (remembered a (hist ++ [q])) as Ha'.
  { intros key x Hx. destruct (Ha key x Hx) as (p & ? & ?). exists p. set_solver. }
  assert (let '(r, a') := match r_answer q (fnOf (r_key q)) with
            | Ok c => (Ok c, <[r_key q := mkExpiring (r_load q + ttl) c]> a)
            | Err e => (Err e, a) end in
    remembered a' (hist ++ [q]) ∧ ∀ tn, r = Ok tn → ∃ p, p ∈ hist ++ [q] ∧ r_key p = r_key q ∧
      r_answer p (fnOf (r_key q)) = Ok tn ∧ (p = q ∨ (r_now q < r_load p + ttl)%Z)) as Hask.
  { destruct (r_answer q (fnOf (r_key q))) as [c|e] eqn:Eq; [|split; [done|by intros]]. split.
    - intros key x. rewrite lookup_insert. case_decide; [|apply Ha'].
      intros [= <-]. subst key. exists q. simpl. set_solver.
    - intros tn [= <-]. exists q. set_solver. }
  unfold spec_get. destruct (a !! r_key q) as [x|] eqn:Hx; [|done].
  destruct (decide (r_now q < exp x)%Z); [|done]. split; [done|]. intros tn [= <-].
  destruct (Ha _ _ Hx) as (p & Hp & Hk & Hans & He). exists p. split; [set_solver|].
  split; [done|]. split; [done|]. right. lia.
Qed.

(** A tenant that the authorization cache answers with was the answer of the
    control plane to the same key, in this request or less than the time to live
    ago. *)
Theorem auth_answers_recent reqs i q tn :
  reqs !! i = Some q → spec_run ∅ reqs !! i = Some (Ok tn) →
  ∃ p, p ∈ take (S i) reqs ∧ r_key p = r_key q ∧ r_answer p (fnOf (r_key q)) = Ok tn ∧
       (p = q ∨ (r_now q < r_load p + ttl)%Z).
Proof.
  assert (∀ hist a, remembered a hist → reqs !! i = Some q → spec_run a reqs !! i = Some (Ok tn) →
    ∃ p, p ∈ hist ++ take (S i) reqs ∧ r_key p = r_key q ∧ r_answer p (fnOf (r_key q)) = Ok tn ∧
         (p = q ∨ (r_now q < r_load p + ttl)%Z)) as H.
  { revert i. induction reqs as [|q0 reqs IH]; intros i hist a Ha Hi Hs; [done|].
    simpl in Hs. pose proof (spec_get_remembered a hist q0 Ha) as Hget.
    destruct (spec_get a (r_key q0) (r_now q0) (r_load q0) (r_answer q0 (fnOf (r_key q0)))) as [r a1].
    destruct Hget as [Ha1 Hr]. destruct i as [|i]; simpl in *.
    - simplify_eq. by apply Hr.
    - destruct (IH i (hist ++ [q0]) a1 Ha1 Hi Hs) as (p & Hp & Hrest). exists p.
      rewrite <- app_assoc in Hp. done. }
  intros Hi Hs. apply (H [] ∅); [|done|done]. intros key x. by rewrite lookup_empty.
Qed.

End AuthCache.

(** ** The cache that the control process makes *)

(** [newAuthorizationCache], in a tree store. *)
Definition newAuthorizationCache {T : Type} `{ArtTree T} : acache (St := TreeStore T) := NewLoadingCache NewTreeStore.

(** C2: The authorization cache, which is written on top of the loading cache over
    a tree store, with its entries, states and asynchronous loads, answers every
    list of requests the way the abstract cache does: from a decision that has not
    expired, otherwise by asking the control plane and remembering a success for
    the time to live; it never panics and never waits for a load that is not
    there. *)
Theorem auth_cache_refines {T : Type} `{ArtLaws T} ttl fnOf reqs :
  (0 < ttl)%Z → in_time (match reqs with q :: _ => r_now q | [] => 0%Z end) reqs →
  auth_run (St := TreeStore T) ttl fnOf newAuthorizationCache reqs = Some (Val <$> spec_run ttl fnOf ∅ reqs).
Proof. intros Httl Ht. eapply auth_run_rel; [done|exact (rel_new fnOf _)|done]. Qed.

(** ** Examples *)

Import MapTree.

Definition example_tenant (n : string) : option TenantInfo := Some (mkTenant "party" "dev" n n).

(** Two requests with the same key, five seconds apart; the control plane has
    changed its mind in between. *)
Definition example_requests : list request :=
  [mkReq "k" 0 1 (λ _, Ok (example_tenant "old")); mkReq "k" 5 6 (λ _, Err (ErrExt "gone"))].

Lemma auth_cache_refines_witness :
  auth_run (St := TreeStore (gmap string nat)) 10 (λ _, 0) newAuthorizationCache example_requests =
    Some [Val (Ok (example_tenant "old")); Val (Ok (example_tenant "old"))].
Proof. apply (auth_cache_refines 10 (λ _, 0) example_requests); simpl; lia. Defined.

Lemma auth_answers_recent_witness :
  ∃ p, p ∈ example_requests ∧ r_key p = "k" ∧ r_answer p 0 = Ok (example_tenant "old") ∧
       (p = mkReq "k" 5 6 (λ _, Err (ErrExt "gone")) ∨ (5 < r_load p + 10)%Z).
Proof.
  apply (auth_answers_recent 10 (λ _, 0) example_requests 1 (mkReq "k" 5 6 (λ _, Err (ErrExt "gone"))));
    reflexivity.
Defined.
