(* ===== verification/Access.v ===== *)
(** * Access: e2core/auth/access.go, sat/sat/access.go

    Reading the token from the header, the key under which a decision is
    cached, and the middleware.  [path_Join] is [filepath.Join]: the non-empty
    elements joined by a slash and cleaned. *)

From S2P Require Common.
From S2P Require Import Prelude.
From S2P Require Import AuthCache.
From Stdlib Require Import Ascii.
From stdpp Require Import pretty.

Record AccessToken : Type := mkToken { scheme : string; token_value : string }.

Definition NewAccessToken (token : string) : option AccessToken :=
  if decide (token ≠ "") then Some (mkToken "Bearer" token) else None.

(** [strings.Index] for a one-character needle. *)
Fixpoint index_of (c : ascii) (s : string) : option nat :=
  match s with
  | EmptyString => None
  | String a s => if decide (a = c) then Some 0 else S <$> index_of c s
  end.

Definition strings_Index (s : string) (c : ascii) : Z :=
  match index_of c s with Some i => Z.of_nat i | None => -1 end.

(** [s[:hi]] and [s[lo:]] *)
Definition slice_to (s : string) (hi : Z) : outcome string :=
  if decide (0 ≤ hi ≤ Z.of_nat (String.length s))%Z
  then Val (String.substring 0 (Z.to_nat hi) s) else Panic SliceRange.
Definition slice_from (s : string) (lo : Z) : outcome string :=
  if decide (0 ≤ lo ≤ Z.of_nat (String.length s))%Z
  then Val (String.substring (Z.to_nat lo) (String.length s - Z.to_nat lo) s) else Panic SliceRange.

(** [ExtractAccessToken]: [authInfo] is the value of the Authorization header. *)
Definition ExtractAccessToken (authInfo : string) : outcome (option AccessToken) :=
  if decide (authInfo = "") then Val None
  else
    let splitAt := strings_Index authInfo " " in
    if decide (splitAt = 0)%Z then Val None
    else
      s ← slice_to authInfo splitAt;
      v ← slice_from authInfo (splitAt + 1);
      Val (Some (mkToken s v)).

Lemma index_of_app c s t : index_of c s = None → index_of c (s +:+ String c t) = Some (String.length s).
Proof.
  induction s as [|a s IH]; simpl; [by rewrite decide_True|].
  case_decide; [done|]. destruct (index_of c s) eqn:E; [done|]. intros _. by rewrite IH.
Qed.

Lemma length_string_app s t : String.length (s +:+ t) = String.length s + String.length t.
Proof. induction s as [|a s IH]; simpl; [done|]. by rewrite IH. Qed.

Lemma substring_prefix s t : String.substring 0 (String.length s) (s +:+ t) = s.
Proof. induction s as [|a s IH]; simpl; [by destruct t|]. by rewrite IH. Qed.

Lemma substring_all s : String.substring 0 (String.length s) s = s.
Proof. induction s as [|a s IH]; simpl; [done|]. by rewrite IH. Qed.

Lemma substring_skip s t n : String.substring (String.length s) n (s +:+ t) = String.substring 0 n t.
Proof. induction s as [|a s IH]; simpl; [done|]. apply IH. Qed.

Lemma string_app_cons s c t : s +:+ String c t = (s +:+ String c "") +:+ t.
Proof.
  induction s as [|a s IH]; [done|].
  change (String a (s +:+ String c t) = String a ((s +:+ String c "") +:+ t)). by rewrite IH.
Qed.

(** A header made of a scheme, a space and a token is read back as these two. *)
Theorem token_roundtrip sch val :
  index_of " " sch = None → sch ≠ "" →
  ExtractAccessToken (sch +:+ " " +:+ val) = Val (Some (mkToken sch val)).
Proof.
  intros Hs Hne. unfold ExtractAccessToken. rewrite decide_False by (by destruct sch).
  unfold strings_Index. change (" " +:+ val) with (String " " val). rewrite index_of_app by done.
  assert (String.length sch ≠ 0) by (by destruct sch). rewrite decide_False by lia.
  assert (String.length (sch +:+ String " " val) = String.length sch + S (String.length val)) as Hl
    by apply length_string_app.
  unfold slice_to, slice_from. rewrite Hl, !decide_True by lia. run.
  rewrite Nat2Z.id, substring_prefix. do 3 f_equal.
  replace (Z.to_nat (Z.of_nat (String.length sch) + 1)) with (String.length (sch +:+ " "))
    by (rewrite length_string_app; simpl; lia).
  rewrite (string_app_cons sch " " val), substring_skip, length_string_app. simpl.
  replace (String.length sch + S (String.length val) - (String.length sch + 1)) with (String.length val) by lia.
  apply substring_all.
Qed.

(** A header without a space makes [ExtractAccessToken] panic. *)
Theorem token_without_space_panics authInfo :
  authInfo ≠ "" → index_of " " authInfo = None → ExtractAccessToken authInfo = Panic SliceRange.
Proof.
  intros Hne Hs. unfold ExtractAccessToken. rewrite decide_False by done.
  unfold strings_Index. rewrite Hs. done.
Qed.

(** ** The key of a decision *)

(** The components of a path between its slashes. *)
Fixpoint split_slash (s : string) : list string :=
  match s with
  | EmptyString => [""]
  | String a s =>
      if decide (a = "/"%char) then "" :: split_slash s
      else match split_slash s with [] => [String a ""] | x :: l => String a x :: l end
  end.

(** The lexical rules of [filepath.Clean], on the components that were read,
    the last first. *)
Definition clean_step (rooted : bool) (acc : list string) (x : string) : list string :=
  if decide (x = "" ∨ x = ".") then acc
  else if decide (x = "..") then
    match acc with
    | y :: acc' => if decide (y = "..") then x :: acc else acc'
    | [] => if rooted then [] else [x]
    end
  else x :: acc.

Fixpoint join_slash (l : list string) : string :=
  match l with
  | [] => ""
  | [x] => x
  | x :: l => x +:+ "/" +:+ join_slash l
  end.

Definition path_Clean (s : string) : string :=
  let rooted := match s with String a _ => bool_decide (a = "/"%char) | EmptyString => false end in
  let comps := rev (foldl (clean_step rooted) [] (split_slash s)) in
  if rooted then "/" +:+ join_slash comps
  else match comps with [] => "." | _ => join_slash comps end.

Definition path_Join (elems : list string) : string :=
  match filter (λ x, x ≠ "") elems with [] => "" | l => path_Clean (join_slash l) end.

Definition auth_key (identifier namespace name : string) (token : AccessToken) : string :=
  path_Join [identifier; namespace; name; token_value token].

(** A name that [path_Clean] keeps as it is. *)
Definition plain_name (x : string) : Prop :=
  x ≠ "" ∧ x ≠ "." ∧ x ≠ ".." ∧ index_of "/" x = None.

Lemma split_slash_plain x s :
  index_of "/" x = None → split_slash (x +:+ String "/" s) = x :: split_slash s.
Proof.
  induction x as [|a x IH]; simpl; [done|]. case_decide; [done|].
  destruct (index_of "/" x) eqn:E; [done|]. intros _. by rewrite IH.
Qed.

Lemma split_slash_last x : index_of "/" x = None → split_slash x = [x].
Proof.
  induction x as [|a x IH]; simpl; [done|]. case_decide; [done|].
  destruct (index_of "/" x) eqn:E; [done|]. intros _. by rewrite IH.
Qed.

Lemma split_join l : l ≠ [] → Forall plain_name l → split_slash (join_slash l) = l.
Proof.
  intros Hne Hl. induction Hl as [|x l (_ & _ & _ & Hx) Hl IH]; [done|]. destruct l as [|y l].
  - by apply split_slash_last.
  - change (split_slash (x +:+ String "/" (join_slash (y :: l))) = x :: y :: l).
    rewrite split_slash_plain by done. by rewrite IH.
Qed.

Lemma clean_plain rooted acc l :
  Forall plain_name l → foldl (clean_step rooted) acc l = rev l ++ acc.
Proof.
  intros Hl. revert acc. induction Hl as [|x l (H1 & H2 & H3 & _) Hl IH]; intros acc; simpl; [done|].
  rewrite IH. unfold clean_step. rewrite decide_False by naive_solver. rewrite decide_False by done.
  by rewrite <- app_assoc.
Qed.

Lemma path_Join_plain l : l ≠ [] → Forall plain_name l → path_Join l = join_slash l.
Proof.
  intros Hne Hl. unfold path_Join.
  assert (filter (λ x, x ≠ "") l = l) as ->.
  { clear Hne. induction Hl as [|x l (Hx & _) Hl IH]; [done|]. rewrite filter_cons_True by done. by rewrite IH. }
  assert (∃ a s, join_slash l = String a s ∧ a ≠ "/"%char) as (a & s & Ej & Ha).
  { destruct Hl as [|x l (Hx & _ & _ & Hi) Hl]; [done|]. destruct x as [|a x]; [done|].
    exists a. simpl in Hi. case_decide; [done|]. destruct l; eexists; split; try done. }
  trans (path_Clean (join_slash l)); [by destruct l|].
  unfold path_Clean. rewrite split_join, clean_plain, app_nil_r, rev_involutive by done.
  rewrite Ej. rewrite bool_decide_eq_false_2 by done. by destruct l.
Qed.

(** For names and tokens that are plain path elements the key tells apart any two
    requests that differ in tenant, namespace, name or token. *)
Theorem auth_key_injective i n m t i' n' m' t' :
  Forall plain_name [i; n; m; token_value t] → Forall plain_name [i'; n'; m'; token_value t'] →
  auth_key i n m t = auth_key i' n' m' t' →
  i = i' ∧ n = n' ∧ m = m' ∧ token_value t = token_value t'.
Proof.
  unfold auth_key. intros H1 H2. rewrite !path_Join_plain by done. intros E.
  pose proof (split_join [i; n; m; token_value t] ltac:(done) H1) as E1.
  rewrite E, (split_join [i'; n'; m'; token_value t'] ltac:(done) H2) in E1.
  injection E1 as -> -> -> Ht. by rewrite Ht.
Qed.

(** Tokens with dots and slashes reach the decision of another tenant. *)
Lemma auth_key_collision :
  auth_key "beta" "ns" "fn" (mkToken "Bearer" "../../../acme/ns/fn/tok") =
  auth_key "acme" "ns" "fn" (mkToken "Bearer" "tok").
Proof. vm_compute. reflexivity. Qed.

(** ** Authorization *)


(** The rest of an [AuthzClient] is its cache; [Do] is the HTTP client's request
    with an Authorization header, answered with a status and a body, [badURL] the
    error of making the request, [decode] the JSON decoder. *)
Record AuthzClient : Type := mkAuthzClient {
  location : string;
  badURL : string → option error;
  Do : string → string → result (Z * string);
  decode : string → result (option TenantInfo)
}.

(** The rest are parts of the HTTP client. *)
Definition NewApiAuthClient (ControlPlane : string) (badURL : string → option error)
    (Do : string → string → result (Z * string)) (decode : string → result (option TenantInfo)) : AuthzClient :=
  mkAuthzClient (ControlPlane +:+ "/environment/v1/tenant/") badURL Do decode.

(** The methods of a token. *)
Definition Scheme (a : AccessToken) : string := scheme a.
Definition token_Value (a : AccessToken) : string := token_value a.
Definition token_String (a : AccessToken) : string := scheme a +:+ " " +:+ token_value a.

(** The loading function for a token and a tenant. *)
Definition loadAuth (client : AuthzClient) (t : AccessToken) (identifier : string) :
    result (option TenantInfo) :=
  let url := location client +:+ identifier in
  match badURL client url with
  | Some e => Err (ErrWrap e "post authorization request")
  | None =>
      match Do client url (scheme t +:+ " " +:+ token_value t) with
      | Err e => Err (ErrWrap e "dispatch remote authz request")
      | Ok (status, body) =>
          if decide (status ≠ 200)%Z
          then Err (ErrWrap Common.ErrAccess ("non-200 response " +:+ pretty status +:+ " for authorization service"))
          else match decode client body with
               | Err e => Err (ErrWrap e "deserialized authorization response")
               | Ok claims => Ok claims
               end
      end
  end.

(** [cached key loaded] is what the cache answers for a key, when the loading
    function would answer [loaded]. *)
Definition Authorize (client : AuthzClient)
    (cached : string → result (option TenantInfo) → result (option TenantInfo))
    (token : option AccessToken) (identifier namespace name : string) : result (option TenantInfo) :=
  match token with
  | None => Err (ErrWrap Common.ErrAccess "no credentials provided")
  | Some t => cached (auth_key identifier namespace name t) (loadAuth client t identifier)
  end.

(** What the middleware does with a request: the status of an error, or the
    ident that it sets for the next handler. *)
Inductive response : Type := HTTPError (status : Z) | Next (ident : string).

Definition AuthorizationMiddleware (client : AuthzClient)
    (cached : string → result (option TenantInfo) → result (option TenantInfo))
    (authInfo identifier namespace name : string) : outcome response :=
  token ← ExtractAccessToken authInfo;
  match Authorize client cached token identifier namespace name with
  | Err _ => Val (HTTPError 401)
  | Ok None => Panic NilDeref
  | Ok (Some info) => Val (Next (TenantID info))
  end.

(** A tenant is loaded only from an answer with status 200 to the request with
    the token. *)
Lemma loadAuth_ok client t i o :
  loadAuth client t i = Ok o ↔
  badURL client (location client +:+ i) = None ∧
  ∃ body, Do client (location client +:+ i) (scheme t +:+ " " +:+ token_value t) = Ok (200%Z, body) ∧
          decode client body = Ok o.
Proof.
  unfold loadAuth. destruct (badURL client _); [split; [done|by intros [? _]]|].
  destruct (Do client _ _) as [[status body]|]; [|split; [done|by intros (_ & b & ? & _)]].
  case_decide as Hs.
  - split; [done|]. intros (_ & b & [= -> ->] & _). done.
  - assert (status = 200%Z) as -> by lia. split.
    + destruct (decode client body) as [o'|] eqn:E; [|done]. intros [= <-]. eauto.
    + intros (_ & b & [= ->] & ->). done.
Qed.

(** The client of the control plane asks the page of the tenant, with the token. *)
Lemma NewApiAuthClient_asks cp badURL Do decode t i o :
  loadAuth (NewApiAuthClient cp badURL Do decode) t i = Ok o →
  ∃ body, Do ((cp +:+ "/environment/v1/tenant/") +:+ i) (token_String t) = Ok (200%Z, body) ∧ decode body = Ok o.
Proof. by intros (_ & body & ? & ?)%loadAuth_ok; exists body. Qed.

(** The middleware lets a request through only with a token from its header and a
    decision of the cache for that token and the tenant, namespace and name of the
    request; the next handler sees the tenant of that decision. *)
Theorem middleware_needs_decision client cached authInfo i n m ident :
  AuthorizationMiddleware client cached authInfo i n m = Val (Next ident) →
  ∃ t info, ExtractAccessToken authInfo = Val (Some t) ∧ token_value t ≠ authInfo ∧
            cached (auth_key i n m t) (loadAuth client t i) = Ok (Some info) ∧ TenantID info = ident.
Proof.
  unfold AuthorizationMiddleware. destruct (ExtractAccessToken authInfo) as [[t|]|] eqn:E; run; try done.
  destruct (cached (auth_key i n m t) _) as [[info|]|e] eqn:Ec; try done. intros [= <-].
  exists t, info. split; [done|]. split; [|done].
  unfold ExtractAccessToken in E. case_decide; [done|]. case_decide; [done|].
  unfold slice_to, slice_from in E. repeat case_decide; run; try done. injection E as <-. simpl.
  intros Eq. assert (Z.of_nat (String.length (String.substring (Z.to_nat (strings_Index authInfo " " + 1))
    (String.length authInfo - Z.to_nat (strings_Index authInfo " " + 1)) authInfo)) <
    Z.of_nat (String.length authInfo))%Z; [|rewrite Eq in *; lia].
  assert (∀ k n s, String.length (String.substring k n s) ≤ n) as Hle.
  { clear. intros k n s. revert k n. induction s as [|a s IH]; intros [|k] [|n]; simpl; try lia.
    - specialize (IH 0 n). lia.
    - specialize (IH k 0). lia.
    - specialize (IH k (S n)). lia. }
  specialize (Hle (Z.to_nat (strings_Index authInfo " " + 1))
    (String.length authInfo - Z.to_nat (strings_Index authInfo " " + 1)) authInfo). lia.
Qed.

(** ** Examples *)

Lemma auth_key_injective_witness :
  "acme" = "acme" ∧ "ns" = "ns" ∧ "fn" = "fn" ∧ token_value (mkToken "Bearer" "tok") = "tok".
Proof.
  apply (auth_key_injective "acme" "ns" "fn" (mkToken "Bearer" "tok")
           "acme" "ns" "fn" (mkToken "Basic" "tok")); [| |reflexivity];
    repeat constructor; vm_compute; congruence.
Defined.

(** A control plane that knows one token. *)
Definition example_client : AuthzClient :=
  mkAuthzClient "http://localhost:9090/environment/v1/tenant/" (λ _, None)
    (λ url auth, Ok (if decide (auth = "Bearer tok") then 200%Z else 403%Z, url))
    (λ _, Ok (Some (mkTenant "p" "e" "acme.id" "acme"))).

Lemma middleware_needs_decision_witness :
  ∃ t info, ExtractAccessToken "Bearer tok" = Val (Some t) ∧ token_value t ≠ "Bearer tok" ∧
    loadAuth example_client t "acme" = Ok (Some info) ∧ TenantID info = "acme.id".
Proof.
  apply (middleware_needs_decision example_client (λ _ loaded, loaded) "Bearer tok" "acme" "ns" "fn" "acme.id").
  vm_compute. reflexivity.
Defined.

(** Another token is refused. *)
Example refused :
  AuthorizationMiddleware example_client (λ _ loaded, loaded) "Bearer other" "acme" "ns" "fn" = Val (HTTPError 401).
Proof. vm_compute. reflexivity. Qed.
