(* ===== verification/Sequence.v ===== *)
(** * Sequences: e2core/sequence/sequence.go

    [WorkflowStep], [CoordinatedRequest] and [CoordinatedResponse] are types of
    another module; a step is abstract here, with its FQMN, and a request and a
    response have the fields that this program reads or writes.  A nil map or
    pointer is [None]. *)

From S2P Require Import Prelude.
From S2P Require Import Interfaces.

Record CoordinatedRequest : Type := mkRequest {
  req_ID : string;
  req_Body : string;
  req_State : option (gmap string string);
  req_RespHeaders : option (gmap string string);
  req_SequenceJSON : string
}.

Record CoordinatedResponse : Type := mkResponse {
  Output : string;
  RespHeaders : option (gmap string string)
}.

#[export] Instance CoordinatedResponse_eq_dec : EqDecision CoordinatedResponse.
Proof. solve_decision. Defined.

(** [RunErr] is the code and the message of a [scheduler.RunErr]. *)
Record ExecResult : Type := mkExecResult {
  er_FQMN : string;
  Response : option CoordinatedResponse;
  RunErrCode : Z;
  RunErrMessage : string;
  ExecErr : string
}.

Definition set_SequenceJSON (r : CoordinatedRequest) (j : string) : CoordinatedRequest :=
  mkRequest (req_ID r) (req_Body r) (req_State r) (req_RespHeaders r) j.

Section Sequence.
Context {WorkflowStep : Type} (FQMN : WorkflowStep → string).
Context `{Codec (list (WorkflowStep * bool))}.

(** A step with its [Completed] flag. *)
Abbreviation Step := (WorkflowStep * bool)%type.
Definition Completed (s : Step) : bool := s.2.

Record Sequence : Type := mkSequence { steps : list Step; seq_req : CoordinatedRequest }.

Definition newWithSteps (ss : list Step) (req : CoordinatedRequest) : Sequence :=
  mkSequence ss (set_SequenceJSON req (marshal ss)).

Definition createUncompletedSteps (execs : list WorkflowStep) : list Step := (λ e, (e, false)) <$> execs.

Definition New (execs : list WorkflowStep) (req : CoordinatedRequest) : Sequence :=
  newWithSteps (createUncompletedSteps execs) req.

Definition FromJSON (seqJSON : string) (req : CoordinatedRequest) : result Sequence :=
  match unmarshal seqJSON with
  | Ok ss => Ok (newWithSteps ss req)
  | Err e => Err (ErrWrap e "failed to Unmarshal steps")
  end.

(** [NextStep]: the index of the first step that is not completed. *)
Fixpoint next_index (ss : list Step) : option nat :=
  match ss with
  | [] => None
  | s :: ss => if negb (Completed s) then Some 0 else S <$> next_index ss
  end.

Definition NextStep (seq : Sequence) : option nat := next_index (steps seq).

Definition Request_ (seq : Sequence) : CoordinatedRequest := seq_req seq.
Definition ParentID_ (seq : Sequence) : string := req_ID (seq_req seq).
Definition StepsJSON (seq : Sequence) : string := marshal (steps seq).

(** [m[k] = v] on a map that may be nil. *)
Definition map_set (m : option (gmap string string)) (k v : string) :
    outcome (option (gmap string string)) :=
  match m with Some m => Val (Some (<[k := v]> m)) | None => Panic NilMap end.

(** The loop over the response's headers, in the order of the list. *)
Fixpoint set_headers (m : option (gmap string string)) (hs : list (string * string)) :
    outcome (option (gmap string string)) :=
  match hs with
  | [] => Val m
  | (k, v) :: hs => m1 ← map_set m k v; set_headers m1 hs
  end.

(** One result of [HandleStepResults]; the order in which Go goes through the
    headers is that of [map_to_list]. *)
Definition handle_result (r : ExecResult) (req : CoordinatedRequest) :
    outcome (option error * CoordinatedRequest) :=
  if bool_decide (RunErrCode r ≠ 0%Z) || bool_decide (RunErrMessage r ≠ "") then
    Val (Some (ErrRun (RunErrCode r) (RunErrMessage r)), req)
  else if decide (ExecErr r ≠ "") then Val (Some (ErrNew (ExecErr r)), req)
  else
    match Response r with
    | None => Panic NilDeref
    | Some resp =>
        st ← map_set (req_State req) (er_FQMN r) (Output resp);
        hs ← match RespHeaders resp with
             | None => Val (req_RespHeaders req)
             | Some m => set_headers (req_RespHeaders req) (map_to_list m)
             end;
        Val (None, mkRequest (req_ID req) (req_Body req) st hs (req_SequenceJSON req))
    end.

(** What has been written before an error stays written. *)
Fixpoint handle_results (rs : list ExecResult) (req : CoordinatedRequest) :
    outcome (option error * CoordinatedRequest) :=
  match rs with
  | [] => Val (None, req)
  | r :: rs =>
      '(err, req1) ← handle_result r req;
      match err with Some e => Val (Some e, req1) | None => handle_results rs req1 end
  end.

Definition HandleStepResults (seq : Sequence) (rs : list ExecResult) :
    outcome (option error * Sequence) :=
  '(err, req) ← handle_results rs (seq_req seq);
  match err with
  | Some e => Val (Some e, mkSequence (steps seq) req)
  | None =>
      match next_index (steps seq) with
      | None => Panic NilDeref
      | Some i => Val (None, mkSequence (alter (λ s, (s.1, true)) i (steps seq)) req)
      end
  end.

(** ** The next step *)

(** [NextStep] is the first step that is not completed. *)
Theorem NextStep_first seq i :
  NextStep seq = Some i ↔
  (∃ s, steps seq !! i = Some s ∧ Completed s = false) ∧
  ∀ j s, j < i → steps seq !! j = Some s → Completed s = true.
Proof.
  unfold NextStep. generalize (steps seq) as ss. clear. intros ss.
  revert i. induction ss as [|s ss IH]; intros i; simpl.
  - split; [done|]. by intros [(s & ? & _) _].
  - destruct (Completed s) eqn:Es; simpl.
    + destruct i as [|i]; simpl.
      * split; [by destruct (next_index ss)|]. intros [(s' & [= <-] & ?) _]. congruence.
      * rewrite fmap_Some. setoid_rewrite IH. split.
        -- intros (x & [Hs Hj] & [= <-]). split; [done|]. intros [|j] s' Hlt; simpl; [by intros [= <-]|].
           intros. eapply Hj; [|done]. lia.
        -- intros [Hs Hj]. exists i. split; [|done]. split; [done|]. intros j s' Hlt Hs'.
           apply (Hj (S j)); [lia|done].
    + split.
      * intros [= <-]. split; [by exists s|]. intros. lia.
      * intros [_ Hj]. destruct i as [|i]; [done|]. specialize (Hj 0 s ltac:(lia) eq_refl). congruence.
Qed.

Lemma next_index_lt ss i : next_index ss = Some i → i < length ss.
Proof.
  revert i. induction ss as [|s ss IH]; intros i; simpl; [done|]. destruct (negb _).
  - intros [= <-]. lia.
  - rewrite fmap_Some. intros (x & Hx & ->). specialize (IH x Hx). lia.
Qed.

(** Steps that are left. *)
Definition remaining (ss : list Step) : nat := length (filter (λ s, Completed s = false) ss).

Lemma next_index_none ss : next_index ss = None ↔ remaining ss = 0.
Proof.
  unfold remaining. induction ss as [|s ss IH]; simpl; [done|]. rewrite filter_cons.
  destruct (Completed s); simpl; [|done]. rewrite fmap_None. apply IH.
Qed.

Lemma complete_remaining ss i :
  next_index ss = Some i → S (remaining (alter (λ s, (s.1, true)) i ss)) = remaining ss.
Proof.
  unfold remaining. revert i. induction ss as [|s ss IH]; intros i; simpl; [done|].
  destruct (Completed s) eqn:Es; simpl.
  - rewrite fmap_Some. intros (x & Hx & ->). simpl. rewrite !filter_cons, Es.
    by apply IH.
  - intros [= <-]. simpl. rewrite !filter_cons, Es. done.
Qed.

(** ** Handling results *)

Definition succeeded (r : ExecResult) (resp : CoordinatedResponse) : Prop :=
  RunErrCode r = 0%Z ∧ RunErrMessage r = "" ∧ ExecErr r = "" ∧ Response r = Some resp.

(** What a successful result does to the request: the output under the step's
    name, the headers over the old ones. *)
Definition apply_result (fqmn : string) (resp : CoordinatedResponse) (st hs : gmap string string) :
    gmap string string * gmap string string :=
  (<[fqmn := Output resp]> st, default ∅ (RespHeaders resp) ∪ hs).

Lemma set_headers_list m hs : set_headers (Some m) hs = Val (Some (foldl (λ m '(k, v), <[k := v]> m) m hs)).
Proof. revert m. induction hs as [|[k v] hs IH]; intros m; simpl; [done|]. run. by rewrite IH. Qed.

Lemma foldl_insert_union (m : gmap string string) hs :
  NoDup hs.*1 → foldl (λ m '(k, v), <[k := v]> m) m hs = list_to_map hs ∪ m.
Proof.
  revert m. induction hs as [|[k v] hs IH]; intros m Hnd; simpl; [by rewrite map_empty_union|].
  apply NoDup_cons in Hnd as [Hk Hnd]. rewrite IH by done.
  rewrite <- insert_union_l, insert_union_r; [done|]. by apply not_elem_of_list_to_map_1.
Qed.

Lemma handle_result_ok r resp req st hs :
  succeeded r resp → req_State req = Some st → req_RespHeaders req = Some hs →
  handle_result r req =
    Val (None, mkRequest (req_ID req) (req_Body req)
                 (Some (apply_result (er_FQMN r) resp st hs).1)
                 (Some (apply_result (er_FQMN r) resp st hs).2) (req_SequenceJSON req)).
Proof.
  intros (H1 & H2 & H3 & H4) Hs Hh. unfold handle_result. rewrite H1, H2, H3, H4, Hs, Hh. simpl. run.
  destruct (RespHeaders resp) as [m|]; simpl.
  - rewrite set_headers_list. rewrite foldl_insert_union by apply NoDup_fst_map_to_list.
    by rewrite list_to_map_to_list.
  - by rewrite map_empty_union.
Qed.

Lemma handle_result_err r resp req :
  Response r = Some resp → ¬ succeeded r resp → ∃ e, handle_result r req = Val (Some e, req).
Proof.
  intros Hr Hno. unfold handle_result. destruct (bool_decide _ || bool_decide _) eqn:Eb; [by eexists|].
  apply orb_false_iff in Eb as [H1%bool_decide_eq_false H2%bool_decide_eq_false].
  case_decide; [by eexists|]. destruct Hno. apply dec_stable in H1, H2. unfold succeeded. naive_solver.
Qed.

Lemma HandleStepResults_exact seq r resp st hs i :
  succeeded r resp → req_State (seq_req seq) = Some st → req_RespHeaders (seq_req seq) = Some hs →
  next_index (steps seq) = Some i →
  HandleStepResults seq [r] =
    Val (None, mkSequence (alter (λ s, (s.1, true)) i (steps seq))
      (mkRequest (req_ID (seq_req seq)) (req_Body (seq_req seq))
         (Some (apply_result (er_FQMN r) resp st hs).1) (Some (apply_result (er_FQMN r) resp st hs).2)
         (req_SequenceJSON (seq_req seq)))).
Proof.
  intros Hr Hst Hhs Hi. unfold HandleStepResults. simpl.
  rewrite (handle_result_ok r resp _ st hs Hr Hst Hhs). run. by rewrite Hi.
Qed.

(** C11: A successful result stores the output under the FQMN of its step in the
    state, puts its response headers over the old ones, keeps the request ID and
    the steps, and completes exactly one step. *)
Theorem HandleStepResults_ok seq r resp st hs i :
  succeeded r resp → req_State (seq_req seq) = Some st → req_RespHeaders (seq_req seq) = Some hs →
  NextStep seq = Some i →
  ∃ seq', HandleStepResults seq [r] = Val (None, seq') ∧
    req_State (seq_req seq') = Some (<[er_FQMN r := Output resp]> st) ∧
    req_RespHeaders (seq_req seq') = Some (default ∅ (RespHeaders resp) ∪ hs) ∧
    req_ID (seq_req seq') = req_ID (seq_req seq) ∧
    (steps seq').*1 = (steps seq).*1 ∧
    S (remaining (steps seq')) = remaining (steps seq).
Proof.
  intros Hr Hst Hhs Hi. rewrite (HandleStepResults_exact _ _ _ _ _ _ Hr Hst Hhs Hi).
  eexists. split; [done|]. simpl. split_and!; try done.
  - clear. revert i. induction (steps seq) as [|s ss IH]; intros [|i]; simpl; try done. f_equal. apply IH.
  - by apply complete_remaining.
Qed.

(** C12: When HandleStepResults fails, its error is that of the first failed
    result, a RunErr that is not empty or an ExecErr; the results before it had
    succeeded; and no step is completed. *)
Theorem HandleStepResults_error seq rs e seq' :
  HandleStepResults seq rs = Val (Some e, seq') →
  steps seq' = steps seq ∧
  ∃ rs1 r rs2, rs = rs1 ++ r :: rs2 ∧
    Forall (λ r, ∃ resp, succeeded r resp) rs1 ∧
    (e = ErrRun (RunErrCode r) (RunErrMessage r) ∧ ¬ (RunErrCode r = 0%Z ∧ RunErrMessage r = "") ∨
     e = ErrNew (ExecErr r) ∧ ExecErr r ≠ "").
Proof.
  unfold HandleStepResults. generalize (seq_req seq) as req.
  assert (∀ req err req', handle_results rs req = Val (Some err, req') → ∃ rs1 r rs2, rs = rs1 ++ r :: rs2 ∧
    Forall (λ r, ∃ resp, succeeded r resp) rs1 ∧
    (err = ErrRun (RunErrCode r) (RunErrMessage r) ∧ ¬ (RunErrCode r = 0%Z ∧ RunErrMessage r = "") ∨
     err = ErrNew (ExecErr r) ∧ ExecErr r ≠ "")) as Hres.
  { induction rs as [|r rs IH]; intros req err req'; simpl; [done|]. unfold handle_result.
    destruct (bool_decide _ || bool_decide _) eqn:Eb; run.
    { intros [= <- _]. exists [], r, rs. split; [done|]. split; [constructor|]. left. split; [done|].
      apply orb_true_iff in Eb. rewrite !bool_decide_eq_true in Eb. tauto. }
    apply orb_false_iff in Eb. rewrite !bool_decide_eq_false in Eb.
    case_decide as Hx; run.
    { intros [= <- _]. exists [], r, rs. split; [done|]. split; [constructor|]. by right. }
    destruct (Response r) as [resp|] eqn:Er; [|done].
    destruct (map_set _ _ _) as [st|]; run; [|done].
    destruct (match RespHeaders resp with Some _ => _ | None => _ end) as [hs|]; run; [|done].
    intros (rs1 & r' & rs2 & -> & Hf & He)%IH. exists (r :: rs1), r', rs2. split; [done|]. split; [|done].
    constructor; [|done]. exists resp. unfold succeeded. destruct Eb as [Ha Hb].
    apply dec_stable in Ha, Hb. done. }
  intros req. destruct (handle_results rs req) as [[[err|] req']|] eqn:E; run; [|by destruct (next_index _)|done].
  intros [= <- <-]. split; [done|]. by eapply Hres.
Qed.

(** The steps of a sequence that is part of the way through. *)
Definition flags (finished todo : list WorkflowStep) : list Step :=
  ((λ w, (w, true)) <$> finished) ++ ((λ w, (w, false)) <$> todo).

Lemma next_index_flags finished w todo : next_index (flags finished (w :: todo)) = Some (length finished).
Proof.
  induction finished as [|x l IH]; [done|].
  change (S <$> next_index (flags l (w :: todo)) = Some (S (length l))). by rewrite IH.
Qed.

Lemma next_index_finished finished : next_index (flags finished []) = None.
Proof.
  induction finished as [|x l IH]; [done|].
  change (S <$> next_index (flags l []) = None). by rewrite IH.
Qed.

Lemma flags_lookup finished w todo : flags finished (w :: todo) !! length finished = Some (w, false).
Proof. unfold flags. rewrite lookup_app_r by (by rewrite length_fmap). by rewrite length_fmap, Nat.sub_diag. Qed.

Lemma flags_complete finished w todo :
  alter (λ s : Step, (s.1, true)) (length finished) (flags finished (w :: todo)) = flags (finished ++ [w]) todo.
Proof.
  induction finished as [|x l IH]; [done|].
  change ((x, true) :: alter (λ s : Step, (s.1, true)) (length l) (flags l (w :: todo)) =
          (x, true) :: flags (l ++ [w]) todo). f_equal. exact IH.
Qed.

(** Results of different steps can be handled in any order. *)
Lemma apply_result_comm f1 r1 f2 r2 st hs :
  f1 ≠ f2 → default ∅ (RespHeaders r1) ##ₘ default ∅ (RespHeaders r2) →
  let '(st1, hs1) := apply_result f1 r1 st hs in
  let '(st2, hs2) := apply_result f2 r2 st hs in
  apply_result f2 r2 st1 hs1 = apply_result f1 r1 st2 hs2.
Proof.
  intros Hne Hd. unfold apply_result. simpl. rewrite insert_insert_ne by done. f_equal.
  by rewrite !assoc_L, (map_union_comm (default ∅ (RespHeaders r1))) by (try done; apply _).
Qed.

End Sequence.

(** ** Examples *)

#[export] Instance CoordinatedResponse_countable : Countable CoordinatedResponse.
Proof.
  refine (inj_countable' (λ r, (Output r, RespHeaders r)) (λ '(o, h), mkResponse o h) _).
  abstract (by intros []).
Defined.

#[export] Instance CoordinatedRequest_eq_dec : EqDecision CoordinatedRequest.
Proof. solve_decision. Defined.
#[export] Instance CoordinatedRequest_countable : Countable CoordinatedRequest.
Proof.
  refine (inj_countable' (λ r, (req_ID r, req_Body r, req_State r, req_RespHeaders r, req_SequenceJSON r))
    (λ '(i, b, s, h, j), mkRequest i b s h j) _).
  abstract (by intros []).
Defined.

#[export] Instance ExecResult_eq_dec : EqDecision ExecResult.
Proof. solve_decision. Defined.
#[export] Instance ExecResult_countable : Countable ExecResult.
Proof.
  refine (inj_countable' (λ r, (er_FQMN r, Response r, RunErrCode r, RunErrMessage r, ExecErr r))
    (λ '(f, r, c, m, e), mkExecResult f r c m e) _).
  abstract (by intros []).
Defined.

(** Steps that are their names, encoded in some way. *)
#[local] Instance name_steps_codec : Codec (list (string * bool)) := countable_codec _.

Definition example_request : CoordinatedRequest := mkRequest "id" "body" (Some ∅) (Some ∅) "".

Lemma HandleStepResults_ok_witness :
  ∃ seq', HandleStepResults (New ["a"; "b"] example_request)
            [mkExecResult "a" (Some (mkResponse "out" None)) 0 "" ""] = Val (None, seq') ∧
    req_State (seq_req seq') = Some {["a" := "out"]} ∧ (steps seq').*1 = ["a"; "b"] ∧
    S (remaining (steps seq')) = 2.
Proof.
  destruct (HandleStepResults_ok (New ["a"; "b"] example_request)
    (mkExecResult "a" (Some (mkResponse "out" None)) 0 "" "") (mkResponse "out" None) ∅ ∅ 0)
    as (seq' & Hh & Hs & _ & _ & Hst & Hr); [done|done|done|done|].
  exists seq'. split; [done|]. split; [done|]. split; [done|]. by rewrite Hr.
Defined.

Lemma HandleStepResults_error_witness :
  ∃ rs1 r rs2, [mkExecResult "a" (Some (mkResponse "" None)) 404 "not found" ""] = rs1 ++ r :: rs2 ∧
    ErrRun 404 "not found" = ErrRun (RunErrCode r) (RunErrMessage r).
Proof.
  refine (match HandleStepResults_error (New ["a"; "b"] example_request)
    [mkExecResult "a" (Some (mkResponse "" None)) 404 "not found" ""] (ErrRun 404 "not found")
    (New ["a"; "b"] example_request) _ with
    | conj _ H => _ end); [vm_compute; reflexivity|].
  destruct H as (rs1 & r & rs2 & Hrs & _ & [[He _]|[He _]]); [by exists rs1, r, rs2|done].
Defined.
