(* ===== verification/Dispatcher.v ===== *)
(** * The dispatcher: e2core/server/dispatcher.go

    [Execute] is a function of what arrives on its result channel, and of where it
    waits for ever: for the lock of the callbacks, or in the tunnel.  [disp_step]
    interleaves any number of calls of [Execute] with the handlers of result
    messages, which share this lock; a call that ends has ended as the function
    says. *)

From S2P Require Import Prelude.
From S2P Require Import Interfaces.
From S2P Require Import Message.
From S2P Require Import Sequence.

Definition MsgTypeSuborbitalResult : string := "suborbital.result".
Definition ErrDispatchTimeout : error := ErrNew "dispatched execution did not complete before the timeout".
Definition ErrCannotHandle : error := ErrNew "cannot handle job".

(** What the select of [awaitResult] sees. *)
Inductive arrival : Type := Arrived (r : ExecResult) | TimedOut.

Section Dispatcher.
Context {WorkflowStep : Type} (FQMN : WorkflowStep → string).
Context (IsSingle IsGroup : WorkflowStep → bool).
Context `{Codec (list (WorkflowStep * bool))} `{Codec CoordinatedRequest}.

Abbreviation Seq := (@Sequence WorkflowStep).

Definition awaitResult (seq : Seq) (a : arrival) : outcome (option error * Seq) :=
  match a with
  | TimedOut => Val (Some ErrDispatchTimeout, seq)
  | Arrived r =>
      match Response r with
      | None => Val (Some (ErrNew ("recieved nil response for " +:+ er_FQMN r)), seq)
      | Some _ =>
          '(err, seq1) ← HandleStepResults seq [r];
          Val (match err with Some e => Some (ErrWrap e "failed to HandleStepResults") | None => None end, seq1)
      end
  end.

(** The message of [dispatchSingle]; [fresh] and [now] are its UUID and time. *)
Definition dispatchMsg (fresh : string) (now : Z) (w : WorkflowStep) (seq : Seq) : Message :=
  NewMsgWithParentID fresh now (FQMN w) (ParentID_ seq) (marshal (seq_req seq)).

(** [tunnel] is the error of [pod.Tunnel], if any. *)
Definition dispatchSingle (tunnel : Message → option error) (fresh : string) (now : Z) (w : WorkflowStep)
    (seq : Seq) (a : arrival) : outcome (option error * Seq) :=
  match tunnel (dispatchMsg fresh now w seq) with
  | Some e => Val (Some (ErrWrap e "failed to Tunnel"), seq)
  | None => awaitResult seq a
  end.

(** The arrivals that are left; with none left the timer fires. *)
Definition next_arrival (l : list arrival) : arrival := default TimedOut (head l).

(** A turn of the loop of [Execute]. *)
Definition execute_body (st : Seq * list arrival) :
    (Seq * list arrival) + outcome (option error * Seq) :=
  let '(seq, l) := st in
  match NextStep seq with
  | None => inr (Val (None, seq))
  | Some i =>
      match steps seq !! i with
      | None => inr (Panic NilDeref)
      | Some s =>
          if IsSingle s.1 then
            match awaitResult seq (next_arrival l) with
            | Panic p => inr (Panic p)
            | Val (Some e, seq1) => inr (Val (Some (ErrWrap e "failed to awaitResult"), seq1))
            | Val (None, seq1) => inl (seq1, tail l)
            end
          else if IsGroup s.1 then
            inr (Val (Some (ErrWrap ErrCannotHandle "dispatching group steps not yet supported"), seq))
          else inl (seq, l)
      end
  end.

(** The callbacks, by the parent IDs that they are for. *)
Definition addCallback (callbacks : gset string) (parentID : string) : gset string := {[parentID]} ∪ callbacks.
Definition removeCallback (callbacks : gset string) (parentID : string) : gset string := callbacks ∖ {[parentID]}.

(** Where [Execute] can wait for ever: for the write lock in [addCallback], in
    [pod.Tunnel], and for the write lock in the deferred [removeCallback]. *)
Inductive exec_wait : Type := WaitAdd | WaitTunnel | WaitRemove.

(** [Execute] between the two. *)
Definition run_sequence (fuel : nat) (tunnel_hangs : bool) (tunnel : Message → option error) (fresh : string)
    (now : Z) (seq : Seq) (l : list arrival) : option (outcome (option error * Seq)) :=
  match NextStep seq with
  | None => Some (Val (Some (ErrNew "sequence contains no steps"), seq))
  | Some i =>
      match steps seq !! i with
      | None => Some (Panic NilDeref)
      | Some s =>
          if tunnel_hangs then None
          else
            match dispatchSingle tunnel fresh now s.1 seq (next_arrival l) with
            | Panic p => Some (Panic p)
            | Val (Some e, seq1) => Some (Val (Some (ErrWrap e "failed to dispatchSingle"), seq1))
            | Val (None, seq1) => loop fuel execute_body (seq1, tail l)
            end
      end
  end.

(** [cs] are the callbacks before the call, [others] is what other calls do to them
    meanwhile; the second component are those after it.  [removeCallback] is
    deferred, so it runs after a panic too. *)
Definition Execute (fuel : nat) (hangs : exec_wait → bool) (tunnel : Message → option error) (fresh : string)
    (now : Z) (cs : gset string) (others : gset string → gset string) (seq : Seq) (l : list arrival) :
    option (outcome (option error * Seq) * gset string) :=
  if hangs WaitAdd then None
  else
    o ← run_sequence fuel (hangs WaitTunnel) tunnel fresh now seq l;
    if hangs WaitRemove then None
    else Some (o, removeCallback (others (addCallback cs (ParentID_ seq))) (ParentID_ seq)).

(** [onMsgHandler]: the result with which the callback of a parent is called, if
    one is; the handler always returns nil. *)
Definition onMsgHandler `{Codec ExecResult} (callbacks : gset string) (msg : Message) : option ExecResult :=
  if decide (ParentID msg ∈ callbacks) then
    match unmarshal (Data msg) with Ok r => Some r | Err _ => None end
  else None.

(** ** Execute ends *)

Lemma awaitResult_remaining seq a seq1 :
  awaitResult seq a = Val (None, seq1) → S (remaining (steps seq1)) = remaining (steps seq) ∧
  (steps seq1).*1 = (steps seq).*1.
Proof.
  unfold awaitResult. destruct a as [r|]; [|done]. destruct (Response r); [|done].
  unfold HandleStepResults. destruct (handle_results [r] (seq_req seq)) as [[[e|] req]|]; run; [done| |done].
  destruct (next_index (steps seq)) as [i|] eqn:Ei; [|done]. intros [= <-]. simpl.
  split; [by apply complete_remaining|].
  clear. revert i. induction (steps seq) as [|s ss IH]; intros [|i]; simpl; try done. f_equal. apply IH.
Qed.

Lemma awaitResult_error seq a e seq1 : awaitResult seq a = Val (Some e, seq1) → steps seq1 = steps seq.
Proof.
  unfold awaitResult. destruct a as [r|]; [|by intros [= _ <-]]. destruct (Response r); [|by intros [= _ <-]].
  unfold HandleStepResults. destruct (handle_results [r] (seq_req seq)) as [[[e1|] req]|]; run; [by intros [= _ <-]| |done].
  by destruct (next_index (steps seq)).
Qed.

(** Every step is a single one or a group. *)
Definition dispatchable (ss : list (WorkflowStep * bool)) : Prop :=
  Forall (λ w, IsSingle w = true ∨ IsGroup w = true) ss.*1.

Lemma execute_loop_ends seq l fuel :
  dispatchable (steps seq) → remaining (steps seq) < fuel →
  ∃ o, loop fuel execute_body (seq, l) = Some o ∧
       (∀ seq', o = Val (None, seq') → remaining (steps seq') = 0).
Proof.
  revert seq l. induction fuel as [|fuel IH]; intros seq l Hd Hf; [lia|]. cbn [loop].
  unfold execute_body at 1. destruct (NextStep seq) as [i|] eqn:Ei.
  2: { eexists. split; [done|]. intros seq' [= <-]. by apply next_index_none. }
  destruct (proj1 (NextStep_first _ _) Ei) as [(s & Hs & _) _]. rewrite Hs.
  unfold dispatchable in Hd. rewrite Forall_forall in Hd.
  destruct (Hd s.1) as [->|Hg]; [by eapply list_elem_of_fmap_2, list_elem_of_lookup_2| |].
  - destruct (awaitResult seq (next_arrival l)) as [[[e|] seq1]|] eqn:Ea; [by eexists| |by eexists].
    destruct (awaitResult_remaining _ _ _ Ea) as [Hr Hst]. apply IH; [|lia].
    unfold dispatchable. rewrite Hst. by apply Forall_forall.
  - destruct (IsSingle s.1); [|rewrite Hg; by eexists].
    destruct (awaitResult seq (next_arrival l)) as [[[e|] seq1]|] eqn:Ea; [by eexists| |by eexists].
    destruct (awaitResult_remaining _ _ _ Ea) as [Hr Hst]. apply IH; [|lia].
    unfold dispatchable. rewrite Hst. by apply Forall_forall.
Qed.

(** On steps that can be dispatched the loop ends. *)
Lemma run_sequence_ends tunnel fresh now seq l fuel :
  dispatchable (steps seq) → remaining (steps seq) < fuel →
  ∃ o, run_sequence fuel false tunnel fresh now seq l = Some o ∧
       (∀ seq', o = Val (None, seq') → remaining (steps seq') = 0).
Proof.
  intros Hd Hf. unfold run_sequence. destruct (NextStep seq) as [i|] eqn:Ei; [|by eexists].
  destruct (proj1 (NextStep_first _ _) Ei) as [(s & Hs & _) _]. rewrite Hs. unfold dispatchSingle.
  destruct (tunnel _); [by eexists|].
  destruct (awaitResult seq (next_arrival l)) as [[[e|] seq1]|] eqn:Ea; [by eexists| |by eexists].
  destruct (awaitResult_remaining _ _ _ Ea) as [Hr Hst]. apply execute_loop_ends; [|lia].
  unfold dispatchable. by rewrite Hst.
Qed.

(** Without a wait that hangs [Execute] is [run_sequence], and forgets its
    callback. *)
Lemma Execute_run fuel hangs tunnel fresh now cs others seq l :
  (∀ x, hangs x = false) →
  Execute fuel hangs tunnel fresh now cs others seq l =
    o ← run_sequence fuel false tunnel fresh now seq l;
    Some (o, removeCallback (others (addCallback cs (ParentID_ seq))) (ParentID_ seq)).
Proof. intros Hh. unfold Execute. by rewrite !Hh. Qed.

(** A step that is neither a single one nor a group makes the loop spin: no fuel
    is enough. *)
Theorem Execute_spins seq s i l fuel :
  NextStep seq = Some i → steps seq !! i = Some s → IsSingle s.1 = false → IsGroup s.1 = false →
  loop fuel execute_body (seq, l) = None.
Proof.
  intros Hi Hs H1 H2. induction fuel as [|fuel IH]; [done|]. cbn [loop].
  unfold execute_body at 1. by rewrite Hi, Hs, H1, H2.
Qed.

(** ** The calls of Execute, the results and the lock *)

Context `{Codec ExecResult}.

(** Where a call of [Execute] is: at [addCallback], in [pod.Tunnel] with its first
    step, at the select of [awaitResult] (in [dispatchSingle], or in the loop),
    turning in the loop without end, at the deferred [removeCallback], or over. *)
Inductive exec_pc : Type :=
| Entering
| Dispatching (w : WorkflowStep)
| Awaiting (first : bool)
| Spinning
| Removing (o : outcome (option error * Seq))
| Finished (o : outcome (option error * Seq)).

(** A call, with its sequence as it was and as it is, and what it has seen so far:
    the answer of the tunnel and the arrivals. *)
Record execution : Type := mkExec {
  ex_start : Seq;
  ex_seq : Seq;
  ex_tunnel : option error;
  ex_seen : list arrival;
  ex_pc : exec_pc
}.

(** A handler of a result message: not started, or with the read lock, sending
    on the result channel of a call. *)
Inductive result_handler : Type :=
| Ready (msg : Message)
| Delivering (parent : string) (r : ExecResult).

Record dispatcher : Type := mkDispatcher {
  callbacks : gset string;
  execs : gmap string execution;
  handlers : list result_handler
}.

Definition idle_dispatcher : dispatcher := mkDispatcher ∅ ∅ [].

Definition after_add (seq : Seq) : exec_pc :=
  match NextStep seq with
  | None => Removing (Val (Some (ErrNew "sequence contains no steps"), seq))
  | Some i => match steps seq !! i with None => Removing (Panic NilDeref) | Some s => Dispatching s.1 end
  end.

Definition after_tunnel (err : option error) (seq : Seq) : exec_pc :=
  match err with
  | Some e => Removing (Val (Some (ErrWrap (ErrWrap e "failed to Tunnel") "failed to dispatchSingle"), seq))
  | None => Awaiting true
  end.

(** The head of the loop. *)
Definition loop_head (seq : Seq) : exec_pc :=
  match NextStep seq with
  | None => Removing (Val (None, seq))
  | Some i =>
      match steps seq !! i with
      | None => Removing (Panic NilDeref)
      | Some s =>
          if IsSingle s.1 then Awaiting false
          else if IsGroup s.1
          then Removing (Val (Some (ErrWrap ErrCannotHandle "dispatching group steps not yet supported"), seq))
          else Spinning
      end
  end.

Definition after_await (first : bool) (seq : Seq) (a : arrival) : exec_pc * Seq :=
  match awaitResult seq a with
  | Panic p => (Removing (Panic p), seq)
  | Val (Some e, seq1) =>
      (Removing (Val (Some (ErrWrap e (if first then "failed to dispatchSingle" else "failed to awaitResult")), seq1)), seq1)
  | Val (None, seq1) => (loop_head seq1, seq1)
  end.

Definition is_delivering (h : result_handler) : bool :=
  match h with Delivering _ _ => true | Ready _ => false end.

(** The write lock can be taken.  (A writer that waits keeps new readers out as
    well, which only removes steps of [Ready] handlers.) *)
Definition unlocked (d : dispatcher) : Prop := Forall (λ h, is_delivering h = false) (handlers d).

Definition move (e : execution) (pc : exec_pc) : execution :=
  mkExec (ex_start e) (ex_seq e) (ex_tunnel e) (ex_seen e) pc.

Definition tunneled (e : execution) (err : option error) : execution :=
  mkExec (ex_start e) (ex_seq e) err (ex_seen e) (after_tunnel err (ex_seq e)).

Definition awaited (e : execution) (first : bool) (a : arrival) : execution :=
  let '(pc, seq1) := after_await first (ex_seq e) a in
  mkExec (ex_start e) seq1 (ex_tunnel e) (ex_seen e ++ [a]) pc.

Definition set_exec (d : dispatcher) (p : string) (e : execution) : dispatcher :=
  mkDispatcher (callbacks d) (<[p := e]> (execs d)) (handlers d).

(** The steps of the calls and handlers that are there. *)
Inductive quiet_step (d : dispatcher) : dispatcher → Prop :=
| DispAdd p e :                        (* addCallback *)
    execs d !! p = Some e → ex_pc e = Entering → unlocked d →
    quiet_step d (mkDispatcher (addCallback (callbacks d) p) (<[p := move e (after_add (ex_seq e))]> (execs d)) (handlers d))
| DispTunnel p e w err :               (* the tunnel answers *)
    execs d !! p = Some e → ex_pc e = Dispatching w → quiet_step d (set_exec d p (tunneled e err))
| DispDrop h1 h2 msg :                 (* onMsgHandler: no callback, or no result *)
    handlers d = h1 ++ Ready msg :: h2 → onMsgHandler (callbacks d) msg = None →
    quiet_step d (mkDispatcher (callbacks d) (execs d) (h1 ++ h2))
| DispCallback h1 h2 msg r :           (* onMsgHandler: the callback sends *)
    handlers d = h1 ++ Ready msg :: h2 → onMsgHandler (callbacks d) msg = Some r →
    quiet_step d (mkDispatcher (callbacks d) (execs d) (h1 ++ Delivering (ParentID msg) r :: h2))
| DispReceive h1 h2 p r e first :      (* awaitResult receives *)
    handlers d = h1 ++ Delivering p r :: h2 → execs d !! p = Some e → ex_pc e = Awaiting first →
    quiet_step d (mkDispatcher (callbacks d) (<[p := awaited e first (Arrived r)]> (execs d)) (h1 ++ h2))
| DispTimeout p e first :              (* awaitResult times out *)
    execs d !! p = Some e → ex_pc e = Awaiting first → quiet_step d (set_exec d p (awaited e first TimedOut))
| DispRemove p e o :                   (* removeCallback *)
    execs d !! p = Some e → ex_pc e = Removing o → unlocked d →
    quiet_step d (mkDispatcher (removeCallback (callbacks d) p) (<[p := move e (Finished o)]> (execs d)) (handlers d)).

(** Besides, a call starts, or a result message comes. *)
Inductive disp_step (d : dispatcher) : dispatcher → Prop :=
| DispExecute seq :
    execs d !! ParentID_ seq = None →
    disp_step d (set_exec d (ParentID_ seq) (mkExec seq seq None [] Entering))
| DispMessage msg : disp_step d (mkDispatcher (callbacks d) (execs d) (handlers d ++ [Ready msg]))
| DispQuiet d1 : quiet_step d d1 → disp_step d d1.

(** *** A call does what the function says *)

Section Ghost.
Context (fresh : string) (now : Z).

(** The function, on what a call has seen and more. *)
Definition replay (e : execution) (fuel : nat) (rest : list arrival) : option (outcome (option error * Seq)) :=
  run_sequence fuel false (λ _, ex_tunnel e) fresh now (ex_start e) (ex_seen e ++ rest).

Definition ends_with (e : execution) (o : outcome (option error * Seq)) : Prop :=
  ∀ fuel rest, length (ex_seen e) ≤ fuel → replay e fuel rest = Some o.

(** At the head of the loop: what is left of the function is the loop. *)
Definition at_loop (e : execution) : Prop :=
  ∀ fuel rest, replay e (length (ex_seen e) - 1 + fuel) rest = loop fuel execute_body (ex_seq e, rest).

Definition exec_ok (e : execution) : Prop :=
  match ex_pc e with
  | Entering => ex_seq e = ex_start e ∧ ex_seen e = []
  | Dispatching w => ex_seq e = ex_start e ∧ ex_seen e = [] ∧ after_add (ex_start e) = Dispatching w
  | Awaiting true =>
      ex_seq e = ex_start e ∧ ex_seen e = [] ∧ ex_tunnel e = None ∧ ∃ w, after_add (ex_start e) = Dispatching w
  | Awaiting false => ex_seen e ≠ [] ∧ at_loop e ∧ loop_head (ex_seq e) = Awaiting false
  | Spinning => loop_head (ex_seq e) = Spinning
  | Removing o | Finished o => ends_with e o
  end ∧
  (steps (ex_seq e)).*1 = (steps (ex_start e)).*1 ∧
  match ex_pc e with
  | Awaiting _ => length (ex_seen e) + remaining (steps (ex_seq e)) ≤ remaining (steps (ex_start e)) ∧
      0 < remaining (steps (ex_seq e))
  | _ => length (ex_seen e) ≤ remaining (steps (ex_start e))
  end.

Lemma next_step_remaining (seq : Seq) : NextStep seq ≠ None → 0 < remaining (steps seq).
Proof. unfold NextStep. rewrite next_index_none. lia. Qed.

Lemma exec_ok_add e : ex_pc e = Entering → exec_ok e → exec_ok (move e (after_add (ex_seq e))).
Proof.
  intros Hpc Hok. unfold exec_ok in Hok. rewrite Hpc in Hok. destruct Hok as ([Hs Hn] & Hst & Hl).
  unfold exec_ok; simpl. rewrite Hs, Hn in *. unfold after_add in *.
  destruct (NextStep (ex_start e)) as [i|] eqn:Ei.
  - destruct (steps (ex_start e) !! i) as [s|] eqn:Es.
    + simpl. auto.
    + split; [|auto]. intros fuel rest _. unfold replay, run_sequence; simpl. by rewrite Ei, Es.
  - split; [|auto]. intros fuel rest _. unfold replay, run_sequence; simpl. by rewrite Ei.
Qed.

Lemma dispatching_inv (seq : Seq) w :
  after_add seq = Dispatching w → ∃ i s, NextStep seq = Some i ∧ steps seq !! i = Some s ∧ w = s.1.
Proof.
  unfold after_add. destruct (NextStep seq) as [i|]; [|done]. destruct (steps seq !! i) as [s|] eqn:Es; [|done].
  intros [= <-]. eauto.
Qed.

Lemma exec_ok_tunnel e w err : ex_pc e = Dispatching w → exec_ok e → exec_ok (tunneled e err).
Proof.
  intros Hpc Hok. unfold exec_ok in Hok. rewrite Hpc in Hok. destruct Hok as ((Hs & Hn & Ha) & Hst & Hl).
  unfold exec_ok, tunneled; simpl. rewrite Hs, Hn in *.
  destruct (dispatching_inv _ _ Ha) as (i & s & Ei & Es & ->). destruct err as [e0|]; simpl.
  - split; [|auto]. intros fuel rest _. unfold replay, run_sequence, dispatchSingle; simpl. by rewrite Ei, Es.
  - split; [eauto 6|]. split; [done|]. split; [lia|]. apply next_step_remaining. by rewrite Ei.
Qed.

(** What a select of [awaitResult] leads to in the function. *)
Lemma first_await e a fuel rest w :
  ex_seen e = [] → ex_tunnel e = None → after_add (ex_start e) = Dispatching w →
  run_sequence fuel false (λ _, ex_tunnel e) fresh now (ex_start e) (a :: rest) =
    match awaitResult (ex_start e) a with
    | Panic p => Some (Panic p)
    | Val (Some e, seq1) => Some (Val (Some (ErrWrap e "failed to dispatchSingle"), seq1))
    | Val (None, seq1) => loop fuel execute_body (seq1, rest)
    end.
Proof.
  intros _ Ht (i & s & Ei & Es & _)%dispatching_inv. unfold run_sequence, dispatchSingle. by rewrite Ei, Es, Ht.
Qed.

Lemma loop_await seq a fuel rest :
  loop_head seq = Awaiting false →
  loop (S fuel) execute_body (seq, a :: rest) =
    match awaitResult seq a with
    | Panic p => Some (Panic p)
    | Val (Some e, seq1) => Some (Val (Some (ErrWrap e "failed to awaitResult"), seq1))
    | Val (None, seq1) => loop fuel execute_body (seq1, rest)
    end.
Proof.
  unfold loop_head. intros Hl. cbn [loop]. unfold execute_body at 1.
  destruct (NextStep seq) as [i|]; [|done]. destruct (steps seq !! i) as [s|]; [|done].
  destruct (IsSingle s.1); [|by destruct (IsGroup s.1)]. unfold next_arrival; simpl.
  by destruct (awaitResult seq a) as [[[e|] seq1]|].
Qed.

(** Where the loop leads without receiving. *)
Lemma loop_head_ends seq o fuel rest :
  loop_head seq = Removing o → loop (S fuel) execute_body (seq, rest) = Some o.
Proof.
  unfold loop_head. intros Hl. cbn [loop]. unfold execute_body at 1.
  destruct (NextStep seq) as [i|]; [|by injection Hl as <-]. destruct (steps seq !! i) as [s|]; [|by injection Hl as <-].
  destruct (IsSingle s.1); [done|]. destruct (IsGroup s.1); [by injection Hl as <-|done].
Qed.

Lemma loop_head_pc (seq : Seq) : match loop_head seq with Awaiting false | Spinning | Removing _ => True | _ => False end.
Proof.
  unfold loop_head. destruct (NextStep seq) as [i|]; [|done]. destruct (steps seq !! i) as [s|]; [|done].
  destruct (IsSingle s.1); [done|]. by destruct (IsGroup s.1).
Qed.

Lemma loop_head_remaining (seq : Seq) first : loop_head seq = Awaiting first → 0 < remaining (steps seq).
Proof. intros Hl. apply next_step_remaining. unfold loop_head in Hl. by destruct (NextStep seq). Qed.

(** A call that goes on from a successful result. *)
Lemma exec_ok_loop e :
  ex_pc e = loop_head (ex_seq e) → ex_seen e ≠ [] → at_loop e →
  (steps (ex_seq e)).*1 = (steps (ex_start e)).*1 →
  length (ex_seen e) + remaining (steps (ex_seq e)) ≤ remaining (steps (ex_start e)) → exec_ok e.
Proof.
  intros Hpc Hne Hat Hst Hl. unfold exec_ok. rewrite Hpc. pose proof (loop_head_pc (ex_seq e)) as Hk.
  destruct (loop_head (ex_seq e)) as [| |[]| |o|] eqn:El; try done.
  - split; [done|]. split; [done|]. split; [done|]. by eapply loop_head_remaining.
  - split; [done|]. split; [done|]. lia.
  - split; [|split; [done|lia]]. intros fuel rest Hf. destruct (ex_seen e) as [|a l] eqn:Es; [done|].
    specialize (Hat (fuel - length l) rest). rewrite Es in Hat. cbn [length] in Hat, Hf.
    replace (S (length l) - 1 + (fuel - length l)) with fuel in Hat by lia. rewrite Hat.
    replace (fuel - length l) with (S (fuel - length l - 1)) by lia. by apply loop_head_ends.
Qed.

Lemma exec_ok_await e first a : ex_pc e = Awaiting first → exec_ok e → exec_ok (awaited e first a).
Proof.
  intros Hpc Hok. unfold exec_ok in Hok. rewrite Hpc in Hok. destruct Hok as (Hk & Hst & Hl & Hrem).
  assert (∀ fuel rest, (if first then True else 1 ≤ length (ex_seen e)) ∧
    replay (awaited e first a) (length (ex_seen e) + fuel) rest =
      match awaitResult (ex_seq e) a with
      | Panic p => Some (Panic p)
      | Val (Some e, seq1) =>
          Some (Val (Some (ErrWrap e (if first then "failed to dispatchSingle" else "failed to awaitResult")), seq1))
      | Val (None, seq1) => loop fuel execute_body (seq1, rest)
      end) as Hstep.
  { intros fuel rest. unfold replay.
    assert (ex_seen (awaited e first a) = ex_seen e ++ [a] ∧ ex_start (awaited e first a) = ex_start e ∧
      ex_tunnel (awaited e first a) = ex_tunnel e) as (-> & -> & ->)
      by (unfold awaited; by destruct (after_await _ _ _)).
    rewrite <- app_assoc. destruct first.
    - destruct Hk as (-> & Hn & Ht & w & Ha). rewrite Hn. split; [done|]. simpl. by eapply first_await.
    - destruct Hk as (Hne & Hat & Hh). assert (1 ≤ length (ex_seen e)) by (destruct (ex_seen e); [done|simpl; lia]).
      split; [done|]. rewrite <- (loop_await _ _ _ _ Hh), <- Hat. unfold replay. simpl. f_equal. lia. }
  revert Hstep. unfold awaited, after_await.
  destruct (awaitResult (ex_seq e) a) as [[[e0|] seq1]|pn] eqn:Ea; intros Hstep.
  - assert (steps seq1 = steps (ex_seq e)) as Hs1 by (by eapply awaitResult_error).
    split; [|simpl; rewrite Hs1, length_app; simpl; split; [done|lia]].
    simpl. intros fuel rest Hf. simpl in Hf. rewrite length_app in Hf. simpl in Hf.
    replace fuel with (length (ex_seen e) + (fuel - length (ex_seen e))) by lia. apply Hstep.
  - destruct (awaitResult_remaining _ _ _ Ea) as [Hr Hst1]. apply exec_ok_loop; simpl; [done| | | |].
    + by destruct (ex_seen e).
    + intros fuel rest. simpl. rewrite length_app. simpl.
      replace (length (ex_seen e) + 1 - 1 + fuel) with (length (ex_seen e) + fuel) by lia. apply Hstep.
    + by rewrite Hst1.
    + rewrite length_app. simpl. lia.
  - split; [|simpl; rewrite length_app; simpl; split; [done|lia]].
    simpl. intros fuel rest Hf. simpl in Hf. rewrite length_app in Hf. simpl in Hf.
    replace fuel with (length (ex_seen e) + (fuel - length (ex_seen e))) by lia. apply Hstep.
Qed.

End Ghost.

(** *** The lock *)

Definition registered (pc : exec_pc) : Prop :=
  match pc with Entering | Finished _ => False | _ => True end.

Section Runs.
Context (fresh : string) (now : Z).

Record disp_ok (d : dispatcher) : Prop := {
  do_exec p e : execs d !! p = Some e → exec_ok fresh now e ∧ ParentID_ (ex_start e) = p;
  do_callback p : p ∈ callbacks d → ∃ e, execs d !! p = Some e ∧ registered (ex_pc e);
  do_deliver p r : Delivering p r ∈ handlers d → p ∈ callbacks d
}.

Lemma disp_ok_new : disp_ok idle_dispatcher.
Proof.
  split; simpl; [intros p e He; by rewrite lookup_empty in He|intros p Hp; by apply not_elem_of_empty in Hp|].
  intros p r Hr. by apply not_elem_of_nil in Hr.
Qed.

(** A call moves on with its callback in place. *)
Lemma disp_ok_move d p e e1 hs :
  disp_ok d → execs d !! p = Some e → ex_start e1 = ex_start e → exec_ok fresh now e1 → registered (ex_pc e1) →
  (∀ q r, Delivering q r ∈ hs → Delivering q r ∈ handlers d) →
  disp_ok (mkDispatcher (callbacks d) (<[p := e1]> (execs d)) hs).
Proof.
  intros [He Hc Hd] Hp Hs Hok Hr Hhs. split; simpl.
  - intros q e2 [[<- <-]|[_ ?]]%lookup_insert_Some; [|auto]. split; [done|]. rewrite Hs. by apply (He p e Hp).
  - intros q Hq. destruct (decide (p = q)) as [<-|Hne]; [rewrite lookup_insert_eq; eauto|].
    rewrite lookup_insert_ne by done. auto.
  - intros q r Hq. eapply Hd, Hhs, Hq.
Qed.

Lemma awaited_parts e first a :
  ex_start (awaited e first a) = ex_start e ∧ registered (ex_pc (awaited e first a)).
Proof.
  unfold awaited, after_await. destruct (awaitResult (ex_seq e) a) as [[[e0|] seq1]|]; simpl; [done| |done].
  split; [done|]. pose proof (loop_head_pc seq1). by destruct (loop_head seq1) as [| |[]| | |].
Qed.

Lemma quiet_step_ok d d1 : quiet_step d d1 → disp_ok d → disp_ok d1.
Proof.
  intros Hstep Hok. destruct Hstep as [p e Hp Hpc Hu|p e w err Hp Hpc|h1 h2 msg Hh Hm|h1 h2 msg r Hh Hm
    |h1 h2 p r e first Hh Hp Hpc|p e first Hp Hpc|p e o Hp Hpc Hu]; pose proof Hok as [He Hc Hd].
  - split; simpl.
    + intros q e1 [[<- <-]|[_ ?]]%lookup_insert_Some; [|auto].
      split; [apply exec_ok_add; [done|]; exact (proj1 (He p e Hp))|exact (proj2 (He p e Hp))].
    + unfold addCallback. intros q [->%elem_of_singleton|Hq]%elem_of_union.
      * rewrite lookup_insert_eq. eexists. split; [done|]. simpl. unfold after_add.
        destruct (NextStep (ex_seq e)); [|done]. by destruct (steps (ex_seq e) !! n).
      * destruct (decide (p = q)) as [<-|Hne]; [|rewrite lookup_insert_ne by done; auto].
        destruct (Hc p Hq) as (e' & He' & Hr). rewrite Hp in He'. injection He' as <-. by rewrite Hpc in Hr.
    + unfold addCallback. intros q r Hq. apply elem_of_union_r. by eapply Hd.
  - apply (disp_ok_move d p e); [done..| | |done]; [eapply exec_ok_tunnel; [done|by apply (He p)]|by destruct err].
  - split; simpl; [done..|]. intros q r Hq. apply (Hd q r). rewrite Hh. set_solver.
  - split; simpl; [done..|]. intros q r' Hq.
    apply elem_of_app in Hq as [Hq|[[= -> ->]|Hq]%elem_of_cons]; [apply (Hd q r'); rewrite Hh; set_solver| |
      apply (Hd q r'); rewrite Hh; set_solver].
    unfold onMsgHandler in Hm. by case_decide.
  - destruct (awaited_parts e first (Arrived r)). apply (disp_ok_move d p e); [done..|apply exec_ok_await; [done|by apply (He p)]|done|].
    intros q r' Hq. rewrite Hh. set_solver.
  - destruct (awaited_parts e first TimedOut). apply (disp_ok_move d p e); [done..|apply exec_ok_await; [done|by apply (He p)]|done|done].
  - split; simpl.
    + intros q e1 [[<- <-]|[_ ?]]%lookup_insert_Some; [|auto]. destruct (He p e Hp) as [Hx Hid]. split; [|done].
      unfold exec_ok in *. rewrite Hpc in Hx. exact Hx.
    + unfold removeCallback. intros q [Hq Hne%not_elem_of_singleton]%elem_of_difference. rewrite lookup_insert_ne by done. auto.
    + intros q r Hq. exfalso. unfold unlocked in Hu. rewrite Forall_forall in Hu. by specialize (Hu _ Hq).
Qed.

Lemma disp_step_ok d d1 : disp_step d d1 → disp_ok d → disp_ok d1.
Proof.
  intros [seq Hn|msg|d2 Hstep] Hok; [| |by eapply quiet_step_ok]; destruct Hok as [He Hc Hd]; split; simpl; try done.
  - intros p e [[<- <-]|[_ ?]]%lookup_insert_Some; [|auto]. split; [|done]. split; [done|]. split; [done|]. simpl. lia.
  - intros p Hp. destruct (Hc p Hp) as (e & Hpe & Hr). exists e. split; [|done].
    rewrite lookup_insert_ne; [done|]. intros <-. congruence.
  - intros p r [Hp|[=]%list_elem_of_singleton]%elem_of_app. by eapply Hd.
Qed.

Lemma disp_reaches_ok d : rtc disp_step idle_dispatcher d → disp_ok d.
Proof.
  intros Hr. pose proof disp_ok_new as Hok. revert Hok. induction Hr as [d|d d1 d2 Hs _ IH]; [done|].
  intros Hok. apply IH. by eapply disp_step_ok.
Qed.

(** *** How many steps are left *)

Definition exec_left (e : execution) : nat :=
  match ex_pc e with
  | Entering => remaining (steps (ex_seq e)) + 4
  | Dispatching _ => remaining (steps (ex_seq e)) + 3
  | Awaiting _ => remaining (steps (ex_seq e)) + 2
  | Spinning | Removing _ => 1
  | Finished _ => 0
  end.

Definition handler_left (h : result_handler) : nat := match h with Ready _ => 2 | Delivering _ _ => 1 end.

Definition disp_left (d : dispatcher) : nat :=
  map_fold (λ _ e n, exec_left e + n) 0 (execs d) + sum_list_with handler_left (handlers d).

Lemma execs_left_insert (m : gmap string execution) p e e1 :
  m !! p = Some e →
  map_fold (λ _ e n, exec_left e + n) 0 (<[p := e1]> m) + exec_left e =
  map_fold (λ _ e n, exec_left e + n) 0 m + exec_left e1.
Proof.
  intros Hp. rewrite (map_fold_delete_L _ _ p e1 (<[p := e1]> m)); [|intros; lia|apply lookup_insert_eq].
  rewrite delete_insert_eq, (map_fold_delete_L _ _ p e m); [lia|intros; lia|done].
Qed.

Lemma awaited_left e first a : ex_pc e = Awaiting first → exec_left (awaited e first a) < exec_left e.
Proof.
  intros Hpc. unfold exec_left at 2. rewrite Hpc. unfold awaited, after_await.
  destruct (awaitResult (ex_seq e) a) as [[[e0|] seq1]|] eqn:Ea; unfold exec_left; simpl; [lia| |lia].
  destruct (awaitResult_remaining _ _ _ Ea) as [Hr _]. pose proof (loop_head_pc seq1).
  destruct (loop_head seq1) as [| |[]| | |]; simpl; lia.
Qed.

Lemma quiet_step_left d d1 : quiet_step d d1 → disp_left d1 < disp_left d.
Proof.
  intros Hstep. unfold disp_left.
  destruct Hstep as [p e Hp Hpc Hu|p e w err Hp Hpc|h1 h2 msg Hh Hm|h1 h2 msg r Hh Hm
    |h1 h2 p r e first Hh Hp Hpc|p e first Hp Hpc|p e o Hp Hpc Hu]; simpl;
    try rewrite Hh; rewrite ?sum_list_with_app; simpl; try lia;
    match goal with |- context [<[p := ?e1]> _] => pose proof (execs_left_insert (execs d) p e e1 Hp) end.
  - assert (exec_left (move e (after_add (ex_seq e))) < exec_left e); [|lia]. unfold exec_left. rewrite Hpc. simpl.
    unfold after_add. destruct (NextStep (ex_seq e)); [|lia]. destruct (steps (ex_seq e) !! n); lia.
  - assert (exec_left (tunneled e err) < exec_left e); [|lia]. unfold exec_left. rewrite Hpc. destruct err; simpl; lia.
  - pose proof (awaited_left e first (Arrived r) Hpc). lia.
  - pose proof (awaited_left e first TimedOut Hpc). lia.
  - assert (exec_left (move e (Finished o)) < exec_left e); [|lia]. unfold exec_left. rewrite Hpc. simpl. lia.
Qed.

(** *** Going on *)

Definition over (e : execution) : Prop := match ex_pc e with Finished _ => True | _ => False end.

(** A handler sends to a call that receives no more. *)
Definition wedged (d : dispatcher) (p : string) : Prop :=
  (∃ r, Delivering p r ∈ handlers d) ∧ ∃ e o, execs d !! p = Some e ∧ ex_pc e = Removing o.

Lemma exec_no_spin e : exec_ok fresh now e → dispatchable (steps (ex_start e)) → ex_pc e ≠ Spinning.
Proof.
  intros (Hk & Hst & _) Hd Hpc. rewrite Hpc in Hk. unfold loop_head in Hk.
  destruct (NextStep (ex_seq e)) as [i|]; [|done]. destruct (steps (ex_seq e) !! i) as [s|] eqn:Es; [|done].
  unfold dispatchable in Hd. rewrite <- Hst, Forall_forall in Hd.
  destruct (Hd s.1) as [E|E]; [by eapply list_elem_of_fmap_2, list_elem_of_lookup_2| |].
  - by rewrite E in Hk.
  - rewrite E in Hk. by destruct (IsSingle s.1).
Qed.

(** The lock is free, or its reader can go on, or is wedged. *)
Lemma lock_progress d :
  disp_ok d → (∀ p e, execs d !! p = Some e → dispatchable (steps (ex_start e))) →
  unlocked d ∨ (∃ d1, quiet_step d d1) ∨ ∃ p, wedged d p.
Proof.
  intros [He Hc Hd] Hds. unfold unlocked.
  destruct (decide (Forall (λ h, is_delivering h = false) (handlers d))) as [|Hn]; [by left|right].
  apply not_Forall_Exists, Exists_exists in Hn as (h & Hin & Hh); [|apply _].
  destruct h as [msg|p r]; [by destruct Hh|]. destruct (Hc p (Hd p r Hin)) as (e & Hp & Hr).
  destruct (list_elem_of_split _ _ Hin) as (h1 & h2 & Eh).
  destruct (ex_pc e) as [|w|first| |o|o] eqn:Hpc; try done.
  - left. eexists. by eapply (DispTunnel d p e w None).
  - left. eexists. by eapply DispReceive.
  - by destruct (exec_no_spin e (proj1 (He p e Hp)) (Hds p e Hp)).
  - right. exists p. split; [by eexists|]. by eexists _, _.
Qed.

Lemma disp_progress d :
  disp_ok d → (∀ p e, execs d !! p = Some e → dispatchable (steps (ex_start e))) →
  map_Forall (λ _ e, over e) (execs d) ∨ (∃ d1, quiet_step d d1) ∨ ∃ p, wedged d p.
Proof.
  intros Hok Hds.
  assert (∀ e, Decision (over e)) as Hdec by (intros e; unfold over; destruct (ex_pc e); apply _).
  destruct (decide (map_Forall (λ _ e, over e) (execs d))) as [|Hn]; [by left|right].
  apply map_not_Forall in Hn as (p & e & Hp & Hno); [|done].
  destruct (ex_pc e) as [|w|first| |o|o] eqn:Hpc; unfold over in Hno; rewrite Hpc in Hno; try done.
  - destruct (lock_progress d Hok Hds) as [Hu|]; [|done]. left. eexists. by eapply DispAdd.
  - left. eexists. by eapply (DispTunnel d p e w None).
  - left. eexists. by eapply DispTimeout.
  - by destruct (exec_no_spin e (proj1 (do_exec d Hok p e Hp)) (Hds p e Hp)).
  - destruct (lock_progress d Hok Hds) as [Hu|]; [|done]. left. eexists. by eapply DispRemove.
Qed.

(** C10: Any number of calls of Execute run with the handlers of the result
    messages and the lock that they share: addCallback, the tunnel, the results
    and timeouts, and the deferred removeCallback. A call on single and group
    steps that is over has ended as the function Execute says on the answer of the
    tunnel and the arrivals that it saw, has waited for at most one result per
    step that was left, and when it ended without an error or panic no step is
    left. From every state that can be reached, without new calls and messages the
    calls and handlers take a bounded number of steps, and as long as a call is
    not over one of them can take a step, unless a handler that holds the read
    lock sends to a call that receives no more (a finding: theorem
    dispatcher_deadlock); the tunnel is taken to answer. *)
Theorem Execute_ends d :
  rtc disp_step idle_dispatcher d → (∀ p e, execs d !! p = Some e → dispatchable (steps (ex_start e))) →
  (∀ p e o, execs d !! p = Some e → ex_pc e = Finished o →
     (∀ fuel cs others, remaining (steps (ex_start e)) < fuel →
        Execute fuel (λ _, false) (λ _, ex_tunnel e) fresh now cs others (ex_start e) (ex_seen e) =
          Some (o, removeCallback (others (addCallback cs p)) p)) ∧
     length (ex_seen e) ≤ remaining (steps (ex_start e)) ∧
     ∀ seq', o = Val (None, seq') → remaining (steps seq') = 0) ∧
  (∀ n d', nsteps quiet_step n d d' → n ≤ disp_left d) ∧
  (map_Forall (λ _ e, over e) (execs d) ∨ (∃ d', quiet_step d d') ∨ ∃ p, wedged d p).
Proof.
  intros Hok%disp_reaches_ok Hds. split; [|split].
  - intros p e o Hp Hpc. destruct (do_exec d Hok p e Hp) as [(Hk & _ & Hl) Hid]. rewrite Hpc in Hk, Hl.
    assert (∀ fuel, remaining (steps (ex_start e)) < fuel →
      run_sequence fuel false (λ _, ex_tunnel e) fresh now (ex_start e) (ex_seen e) = Some o) as Hrun.
    { intros fuel Hf. specialize (Hk fuel []). unfold replay in Hk. rewrite app_nil_r in Hk. apply Hk. lia. }
    split; [|split; [done|]].
    + intros fuel cs others Hf. rewrite Execute_run by done. by rewrite Hrun, Hid.
    + destruct (run_sequence_ends (λ _, ex_tunnel e) fresh now (ex_start e) (ex_seen e)
        (S (remaining (steps (ex_start e)))) (Hds p e Hp)) as (o' & Ho' & Hend); [lia|].
      rewrite Hrun in Ho' by lia. by injection Ho' as <-.
  - clear. intros n d' Hn. induction Hn as [|n d1 d2 d3 Hs _ IH]; [lia|]. pose proof (quiet_step_left _ _ Hs). lia.
  - by apply disp_progress.
Qed.

End Runs.

(** *** Wedged *)

(** A call that has not got past [addCallback]. *)
Definition kept_out (d : dispatcher) (q : string) : Prop :=
  match execs d !! q with Some e => ex_pc e = Entering | None => True end.

Lemma wedged_locked d p : wedged d p → ¬ unlocked d.
Proof. intros [[r Hr] _] Hu. unfold unlocked in Hu. rewrite Forall_forall in Hu. by specialize (Hu _ Hr). Qed.

(** The handler keeps the read lock, so no callback is added or removed. *)
Lemma wedged_step d d1 p :
  disp_step d d1 → wedged d p → wedged d1 p ∧ ∀ q, kept_out d q → kept_out d1 q.
Proof.
  intros Hstep Hw. pose proof (wedged_locked d p Hw) as Hlock. destruct Hw as [[r Hr] (e & o & Hp & Hpc)].
  assert (∀ q e1 hs, execs d !! q = None ∨ (∃ e0, execs d !! q = Some e0 ∧ ex_pc e0 ≠ ex_pc e ∧ ex_pc e0 ≠ Entering) →
    (execs d !! q = None → ex_pc e1 = Entering) →
    Delivering p r ∈ hs →
    let d1 := mkDispatcher (callbacks d) (<[q := e1]> (execs d)) hs in
    wedged d1 p ∧ ∀ q, kept_out d q → kept_out d1 q) as Hset.
  { intros q e1 hs Hq Hent Hin. assert (q ≠ p).
    { intros ->. destruct Hq as [?|(e0 & He0 & Hne & _)]; [congruence|]. rewrite Hp in He0. by injection He0 as <-. }
    split.
    - split; [by exists r|]. exists e, o. split; [|done]. simpl. by rewrite lookup_insert_ne.
    - intros q' Hq'. unfold kept_out in *; simpl. destruct (decide (q = q')) as [<-|Hne];
        [rewrite lookup_insert_eq|by rewrite lookup_insert_ne].
      destruct Hq as [Hq|(e0 & He0 & _ & Hne)]; [auto|]. by rewrite He0 in Hq'. }
  destruct Hstep as [seq Hn|msg|d1 [q e0 Hq Hqc Hu|q e0 w err Hq Hqc|h1 h2 msg Hh Hm|h1 h2 msg r0 Hh Hm
    |h1 h2 q r0 e0 first Hh Hq Hqc|q e0 first Hq Hqc|q e0 o0 Hq Hqc Hu]]; try done.
  - by apply Hset; [left|..].
  - split; [|done]. split; [exists r; set_solver|by exists e, o].
  - apply Hset; [right; exists e0; by rewrite Hqc, Hpc|congruence|done].
  - split; [|done]. split; [exists r; simpl; rewrite Hh in Hr; set_solver|by exists e, o].
  - split; [|done]. split; [exists r; simpl; rewrite Hh in Hr; set_solver|by exists e, o].
  - apply Hset; [right; exists e0; by rewrite Hqc, Hpc|congruence|].
    rewrite Hh in Hr. assert (q ≠ p) by (intros ->; congruence). set_solver.
  - apply Hset; [right; exists e0; by rewrite Hqc, Hpc|congruence|done].
Qed.

Lemma wedged_forever d d1 p :
  rtc disp_step d d1 → wedged d p → wedged d1 p ∧ ∀ q, kept_out d q → kept_out d1 q.
Proof.
  induction 1 as [|d d1 d2 Hstep _ IH]; [done|]. intros Hd.
  destruct (wedged_step _ _ _ Hstep Hd) as [Hd1 Hq1]. destruct (IH Hd1) as [? ?]. auto.
Qed.

(** From a state in which an Execute waits for a result whose message has arrived,
    a timeout at that moment leaves the handler sending on a channel that nobody
    reads, with the read lock of the dispatcher held; whatever happens then, that
    Execute never ends, and no Execute that has not yet registered its callback
    ever does. *)
Theorem dispatcher_deadlock p e first msg r :
  ex_pc e = Awaiting first → ParentID msg = p → unmarshal (Data msg) = Ok r →
  let d0 := mkDispatcher {[p]} {[p := e]} [Ready msg] in
  ∃ d, rtc disp_step d0 d ∧
    ∀ d', rtc disp_step d d' → wedged d' p ∧ ∀ q, kept_out d q → kept_out d' q.
Proof.
  intros Hpc Hid Hr d0. subst p.
  exists (set_exec (mkDispatcher {[ParentID msg]} {[ParentID msg := e]} [Delivering (ParentID msg) r])
            (ParentID msg) (awaited e first TimedOut)). split.
  - eapply rtc_l; [apply DispQuiet, (DispCallback d0 [] [] msg r); [done|]|].
    { unfold onMsgHandler. simpl. rewrite decide_True by set_solver. by rewrite Hr. }
    apply rtc_once, DispQuiet. apply DispTimeout; [simpl; apply lookup_singleton_eq|done].
  - intros d' Hsteps. apply (wedged_forever _ d' (ParentID msg) Hsteps). split; [exists r; left|].
    eexists _, _. split; [apply lookup_insert_eq|]. unfold awaited, after_await. simpl. done.
Qed.

End Dispatcher.

(** ** Examples *)

#[local] Instance name_steps_codec : Codec (list (string * bool)) := countable_codec _.
#[local] Instance request_codec : Codec CoordinatedRequest := countable_codec _.
#[local] Instance result_codec : Codec ExecResult := countable_codec _.

(** A call whose message was tunneled and that got no result in time. *)
Definition example_seq : Sequence := New ["a"; "b"] example_request.

Definition example_call : execution :=
  mkExec example_seq example_seq None [TimedOut]
    (Finished (Val (Some (ErrWrap ErrDispatchTimeout "failed to dispatchSingle"), example_seq))).

Lemma example_calls :
  rtc (disp_step (λ _, true) (λ _, false)) idle_dispatcher (mkDispatcher ∅ {["id" := example_call]} []).
Proof.
  eapply rtc_l; [by apply (DispExecute _ _ idle_dispatcher example_seq)|].
  eapply rtc_l; [apply DispQuiet; eapply (DispAdd _ _ _ "id"); [by apply lookup_insert_eq|done|by constructor]|].
  eapply rtc_l; [apply DispQuiet; eapply (DispTunnel _ _ _ "id" _ _ None); [by apply lookup_insert_eq|vm_compute; reflexivity]|].
  eapply rtc_l; [apply DispQuiet; eapply (DispTimeout _ _ _ "id"); [by apply lookup_insert_eq|vm_compute; reflexivity]|].
  eapply rtc_l; [apply DispQuiet; eapply (DispRemove _ _ _ "id"); [by apply lookup_insert_eq|vm_compute; reflexivity|by constructor]|].
  match goal with |- rtc _ ?d ?d1 => replace d with d1 by (vm_compute; reflexivity) end. apply rtc_refl.
Qed.

Lemma Execute_ends_witness :
  Execute id (λ _, true) (λ _, false) 3 (λ _, false) (λ _, None) "u" 0 ∅ id example_seq [TimedOut] =
    Some (Val (Some (ErrWrap ErrDispatchTimeout "failed to dispatchSingle"), example_seq), ∅) ∧
  length (ex_seen example_call) ≤ remaining (steps example_seq).
Proof.
  destruct (Execute_ends id (λ _, true) (λ _, false) "u" 0 _ example_calls) as (Hend & _ & _).
  - intros p e Hp. simpl in Hp. apply lookup_singleton_Some in Hp as [_ <-]. repeat constructor.
  - destruct (Hend "id" example_call _ (lookup_singleton_eq _ _) eq_refl) as (Hrun & Hl & _).
    split; [|exact Hl]. rewrite (Hrun 3 ∅ id); [vm_compute; reflexivity|vm_compute; lia].
Defined.
