(* ===== verification/Mesh.v ===== *)
(** * Execution in the mesh: sat/sat/meshed.go with e2core/server/dispatcher.go

    [handleFnResult] is what a sat does with the result of a function: a result
    message to the parent and the next step's message to a peer.  [mesh_run]
    follows the messages from sat to sat; together with [Execute] at the parent
    it computes what running the steps one after the other computes. *)

From S2P Require Import Prelude.
From S2P Require Import Interfaces.
From S2P Require Import Message.
From S2P Require Import Jobs.
From S2P Require Import Sequence.
From S2P Require Import Dispatcher.

(** The value a job ends with, as [handleFnResult] looks at it. *)
Inductive fn_result : Type :=
| FnResponse (r : CoordinatedResponse)
| FnOther                              (* nil, or a value of another type *)
| FnErr (e : error).

Inductive output : Type :=
| ToParent (m : Message)               (* pod.Send *)
| ToPeer (capability : string) (m : Message).   (* bus.Tunnel *)

Section Mesh.
Context {WorkflowStep : Type} (FQMN : WorkflowStep → string).
Context (IsSingle IsGroup : WorkflowStep → bool).
Context `{Codec (list (WorkflowStep * bool))} `{Codec CoordinatedRequest} `{Codec ExecResult}.
Context (errText : error → string) (fresh : nat → string) (now : Z).

(** The ExecResult that [handleFnResult] packages; [None] is the panic of the
    type assertion. *)
Definition package (fqmn : string) (r : fn_result) : option ExecResult :=
  match r with
  | FnResponse resp => Some (mkExecResult fqmn (Some resp) 0 "" "")
  | FnOther => None
  | FnErr (ErrRun c m) => Some (mkExecResult fqmn (Some (mkResponse "" None)) c m "")
  | FnErr e => Some (mkExecResult fqmn (Some (mkResponse "" None)) 0 "" (errText e))
  end.

Definition is_exec_err (r : fn_result) : bool :=
  match r with FnErr (ErrRun _ _) => false | FnErr _ => true | _ => false end.

(** [sendFnResult] on a pod that is [alive] or not. *)
Definition sendFnResult (reqID : string) (fnr : ExecResult) : Message :=
  NewMsgWithParentID (fresh 0) now MsgTypeSuborbitalResult reqID (marshal fnr).

Definition sendNextStep (seq : @Sequence WorkflowStep) (req : CoordinatedRequest) : list output :=
  match NextStep seq with
  | None => []
  | Some i =>
      match steps seq !! i with
      | None => []
      | Some s => [ToPeer (FQMN s.1) (NewMsgWithParentID (fresh 1) now (FQMN s.1) (req_ID req) (marshal req))]
      end
  end.

(** [handleFnResult]; [alive] says that the pod can still send. *)
Definition handleFnResult (alive : bool) (msg : Message) (r : fn_result) : outcome (list output) :=
  match unmarshal (Data msg) : result CoordinatedRequest with
  | Err _ => Val []
  | Ok req =>
      match FromJSON (req_SequenceJSON req) req with
      | Err _ => Val []
      | Ok seq =>
          match NextStep seq with
          | None => Val []
          | Some _ =>
              match package (Type_ msg) r with
              | None => Panic BadAssert
              | Some fnr =>
                  if negb alive then Val []
                  else
                    let sent := ToParent (sendFnResult (req_ID req) fnr) in
                    if is_exec_err r then Val [sent]
                    else
                      '(err, seq1) ← HandleStepResults seq [fnr];
                      match err with
                      | Some _ => Val [sent]
                      | None =>
                          let req1 := set_SequenceJSON (seq_req seq1) (StepsJSON seq1) in
                          Val (sent :: sendNextStep (mkSequence (steps seq1) req1) req1)
                      end
              end
          end
      end
  end.

(** The sats: [fn] is the function that a peer runs on the request it is sent,
    under the capability it advertises. *)
Context (fn : string → CoordinatedRequest → fn_result).

Definition run_job (msg : Message) : fn_result :=
  match unmarshal (Data msg) with
  | Ok req => fn (Type_ msg) req
  | Err e => FnErr e
  end.

(** The results that reach the parent when [msg] is tunneled to a peer that
    has its capability, and the peers go on. *)
Fixpoint mesh_run (fuel : nat) (msg : Message) : outcome (list arrival) :=
  match fuel with
  | 0 => Val []
  | S fuel =>
      outs ← handleFnResult true msg (run_job msg);
      match outs with
      | ToParent m :: rest =>
          let here := match unmarshal (Data m) with Ok r => [Arrived r] | Err _ => [] end in
          match rest with
          | ToPeer _ m' :: _ => later ← mesh_run fuel m'; Val (here ++ later)
          | _ => Val here
          end
      | _ => Val []
      end
  end.

(** ** The steps one after the other *)

(** The request that the function of a step sees. *)
Definition step_request (id body : string) (finished todo : list WorkflowStep) (st hs : gmap string string) :
    CoordinatedRequest :=
  mkRequest id body (Some st) (Some hs) (marshal (flags finished todo)).

Fixpoint run_steps (id body : string) (finished todo : list WorkflowStep) (st hs : gmap string string) :
    option (gmap string string * gmap string string) :=
  match todo with
  | [] => Some (st, hs)
  | w :: todo' =>
      match fn (FQMN w) (step_request id body finished todo st hs) with
      | FnResponse resp =>
          let '(st1, hs1) := apply_result (FQMN w) resp st hs in
          run_steps id body (finished ++ [w]) todo' st1 hs1
      | _ => None
      end
  end.

(** The message that carries a sequence to the peer of its next step. *)
Definition step_msg (u : string) (w : WorkflowStep) (id body : string) (finished todo : list WorkflowStep)
    (st hs : gmap string string) : Message :=
  NewMsgWithParentID u now (FQMN w) id (marshal (step_request id body finished todo st hs)).

(** One hop: the peer reports its result and hands the rest on. *)
Lemma mesh_hop u id body finished w todo st hs resp :
  fn (FQMN w) (step_request id body finished (w :: todo) st hs) = FnResponse resp →
  let '(st1, hs1) := apply_result (FQMN w) resp st hs in
  handleFnResult true (step_msg u w id body finished (w :: todo) st hs)
    (run_job (step_msg u w id body finished (w :: todo) st hs)) =
  Val (ToParent (sendFnResult id (mkExecResult (FQMN w) (Some resp) 0 "" "")) ::
       match todo with
       | [] => []
       | w' :: _ => [ToPeer (FQMN w') (step_msg (fresh 1) w' id body (finished ++ [w]) todo st1 hs1)]
       end).
Proof.
  intros Hfn. unfold handleFnResult, run_job, step_msg, Data, Type_. simpl.
  rewrite !unmarshal_marshal. unfold FromJSON. simpl. rewrite Hfn, unmarshal_marshal.
  unfold newWithSteps, NextStep. cbn [steps]. rewrite next_index_flags. cbn [package negb is_exec_err].
  set (seq := mkSequence _ _).
  rewrite (HandleStepResults_exact seq _ resp st hs (length finished));
    [|done|done|done|by apply next_index_flags].
  run. rewrite flags_complete. unfold StepsJSON, set_SequenceJSON; simpl. unfold sendNextStep, NextStep.
  cbn [steps]. destruct todo as [|w' todo].
  - by rewrite next_index_finished.
  - rewrite next_index_flags, flags_lookup. done.
Qed.

(** The results that a chain of peers sends back. *)
Fixpoint chain_results (id body : string) (finished todo : list WorkflowStep) (st hs : gmap string string) :
    list arrival :=
  match todo with
  | [] => []
  | w :: todo' =>
      match fn (FQMN w) (step_request id body finished todo st hs) with
      | FnResponse resp =>
          let '(st1, hs1) := apply_result (FQMN w) resp st hs in
          Arrived (mkExecResult (FQMN w) (Some resp) 0 "" "") :: chain_results id body (finished ++ [w]) todo' st1 hs1
      | _ => []
      end
  end.

Lemma mesh_run_chain u w id body finished todo st hs r fuel :
  run_steps id body finished (w :: todo) st hs = Some r → length todo < fuel →
  mesh_run fuel (step_msg u w id body finished (w :: todo) st hs) =
    Val (chain_results id body finished (w :: todo) st hs).
Proof.
  revert u w finished st hs fuel. induction todo as [|w' todo IH]; intros u w finished st hs fuel Hr Hf;
    (destruct fuel as [|fuel]; [lia|]); cbn [mesh_run];
    cbn [run_steps] in Hr; cbn [chain_results];
    destruct (fn (FQMN w) _) as [resp| |e] eqn:Hfn; try done;
    pose proof (mesh_hop u id body finished w _ st hs resp Hfn) as Hhop;
    destruct (apply_result (FQMN w) resp st hs) as [st1 hs1]; rewrite Hhop; cbn [mbind outcome_bind];
    unfold sendFnResult, Data; simpl; rewrite unmarshal_marshal.
  - done.
  - rewrite (IH (fresh 1) w' (finished ++ [w]) st1 hs1 fuel); [|done|simpl in Hf; lia]. run. done.
Qed.

(** The parent's side: the results of the chain complete the sequence. *)
Lemma execute_chain id body finished todo st hs r json fuel :
  Forall (λ w, IsSingle w = true) todo →
  run_steps id body finished todo st hs = Some r → length todo < fuel →
  loop fuel (execute_body IsSingle IsGroup)
    (mkSequence (flags finished todo) (mkRequest id body (Some st) (Some hs) json),
     chain_results id body finished todo st hs) =
  Some (Val (None, mkSequence (flags (finished ++ todo) []) (mkRequest id body (Some r.1) (Some r.2) json))).
Proof.
  revert finished st hs fuel. induction todo as [|w todo IH]; intros finished st hs fuel Hs Hr Hf;
    (destruct fuel as [|fuel]; [simpl in Hf; lia|]); cbn [loop]; unfold execute_body at 1, NextStep; cbn [steps].
  - rewrite next_index_finished, app_nil_r. simpl in Hr. by injection Hr as <-.
  - rewrite next_index_flags, flags_lookup. apply Forall_cons in Hs as [Hw Hs]. simpl. rewrite Hw.
    cbn [run_steps] in Hr. destruct (fn (FQMN w) _) as [resp| |e]; try done.
    unfold next_arrival, awaitResult. simpl.
    set (seq := mkSequence _ _).
    rewrite (HandleStepResults_exact seq _ resp st hs (length finished));
      [|done|done|done|by apply next_index_flags]. run. rewrite flags_complete.
    rewrite (IH (finished ++ [w]) _ _ fuel Hs Hr) by lia. by rewrite <- app_assoc.
Qed.

(** C1: Running a sequence of single steps across the mesh, where each sat reports
    its result to the parent and tunnels the rest of the sequence to the peer of
    the next step, leaves at the parent (Execute on the results that arrive) the
    same state and response headers as running the functions one after the other;
    Execute ends without an error and no step is left. *)
Theorem mesh_executes_sequence w todo id body st hs st' hs' json fuel cs others :
  Forall (λ w, IsSingle w = true) (w :: todo) →
  run_steps id body [] (w :: todo) st hs = Some (st', hs') → length todo < fuel →
  let seq := New (w :: todo) (mkRequest id body (Some st) (Some hs) json) in
  ∃ arrivals seq',
    mesh_run fuel (dispatchMsg FQMN (fresh 0) now w seq) = Val arrivals ∧
    Execute FQMN IsSingle IsGroup fuel (λ _, false) (λ _, None) (fresh 0) now cs others seq arrivals =
      Some (Val (None, seq'), removeCallback (others (addCallback cs id)) id) ∧
    NextStep seq' = None ∧
    req_State (seq_req seq') = Some st' ∧ req_RespHeaders (seq_req seq') = Some hs'.
Proof.
  intros Hs Hr Hf seq.
  assert (seq = mkSequence (flags [] (w :: todo)) (mkRequest id body (Some st) (Some hs)
    (marshal (flags [] (w :: todo))))) as -> by done.
  exists (chain_results id body [] (w :: todo) st hs).
  pose proof (mesh_run_chain (fresh 0) w id body [] todo st hs _ fuel Hr Hf) as Hmesh.
  eexists. split; [exact Hmesh|]. rewrite Execute_run by done. unfold run_sequence, NextStep. cbn [steps].
  rewrite (next_index_flags [] w todo), flags_lookup.
  unfold dispatchSingle. cbn [fst]. apply Forall_cons in Hs as [_ Hs].
  cbn [run_steps] in Hr. cbn [chain_results]. destruct (fn (FQMN w) _) as [resp| |e]; try done.
  unfold next_arrival, awaitResult. simpl.
  match goal with |- context [HandleStepResults ?s _] => set (seq := s) end.
  rewrite (HandleStepResults_exact seq _ resp st hs (length (@nil WorkflowStep)));
    [|done|done|done|by apply next_index_flags].
  cbn [mbind outcome_bind steps seq]. rewrite (flags_complete [] w todo). simpl.
  rewrite (execute_chain _ _ _ _ _ _ (st', hs')); [|done|done|done].
  split; [done|]. split; [|done]. apply next_index_finished.
Qed.

(** C40: A function that ends with a non-empty RunErr stops its sequence: the sat
    reports it to the parent and tunnels nothing further, and the parent ends with
    that RunErr in the chain of its error and an unchanged sequence. *)
Theorem mesh_stops_on_error msg req seq c m :
  unmarshal (Data msg) = Ok req → FromJSON (req_SequenceJSON req) req = Ok seq → NextStep seq ≠ None →
  (c ≠ 0%Z ∨ m ≠ "") →
  handleFnResult true msg (FnErr (ErrRun c m)) =
    Val [ToParent (sendFnResult (req_ID req)
           (mkExecResult (Type_ msg) (Some (mkResponse "" None)) c m ""))] ∧
  ∀ pseq : @Sequence WorkflowStep,
    awaitResult pseq (Arrived (mkExecResult (Type_ msg) (Some (mkResponse "" None)) c m "")) =
      Val (Some (ErrWrap (ErrRun c m) "failed to HandleStepResults"), pseq).
Proof.
  intros Hreq Hseq Hn Hc.
  assert (∀ pseq : @Sequence WorkflowStep,
    HandleStepResults pseq [mkExecResult (Type_ msg) (Some (mkResponse "" None)) c m ""] =
    Val (Some (ErrRun c m), pseq)) as Hh.
  { intros [ss rq]. unfold HandleStepResults. simpl. unfold handle_result. simpl.
    assert (bool_decide (c ≠ 0%Z) || bool_decide (m ≠ "") = true) as ->; [|done].
    destruct Hc; [by rewrite bool_decide_eq_true_2|]. by rewrite orb_comm, bool_decide_eq_true_2. }
  split.
  - unfold handleFnResult. rewrite Hreq, Hseq. destruct (NextStep seq); [|done]. simpl. by rewrite Hh.
  - intros pseq. unfold awaitResult. simpl. by rewrite Hh.
Qed.

End Mesh.

(** ** Examples *)

#[local] Instance name_steps_codec : Codec (list (string * bool)) := countable_codec _.
#[local] Instance request_codec : Codec CoordinatedRequest := countable_codec _.
#[local] Instance result_codec : Codec ExecResult := countable_codec _.

(** A function that answers with its name. *)
Definition echo_fn (f : string) (req : CoordinatedRequest) : fn_result := FnResponse (mkResponse f None).

Lemma mesh_executes_sequence_witness :
  ∃ arrivals seq',
    mesh_run id (λ _, "") (λ _, "u") 0 echo_fn 2
      (dispatchMsg id "u" 0 "a" (New ["a"; "b"] example_request)) = Val arrivals ∧
    Execute id (λ _, true) (λ _, false) 2 (λ _, false) (λ _, None) "u" 0 ∅ id (New ["a"; "b"] example_request) arrivals =
      Some (Val (None, seq'), removeCallback (addCallback ∅ "id") "id") ∧
    NextStep seq' = None ∧ req_State (seq_req seq') = Some {["b" := "b"; "a" := "a"]} ∧
    req_RespHeaders (seq_req seq') = Some ∅.
Proof.
  apply (mesh_executes_sequence id (λ _, true) (λ _, false) (λ _, "") (λ _, "u") 0 echo_fn
           "a" ["b"] "id" "body" ∅ ∅ _ _ "" 2 ∅ id); [by repeat constructor|reflexivity|simpl; lia].
Defined.

Lemma mesh_stops_on_error_witness :
  let seq := New ["a"; "b"] example_request in
  handleFnResult id (λ _, "") (λ _, "u") 0 true (dispatchMsg id "u" 0 "a" seq) (FnErr (ErrRun 404 "not found")) =
    Val [ToParent (sendFnResult (λ _, "u") 0 "id"
           (mkExecResult "a" (Some (mkResponse "" None)) 404 "not found" ""))].
Proof.
  intros seq.
  refine (proj1 (mesh_stops_on_error id (λ _, "") (λ _, "u") 0 (dispatchMsg id "u" 0 "a" seq)
    (seq_req seq) seq 404 "not found" _ _ _ _)); [by rewrite <- unmarshal_marshal| |done|by left].
  reflexivity.
Defined.
