(* ===== verification/Syncer.v ===== *)
(** * The syncer: e2core/syncer/syncer.go

    The in-memory copy of the system's state.  The system source is another
    module's interface, so what it answers is an argument of the job's run.
    Tenants and modules have the fields that this program reads. *)

From S2P Require Import Prelude.

Record Module_ : Type := mkModule { m_Ref : string; m_FQMN : string; m_Name : string; m_Namespace : string }.

Record TenantOverview : Type := mkOverview { ov_Version : Z; ov_Modules : list Module_ }.

#[export] Instance Module_eq_dec : EqDecision Module_.
Proof. solve_decision. Defined.

(** The answers of the system source during one run. *)
Record Source : Type := mkSource {
  src_State : result Z;                          (* the system version *)
  src_Overview : result (gmap string Z);         (* idents and their versions *)
  src_Tenant : string → result TenantOverview
}.

Record syncJob : Type := mkSync {
  version : Z;
  tenantIdents : gmap string Z;
  overviews : gmap string TenantOverview;
  modules : gmap string Module_
}.

Definition newSync : syncJob := mkSync 0 ∅ ∅ ∅.

(** The loop over the modules of a tenant. *)
Definition add_modules (ms : gmap string Module_) (l : list Module_) : gmap string Module_ :=
  foldl (λ ms m, <[m_Ref m := m]> ms) ms l.

(** One tenant of the loop of [Run]. *)
Definition sync_tenant (src : Source) (s : syncJob) (ident : string) (v : Z) : result syncJob :=
  match overviews s !! ident with
  | Some local => if decide (ov_Version local = v) then Ok s else
      tnt ← src_Tenant src ident;
      Ok (mkSync (version s) (tenantIdents s) (<[ident := tnt]> (overviews s))
            (add_modules (modules s) (ov_Modules tnt)))
  | None =>
      tnt ← src_Tenant src ident;
      Ok (mkSync (version s) (tenantIdents s) (<[ident := tnt]> (overviews s))
            (add_modules (modules s) (ov_Modules tnt)))
  end.

(** The loop, over the tenants in the order of the list; what was synced before
    an error stays. *)
Fixpoint sync_tenants (src : Source) (s : syncJob) (l : list (string * Z)) : syncJob * option error :=
  match l with
  | [] => (s, None)
  | (ident, v) :: l =>
      match sync_tenant src s ident v with
      | Err e => (s, Some (ErrWrap e ("failed to app.TenantOverview for " +:+ ident)))
      | Ok s1 => sync_tenants src s1 l
      end
  end.

Definition sync_Run (src : Source) (order : list (string * Z)) (s : syncJob) : syncJob * option error :=
  match src_State src with
  | Err e => (s, Some (ErrWrap e "failed to systemSource.State"))
  | Ok v =>
      if decide (v = version s) then (s, None)
      else if decide (v < version s)%Z then (s, None)
      else
        match src_Overview src with
        | Err e => (s, Some (ErrWrap e "failed to app.Overview"))
        | Ok idents =>
            match sync_tenants src s order with
            | (s1, Some e) => (s1, Some e)
            | (s1, None) => (mkSync v idents (overviews s1) (modules s1), None)
            end
        end
  end.

(** [Syncer.Start]: [started] is the error of the source's Start; with whether the
    sync job is then scheduled to run every second. *)
Definition Syncer_Start (started : option error) (src : Source) (order : list (string * Z)) (s : syncJob) :
    option error * syncJob * bool :=
  match started with
  | Some e => (Some (ErrWrap e "failed to systemSource.Start"), s, false)
  | None =>
      match sync_Run src order s with
      | (s1, Some e) => (Some (ErrWrap e "failed to Do sync job"), s1, false)
      | (s1, None) => (None, s1, true)
      end
  end.

(** The state that is published: its version. *)
Definition State (s : syncJob) : Z := version s.

(** The syncer goes on in the background exactly when the source started and the
    first run had no error; its state is that of this run, so it has a copy of the
    tenants before anything asks for one. *)
Lemma Syncer_Start_seeds started src order s err s1 goes_on :
  Syncer_Start started src order s = (err, s1, goes_on) →
  (goes_on = true ↔ err = None) ∧
  (err = None ↔ started = None ∧ (sync_Run src order s).2 = None) ∧ (started = None → s1 = (sync_Run src order s).1).
Proof.
  unfold Syncer_Start. destruct started as [e|]; [intros [= <- <- <-]; naive_solver|].
  destruct (sync_Run src order s) as [s2 [e|]]; intros [= <- <- <-]; naive_solver.
Qed.

Definition ListTenants (s : syncJob) : gmap string Z := tenantIdents s.
Definition TenantOverview_ (s : syncJob) (ident : string) : option TenantOverview := overviews s !! ident.

Definition GetModuleByName (s : syncJob) (ident namespace name : string) : option Module_ :=
  match overviews s !! ident with
  | None => None
  | Some tnt => snd <$> list_find (λ m, m_Namespace m = namespace ∧ m_Name m = name) (ov_Modules tnt)
  end.

(** [GetModuleByRef] returns a pointer to the zero module for an unknown ref. *)
Definition GetModuleByRef (s : syncJob) (ref : string) : Module_ :=
  default (mkModule "" "" "" "") (modules s !! ref).

(** ** Syncing *)

(** The copy has no overview of the tenant, or one of another version. *)
Definition stale (s : syncJob) (ident : string) (v : Z) : Prop :=
  ∀ t, overviews s !! ident = Some t → ov_Version t ≠ v.

#[export] Instance stale_dec s ident v : Decision (stale s ident v).
Proof.
  unfold stale. destruct (overviews s !! ident) as [t|]; [|left; by intros].
  destruct (decide (ov_Version t = v)) as [E|E]; [right|left]; naive_solver.
Defined.

Lemma sync_tenant_eq src s ident v :
  sync_tenant src s ident v =
    if decide (stale s ident v) then
      tnt ← src_Tenant src ident;
      Ok (mkSync (version s) (tenantIdents s) (<[ident := tnt]> (overviews s))
            (add_modules (modules s) (ov_Modules tnt)))
    else Ok s.
Proof.
  unfold sync_tenant. case_decide as Hst; unfold stale in Hst;
    destruct (overviews s !! ident) as [local|] eqn:El; try done; try case_decide; naive_solver.
Qed.

(** What the loop does to the overview of each tenant, and when it fails. *)
Definition synced (src : Source) (s : syncJob) (ident : string) (v : Z) (o : option TenantOverview) : Prop :=
  if decide (stale s ident v) then ∃ t, src_Tenant src ident = Ok t ∧ o = Some t
  else o = overviews s !! ident.

Lemma stale_other s s1 ident v :
  overviews s1 !! ident = overviews s !! ident → stale s1 ident v ↔ stale s ident v.
Proof. unfold stale. by intros ->. Qed.

Lemma synced_other src s s1 ident v o :
  overviews s1 !! ident = overviews s !! ident → synced src s1 ident v o ↔ synced src s ident v o.
Proof.
  intros E. unfold synced. rewrite E. pose proof (stale_other s s1 ident v E).
  repeat case_decide; tauto.
Qed.

Lemma sync_tenant_spec src s ident v s1 :
  sync_tenant src s ident v = Ok s1 →
  (∀ i, i ≠ ident → overviews s1 !! i = overviews s !! i) ∧ synced src s ident v (overviews s1 !! ident).
Proof.
  rewrite sync_tenant_eq. unfold synced. case_decide; [|by intros [= <-]].
  destruct (src_Tenant src ident) as [t|]; simpl; [|done]. intros [= <-]. simpl.
  split; [intros; by rewrite lookup_insert_ne|]. exists t. by rewrite lookup_insert_eq.
Qed.

Lemma sync_tenants_spec src s l s1 :
  NoDup l.*1 → sync_tenants src s l = (s1, None) →
  (∀ i, i ∉ l.*1 → overviews s1 !! i = overviews s !! i) ∧
  ∀ ident v, (ident, v) ∈ l → synced src s ident v (overviews s1 !! ident).
Proof.
  revert s. induction l as [|[ident v] l IH]; intros s Hnd; simpl.
  { intros [= <-]. split; [done|]. intros ? ? ?%not_elem_of_nil. done. }
  apply NoDup_cons in Hnd as [Hn Hnd].
  destruct (sync_tenant src s ident v) as [s2|] eqn:E; [|done]. intros E2.
  destruct (sync_tenant_spec _ _ _ _ _ E) as [Hother Hok]. destruct (IH s2 Hnd E2) as [Hother2 Hall]. split.
  - intros i Hi. rewrite Hother2 by set_solver. apply Hother. set_solver.
  - intros ident' v' [[= -> ->]|Hin]%elem_of_cons; [by rewrite Hother2|].
    apply (synced_other src s s2); [|by apply Hall].
    apply Hother. intros ->. by apply Hn, (list_elem_of_fmap_2 fst _ _ Hin).
Qed.

(** The loop ends without an error exactly when every tenant that it fetches is
    answered. *)
Lemma sync_tenants_ok src s l :
  NoDup l.*1 →
  (sync_tenants src s l).2 = None ↔
  ∀ ident v, (ident, v) ∈ l → stale s ident v → ∃ t, src_Tenant src ident = Ok t.
Proof.
  revert s. induction l as [|[ident v] l IH]; intros s Hnd; simpl.
  { split; [|done]. intros _ ? ? ?%not_elem_of_nil. done. }
  apply NoDup_cons in Hnd as [Hn Hnd]. rewrite sync_tenant_eq.
  assert (∀ s1, (∀ i, i ≠ ident → overviews s1 !! i = overviews s !! i) →
    (stale s ident v → ∃ t, src_Tenant src ident = Ok t) →
    (sync_tenants src s1 l).2 = None ↔
    ∀ i w, (i, w) ∈ (ident, v) :: l → stale s i w → ∃ t, src_Tenant src i = Ok t) as Hgo.
  { intros s1 Hother Hh. rewrite (IH s1 Hnd). split.
    - intros Hall i w [[= -> ->]|Hin]%elem_of_cons; [done|]. intros Hs. apply (Hall i w Hin).
      apply (stale_other s s1); [|done]. apply Hother. intros ->. by apply Hn, (list_elem_of_fmap_2 fst _ _ Hin).
    - intros Hall i w Hin Hs. apply (Hall i w); [by right|]. apply (stale_other s s1); [|done].
      apply Hother. intros ->. by apply Hn, (list_elem_of_fmap_2 fst _ _ Hin). }
  case_decide as Hst; [|by apply Hgo].
  destruct (src_Tenant src ident) as [t|e] eqn:Et; simpl.
  - apply Hgo; [intros i Hi; simpl; by rewrite lookup_insert_ne|eauto].
  - split; [done|]. intros Hall. destruct (Hall ident v (list_elem_of_here _ _) Hst) as [t Ht]. congruence.
Qed.

(** The version never goes back, and an error leaves it and the tenants as they
    were. *)
Theorem sync_monotone src order s s1 r :
  sync_Run src order s = (s1, r) →
  (version s ≤ version s1)%Z ∧ (r ≠ None → version s1 = version s ∧ tenantIdents s1 = tenantIdents s) ∧
  (src_State src = Ok (version s) → s1 = s ∧ r = None).
Proof.
  assert (∀ l s s1 e, sync_tenants src s l = (s1, e) → version s1 = version s ∧ tenantIdents s1 = tenantIdents s) as H.
  { induction l as [|[i v] l IH]; intros s0 s2 e; simpl; [by intros [= <- _]|].
    destruct (sync_tenant src s0 i v) as [s3|] eqn:E; [|by intros [= <- _]].
    assert (version s3 = version s0 ∧ tenantIdents s3 = tenantIdents s0) as [<- <-].
    { unfold sync_tenant in E. destruct (overviews s0 !! i); [case_decide|];
        try destruct (src_Tenant src i); simpl in E; by simplify_eq. }
    apply IH. }
  unfold sync_Run. destruct (src_State src) as [v|e]; [|by intros [= <- <-]].
  case_decide as Hv; [intros [= <- <-]; done|]. case_decide; [intros [= <- <-]; split; [done|]; naive_solver|].
  destruct (src_Overview src) as [idents|]; [|intros [= <- <-]; naive_solver].
  destruct (sync_tenants src s order) as [s2 [e|]] eqn:E; intros [= <- <-].
  - destruct (H _ _ _ _ E) as [-> ->]. split; [done|]. split; [done|]. naive_solver.
  - simpl. split; [lia|]. split; [done|]. naive_solver.
Qed.


(** [GetModuleByName] is the first module of the tenant with the namespace and
    name. *)
Theorem GetModuleByName_spec s ident ns name m :
  GetModuleByName s ident ns name = Some m ↔
  ∃ t l1 l2, TenantOverview_ s ident = Some t ∧ ov_Modules t = l1 ++ m :: l2 ∧
    m_Namespace m = ns ∧ m_Name m = name ∧
    Forall (λ x, ¬ (m_Namespace x = ns ∧ m_Name x = name)) l1.
Proof.
  unfold GetModuleByName, TenantOverview_. destruct (overviews s !! ident) as [t|]; [|naive_solver].
  rewrite fmap_Some. split.
  - intros ([i x] & Hf & ->). apply list_find_Some in Hf as (Hl & [Hns Hn] & Hbefore).
    exists t, (take i (ov_Modules t)), (drop (S i) (ov_Modules t)). simpl. split; [done|].
    split; [by rewrite take_drop_middle|]. split; [done|]. split; [done|].
    apply Forall_forall. intros y (j & Hj)%list_elem_of_lookup. apply lookup_take_Some in Hj as [Hj Hlt].
    by eapply Hbefore.
  - intros (t' & l1 & l2 & [= <-] & Hl & Hns & Hn & Hf). exists (length l1, m). split; [|done].
    apply list_find_Some. rewrite Hl. split; [by apply list_lookup_middle|]. split; [done|].
    intros j y Hj Hlt. rewrite lookup_app_l in Hj by done. by eapply Forall_lookup_1 in Hf.
Qed.

(** ** Examples *)

Definition example_source : Source :=
  mkSource (Ok 1%Z) (Ok {["acme" := 3%Z]})
    (λ i, if decide (i = "acme") then Ok (mkOverview 3 []) else Err (ErrExt "unknown tenant")).

