(* ===== verification/Handlers.v ===== *)
(** * A request to the control process: e2core/server/handlers.go, server.go

    The handler of POST /name/:ident/:namespace/:name behind the authorization
    middleware.  It looks up the module in the syncer's copy, makes a sequence
    of one step, has the dispatcher execute it and answers with the output.
    Making a request from the HTTP request is another module's code, a
    parameter here. *)

From S2P Require Import Prelude.
From S2P Require Import Interfaces.
From S2P Require Import Message.
From S2P Require Import AuthCache.
From S2P Require Import Access.
From S2P Require Import Sequence.
From S2P Require Import Dispatcher.
From S2P Require Import Syncer.

(** What [c.Set] can have stored under a key. *)
Inductive ctx_value : Type := StrVal (s : string) | OtherVal.

(** The part of an echo context that the handler uses. *)
Record echo_ctx : Type := mkCtx {
  store : gmap string ctx_value;
  params : gmap string string;
  header : gmap string (list string)     (* of the response *)
}.

Definition Set_ (c : echo_ctx) (key : string) (v : ctx_value) : echo_ctx :=
  mkCtx (<[key := v]> (store c)) (params c) (header c).

(** [ReadParam]: the value that was set, else the parameter of the path. *)
Definition ReadParam (c : echo_ctx) (name : string) : outcome string :=
  match store c !! name with
  | Some (StrVal s) => Val s
  | Some OtherVal => Panic BadAssert
  | None => Val (default "" (params c !! name))
  end.

(** An HTTP answer: an error with its status and message, or a blob with the
    headers and the data. *)
Inductive answer : Type :=
| ErrorAnswer (status : Z) (message : string)
| Blob (status : Z) (hdr : gmap string (list string)) (data : string).

(** One turn of the loop over the response headers. *)
Definition add_header (h : gmap string (list string)) (kv : string * string) : gmap string (list string) :=
  let h1 := match h !! kv.1 with None => <[kv.1 := []]> h | Some _ => h end in
  <[kv.1 := default [] (h1 !! kv.1) ++ [kv.2]]> h1.

Definition copy_headers (hs : option (gmap string string)) (h : gmap string (list string)) :
    gmap string (list string) :=
  match hs with None => h | Some m => foldl add_header h (map_to_list m) end.

Lemma copy_headers_lookup m h k :
  copy_headers (Some m) h !! k =
    match m !! k with Some v => Some (default [] (h !! k) ++ [v]) | None => h !! k end.
Proof.
  unfold copy_headers. rewrite <- (list_to_map_to_list m) at 2.
  pose proof (NoDup_fst_map_to_list m) as Hnd. revert h Hnd.
  induction (map_to_list m) as [|[k' v] l IH]; intros h Hnd; simpl; [done|].
  apply NoDup_cons in Hnd as [Hk' Hnd]. rewrite IH by done. unfold add_header; simpl.
  destruct (decide (k = k')) as [->|Hne].
  - rewrite lookup_insert_eq, (not_elem_of_list_to_map_1 _ _ Hk'), lookup_insert_eq.
    destruct (h !! k') eqn:E; [by rewrite E|]. by rewrite lookup_insert_eq.
  - rewrite !(lookup_insert_ne _ k' k) by done.
    destruct (h !! k'); [done|]. by rewrite lookup_insert_ne.
Qed.

Section Handlers.
Context {WorkflowStep : Type} (FQMN : WorkflowStep → string).
Context (IsSingle IsGroup : WorkflowStep → bool).
Context `{Codec (list (WorkflowStep * bool))} `{Codec CoordinatedRequest}.
(** [tenant.WorkflowStep{FQMN: _}] *)
Context (step_of : string → WorkflowStep).
Context {HttpRequest : Type} (FromEchoContext : HttpRequest → result CoordinatedRequest).
Context (UseSuborbitalHeaders : HttpRequest → CoordinatedRequest → result CoordinatedRequest).

(** What the world does during a request: where Execute waits for ever, the pod's
    answer to the tunnel, the UUID and the time of the message, the callbacks of the
    dispatcher and what other requests do to them, the results that arrive. *)
Record world : Type := mkWorld {
  hangs : exec_wait → bool;
  waiting_for : gset string;
  meanwhile : gset string → gset string;
  tunnel : Message → option error;
  fresh : string;
  now : Z;
  arrivals : list arrival
}.

Definition failed_request : answer := ErrorAnswer 500 "failed to handle request".

Definition executePluginByNameHandler (fuel : nat) (sy : syncJob) (w : world) (c : echo_ctx)
    (rq : HttpRequest) : option (outcome answer) :=
  match ReadParam c "ident", ReadParam c "namespace", ReadParam c "name" with
  | Val ident, Val namespace, Val name =>
      match GetModuleByName sy ident namespace name with
      | None => Some (Val (ErrorAnswer 404 "module not found"))
      | Some m =>
          match FromEchoContext rq with
          | Err _ => Some (Val failed_request)
          | Ok req0 =>
              match UseSuborbitalHeaders rq req0 with
              | Err _ => Some (Val failed_request)
              | Ok req =>
                  '(o, _) ← Execute FQMN IsSingle IsGroup fuel (hangs w) (tunnel w) (fresh w) (now w)
                              (waiting_for w) (meanwhile w) (New [step_of (m_FQMN m)] req) (arrivals w);
                  Some (
                    '(err, seq) ← o;
                    match err with
                    | Some _ => Val (ErrorAnswer 500 "failed to execute plugin")
                    | None =>
                        let hdr := copy_headers (req_RespHeaders (seq_req seq)) (header c) in
                        Val (Blob 200 hdr (default "" ((default ∅ (req_State (seq_req seq))) !! m_FQMN m)))
                    end)
              end
          end
      end
  | Panic p, _, _ | Val _, Panic p, _ | Val _, Val _, Panic p => Some (Panic p)
  end.

(** The route: the middleware, then the handler. *)
Definition post_name (fuel : nat) (client : AuthzClient)
    (cached : string → result (option TenantInfo) → result (option TenantInfo))
    (sy : syncJob) (w : world) (c : echo_ctx) (authInfo : string) (rq : HttpRequest) :
    option (outcome answer) :=
  let param k := default "" (params c !! k) in
  match AuthorizationMiddleware client cached authInfo (param "ident") (param "namespace") (param "name") with
  | Panic p => Some (Panic p)
  | Val (HTTPError s) => Some (Val (ErrorAnswer s ""))
  | Val (Next id) => executePluginByNameHandler fuel sy w (Set_ c "ident" (StrVal id)) rq
  end.

(** ** One step *)

(** The message of the only step of a request. *)
Definition request_msg (w : world) (m : Module_) (req : CoordinatedRequest) : Message :=
  dispatchMsg FQMN (fresh w) (now w) (step_of (m_FQMN m)) (New [step_of (m_FQMN m)] req).

(** Execute got through: the message was tunneled, and a result of a successful
    run arrived first. *)
Definition got_through (w : world) (m : Module_) (req : CoordinatedRequest) (r : ExecResult)
    (resp : CoordinatedResponse) : Prop :=
  tunnel w (request_msg w m req) = None ∧ head (arrivals w) = Some (Arrived r) ∧ succeeded r resp.

Lemma Execute_single fuel w m req st hs :
  req_State req = Some st → req_RespHeaders req = Some hs →
  ∃ err seq, run_sequence FQMN IsSingle IsGroup (S fuel) false (tunnel w) (fresh w) (now w)
      (New [step_of (m_FQMN m)] req) (arrivals w) = Some (Val (err, seq)) ∧
    match err with
    | Some _ => ∀ r resp, ¬ got_through w m req r resp
    | None => ∃ r resp, got_through w m req r resp ∧
        req_State (seq_req seq) = Some (<[er_FQMN r := Output resp]> st) ∧
        req_RespHeaders (seq_req seq) = Some (default ∅ (RespHeaders resp) ∪ hs)
    end.
Proof.
  intros Hst Hhs. set (seq0 := New [step_of (m_FQMN m)] req).
  unfold run_sequence, dispatchSingle, got_through, request_msg, next_arrival. fold seq0. simpl.
  destruct (tunnel w _) eqn:Et; [eexists _, _; split; [done|]; intros ?? [? _]; congruence|].
  destruct (head (arrivals w)) as [[r|]|]; simpl;
    [|eexists _, _; split; [done|]; intros ?? (_ & ? & _); congruence..].
  destruct (Response r) as [resp|] eqn:Er;
    [|eexists _, _; split; [done|]; intros ? resp (_ & [= <-] & _ & _ & _ & ?); congruence].
  destruct (decide (succeeded r resp)) as [Hok|Hno].
  - rewrite (HandleStepResults_exact seq0 r resp st hs 0) by done. run.
    eexists _, _. split; [done|]. exists r, resp. done.
  - destruct (handle_result_err r resp (seq_req seq0) Er Hno) as (e & He).
    unfold HandleStepResults. cbn [handle_results]. rewrite He. run.
    eexists _, _. split; [done|]. intros r' resp' (_ & [= <-] & Hs). destruct Hno.
    destruct Hs as (? & ? & ? & ?). unfold succeeded. naive_solver.
Qed.

(** ** What the handler answers *)

(** The request that is made from an HTTP request. *)
Definition request_of (rq : HttpRequest) : result CoordinatedRequest :=
  req0 ← FromEchoContext rq; UseSuborbitalHeaders rq req0.

(** The answers that the handler promises for a tenant, a namespace and a name. *)
Inductive answers (sy : syncJob) (w : world) (h : gmap string (list string)) (rq : HttpRequest)
    (ident namespace name : string) : answer → Prop :=
| AnsNoModule :
    GetModuleByName sy ident namespace name = None →
    answers sy w h rq ident namespace name (ErrorAnswer 404 "module not found")
| AnsBadRequest m e :
    GetModuleByName sy ident namespace name = Some m → request_of rq = Err e →
    answers sy w h rq ident namespace name (ErrorAnswer 500 "failed to handle request")
| AnsFailed m req :
    GetModuleByName sy ident namespace name = Some m → request_of rq = Ok req →
    (∀ r resp, ¬ got_through w m req r resp) →
    answers sy w h rq ident namespace name (ErrorAnswer 500 "failed to execute plugin")
| AnsServed m req st hs r resp hdr data :
    GetModuleByName sy ident namespace name = Some m → request_of rq = Ok req →
    req_State req = Some st → req_RespHeaders req = Some hs → got_through w m req r resp →
    (* the headers of the result, over those of the request, behind what is there *)
    (∀ k, hdr !! k = match (default ∅ (RespHeaders resp) ∪ hs) !! k with
                     | Some v => Some (default [] (h !! k) ++ [v]) | None => h !! k end) →
    (* the output, when the result is that of the module *)
    data = default "" (<[er_FQMN r := Output resp]> st !! m_FQMN m) →
    answers sy w h rq ident namespace name (Blob 200 hdr data).

(** [FromEchoContext] and [UseSuborbitalHeaders] make the maps of a request. *)
Definition makes_maps : Prop := ∀ rq req, request_of rq = Ok req →
  ∃ st hs, req_State req = Some st ∧ req_RespHeaders req = Some hs.

Lemma answers_fun sy w h rq i ns n a b :
  answers sy w h rq i ns n a → answers sy w h rq i ns n b → a = b.
Proof.
  intros [|m e|m req|m req st hs r resp hdr data] Hb; destruct Hb as [|m' e'|m' req'|m' req' st' hs' r' resp' hdr' data'];
    simplify_eq; try congruence;
    try assert (req' = req) as -> by congruence; try (exfalso; naive_solver).
  repeat match goal with H : got_through _ _ _ _ _ |- _ => destruct H as (_ & ? & ? & ? & ? & ?) end.
  simplify_eq. f_equal. apply map_eq. intros k.
  repeat match goal with H : ∀ k, _ !! k = _ |- _ => rewrite (H k); clear H end. done.
Qed.

Lemma handler_run fuel sy w c rq ident ns n :
  makes_maps → (∀ x, hangs w x = false) →
  ReadParam c "ident" = Val ident → ReadParam c "namespace" = Val ns → ReadParam c "name" = Val n →
  ∃ a, executePluginByNameHandler (S fuel) sy w c rq = Some (Val a) ∧ answers sy w (header c) rq ident ns n a.
Proof.
  intros Hmaps Hh Hi Hns Hn. unfold executePluginByNameHandler. rewrite Hi, Hns, Hn.
  destruct (GetModuleByName sy ident ns n) as [m|] eqn:Em; [|eexists; split; [done|by constructor]].
  assert (Hreq : request_of rq = req0 ← FromEchoContext rq; UseSuborbitalHeaders rq req0) by done.
  destruct (FromEchoContext rq) as [req0|e] eqn:Ef; simpl in Hreq;
    [|eexists; split; [done|by eapply AnsBadRequest]].
  destruct (UseSuborbitalHeaders rq req0) as [req|e] eqn:Eu;
    [|eexists; split; [done|by eapply AnsBadRequest]].
  destruct (Hmaps rq req Hreq) as (st & hs & Hst & Hhs). rewrite Execute_run by done.
  destruct (Execute_single fuel w m req st hs Hst Hhs) as (err & seq & He & Hres). rewrite He. simpl. run.
  destruct err as [e|]; [eexists; split; [done|by eapply AnsFailed]|].
  destruct Hres as (r & resp & Hgot & Hst' & Hhs'). eexists. split; [done|].
  eapply AnsServed; try done; [|by rewrite Hst'].
  intros k. rewrite Hhs'. apply copy_headers_lookup.
Qed.

(** The world in which nothing hangs. *)
Definition unhung (w : world) : world :=
  mkWorld (λ _, false) (waiting_for w) (meanwhile w) (tunnel w) (fresh w) (now w) (arrivals w).

(** A wait that hangs only takes the answer away, and only when Execute is called. *)
Lemma handler_unhung fuel sy w c rq :
  executePluginByNameHandler fuel sy w c rq = executePluginByNameHandler fuel sy (unhung w) c rq ∨
  (executePluginByNameHandler fuel sy w c rq = None ∧ (∃ x, hangs w x = true) ∧
   ∃ ident ns n m req, ReadParam c "ident" = Val ident ∧ ReadParam c "namespace" = Val ns ∧
     ReadParam c "name" = Val n ∧ GetModuleByName sy ident ns n = Some m ∧ request_of rq = Ok req).
Proof.
  unfold executePluginByNameHandler, request_of.
  destruct (ReadParam c "ident") as [ident|] eqn:Ei; [|by left].
  destruct (ReadParam c "namespace") as [ns|] eqn:Ens; [|by left].
  destruct (ReadParam c "name") as [n|] eqn:En; [|by left].
  destruct (GetModuleByName sy ident ns n) as [m|] eqn:Em; [|by left].
  destruct (FromEchoContext rq) as [req0|e]; [|by left]. simpl.
  destruct (UseSuborbitalHeaders rq req0) as [req|e]; [|by left].
  assert (∀ x, hangs w x = true → (∃ x, hangs w x = true) ∧ ∃ ident' ns' n' m' req', Val ident = Val ident' ∧
    Val ns = Val ns' ∧ Val n = Val n' ∧ GetModuleByName sy ident' ns' n' = Some m' ∧ Ok req = Ok req') as Hh
    by (intros x Hx; eauto 12).
  unfold Execute; simpl. destruct (hangs w WaitAdd) eqn:Ha; [right; split; [done|exact (Hh _ Ha)]|].
  destruct (hangs w WaitRemove) eqn:Hr.
  { right. split; [|exact (Hh _ Hr)]. by destruct (run_sequence _ _ _ _ _ _ _ _ _ _). }
  destruct (hangs w WaitTunnel) eqn:Ht; [|by left]. right. split; [|exact (Hh _ Ht)].
  unfold run_sequence. simpl. done.
Qed.

Lemma answers_unhung sy w h rq i ns n a : answers sy (unhung w) h rq i ns n a ↔ answers sy w h rq i ns n a.
Proof. split; intros []; by econstructor. Qed.

(** C17: On requests whose maps the request library makes, and with parameters
    that are strings, the handler never panics and ends with the one answer that
    the specification allows: 404 exactly when the tenant has no such module, 500
    when the request cannot be made or was not executed, and otherwise the output,
    with the headers that the module set behind those that are there; unless
    Execute, which it calls for a module that is there and a request that could be
    made, waits for ever for the lock of the dispatcher or in the tunnel. *)
Theorem handler_answers fuel sy w c rq ident ns n :
  makes_maps →
  ReadParam c "ident" = Val ident → ReadParam c "namespace" = Val ns → ReadParam c "name" = Val n →
  match executePluginByNameHandler (S fuel) sy w c rq with
  | Some (Val a) => ∀ b, answers sy w (header c) rq ident ns n b ↔ b = a
  | Some (Panic _) => False
  | None => (∃ x, hangs w x = true) ∧
      ∃ m req, GetModuleByName sy ident ns n = Some m ∧ request_of rq = Ok req
  end.
Proof.
  intros Hmaps Hi Hns Hn.
  destruct (handler_run fuel sy (unhung w) c rq ident ns n Hmaps (λ _, eq_refl) Hi Hns Hn) as (a & Ha & Hans).
  destruct (handler_unhung (S fuel) sy w c rq) as [->|(-> & Hh & i & ns' & n' & m & req & E1 & E2 & E3 & Hm & Hr)].
  - rewrite Ha. apply (proj1 (answers_unhung _ _ _ _ _ _ _ _)) in Hans. intros b. split; [|by intros ->]. intros Hb. by eapply answers_fun.
  - split; [done|]. rewrite Hi in E1. rewrite Hns in E2. rewrite Hn in E3. simplify_eq. eauto.
Qed.

(** C16: A request to run a module by name is answered with data only when a token
    came with it, the cache answered with a tenant for that token, the copy of
    that tenant has a module of that namespace and name, the message was tunneled
    and a successful result arrived; the data of a result of that module are its
    output. *)
Theorem request_served fuel client cached sy w c authInfo rq status hdr data :
  makes_maps → store c = ∅ →
  post_name (S fuel) client cached sy w c authInfo rq = Some (Val (Blob status hdr data)) →
  let ident := default "" (params c !! "ident") in
  let ns := default "" (params c !! "namespace") in
  let n := default "" (params c !! "name") in
  ∃ t info m req r resp,
    ExtractAccessToken authInfo = Val (Some t) ∧
    cached (auth_key ident ns n t) (loadAuth client t ident) = Ok (Some info) ∧
    GetModuleByName sy (TenantID info) ns n = Some m ∧
    request_of rq = Ok req ∧ got_through w m req r resp ∧ status = 200%Z ∧
    (er_FQMN r = m_FQMN m → data = Output resp).
Proof.
  intros Hmaps Hst. unfold post_name, AuthorizationMiddleware. simpl.
  destruct (ExtractAccessToken authInfo) as [[t|]|] eqn:Et; run; try done.
  destruct (cached _ _) as [[info|]|e] eqn:Ec; try done. intros Hh.
  set (c1 := Set_ c "ident" (StrVal (TenantID info))) in Hh.
  destruct (handler_unhung (S fuel) sy w c1 rq) as [Hu|(Hu & _)]; [rewrite Hu in Hh|by rewrite Hu in Hh].
  destruct (handler_run fuel sy (unhung w) c1 rq (TenantID info) (default "" (params c !! "namespace"))
    (default "" (params c !! "name")) Hmaps (λ _, eq_refl)) as (a & Ha & Hans).
  - unfold ReadParam, c1, Set_. simpl. by rewrite lookup_insert_eq.
  - unfold ReadParam, c1, Set_. simpl. by rewrite lookup_insert_ne, Hst, lookup_empty.
  - unfold ReadParam, c1, Set_. simpl. by rewrite lookup_insert_ne, Hst, lookup_empty.
  - rewrite Ha in Hh. injection Hh as ->. apply (proj1 (answers_unhung _ _ _ _ _ _ _ _)) in Hans. inversion Hans; subst.
    do 6 eexists. split_and!; try done. intros ->. by rewrite lookup_insert_eq.
Qed.

End Handlers.

(** ** Examples *)

#[local] Instance name_steps_codec : Codec (list (string * bool)) := countable_codec _.
#[local] Instance request_codec : Codec CoordinatedRequest := countable_codec _.

(** The copy of the state of a tenant with one module; a context and a world in
    which a result arrives. *)
Definition example_sync : syncJob :=
  mkSync 1 {["acme.id" := 1%Z]} {["acme.id" := mkOverview 1 [mkModule "ref" "fqmn://acme.id/ns/fn@ref" "fn" "ns"]]} ∅.
Definition example_ctx : echo_ctx :=
  mkCtx ∅ (<["ident" := "acme"]> (<["namespace" := "ns"]> {["name" := "fn"]})) ∅.
Definition example_world : world :=
  mkWorld (λ _, false) ∅ id (λ _, None) "uuid" 0
    [Arrived (mkExecResult "fqmn://acme.id/ns/fn@ref" (Some (mkResponse "out" (Some {["X-K" := "v"]}))) 0 "" "")].

Abbreviation example_new := (λ body : string, Ok (mkRequest "id" body (Some ∅) (Some ∅) "")).

Lemma example_maps : makes_maps example_new (λ _ req, Ok req).
Proof. intros rq req [= <-]. by eexists _, _. Qed.

Lemma handler_answers_witness :
  ∃ a, executePluginByNameHandler id (λ _, true) (λ _, false) id example_new (λ _ req, Ok req) 1
         example_sync example_world (Set_ example_ctx "ident" (StrVal "acme.id")) "body" = Some (Val a) ∧
       ∀ b, answers id id example_new (λ _ req, Ok req) example_sync example_world ∅ "body" "acme.id" "ns" "fn" b ↔
            b = a.
Proof.
  pose proof (handler_answers id (λ _, true) (λ _, false) id example_new (λ _ req, Ok req) 0 example_sync example_world
    (Set_ example_ctx "ident" (StrVal "acme.id")) "body" "acme.id" "ns" "fn" example_maps eq_refl eq_refl eq_refl) as Ha.
  destruct (executePluginByNameHandler _ _ _ _ _ _ 1 _ _ _ _) as [[a|p]|]; [by exists a|destruct Ha|].
  destruct Ha as [[x Hx] _]. discriminate Hx.
Defined.

Lemma request_served_witness :
  ∃ t info m, ExtractAccessToken "Bearer tok" = Val (Some t) ∧ loadAuth example_client t "acme" = Ok (Some info) ∧
    GetModuleByName example_sync (TenantID info) "ns" "fn" = Some m.
Proof.
  destruct (request_served id (λ _, true) (λ _, false) id example_new (λ _ req, Ok req) 0 example_client
    (λ _ loaded, loaded) example_sync example_world example_ctx "Bearer tok" "body" 200 {["X-K" := ["v"]]} "out")
    as (t & info & m & _ & _ & _ & Ht & Hinfo & Hm & _);
    [apply example_maps|reflexivity|vm_compute; reflexivity|].
  by exists t, info, m.
Defined.
