(* ===== verification/EndToEnd.v ===== *)
(** * A request from end to end

    The handler of the control process (Handlers) with a runner at the other end
    of the mesh (Mesh): what a client gets for a request is what the function of
    the module answers. *)

From S2P Require Import Prelude.
From S2P Require Import Interfaces.
From S2P Require Import Message.
From S2P Require Import AuthCache.
From S2P Require Import Access.
From S2P Require Import Sequence.
From S2P Require Import Dispatcher.
From S2P Require Import Mesh.
From S2P Require Import Syncer.
From S2P Require Import Handlers.

Section EndToEnd.
Context {WorkflowStep : Type} (FQMN : WorkflowStep → string).
Context (IsSingle IsGroup : WorkflowStep → bool).
Context `{Codec (list (WorkflowStep * bool))} `{Codec CoordinatedRequest} `{Codec ExecResult}.
Context (step_of : string → WorkflowStep) (FQMN_step_of : ∀ f, FQMN (step_of f) = f).
Context {HttpRequest : Type} (FromEchoContext : HttpRequest → result CoordinatedRequest).
Context (UseSuborbitalHeaders : HttpRequest → CoordinatedRequest → result CoordinatedRequest).
(** The runners: the texts of errors, UUIDs, the time and the functions. *)
Context (errText : error → string) (sat_fresh : nat → string) (sat_now : Z).
Context (fn : string → CoordinatedRequest → fn_result).

Abbreviation make := (request_of FromEchoContext UseSuborbitalHeaders).
Abbreviation runner := (mesh_run FQMN errText sat_fresh sat_now fn).

(** The request as the function of the module sees it. *)
Definition module_request (m : Module_) (req : CoordinatedRequest) : CoordinatedRequest :=
  seq_req (New [step_of (m_FQMN m)] req).

(** An error of the function that the runner can tell the parent about. *)
Definition reported (e : error) : Prop :=
  match e with ErrRun c m => c ≠ 0%Z ∨ m ≠ "" | e => errText e ≠ "" end.

(** What the runner sends back first. *)
Definition first_result (m : Module_) (req : CoordinatedRequest) (r : ExecResult) : Prop :=
  match fn (m_FQMN m) (module_request m req) with
  | FnResponse resp => r = mkExecResult (m_FQMN m) (Some resp) 0 "" ""
  | FnOther => False
  | FnErr e => (∀ resp, ¬ succeeded r resp) ∨ ¬ reported e
  end.

(** The handler of the runner, when one step is left and the request has its maps:
    the result goes to the parent, and nothing else is sent. *)
Lemma handle_last msg req seq s st hs fr r :
  unmarshal (Data msg) = Ok req → FromJSON (req_SequenceJSON req) req = Ok seq →
  steps seq = [(s : WorkflowStep, false)] →
  req_State (seq_req seq) = Some st → req_RespHeaders (seq_req seq) = Some hs → package errText (Type_ msg) r = Some fr →
  handleFnResult FQMN errText sat_fresh sat_now true msg r = Val [ToParent (sendFnResult sat_fresh sat_now (req_ID req) fr)].
Proof.
  intros Hreq Hseq Hs Hst Hhs Hp. assert (NextStep seq = Some 0) as Hi by (unfold NextStep; by rewrite Hs).
  unfold handleFnResult. rewrite Hreq, Hseq, Hi, Hp. simpl. destruct (is_exec_err r); [done|].
  assert (∃ resp, Response fr = Some resp) as [resp Hr].
  { destruct r as [resp| |[]]; simpl in Hp; simplify_eq; by eexists. }
  destruct (decide (succeeded fr resp)) as [Hok|Hno].
  - rewrite (HandleStepResults_exact seq fr resp st hs 0) by done. run. by rewrite Hs.
  - destruct (handle_result_err fr resp (seq_req seq) Hr Hno) as (e & He).
    unfold HandleStepResults. cbn [handle_results]. rewrite He. run. done.
Qed.

Lemma packaged m req :
  fn (m_FQMN m) (module_request m req) ≠ FnOther →
  ∃ r, package errText (m_FQMN m) (fn (m_FQMN m) (module_request m req)) = Some r ∧ first_result m req r.
Proof.
  unfold first_result. destruct (fn _ _) as [resp| |e]; [intros _; by eexists|done|intros _].
  destruct e; (eexists; split; [reflexivity|]); unfold succeeded; simpl.
  - destruct (decide (errText (ErrNew text) = "")) as [|Hne]; [right; tauto|left; naive_solver].
  - destruct (decide (errText (ErrWrap e msg) = "")) as [|Hne]; [right; tauto|left; naive_solver].
  - destruct (decide (code = 0%Z)); [destruct (decide (message = ""))|]; [right; tauto|left; naive_solver..].
  - destruct (decide (errText (ErrExt text) = "")) as [|Hne]; [right; tauto|left; naive_solver].
Qed.

(** What the runner of a module does with the message of a request: it sends the
    result of the function to the parent. *)
Lemma job_reports w m req st hs :
  req_State req = Some st → req_RespHeaders req = Some hs → fn (m_FQMN m) (module_request m req) ≠ FnOther →
  let msg := request_msg FQMN step_of w m req in
  ∃ r, handleFnResult FQMN errText sat_fresh sat_now true msg (run_job fn msg) =
      Val [ToParent (sendFnResult sat_fresh sat_now (req_ID req) r)] ∧ first_result m req r.
Proof.
  intros Hst Hhs Hfn msg.
  assert (unmarshal (Data msg) = Ok (module_request m req)) as Hreq by apply unmarshal_marshal.
  assert (Type_ msg = m_FQMN m) as Ht by apply FQMN_step_of.
  destruct (packaged m req Hfn) as (r & Hp & Hfirst). exists r. split; [|done].
  unfold run_job. rewrite Hreq, Ht. rewrite <- Ht in Hp at 1.
  assert (∃ seq, FromJSON (req_SequenceJSON (module_request m req)) (module_request m req) = Ok seq ∧
    steps seq = [(step_of (m_FQMN m), false)] ∧ req_State (seq_req seq) = Some st ∧ req_RespHeaders (seq_req seq) = Some hs)
    as (seq & Hseq & Hs & Hst' & Hhs').
  { unfold FromJSON, module_request, New, newWithSteps; simpl. rewrite unmarshal_marshal. by eexists. }
  exact (handle_last msg _ seq _ st hs r _ Hreq Hseq Hs Hst' Hhs' Hp).
Qed.

Lemma runner_first fuel w m req st hs l :
  req_State req = Some st → req_RespHeaders req = Some hs →
  runner (S fuel) (request_msg FQMN step_of w m req) = Val l →
  ∃ r, head l = Some (Arrived r) ∧ first_result m req r.
Proof.
  intros Hst Hhs. cbn [mesh_run]. set (msg := request_msg FQMN step_of w m req).
  assert (fn (m_FQMN m) (module_request m req) = FnOther ∨ fn (m_FQMN m) (module_request m req) ≠ FnOther) as [Hfn|Hfn].
  { destruct (fn _ _); [by right|by left|by right]. }
  { intros Hl. exfalso. revert Hl. unfold run_job, handleFnResult.
    assert (unmarshal (Data msg) = Ok (module_request m req)) as -> by apply unmarshal_marshal.
    assert (Type_ msg = m_FQMN m) as -> by apply FQMN_step_of.
    unfold FromJSON, module_request, New, newWithSteps; simpl. rewrite unmarshal_marshal. simpl.
    unfold module_request, New, newWithSteps in Hfn; simpl in Hfn. by rewrite Hfn. }
  destruct (job_reports w m req st hs Hst Hhs Hfn) as (r & Ho & Hfirst). fold msg in Ho. rewrite Ho.
  intros Hl. exists r. split; [|done]. revert Hl. unfold sendFnResult at 1, Data; simpl. rewrite unmarshal_marshal.
  by intros [= <-].
Qed.

Section Post.
Context (fuel : nat) (client : AuthzClient) (cached : string → result (option TenantInfo) → result (option TenantInfo)).
Context (sy : syncJob) (w : world) (c : echo_ctx) (authInfo : string) (rq : HttpRequest) (ident ns name : string).

Let post := post_name FQMN IsSingle IsGroup step_of FromEchoContext UseSuborbitalHeaders (S fuel)
              client cached sy w c authInfo rq.

Context (Hmaps : makes_maps FromEchoContext UseSuborbitalHeaders) (Hnohang : ∀ x, hangs w x = false) (Hst : store c = ∅).
Context (Hauth : AuthorizationMiddleware client cached authInfo (default "" (params c !! "ident")) ns name = Val (Next ident)).
Context (Hns : default "" (params c !! "namespace") = ns) (Hname : default "" (params c !! "name") = name).
Context (m : Module_) (req : CoordinatedRequest).
Context (Hm : GetModuleByName sy ident ns name = Some m) (Hreq : make rq = Ok req).

(** An authorized request gets what the specification of the handler allows. *)
Lemma post_answers :
  ∃ a, post = Some (Val a) ∧
    answers FQMN step_of FromEchoContext UseSuborbitalHeaders sy w (header c) rq ident ns name a.
Proof.
  set (c1 := Set_ c "ident" (StrVal ident)).
  destruct (handler_run FQMN IsSingle IsGroup step_of FromEchoContext UseSuborbitalHeaders fuel sy w c1 rq ident ns name
    Hmaps Hnohang) as (a & Ha & Hans); [unfold ReadParam, c1, Set_; simpl|..].
  { by rewrite lookup_insert_eq. }
  1,2: unfold ReadParam, c1, Set_; simpl; rewrite lookup_insert_ne, Hst, lookup_empty by done; by subst.
  exists a. split; [|exact Hans]. unfold post, post_name. by rewrite Hns, Hname, Hauth.
Qed.

(** It gets a 500 when no result of its module gets through. *)
Lemma post_failed : (∀ r resp, ¬ got_through FQMN step_of w m req r resp) → post = Some (Val (ErrorAnswer 500 "failed to execute plugin")).
Proof.
  intros Hno. destruct post_answers as (a & -> & Hans). do 2 f_equal. eapply answers_fun; [exact Hans|].
  by eapply AnsFailed.
Qed.

(** What the client gets when the result of a runner is the first to arrive. *)
Lemma first_result_answers r :
  tunnel w (request_msg FQMN step_of w m req) = None → head (arrivals w) = Some (Arrived r) → first_result m req r →
  match fn (m_FQMN m) (module_request m req) with
  | FnResponse resp => ∃ hdr, post = Some (Val (Blob 200 hdr (Output resp)))
  | FnOther => False
  | FnErr e => reported e → post = Some (Val (ErrorAnswer 500 "failed to execute plugin"))
  end.
Proof.
  intros Ht Hr Hfirst. destruct (Hmaps rq req Hreq) as (st & hs & Hs & Hh). unfold first_result in Hfirst.
  destruct (fn (m_FQMN m) (module_request m req)) as [resp| |e]; [|done|].
  - destruct post_answers as (a & -> & Hans). eexists. do 2 f_equal. eapply answers_fun; [exact Hans|].
    eapply (AnsServed _ _ _ _ _ _ _ _ _ _ _ m req st hs r resp); try done.
    + split; [done|]. split; [done|]. by subst r.
    + intros k. apply copy_headers_lookup.
    + subst r. simpl. by rewrite lookup_insert_eq.
  - intros He. destruct Hfirst as [Hno|]; [|done]. apply post_failed. intros r' resp (_ & Hr' & Hok). rewrite Hr in Hr'.
    injection Hr' as <-. by eapply Hno.
Qed.

(** When the dispatcher stops waiting for it before. *)
Lemma timeout_answers : head (arrivals w) = Some TimedOut → post = Some (Val (ErrorAnswer 500 "failed to execute plugin")).
Proof. intros Hr. apply post_failed. intros r resp (_ & Hr' & _). congruence. Qed.

(** When its message could not be sent. *)
Lemma unsent_answers :
  tunnel w (request_msg FQMN step_of w m req) ≠ None → post = Some (Val (ErrorAnswer 500 "failed to execute plugin")).
Proof. intros Ht. apply post_failed. by intros r resp (Ht' & _). Qed.

End Post.

(** What a client gets for an authorized request to a module is what the function
    of the module answers: when the message reaches a runner and its results come
    back, the answer is 200 with the output of the function, and 500 when the
    function ends with an error that the runner reports. *)
Theorem request_runs_module fuel n client cached sy w c authInfo rq ident ns name m req :
  let post := post_name FQMN IsSingle IsGroup step_of FromEchoContext UseSuborbitalHeaders (S fuel)
                client cached sy w c authInfo rq in
  makes_maps FromEchoContext UseSuborbitalHeaders → (∀ x, hangs w x = false) → store c = ∅ →
  AuthorizationMiddleware client cached authInfo (default "" (params c !! "ident")) ns name = Val (Next ident) →
  default "" (params c !! "namespace") = ns → default "" (params c !! "name") = name →
  GetModuleByName sy ident ns name = Some m → make rq = Ok req →
  tunnel w (request_msg FQMN step_of w m req) = None →
  runner (S n) (request_msg FQMN step_of w m req) = Val (arrivals w) →
  match fn (m_FQMN m) (module_request m req) with
  | FnResponse resp => ∃ hdr, post = Some (Val (Blob 200 hdr (Output resp)))
  | FnOther => False
  | FnErr e => reported e → post = Some (Val (ErrorAnswer 500 "failed to execute plugin"))
  end.
Proof.
  intros post Hmaps Hnohang Hst Hauth Hns Hname Hm Hreq Ht Hrun. destruct (Hmaps rq req Hreq) as (st & hs & Hs & Hh).
  destruct (runner_first n w m req st hs _ Hs Hh Hrun) as (r & Hr & Hfirst).
  by eapply first_result_answers.
Qed.

End EndToEnd.

(** ** Examples *)

#[local] Instance name_steps_codec : Codec (list (string * bool)) := countable_codec _.
#[local] Instance request_codec : Codec CoordinatedRequest := countable_codec _.
#[local] Instance result_codec : Codec ExecResult := countable_codec _.

Definition example_module : Module_ := mkModule "ref" "fqmn://acme.id/ns/fn@ref" "fn" "ns".
Definition example_req : CoordinatedRequest := mkRequest "id" "body" (Some ∅) (Some ∅) "".

(** The world in which the runner of the module answers. *)
Definition echo_world : world :=
  mkWorld (λ _, false) ∅ id (λ _, None) "uuid" 0
    [Arrived (mkExecResult "fqmn://acme.id/ns/fn@ref" (Some (mkResponse "fqmn://acme.id/ns/fn@ref" None)) 0 "" "")].

Lemma request_runs_module_witness :
  ∃ hdr, post_name id (λ _, true) (λ _, false) id example_new (λ _ req, Ok req) 1 example_client
    (λ _ loaded, loaded) example_sync echo_world example_ctx "Bearer tok" "body"
  = Some (Val (Blob 200 hdr "fqmn://acme.id/ns/fn@ref")).
Proof.
  apply (request_runs_module id (λ _, true) (λ _, false) id (λ f, eq_refl) example_new (λ _ req, Ok req)
    (λ _, "error") (λ _, "u") 0 echo_fn 0 0 example_client (λ _ loaded, loaded) example_sync echo_world example_ctx
    "Bearer tok" "body" "acme.id" "ns" "fn" example_module example_req);
    [apply example_maps|reflexivity|reflexivity|vm_compute; reflexivity..].
Defined.
