(* ===== verification/Orchestrator.v ===== *)
(** * The orchestrator: e2core/backend/satbackend/orchestrator.go, watcher.go

    A [watcher] keeps the instances of one module by port; [running] is the
    counter of its wait group and [cancelled] the instances whose context was
    cancelled.  A process that [launch] starts is added by [add] later, so a
    reconciliation only says whether it launches. *)

From S2P Require Import Prelude.

Record instance : Type := mkInstance { i_fqmn : string; i_uuid : string }.

Record watcher : Type := mkWatch {
  w_fqmn : string;
  instances : gmap string instance;
  deadList : gset string;
  running : Z;
  cancelled : list string
}.

Definition newWatcher (fqmn : string) : watcher := mkWatch fqmn ∅ ∅ 0 [].

Definition addToDead (w : watcher) (port : string) : option error * watcher :=
  if decide (port ∈ deadList w) then (Some (ErrNew "port is already in the dead list"), w)
  else (None, mkWatch (w_fqmn w) (instances w) ({[port]} ∪ deadList w) (running w) (cancelled w)).

(** [add]: an instance that is already on the port is only logged. *)
Definition add (w : watcher) (fqmn port uuid : string) : watcher :=
  mkWatch (w_fqmn w) (<[port := mkInstance fqmn uuid]> (instances w)) (deadList w) (running w + 1)
    (cancelled w).

(** [instancesRunning.Add(-1)] *)
Definition wg_done (n : Z) : outcome Z := if decide (n - 1 < 0)%Z then Panic NegWaitGroup else Val (n - 1)%Z.

(** Cancel and forget the instance on a port. *)
Definition remove_instance (w : watcher) (p : string) (i : instance) : outcome watcher :=
  n ← wg_done (running w);
  Val (mkWatch (w_fqmn w) (delete p (instances w)) (deadList w) n (i_uuid i :: cancelled w)).

(** [pick] is the port that Go's map iteration comes to first. *)
Definition scaleDown (w : watcher) (pick : string) : outcome watcher :=
  match instances w !! pick with
  | Some i => remove_instance w pick i
  | None => Val w
  end.

Definition terminateInstance (w : watcher) (p : string) : outcome (option error * watcher) :=
  match instances w !! p with
  | None => Val (Some (ErrNew ("there isn't an instance on port " +:+ p)), w)
  | Some i => w1 ← remove_instance w p i; Val (None, w1)
  end.

(** The loop of [terminate]; [Wait] returns when the counter is zero. *)
Fixpoint terminate_all (w : watcher) (l : list (string * instance)) : outcome watcher :=
  match l with
  | [] => Val w
  | (p, i) :: l => w1 ← remove_instance w p i; terminate_all w1 l
  end.

(** [terminate], as one step; what the goroutine of a launch that adds an instance
    between the loop and [Wait] does is [terminate_during_launch]. *)
Definition terminate (w : watcher) : outcome (watcher * bool) :=
  w1 ← terminate_all w (map_to_list (instances w));
  Val (w1, bool_decide (running w1 = 0%Z)).

Record watcherReport : Type := mkReport { instCount : Z; totalThreads : Z; failedPorts : list string }.

(** [report]: [getReport] is the thread count that an instance reports. *)
Definition report_step (getReport : string → result Z) (acc : Z * list string) (p : string) :
    Z * list string :=
  match getReport p with
  | Ok n => ((acc.1 + n)%Z, acc.2)
  | Err _ => (acc.1, acc.2 ++ [p])
  end.

Definition report (getReport : string → result Z) (w : watcher) : option watcherReport :=
  if decide (instances w = ∅) then None
  else
    let '(threads, failed) := foldl (report_step getReport) (0%Z, []) (map_to_list (instances w)).*1 in
    Some (mkReport (Z.of_nat (size (instances w)) - Z.of_nat (length failed)) threads failed).

(** ** A pass of reconcileConstellation over one module *)

Inductive action : Type := Launch | AtMaximum | Nothing | ScaleDown.

Definition threshold (numCPU : Z) : Z := if bool_decide (8 < numCPU ÷ 2)%Z then 8 else (numCPU ÷ 2)%Z.

Definition decision (numCPU : Z) (r : option watcherReport) : action :=
  match r with
  | None => Launch
  | Some r =>
      if decide (instCount r = 0)%Z then Launch
      else if bool_decide (0 < instCount r)%Z && bool_decide (threshold numCPU ≤ totalThreads r ÷ instCount r)%Z
      then if bool_decide (numCPU ≤ instCount r)%Z then AtMaximum else Launch
      else if bool_decide (0 < instCount r)%Z && bool_decide (totalThreads r ÷ instCount r < threshold numCPU)%Z
      then if decide (instCount r = 1)%Z then Nothing else ScaleDown
      else Nothing
  end.

(** The loop over the failed ports, with the orchestrator's counts. *)
Fixpoint count_failures (w : watcher) (counts : gmap string Z) (ports : list string) :
    outcome (watcher * gmap string Z) :=
  match ports with
  | [] => Val (w, counts)
  | p :: ports =>
      match counts !! p with
      | None => count_failures w (<[p := 1%Z]> counts) ports
      | Some n =>
          if bool_decide (5 < n)%Z then
            '(_, w1) ← terminateInstance w p;
            count_failures w1 (delete p counts) ports
          else count_failures w (<[p := (n + 1)%Z]> counts) ports
      end
  end.

(** The dead ports are terminated first. *)
Fixpoint terminate_dead (w : watcher) (ports : list string) : outcome watcher :=
  match ports with
  | [] => Val w
  | p :: ports => '(_, w1) ← terminateInstance w p; terminate_dead w1 ports
  end.

Definition clear_dead (w : watcher) : watcher :=
  mkWatch (w_fqmn w) (instances w) ∅ (running w) (cancelled w).

Definition reconcile_module (numCPU : Z) (getReport : string → result Z) (pick : string)
    (w : watcher) (counts : gmap string Z) : outcome (action * watcher * gmap string Z) :=
  w1 ← terminate_dead w (elements (deadList w));
  let w2 := clear_dead w1 in
  let r := report getReport w2 in
  let act := decision numCPU r in
  w3 ← match act with ScaleDown => scaleDown w2 pick | _ => Val w2 end;
  '(w4, counts1) ← match r with
                   | Some r => count_failures w3 counts (failedPorts r)
                   | None => Val (w3, counts)
                   end;
  Val (act, w4, counts1).

(** ** The wait group counts the instances *)

Definition counted (w : watcher) : Prop := running w = Z.of_nat (size (instances w)).

Lemma counted_new fqmn : counted (newWatcher fqmn).
Proof. done. Qed.

Lemma counted_add w fqmn port uuid : instances w !! port = None → counted w → counted (add w fqmn port uuid).
Proof. unfold counted, add. simpl. intros Hp ->. rewrite map_size_insert_None by done. lia. Qed.

Lemma remove_counted w p i :
  counted w → instances w !! p = Some i →
  ∃ w1, remove_instance w p i = Val w1 ∧ counted w1 ∧ instances w1 = delete p (instances w) ∧
        deadList w1 = deadList w ∧ cancelled w1 = i_uuid i :: cancelled w.
Proof.
  unfold counted, remove_instance, wg_done. intros -> Hp.
  assert (size (delete p (instances w)) = pred (size (instances w))) as Hsz
    by (apply map_size_delete_Some; by eexists).
  assert (size (instances w) ≠ 0) as Hne.
  { intros E. apply map_size_empty_iff in E. rewrite E, lookup_empty in Hp. done. }
  rewrite decide_False by lia. run. eexists. split; [done|]. simpl. split; [|done].
  rewrite Hsz. lia.
Qed.

Lemma terminateInstance_counted w p :
  counted w → ∃ e w1, terminateInstance w p = Val (e, w1) ∧ counted w1 ∧ instances w1 = delete p (instances w) ∧
    deadList w1 = deadList w.
Proof.
  intros Hc. unfold terminateInstance. destruct (instances w !! p) as [i|] eqn:E.
  - destruct (remove_counted w p i Hc E) as (w1 & -> & ? & ? & ? & _). run. eauto 7.
  - eexists _, _. split; [done|]. split; [done|]. by rewrite delete_id.
Qed.

Lemma terminate_all_counted w :
  counted w →
  ∃ w1, terminate_all w (map_to_list (instances w)) = Val w1 ∧ counted w1 ∧ instances w1 = ∅ ∧
        cancelled w1 = reverse (i_uuid <$> (map_to_list (instances w)).*2) ++ cancelled w.
Proof.
  intros Hc.
  assert (∀ l w, counted w → NoDup l.*1 → (∀ p i, (p, i) ∈ l ↔ instances w !! p = Some i) →
    ∃ w1, terminate_all w l = Val w1 ∧ counted w1 ∧ instances w1 = ∅ ∧
          cancelled w1 = reverse (i_uuid <$> l.*2) ++ cancelled w) as H.
  { clear. induction l as [|[p i] l IH]; intros w Hc Hnd Hl; simpl.
    - exists w. split; [done|]. split; [done|]. split; [|done]. apply map_eq. intros p. rewrite lookup_empty.
      destruct (instances w !! p) as [i|] eqn:E; [|done]. apply Hl in E. by apply not_elem_of_nil in E.
    - apply NoDup_cons in Hnd as [Hp Hnd].
      destruct (remove_counted w p i Hc) as (w1 & -> & Hc1 & Hi1 & _ & Hx); [apply Hl; set_solver|]. run.
      destruct (IH w1 Hc1 Hnd) as (w2 & -> & Hc2 & Hi2 & Hx2).
      + intros p' i'. rewrite Hi1, lookup_delete_Some, <- Hl, elem_of_cons. split.
        * intros Hin. split; [|by right]. intros ->. apply Hp. by apply (list_elem_of_fmap_2 fst) in Hin.
        * intros [Hne [[= -> ->]|Hin]]; [done|done].
      + exists w2. split; [done|]. split; [done|]. split; [done|]. rewrite Hx2, Hx, reverse_cons, <- app_assoc. done. }
  apply H; [done|apply NoDup_fst_map_to_list|]. intros p i. apply elem_of_map_to_list.
Qed.

(** When the wait group counts the instances, [terminate] cancels every instance,
    forgets them all and its [Wait] returns. *)
Theorem terminate_returns w :
  counted w →
  ∃ w1, terminate w = Val (w1, true) ∧ instances w1 = ∅ ∧
        ∀ p i, instances w !! p = Some i → i_uuid i ∈ cancelled w1.
Proof.
  intros Hc. destruct (terminate_all_counted w Hc) as (w1 & E & Hc1 & Hi & Hx).
  exists w1. unfold terminate. rewrite E. run. unfold counted in Hc1. rewrite Hi, map_size_empty in Hc1.
  rewrite bool_decide_eq_true_2 by done. split; [done|]. split; [done|]. intros p i Hp. rewrite Hx.
  apply elem_of_app. left. apply elem_of_reverse. apply list_elem_of_fmap_2.
  apply elem_of_map_to_list in Hp. by apply (list_elem_of_fmap_2 snd) in Hp.
Qed.

(** An instance that is added when the loop is over is not cancelled, and [Wait] does
    not return. *)
Lemma terminate_during_launch w fqmn port uuid :
  counted w → uuid ∉ cancelled w → uuid ∉ i_uuid <$> (map_to_list (instances w)).*2 →
  ∃ w1, terminate_all w (map_to_list (instances w)) = Val w1 ∧ running (add w1 fqmn port uuid) = 1%Z ∧
    uuid ∉ cancelled (add w1 fqmn port uuid).
Proof.
  intros Hc Hu Hn. destruct (terminate_all_counted w Hc) as (w1 & E & Hc1 & Hi & Hx). exists w1. split; [done|].
  unfold counted in Hc1. rewrite Hi, map_size_empty in Hc1. simpl. rewrite Hc1, Hx, not_elem_of_app, elem_of_reverse. by split.
Qed.

(** An instance that was added on a port in use makes [terminate] hang. *)
Theorem terminate_hangs w fqmn port uuid i :
  counted w → instances w !! port = Some i →
  ∃ w1, terminate (add w fqmn port uuid) = Val (w1, false) ∧
        (i_uuid i ≠ uuid → i_uuid i ∉ cancelled w → (∀ p j, p ≠ port → instances w !! p = Some j → i_uuid j ≠ i_uuid i) →
         i_uuid i ∉ cancelled w1).
Proof.
  intros Hc Hp. set (w0 := mkWatch (w_fqmn w) (<[port := mkInstance fqmn uuid]> (instances w)) (deadList w)
    (running w) (cancelled w)).
  assert (counted w0) as Hc0.
  { unfold counted, w0; simpl. rewrite map_size_insert_Some by (by eexists). done. }
  assert (∀ l w w', terminate_all w l = Val w' →
    terminate_all (mkWatch (w_fqmn w) (instances w) (deadList w) (running w + 1) (cancelled w)) l =
    Val (mkWatch (w_fqmn w') (instances w') (deadList w') (running w' + 1) (cancelled w'))) as Hshift.
  { clear. induction l as [|[p i] l IH]; intros w w'; simpl; [by intros [= <-]|].
    unfold remove_instance, wg_done; simpl. case_decide; run; [done|]. rewrite decide_False by lia. run.
    intros E. apply IH in E. simpl in E. by replace (running w - 1 + 1)%Z with (running w + 1 - 1)%Z in E by lia. }
  destruct (terminate_all_counted w0 Hc0) as (w1 & E & Hc1 & Hi & Hx).
  apply Hshift in E. eexists. split.
  - unfold terminate. unfold add; simpl in *. rewrite E. run. rewrite bool_decide_eq_false_2; [done|].
    unfold counted in Hc1. rewrite Hi, map_size_empty in Hc1. lia.
  - intros Hne Hfresh Hother. simpl. rewrite Hx. rewrite elem_of_app, elem_of_reverse. intros [Hin|Hin]; [|done].
    apply list_elem_of_fmap in Hin as (j & Hj & Hin). apply list_elem_of_fmap in Hin as ([p j'] & -> & Hin).
    apply elem_of_map_to_list in Hin. simpl in Hin. apply lookup_insert_Some in Hin as [[<- <-]|[Hpp Hin]]; [done|].
    by eapply Hother.
Qed.

(** The orchestrator launches an instance only when none runs or fewer than the
    number of CPUs answer, and scales down only when there are at least two. *)
Theorem decision_bounds numCPU getReport w :
  (0 < numCPU)%Z →
  match decision numCPU (report getReport w) with
  | Launch => instances w = ∅ ∨
      ∃ r, report getReport w = Some r ∧ (instCount r < numCPU)%Z
  | ScaleDown => 2 ≤ size (instances w)
  | _ => True
  end.
Proof.
  intros Hcpu. unfold report. case_decide as He; [by left|].
  destruct (foldl _ _ _) as [threads failed]. unfold decision. cbn [instCount totalThreads].
  case_decide as H0; [right; eexists; split; [done|]; simpl; lia|].
  destruct (bool_decide (0 < _)%Z) eqn:Hpos; simpl; [|done]. apply bool_decide_eq_true in Hpos.
  case_bool_decide; [case_bool_decide; [done|]; right; eexists; split; [done|]; simpl; lia|].
  case_bool_decide; [|done]. case_decide; [done|]. lia.
Qed.

Lemma terminate_dead_counted w ports :
  counted w → ∃ w1, terminate_dead w ports = Val w1 ∧ counted w1 ∧
    ∀ p, instances w1 !! p = if decide (p ∈ ports) then None else instances w !! p.
Proof.
  revert w. induction ports as [|p ports IH]; intros w Hc; simpl; [by eexists|].
  destruct (terminateInstance_counted w p Hc) as (e & w1 & -> & Hc1 & Hi1 & _). run.
  destruct (IH w1 Hc1) as (w2 & -> & Hc2 & Hi2). exists w2. split; [done|]. split; [done|].
  intros q. rewrite Hi2, Hi1, lookup_delete. repeat case_decide; set_solver.
Qed.

Lemma count_failures_counted w counts ports :
  counted w → ∃ w1 counts1, count_failures w counts ports = Val (w1, counts1) ∧ counted w1 ∧
    deadList w1 = deadList w ∧ instances w1 ⊆ instances w.
Proof.
  revert w counts. induction ports as [|p ports IH]; intros w counts Hc; simpl; [by eauto 8|].
  destruct (counts !! p); [|by apply IH]. case_bool_decide; [|by apply IH].
  destruct (terminateInstance_counted w p Hc) as (e & w1 & -> & Hc1 & Hi1 & Hd1). run.
  destruct (IH w1 (delete p counts) Hc1) as (w2 & c2 & -> & Hc2 & Hd2 & Hi2).
  eexists _, _. split; [done|]. split; [done|]. split; [congruence|].
  trans (instances w1); [done|]. rewrite Hi1. apply delete_subseteq.
Qed.

Lemma scaleDown_counted w pick :
  counted w → ∃ w1, scaleDown w pick = Val w1 ∧ counted w1 ∧ deadList w1 = deadList w ∧
    instances w1 = delete pick (instances w).
Proof.
  intros Hc. unfold scaleDown. destruct (instances w !! pick) as [i|] eqn:E.
  - destruct (remove_counted _ _ _ Hc E) as (w1 & -> & ? & ? & ? & _). eauto.
  - eexists. rewrite delete_id by done. eauto.
Qed.

(** A pass over a module never panics and keeps the wait group equal to the number
    of instances; afterwards the dead list is empty and no instance is left on a
    port that was on it. *)
Theorem reconcile_keeps_count numCPU getReport pick w counts :
  counted w →
  ∃ act w1 counts1, reconcile_module numCPU getReport pick w counts = Val (act, w1, counts1) ∧
    counted w1 ∧ deadList w1 = ∅ ∧ instances w1 ⊆ instances w ∧
    ∀ p, p ∈ deadList w → instances w1 !! p = None.
Proof.
  intros Hc. unfold reconcile_module.
  destruct (terminate_dead_counted w (elements (deadList w)) Hc) as (w1 & -> & Hc1 & Hi1). run.
  set (act := decision numCPU (report getReport (clear_dead w1))).
  assert (∃ w3, match act with ScaleDown => scaleDown (clear_dead w1) pick | _ => Val (clear_dead w1) end = Val w3 ∧
    counted w3 ∧ deadList w3 = ∅ ∧ instances w3 ⊆ instances w1) as (w3 & -> & Hc3 & Hd3 & Hi3).
  { destruct (scaleDown_counted (clear_dead w1) pick Hc1) as (w3 & E & ? & ? & Hi).
    destruct act; [by exists (clear_dead w1)..|]. exists w3. split; [done|]. split; [done|]. split; [done|].
    rewrite Hi. apply delete_subseteq. }
  assert (∀ w4, instances w4 ⊆ instances w1 → instances w4 ⊆ instances w ∧
    ∀ p, p ∈ deadList w → instances w4 !! p = None) as Hsub.
  { intros w4 H4. split.
    - trans (instances w1); [done|]. apply map_subseteq_spec. intros p x. rewrite Hi1. by case_decide.
    - intros p Hp. eapply lookup_weaken_None, H4. rewrite Hi1. by rewrite decide_True by (by apply elem_of_elements). }
  run. destruct (report getReport (clear_dead w1)) as [r|].
  - destruct (count_failures_counted w3 counts (failedPorts r) Hc3) as (w4 & c4 & -> & Hc4 & Hd4 & Hi4). run.
    destruct (Hsub w4) as [? ?]; [by trans (instances w3)|]. eexists _, _, _. split; [done|]. by rewrite Hd4.
  - run. destruct (Hsub w3 Hi3). eexists _, _, _. by split.
Qed.

(** ** Examples *)

(** Two instances, one of which is on the dead list. *)
Definition example_watcher : watcher :=
  (addToDead (add (add (newWatcher "fn") "fn" "1000" "a") "fn" "2000" "b") "1000").2.

Lemma example_watcher_counted : counted example_watcher.
Proof. reflexivity. Qed.

Lemma reconcile_keeps_count_witness :
  ∃ act w1 counts1, reconcile_module 4 (λ _, Ok 1%Z) "2000" example_watcher ∅ = Val (act, w1, counts1) ∧
    counted w1 ∧ deadList w1 = ∅ ∧ instances w1 !! "1000" = None.
Proof.
  destruct (reconcile_keeps_count 4 (λ _, Ok 1%Z) "2000" example_watcher ∅ example_watcher_counted)
    as (act & w1 & counts1 & E & Hc & Hd & _ & Hp).
  exists act, w1, counts1. split; [exact E|]. split; [exact Hc|]. split; [exact Hd|]. apply Hp.
  vm_compute. reflexivity.
Defined.

Lemma terminate_returns_witness :
  ∃ w1, terminate example_watcher = Val (w1, true) ∧ instances w1 = ∅ ∧ "b" ∈ cancelled w1.
Proof.
  destruct (terminate_returns example_watcher example_watcher_counted) as (w1 & E & Hi & Hx).
  exists w1. split; [exact E|]. split; [exact Hi|]. apply (Hx "2000" (mkInstance "fn" "b")). reflexivity.
Defined.

Lemma decision_bounds_witness :
  decision 4 (report (λ _, Ok 1%Z) example_watcher) = ScaleDown ∧ 2 ≤ size (instances example_watcher).
Proof.
  split; [vm_compute; reflexivity|]. exact (decision_bounds 4 (λ _, Ok 1%Z) example_watcher eq_refl).
Defined.
