(* ===== verification/Constellation.v ===== *)
(** * The whole orchestrator: e2core/backend/satbackend/orchestrator.go, command.go

    The watchers of all modules, the processes, and the goroutines that launch
    them and wait for their ends.  [orch_step] interleaves passes over a module
    with these goroutines; a pass is one step, although the watchers have no
    lock.  Starting and ending of a process is the environment's. *)

From S2P Require Import Prelude.
From S2P Require Import Orchestrator.
From stdpp Require Import pretty.

(** ** What an operation of a watcher does with its instances *)

(** Every instance is still there or cancelled. *)
Record accounted (w w1 : watcher) : Prop := mkAccounted {
  acc_inst p i : instances w !! p = Some i → instances w1 !! p = Some i ∨ i_uuid i ∈ cancelled w1;
  acc_sub : instances w1 ⊆ instances w;
  acc_cancelled : cancelled w ⊆ cancelled w1
}.

#[export] Instance accounted_preorder : PreOrder accounted.
Proof.
  split.
  - intros w. split; [by left|done|done].
  - intros w1 w2 w3 [H1 Hs1 Hc1] [H2 Hs2 Hc2]. split.
    + intros p i Hp. destruct (H1 p i Hp) as [Hp2|]; [by apply H2|right; by apply Hc2].
    + by trans (instances w2).
    + by trans (cancelled w2).
Qed.

Lemma remove_accounted w p i w1 :
  instances w !! p = Some i → remove_instance w p i = Val w1 → accounted w w1.
Proof.
  unfold remove_instance, wg_done. intros Hp. case_decide; run; [done|]. intros [= <-]. split; simpl.
  - intros q j Hq. destruct (decide (q = p)) as [->|Hne]; [right; simplify_eq; by left|].
    left. by rewrite lookup_delete_ne.
  - apply delete_subseteq.
  - intros u Hu. by right.
Qed.

Lemma terminateInstance_accounted w p e w1 : terminateInstance w p = Val (e, w1) → accounted w w1.
Proof.
  unfold terminateInstance. destruct (instances w !! p) as [i|] eqn:Ep; [|by intros [= _ <-]].
  destruct (remove_instance w p i) eqn:E; run; [|done]. intros [= _ <-]. by eapply remove_accounted.
Qed.

Lemma terminate_dead_accounted w ports w1 : terminate_dead w ports = Val w1 → accounted w w1.
Proof.
  revert w. induction ports as [|p ports IH]; intros w; simpl; [by intros [= <-]|].
  destruct (terminateInstance w p) as [[e w2]|] eqn:E; run; [|done]. intros Hd.
  etrans; [by eapply terminateInstance_accounted|by apply IH].
Qed.

Lemma count_failures_accounted w counts ports w1 c1 :
  count_failures w counts ports = Val (w1, c1) → accounted w w1.
Proof.
  revert w counts. induction ports as [|p ports IH]; intros w counts; simpl; [by intros [= <- _]|].
  destruct (counts !! p); [|apply IH]. case_bool_decide; [|apply IH].
  destruct (terminateInstance w p) as [[e w2]|] eqn:E; run; [|done]. intros Hd.
  etrans; [by eapply terminateInstance_accounted|by eapply IH].
Qed.

Lemma scaleDown_accounted w pick w1 : scaleDown w pick = Val w1 → accounted w w1.
Proof.
  unfold scaleDown. destruct (instances w !! pick) eqn:E; [by apply remove_accounted|by intros [= <-]].
Qed.

Lemma reconcile_accounted numCPU getReport pick w counts act w1 c1 :
  reconcile_module numCPU getReport pick w counts = Val (act, w1, c1) → accounted w w1.
Proof.
  unfold reconcile_module. destruct (terminate_dead w _) as [wd|] eqn:Ed; run; [|done].
  apply terminate_dead_accounted in Ed.
  assert (accounted wd (clear_dead wd)) as Hclear by (split; [by left|done|done]).
  set (a := decision _ _). set (r := report _ _).
  destruct (match a with ScaleDown => _ | _ => _ end) as [w3|] eqn:E3; [|done].
  assert (accounted (clear_dead wd) w3) as H3.
  { destruct a; try (injection E3 as <-; reflexivity). by eapply scaleDown_accounted. }
  destruct (match r with Some _ => _ | None => _ end) as [[w4 c4]|] eqn:E4; [|done]. intros [= _ <- _].
  assert (accounted w3 w4) as H4.
  { destruct r; [by eapply count_failures_accounted|injection E4 as <- _; reflexivity]. }
  etrans; [exact Ed|]. etrans; [exact Hclear|]. by etrans.
Qed.

(** ** The orchestrator *)

Record process : Type := mkProc { pr_fqmn : string; pr_port : string; pr_uuid : string }.

#[export] Instance process_eq_dec : EqDecision process.
Proof. solve_decision. Defined.

(** [launching] are the modules whose launch has not started a process yet,
    [adding] the processes that were started and are not in the watcher yet. *)
Record orchestrator : Type := mkOrch {
  sats : gmap string watcher;
  failedPortCounts : gmap string Z;
  launching : list string;
  adding : list process;
  alive : list process
}.

Definition NewOrchestrator : orchestrator := mkOrch ∅ ∅ [] [] [].

Definition watcher_of (o : orchestrator) (f : string) : watcher := default (newWatcher f) (sats o !! f).

(** [randPort]; [rand] is [rand.Int] below 10000. *)
Definition randPort (rand : Z) : string := pretty (rand + 10000)%Z.

Inductive orch_step (numCPU : Z) (o : orchestrator) : orchestrator → Prop :=
| OrchReconcile f getReport pick act w counts :      (* a module of reconcileConstellation *)
    reconcile_module numCPU getReport pick (watcher_of o f) (failedPortCounts o) = Val (act, w, counts) →
    orch_step numCPU o (mkOrch (<[f := w]> (sats o)) counts
      (match act with Launch => f :: launching o | _ => launching o end) (adding o) (alive o))
| OrchLaunchFails l1 f l2 :                          (* launch: exec.Run fails *)
    launching o = l1 ++ f :: l2 →
    orch_step numCPU o (mkOrch (sats o) (failedPortCounts o) (l1 ++ l2) (adding o) (alive o))
| OrchLaunch l1 f l2 rand uuid :                     (* launch: the process runs *)
    launching o = l1 ++ f :: l2 → (0 ≤ rand < 10000)%Z →
    let p := mkProc f (randPort rand) uuid in
    orch_step numCPU o (mkOrch (sats o) (failedPortCounts o) (l1 ++ l2) (p :: adding o) (p :: alive o))
| OrchAdd a1 p a2 :                                  (* launch: satWatcher.add *)
    adding o = a1 ++ p :: a2 →
    let w := add (watcher_of o (pr_fqmn p)) (pr_fqmn p) (pr_port p) (pr_uuid p) in
    orch_step numCPU o (mkOrch (<[pr_fqmn p := w]> (sats o)) (failedPortCounts o) (launching o) (a1 ++ a2)
      (alive o))
| OrchExit a1 p a2 :                                 (* the process ends; addToDead *)
    alive o = a1 ++ p :: a2 →
    let w := (addToDead (watcher_of o (pr_fqmn p)) (pr_port p)).2 in
    orch_step numCPU o (mkOrch (<[pr_fqmn p := w]> (sats o)) (failedPortCounts o) (launching o) (adding o)
      (a1 ++ a2)).

(** The end of [Start]: terminate the watchers one after the other; [false] when
    a [Wait] does not return. *)
Fixpoint stop_all (ss : gmap string watcher) (l : list (string * watcher)) :
    outcome (gmap string watcher * bool) :=
  match l with
  | [] => Val (ss, true)
  | (f, w) :: l =>
      '(w1, returned) ← terminate w;
      if (returned : bool) then stop_all (<[f := w1]> ss) l else Val (<[f := w1]> ss, false)
  end.

Definition orch_stop (o : orchestrator) : outcome (orchestrator * bool) :=
  '(ss, returned) ← stop_all (sats o) (map_to_list (sats o));
  Val (mkOrch ss (failedPortCounts o) (launching o) (adding o) (alive o), returned).

(** ** No process is lost *)

(** The ports of the processes that are being added are different and free. *)
Definition free_ports (o : orchestrator) : Prop :=
  NoDup ((λ p, (pr_fqmn p, pr_port p)) <$> adding o) ∧
  ∀ p, p ∈ adding o → instances (watcher_of o (pr_fqmn p)) !! pr_port p = None.

(** A process is being added, watched or cancelled. *)
Definition kept (o : orchestrator) (p : process) : Prop :=
  p ∈ adding o ∨
  instances (watcher_of o (pr_fqmn p)) !! pr_port p = Some (mkInstance (pr_fqmn p) (pr_uuid p)) ∨
  pr_uuid p ∈ cancelled (watcher_of o (pr_fqmn p)).

Definition orch_inv (o : orchestrator) : Prop :=
  (∀ f, counted (watcher_of o f)) ∧ ∀ p, p ∈ alive o → kept o p.

(** A step in which a port that is picked is free. *)
Definition fresh_step (numCPU : Z) (o o1 : orchestrator) : Prop := orch_step numCPU o o1 ∧ free_ports o1.

(** What the steps do to a watcher: instances may be added. *)
Definition keeps (w w1 : watcher) : Prop :=
  (∀ p i, instances w !! p = Some i → instances w1 !! p = Some i ∨ i_uuid i ∈ cancelled w1) ∧
  cancelled w ⊆ cancelled w1.

Lemma keeps_refl w : keeps w w.
Proof. split; [by left|done]. Qed.

Lemma accounted_keeps w w1 : accounted w w1 → keeps w w1.
Proof. intros []. by split. Qed.

Lemma add_keeps w f port uuid : instances w !! port = None → keeps w (add w f port uuid).
Proof.
  intros Hp. split; [|done]. intros q i Hq. left. simpl. rewrite lookup_insert_ne; [done|]. congruence.
Qed.

Lemma addToDead_keeps w port : keeps w (addToDead w port).2 ∧ (counted w → counted (addToDead w port).2).
Proof. unfold addToDead. case_decide; (split; [split; [by left|done]|done]). Qed.

Lemma kept_keeps o o1 p :
  keeps (watcher_of o (pr_fqmn p)) (watcher_of o1 (pr_fqmn p)) → (p ∈ adding o → kept o1 p) →
  kept o p → kept o1 p.
Proof.
  intros [Hi Hc] Ha [Hp|[Hp|Hp]]; [by apply Ha| |by right; right; apply Hc].
  apply Hi in Hp as [Hp|Hp]; [by right; left|by right; right].
Qed.

Lemma watcher_of_insert ss c l a al f w g :
  watcher_of (mkOrch (<[f := w]> ss) c l a al) g =
    if decide (f = g) then w else watcher_of (mkOrch ss c l a al) g.
Proof. unfold watcher_of; simpl. rewrite lookup_insert. by case_decide. Qed.

(** A step changes one watcher and keeps what is in it. *)
Lemma orch_step_watchers numCPU o o1 :
  orch_step numCPU o o1 → free_ports o → (∀ f, counted (watcher_of o f)) →
  ∀ f, keeps (watcher_of o f) (watcher_of o1 f) ∧ counted (watcher_of o1 f).
Proof.
  intros Hstep [_ Hfree] Hc f.
  destruct Hstep as [g getReport pick act w counts Hr|l1 g l2 Hl|l1 g l2 rand uuid Hl Hrand p|a1 p a2 Ha w|a1 p a2 Ha w].
  - rewrite watcher_of_insert. case_decide as Hfg; [subst g|split; [apply keeps_refl|apply Hc]].
    split; [by eapply accounted_keeps, reconcile_accounted|].
    destruct (reconcile_keeps_count numCPU getReport pick _ (failedPortCounts o) (Hc f))
      as (act' & w' & c' & E & Hw' & _). rewrite E in Hr. by injection Hr as -> -> ->.
  - split; [apply keeps_refl|apply Hc].
  - split; [apply keeps_refl|apply Hc].
  - rewrite watcher_of_insert. case_decide as Hfg; [subst f|split; [apply keeps_refl|apply Hc]].
    assert (instances (watcher_of o (pr_fqmn p)) !! pr_port p = None) as Hp by (apply Hfree; rewrite Ha; set_solver).
    split; [by apply add_keeps|by apply counted_add].
  - rewrite watcher_of_insert. case_decide as Hfg; [subst f|split; [apply keeps_refl|apply Hc]].
    destruct (addToDead_keeps (watcher_of o (pr_fqmn p)) (pr_port p)) as [Hk Hcd]. split; [done|by apply Hcd].
Qed.

Lemma orch_inv_step numCPU o o1 : orch_step numCPU o o1 → free_ports o → orch_inv o → orch_inv o1.
Proof.
  intros Hstep Hfree [Hc Hk]. pose proof (orch_step_watchers numCPU o o1 Hstep Hfree Hc) as Hw.
  split; [intros f; by apply Hw|].
  assert (∀ q, (q ∈ adding o → kept o1 q) → kept o q → kept o1 q) as Hmono
    by (intros q; apply kept_keeps, Hw).
  destruct Hstep as [g getReport pick act w counts Hr|l1 g l2 Hl|l1 g l2 rand uuid Hl Hrand p|a1 p a2 Ha w|a1 p a2 Ha w];
    intros q Hq; simpl in Hq.
  - apply Hmono; [by left|by apply Hk].
  - apply Hmono; [by left|by apply Hk].
  - apply elem_of_cons in Hq as [->|Hq]; [left; simpl; left|].
    apply Hmono; [|by apply Hk]. intros. left. simpl. by right.
  - apply Hmono; [|by apply Hk]. rewrite Ha. intros Hin. destruct (decide (q = p)) as [->|Hne].
    + right; left. rewrite watcher_of_insert. rewrite decide_True by done. apply lookup_insert_eq.
    + left. simpl. set_solver.
  - apply Hmono; [by left|]. apply Hk. rewrite Ha. set_solver.
Qed.

Lemma fresh_inv numCPU o :
  rtc (fresh_step numCPU) NewOrchestrator o → orch_inv o ∧ free_ports o.
Proof.
  apply (rtc_ind_r (λ o, orch_inv o ∧ free_ports o)).
  - split; [split; [intros f; apply counted_new|intros p Hp; set_solver]|].
    split; [constructor|intros p Hp; set_solver].
  - intros o1 o2 _ [Hstep Hfree] [Hinv Hf]. split; [by eapply orch_inv_step|done].
Qed.

(** ** Stopping *)

Lemma terminate_run w :
  counted w → ∃ w1, terminate w = Val (w1, true) ∧ instances w1 = ∅ ∧ counted w1 ∧ keeps w w1.
Proof.
  intros Hc. destruct (terminate_returns w Hc) as (w1 & E & Hi & Hx).
  destruct (terminate_all_counted w Hc) as (w2 & E2 & Hc2 & Hi2 & Hx2).
  exists w1. split; [done|]. split; [done|]. unfold terminate in E. rewrite E2 in E. run.
  injection E as <- _. split; [done|]. split; [|by rewrite Hx2; apply list_subseteq_app_r].
  intros p i Hp. right. by eapply Hx.
Qed.

Lemma stop_all_run l ss :
  NoDup l.*1 → (∀ f w, (f, w) ∈ l → ss !! f = Some w ∧ counted w) →
  ∃ ss1, stop_all ss l = Val (ss1, true) ∧
    (∀ f, f ∉ l.*1 → ss1 !! f = ss !! f) ∧
    ∀ f w, (f, w) ∈ l → ∃ w1, ss1 !! f = Some w1 ∧ instances w1 = ∅ ∧ keeps w w1.
Proof.
  revert ss. induction l as [|[f w] l IH]; intros ss Hnd Hl; simpl.
  { exists ss. split; [done|]. split; [done|]. intros f w H. set_solver. }
  apply NoDup_cons in Hnd as [Hf Hnd]. simpl in Hf.
  destruct (Hl f w) as [Hss Hc]; [by left|]. destruct (terminate_run w Hc) as (w1 & -> & Hi1 & _ & Hk1). run.
  destruct (IH (<[f := w1]> ss) Hnd) as (ss1 & E & Hother & Hin).
  { intros g x Hg. assert (g ≠ f) as Hne.
    { intros ->. apply Hf. by apply (list_elem_of_fmap_2 fst) in Hg. }
    rewrite lookup_insert_ne by done. apply Hl. by right. }
  exists ss1. split; [done|]. split.
  - intros g Hg. apply not_elem_of_cons in Hg as [Hne Hg]. rewrite Hother by done. by rewrite lookup_insert_ne.
  - intros g x [[= -> ->]|Hg]%elem_of_cons; [|by apply Hin].
    exists w1. rewrite Hother by done. by rewrite lookup_insert_eq.
Qed.

(** Stopping returns, and cancels every process but those that are being added. *)
Lemma orch_stop_cancels o :
  orch_inv o →
  ∃ o1, orch_stop o = Val (o1, true) ∧
    ∀ p, p ∈ alive o → p ∈ adding o ∨ pr_uuid p ∈ cancelled (watcher_of o1 (pr_fqmn p)).
Proof.
  intros [Hc Hk].
  destruct (stop_all_run (map_to_list (sats o)) (sats o) (NoDup_fst_map_to_list _)) as (ss1 & E & _ & Hin).
  { intros f w Hf. apply elem_of_map_to_list in Hf. split; [done|].
    specialize (Hc f). unfold watcher_of in Hc. by rewrite Hf in Hc. }
  eexists. unfold orch_stop. rewrite E. run. split; [done|]. intros p Hp.
  destruct (Hk p Hp) as [|Hwatched]; [by left|right]. unfold watcher_of in *. simpl.
  destruct (sats o !! pr_fqmn p) as [w|] eqn:Ew.
  - apply elem_of_map_to_list in Ew. destruct (Hin _ _ Ew) as (w1 & -> & Hi1 & Hi & Hcan). simpl in *.
    destruct Hwatched as [Hi0|Hc0]; [|by apply Hcan]. destruct (Hi _ _ Hi0) as [Hi2|Hc2]; [|done].
    by rewrite Hi1, lookup_empty in Hi2.
  - simpl in Hwatched. destruct Hwatched as [Hi0|Hc0]; [by rewrite lookup_empty in Hi0|set_solver].
Qed.


(** ** Examples *)

(** One module: the states after its first pass, the start of its process and
    the addition to its watcher. *)
Definition example_proc : process := mkProc "fn" "10042" "u".
Definition example_reconciled : orchestrator := mkOrch {["fn" := newWatcher "fn"]} ∅ ["fn"] [] [].
Definition example_started : orchestrator :=
  mkOrch {["fn" := newWatcher "fn"]} ∅ [] [example_proc] [example_proc].
Definition example_added : orchestrator :=
  mkOrch {["fn" := add (newWatcher "fn") "fn" "10042" "u"]} ∅ [] [] [example_proc].

Lemma example_started_run : rtc (fresh_step 4) NewOrchestrator example_started.
Proof.
  eapply rtc_l; [split|].
  - apply (OrchReconcile 4 NewOrchestrator "fn" (λ _, Ok 0%Z) "" Launch (newWatcher "fn") ∅). vm_compute. reflexivity.
  - split; [constructor|intros p Hp; set_solver].
  - eapply rtc_l; [split|apply rtc_refl].
    + apply (OrchLaunch 4 example_reconciled [] "fn" [] 42 "u"); [done|lia].
    + split; [apply NoDup_singleton|]. intros p ->%list_elem_of_singleton. vm_compute. reflexivity.
Qed.

Lemma example_added_run : rtc (fresh_step 4) NewOrchestrator example_added.
Proof.
  eapply rtc_r; [exact example_started_run|]. split.
  - apply (OrchAdd 4 example_started [] example_proc []). done.
  - split; [constructor|intros p Hp; set_solver].
Qed.


(** A shutdown between the start of a process and its addition leaves it: it is
    alive, and when it is added nobody terminates its watcher any more. *)
Lemma shutdown_during_launch :
  ∃ o1, rtc (fresh_step 4) NewOrchestrator example_started ∧ orch_stop example_started = Val (o1, true) ∧
    example_proc ∈ alive o1 ∧ cancelled (watcher_of o1 "fn") = [].
Proof.
  eexists. split; [exact example_started_run|]. split; [vm_compute; reflexivity|].
  split; [by left|vm_compute; reflexivity].
Qed.
