(* ===== verification/Instance.v ===== *)
(** * Wasm instances: sat/engine2/runtime/instance/instance.go, mapper.go

    An instance is what the host keeps of it: its linear memory, the context of
    its job, and the two channels for the result.  The module's own code is not
    part of the program.  The mapper gives a number to an instance in use. *)

From S2P Require Import Prelude.
From S2P Require Import Ctx.
From Stdlib Require Import Ascii.

(** What the module exports under the name memory: nothing, something that is no
    memory, or a linear memory. *)
Inductive memory_export : Type := NoExport | NotMemory | Linear (bytes : list ascii).

Record Instance : Type := mkInst {
  memory : memory_export;
  inst_ctx : option Ctx;
  resultChan : list string;
  errChan : list error
}.

Definition New (mem : memory_export) : Instance := mkInst mem None [] [].

Definition set_memory (i : Instance) (m : list ascii) : Instance :=
  mkInst (Linear m) (inst_ctx i) (resultChan i) (errChan i).

(** [data[pointer:]] *)
Definition from_pointer (m : list ascii) (pointer : Z) : outcome (list ascii) :=
  if decide (0 ≤ pointer ≤ Z.of_nat (length m))%Z then Val (drop (Z.to_nat pointer) m)
  else Panic SliceRange.

(** [copy] of the memory into [size] fresh bytes.  [GetExport] is nil for a missing
    export, and its method dereferences it. *)
Definition ReadMemory (i : Instance) (pointer size : Z) : outcome string :=
  match memory i with
  | NoExport => Panic NilDeref
  | NotMemory => Val ""
  | Linear m =>
      data ← from_pointer m pointer;
      if decide (size < 0)%Z then Panic NegLen
      else
        let n := Z.to_nat size in
        Val (String.string_of_list_ascii (take n data ++ replicate (n - length data) Ascii.zero))
  end.

Definition WriteMemoryAtLocation (i : Instance) (pointer : Z) (data : string) : outcome Instance :=
  match memory i with
  | NoExport => Panic NilDeref
  | NotMemory => Val i
  | Linear m =>
      scoped ← from_pointer m pointer;
      let bytes := take (length scoped) (String.list_ascii_of_string data) in
      Val (set_memory i (take (Z.to_nat pointer) m ++ bytes ++ drop (length bytes) scoped))
  end.

(** What the module's [allocate] answers: an int32, another value, or a failed
    call. *)
Inductive call_result : Type := CallInt32 (n : Z) | CallOther | CallErr (e : error).

Definition WriteMemory (i : Instance) (allocate : Z → call_result) (data : string) :
    outcome (result Z * Instance) :=
  match allocate (Z.of_nat (String.length data)) with
  | CallErr e => Val (Err (ErrWrap e "failed to Call allocate"), i)
  | CallOther => Panic BadAssert
  | CallInt32 p => i1 ← WriteMemoryAtLocation i p data; Val (Ok p, i1)
  end.

(** Either channel that is ready may be chosen. *)
Inductive ExecutionResult (i : Instance) : option string → option error → Instance → Prop :=
| ExecOutput r rs : resultChan i = r :: rs →
    ExecutionResult i (Some r) None (mkInst (memory i) (inst_ctx i) rs (errChan i))
| ExecError e es : errChan i = e :: es →
    ExecutionResult i None (Some e) (mkInst (memory i) (inst_ctx i) (resultChan i) es)
| ExecNothing : resultChan i = [] → errChan i = [] → ExecutionResult i None None i.

(** [None]: the channel is full and the module's thread blocks. *)
Definition SendExecutionResult (i : Instance) (res : option string) (runErr : option error) :
    option Instance :=
  match runErr with
  | Some e =>
      if decide (length (errChan i) < 1)
      then Some (mkInst (memory i) (inst_ctx i) (resultChan i) (errChan i ++ [e])) else None
  | None =>
      match res with
      | Some r =>
          if decide (length (resultChan i) < 1)
          then Some (mkInst (memory i) (inst_ctx i) (resultChan i ++ [r]) (errChan i)) else None
      | None => Some i
      end
  end.

Definition UseCtx (i : Instance) (c : option Ctx) : Instance :=
  mkInst (memory i) c (resultChan i) (errChan i).

(** ** Memory *)

Lemma string_list_length s : length (String.list_ascii_of_string s) = String.length s.
Proof. induction s as [|a s IH]; simpl; [done|]. by rewrite IH. Qed.

(** The bytes of a write that fit, and the rest of the memory. *)
Lemma write_spec i m p data :
  memory i = Linear m → (0 ≤ p ≤ Z.of_nat (length m))%Z →
  let bytes := take (length m - Z.to_nat p) (String.list_ascii_of_string data) in
  ∃ m', WriteMemoryAtLocation i p data = Val (set_memory i m') ∧ length m' = length m ∧
    m' = take (Z.to_nat p) m ++ bytes ++ drop (Z.to_nat p + length bytes) m.
Proof.
  intros Hm Hp bytes. assert (length bytes ≤ length m - Z.to_nat p) as Hb by (unfold bytes; rewrite length_take; lia).
  unfold WriteMemoryAtLocation, from_pointer. rewrite Hm, decide_True by done. cbn [mbind outcome_bind].
  rewrite length_drop. fold bytes. clearbody bytes. eexists. split; [done|]. rewrite drop_drop. split; [|done].
  rewrite !length_app, length_take, length_drop. lia.
Qed.

(** What was written to the memory reads back, and the rest of the memory is
    unchanged. *)
Theorem memory_roundtrip i m p data :
  memory i = Linear m → (0 ≤ p)%Z → (p + Z.of_nat (String.length data) ≤ Z.of_nat (length m))%Z →
  ∃ i', WriteMemoryAtLocation i p data = Val i' ∧
    ReadMemory i' p (Z.of_nat (String.length data)) = Val data ∧
    ∀ q n, (0 ≤ q)%Z → (0 ≤ n)%Z → (q + n ≤ p ∨ p + Z.of_nat (String.length data) ≤ q ≤ Z.of_nat (length m))%Z →
      ReadMemory i' q n = ReadMemory i q n.
Proof.
  intros Hm Hp Hfit. destruct (write_spec i m p data Hm) as (m' & E & Hl & Hm'); [lia|].
  set (bs := String.list_ascii_of_string data) in *.
  assert (length bs = String.length data) as Hbs by apply string_list_length.
  rewrite (take_ge bs) in Hm' by lia. exists (set_memory i m'). split; [done|].
  unfold ReadMemory; simpl. rewrite Hm. unfold from_pointer. rewrite Hl. split.
  - rewrite decide_True by lia. run. rewrite decide_False by lia. rewrite Nat2Z.id.
    assert (drop (Z.to_nat p) m' = bs ++ drop (Z.to_nat p + length bs) m) as ->.
    { rewrite Hm'. rewrite drop_app_length' by (rewrite length_take; lia). done. }
    rewrite take_app_length' by done. rewrite length_app.
    replace (String.length data - _) with 0 by lia. simpl. rewrite app_nil_r.
    unfold bs. by rewrite String.string_of_list_ascii_of_string.
  - intros q n Hq Hn Hor. rewrite ?Hm, !decide_True by lia. run. rewrite !(decide_False (P := (n < 0)%Z)) by lia.
    rewrite !length_drop, Hl. do 2 f_equal. f_equal. destruct Hor as [Hlt|Hge].
    + rewrite !take_drop_commute. f_equal.
      assert (Z.to_nat q + Z.to_nat n ≤ Z.to_nat p) by lia.
      rewrite Hm', take_app_le by (rewrite length_take; lia). rewrite take_take. f_equal. lia.
    + f_equal. rewrite Hm'. rewrite drop_app_ge by (rewrite length_take; lia).
      rewrite drop_app_ge by (rewrite length_take; lia). rewrite drop_drop, length_take. f_equal. lia.
Qed.

(** The bytes of a read: those of the memory, and zeros past its end. *)
Lemma read_bytes (m : list ascii) p n k :
  p ≤ length m → k < n →
  (take n (drop p m) ++ replicate (n - length (drop p m)) Ascii.zero) !! k =
    Some (default Ascii.zero (m !! (p + k))).
Proof.
  intros Hp Hk. rewrite length_drop. destruct (decide (p + k < length m)) as [Hin|Hout].
  - rewrite lookup_app_l by (rewrite length_take, length_drop; lia).
    rewrite lookup_take_lt by lia. rewrite lookup_drop.
    by destruct (lookup_lt_is_Some_2 m (p + k) Hin) as [c ->].
  - rewrite lookup_app_r by (rewrite length_take, length_drop; lia).
    rewrite (lookup_ge_None_2 m (p + k)) by lia. simpl.
    apply lookup_replicate. split; [done|]. rewrite length_take, length_drop. lia.
Qed.

(** C33: ReadMemory, on every instance: a module that exports nothing under the
    name memory makes it panic, an export of another kind reads as no bytes; of a
    memory it panics exactly for a pointer outside it or a negative size, and
    otherwise returns as many bytes as were asked for, those of the memory from
    the pointer on and zeros past its end. *)
Theorem memory_bounds i p n :
  match memory i with
  | NoExport => ReadMemory i p n = Panic NilDeref
  | NotMemory => ReadMemory i p n = Val ""
  | Linear m =>
      (¬ (0 ≤ p ≤ Z.of_nat (length m))%Z → ReadMemory i p n = Panic SliceRange) ∧
      ((0 ≤ p ≤ Z.of_nat (length m))%Z → (n < 0)%Z → ReadMemory i p n = Panic NegLen) ∧
      ((0 ≤ p ≤ Z.of_nat (length m))%Z → (0 ≤ n)%Z →
       ∃ s, ReadMemory i p n = Val s ∧ Z.of_nat (String.length s) = n ∧
         ∀ k, (Z.of_nat k < n)%Z →
           String.list_ascii_of_string s !! k = Some (default Ascii.zero (m !! (Z.to_nat p + k))))
  end.
Proof.
  unfold ReadMemory, from_pointer. destruct (memory i) as [| |m]; [done..|]. split_and!.
  - intros Hp. by rewrite decide_False.
  - intros Hp Hn. rewrite decide_True by done. run. by rewrite decide_True.
  - intros Hp Hn. rewrite decide_True by done. run. rewrite decide_False by lia. eexists. split; [done|].
    rewrite <- string_list_length, String.list_ascii_of_string_of_list_ascii. split.
    + rewrite length_app, length_take, length_replicate. lia.
    + intros k Hk. apply read_bytes; lia.
Qed.

(** A module that returns two results blocks in the second call. *)
Lemma second_result_blocks i r1 r2 i1 :
  SendExecutionResult i (Some r1) None = Some i1 → SendExecutionResult i1 (Some r2) None = None.
Proof.
  unfold SendExecutionResult. case_decide; [|done]. intros [= <-]. simpl.
  rewrite decide_False; [done|]. rewrite length_app; simpl. lia.
Qed.

(** ** The mapper *)

Definition MaxInt32 : Z := 2 ^ 31 - 1.

(** [Store] draws numbers until one is free; [random k] is the k-th draw. *)
Definition store_body {A} (random : nat → result Z) (mapper : gmap Z A) (inst : A) (k : nat) :
    nat + (result Z * gmap Z A) :=
  match random k with
  | Err e => inr (Err (ErrWrap e "failed to randomIdentifier"), mapper)
  | Ok ident =>
      match mapper !! ident with
      | Some _ => inl (S k)
      | None => inr (Ok ident, <[ident := inst]> mapper)
      end
  end.

Definition Store {A} (fuel : nat) (random : nat → result Z) (mapper : gmap Z A) (inst : A) :
    option (result Z * gmap Z A) :=
  loop fuel (store_body random mapper inst) 0.

Definition Remove {A} (mapper : gmap Z A) (ident : Z) : gmap Z A := delete ident mapper.

(** [Store] finds a free number after any taken ones, and [Remove] undoes it. *)
Theorem mapper_store_fresh {A} (random : nat → result Z) (mapper : gmap Z A) inst n ident fuel :
  (∀ k, k < n → ∃ i, random k = Ok i ∧ is_Some (mapper !! i)) →
  random n = Ok ident → mapper !! ident = None → n < fuel →
  Store fuel random mapper inst = Some (Ok ident, <[ident := inst]> mapper) ∧
  Remove (<[ident := inst]> mapper) ident = mapper.
Proof.
  intros Hbusy Hn Hfree Hf. split; [|by apply delete_insert_id]. unfold Store.
  assert (∀ fuel k, k ≤ n → n - k < fuel →
    loop fuel (store_body random mapper inst) k = Some (Ok ident, <[ident:=inst]> mapper)) as H.
  { clear Hf fuel. induction fuel as [|fuel IH]; intros k Hk Hf; [lia|]. simpl. unfold store_body at 1.
    destruct (decide (k = n)) as [->|Hne]; [by rewrite Hn, Hfree|].
    destruct (Hbusy k) as (i & -> & [x ->]); [lia|]. apply IH; lia. }
  apply H; lia.
Qed.

(** ** Examples *)

Lemma memory_bounds_witness :
  ReadMemory (New (Linear ["a"%char; "b"%char])) 3 1 = Panic SliceRange ∧
  ReadMemory (New (Linear ["a"%char; "b"%char])) 1 (-1) = Panic NegLen ∧
  ReadMemory (New NoExport) 0 0 = Panic NilDeref.
Proof.
  split; [|split].
  - apply (proj1 (memory_bounds (New (Linear ["a"%char; "b"%char])) 3 1)). simpl. lia.
  - apply (proj1 (proj2 (memory_bounds (New (Linear ["a"%char; "b"%char])) 1 (-1)))); simpl; lia.
  - exact (memory_bounds (New NoExport) 0 0).
Defined.
