(* ===== verification/HostApi.v ===== *)
(** * Host functions: sat/engine2/api

    A host function is called with the number of the instance that calls it;
    the host's state is the mapper and the instances.  [None] is a call that
    blocks.  The capabilities (the HTTP client, the request handler) are
    another module's: what they answer is an argument. *)

From S2P Require Import Prelude.
From S2P Require Import Ctx.
From S2P Require Import Instance.
From Stdlib Require Import Ascii.

Section HostApi.
Context (errText : error → string) (canonical : string → string).

Abbreviation host := (gmap Z Instance).

Definition ForIdentifier (h : host) (ident : Z) (needsFFIResult : bool) : outcome (result Instance) :=
  match h !! ident with
  | None => Val (Err (ErrNew "instance does not exist"))
  | Some i =>
      if needsFFIResult then
        match inst_ctx i with
        | None => Panic NilDeref
        | Some c =>
            if HasFFIResult c
            then Val (Err (ErrNew "cannot use instance for host call with existing call in progress"))
            else Val (Ok i)
        end
      else Val (Ok i)
  end.

Definition ctx_of (i : Instance) : outcome Ctx :=
  match inst_ctx i with Some c => Val c | None => Panic NilDeref end.

Definition put_inst (h : host) (ident : Z) (i : Instance) : host := <[ident := i]> h.

(** return_result and return_error *)
Definition returnResult (h : host) (pointer size ident : Z) : option (outcome host) :=
  match ForIdentifier h ident false with
  | Panic p => Some (Panic p)
  | Val (Err _) => Some (Val h)
  | Val (Ok i) =>
      match ReadMemory i pointer size with
      | Panic p => Some (Panic p)
      | Val data => i1 ← SendExecutionResult i (Some data) None; Some (Val (put_inst h ident i1))
      end
  end.

Definition returnError (h : host) (code pointer size ident : Z) : option (outcome host) :=
  match ForIdentifier h ident false with
  | Panic p => Some (Panic p)
  | Val (Err _) => Some (Val h)
  | Val (Ok i) =>
      match ReadMemory i pointer size with
      | Panic p => Some (Panic p)
      | Val data => i1 ← SendExecutionResult i None (Some (ErrRun code data)); Some (Val (put_inst h ident i1))
      end
  end.

(** get_ffi_result *)
Definition getFfiResult (h : host) (pointer ident : Z) : outcome (Z * host) :=
  r ← ForIdentifier h ident false;
  match r with
  | Err _ => Val ((-1)%Z, h)
  | Ok i =>
      c ← ctx_of i;
      match UseFFIResult c with
      | Err _ => Val ((-1)%Z, h)
      | Ok (res, c1) =>
          let data := match ffi_Err res with Some e => errText e | None => ffi_Result res end in
          i1 ← WriteMemoryAtLocation (UseCtx i (Some c1)) pointer data;
          Val (0%Z, put_inst h ident i1)
      end
  end.

(** add_ffi_var *)
Definition addFfiVar (h : host) (namePtr nameLen valPtr valLen ident : Z) : outcome (Z * host) :=
  r ← ForIdentifier h ident false;
  match r with
  | Err _ => Val ((-1)%Z, h)
  | Ok i =>
      name ← ReadMemory i namePtr nameLen;
      val ← ReadMemory i valPtr valLen;
      c ← ctx_of i;
      Val (0%Z, put_inst h ident (UseCtx i (Some (AddVar c name val))))
  end.

(** The end of the calls that leave a result in the context. *)
Definition set_ffi (h : host) (ident : Z) (i : Instance) (res : string) (err : option error) :
    outcome (Z * host) :=
  c ← ctx_of i;
  match SetFFIResult c res err with
  | Err _ => Val ((-1)%Z, h)
  | Ok (r, c1) => Val (FFISize errText r, put_inst h ident (UseCtx i (Some c1)))
  end.

(** ** fetch_url *)

Definition methods : list string := ["GET"; "HEAD"; "OPTIONS"; "POST"; "PUT"; "PATCH"; "DELETE"].

Definition methodValToMethod (m : Z) : option string :=
  if decide (0 ≤ m)%Z then methods !! Z.to_nat m else None.

(** [strings.Split(s, "::")] and [strings.Split(s, ":")] *)
Fixpoint split2 (s : string) : list string :=
  match s with
  | EmptyString => [""]
  | String a r =>
      match r with
      | String b r' =>
          if decide (a = ":"%char ∧ b = ":"%char) then "" :: split2 r'
          else match split2 r with [] => [String a ""] | x :: l => String a x :: l end
      | EmptyString => [String a ""]
      end
  end.

Fixpoint split1 (s : string) : list string :=
  match s with
  | EmptyString => [""]
  | String a r =>
      if decide (a = ":"%char) then "" :: split1 r
      else match split1 r with [] => [String a ""] | x :: l => String a x :: l end
  end.

(** [http.Header]: the values of the canonical keys, in the order of [Add]. *)
Definition Header : Type := list (string * string).
Definition Header_Add (h : Header) (k v : string) : Header := h ++ [(canonical k, v)].
Definition Header_Get (h : Header) (k : string) : string :=
  match list_find (λ x, x.1 = canonical k) h with Some (_, x) => x.2 | None => "" end.

Fixpoint parse_headers (ps : list string) (h : Header) : result Header :=
  match ps with
  | [] => Ok h
  | p :: ps =>
      match split1 p with
      | [k; v] => parse_headers ps (Header_Add h k v)
      | _ => Err (ErrNew "header was not formatted correctly")
      end
  end.

Definition parseHTTPHeaders (urlParts : list string) : result Header := parse_headers (tail urlParts) [].

(** [client] is the capability's HTTP client: the status and the body. *)
Definition fetchUrl (client : string → string → string → Header → result (Z * string))
    (statusText : Z → string → error)
    (h : host) (method urlPointer urlSize bodyPointer bodySize ident : Z) : outcome (Z * host) :=
  r ← ForIdentifier h ident true;
  match r with
  | Err _ => Val ((-1)%Z, h)
  | Ok i =>
      match methodValToMethod method with
      | None => Val ((-2)%Z, h)
      | Some httpMethod =>
          urlBytes ← ReadMemory i urlPointer urlSize;
          let urlParts := split2 urlBytes in
          match parseHTTPHeaders urlParts with
          | Err _ => Val ((-2)%Z, h)
          | Ok headers =>
              body ← ReadMemory i bodyPointer bodySize;
              let headers1 := if decide (0 < String.length body) then
                                if decide (Header_Get headers "Content-Type" = "")
                                then Header_Add headers "Content-Type" "application/octet-stream" else headers
                              else headers in
              match client httpMethod (default "" (head urlParts)) body headers1 with
              | Err e => set_ffi h ident i "" (Some e)
              | Ok (status, resp) =>
                  if decide (299 < status)%Z then set_ffi h ident i "" (Some (statusText status resp))
                  else set_ffi h ident i resp None
              end
          end
      end
  end.

(** ** The request's fields *)

Definition ErrKeyNotFound : error := ErrNew "key not found".
Definition ErrReqNotSet : error := ErrNew "req is not set".

(** [getField] is the request handler's answer. *)
Definition requestGetField (getField : Z → string → result string) (h : host)
    (fieldType keyPointer keySize ident : Z) : outcome (Z * host) :=
  r ← ForIdentifier h ident true;
  match r with
  | Err _ => Val ((-1)%Z, h)
  | Ok i =>
      key ← ReadMemory i keyPointer keySize;
      match getField fieldType key with
      | Ok v => set_ffi h ident i v None
      | Err e => if decide (e = ErrKeyNotFound) then set_ffi h ident i "" None else Val ((-1)%Z, h)
      end
  end.

(** The error of [SetField] is a variable of its own scope: the outer [err] is
    still the nil of [ForIdentifier]. *)
Definition requestSetField (setField : Z → string → string → option error) (h : host)
    (fieldType keyPointer keySize valPointer valSize ident : Z) : outcome (Z * host) :=
  r ← ForIdentifier h ident true;
  match r with
  | Err _ => Val ((-1)%Z, h)
  | Ok i =>
      key ← ReadMemory i keyPointer keySize;
      val ← ReadMemory i valPointer valSize;
      let _ := setField fieldType key val in
      set_ffi h ident i "" None
  end.

Definition responseSetHeader (setHeader : string → string → option error) (h : host)
    (keyPointer keySize valPointer valSize ident : Z) : outcome Z :=
  r ← ForIdentifier h ident false;
  match r with
  | Err _ => Val (-1)%Z
  | Ok i =>
      key ← ReadMemory i keyPointer keySize;
      val ← ReadMemory i valPointer valSize;
      _ ← ctx_of i;
      Val (match setHeader key val with
           | None => 0
           | Some e => if decide (e = ErrReqNotSet) then -2 else -5
           end)%Z
  end.

(** ** The protocol of a host call: a size, then the bytes *)

Lemma ForIdentifier_ok h ident i c :
  h !! ident = Some i → inst_ctx i = Some c → HasFFIResult c = false →
  ForIdentifier h ident true = Val (Ok i).
Proof. unfold ForIdentifier. by intros -> -> ->. Qed.

(** C32: The two calls of the host protocol fit together: after a host call left a
    result in the context, another call is refused, and get_ffi_result writes the
    bytes of the result (or of the error) into the memory of the module, where as
    many bytes as the returned size announced read back as the result; the context
    is free again. *)
Theorem ffi_call_protocol h ident i c m res err size h1 p :
  h !! ident = Some i → inst_ctx i = Some c → memory i = Linear m →
  set_ffi h ident i res err = Val (size, h1) → HasFFIResult c = false →
  let data := match err with Some e => errText e | None => res end in
  (0 ≤ p)%Z → (p + Z.of_nat (String.length data) ≤ Z.of_nat (length m))%Z →
  (Z.of_nat (String.length data) < 2 ^ 31)%Z →
  ForIdentifier h1 ident true =
    Val (Err (ErrNew "cannot use instance for host call with existing call in progress")) ∧
  ∃ h2 i2, getFfiResult h1 p ident = Val (0%Z, h2) ∧ h2 !! ident = Some i2 ∧
    ReadMemory i2 p (Z.abs size) = Val data ∧ (inst_ctx i2 = Some c ∧ HasFFIResult c = false).
Proof.
  intros Hi Hc Hm Hset Hfree data Hp Hfit Hlen. unfold set_ffi, ctx_of in Hset. rewrite Hc in Hset. run.
  destruct c as [fr vars]. unfold HasFFIResult in Hfree. simpl in Hfree. destruct fr; [done|].
  unfold SetFFIResult in Hset. simpl in Hset. injection Hset as <- <-. unfold put_inst.
  split.
  { unfold ForIdentifier. rewrite lookup_insert_eq. done. }
  unfold getFfiResult, ForIdentifier. rewrite lookup_insert_eq. run. unfold UseCtx; simpl.
  destruct (memory_roundtrip (mkInst (memory i) (Some (mkCtx None vars)) (resultChan i) (errChan i)) m p data)
    as (i2 & E & Hread & _); [done|done|done|].
  fold data. rewrite E. run. eexists _, i2. split; [done|]. unfold put_inst. rewrite lookup_insert_eq.
  split; [done|]. split.
  - assert (Z.abs (FFISize errText (mkFFI res err)) = Z.of_nat (String.length data)) as ->; [|done].
    unfold FFISize; simpl. unfold data in *. destruct err; rewrite int32_id by (unfold in_int32; lia); lia.
  - unfold WriteMemoryAtLocation in E. simpl in E. rewrite Hm in E.
    unfold from_pointer in E. rewrite decide_True in E by lia. run. by injection E as <-.
Qed.

(** request_set_field reports success whatever the handler answered. *)
Theorem requestSetField_reports_success setField h ft kp ks vp vs ident i c key v :
  h !! ident = Some i → inst_ctx i = Some c → HasFFIResult c = false →
  ReadMemory i kp ks = Val key → ReadMemory i vp vs = Val v →
  ∃ h1, requestSetField setField h ft kp ks vp vs ident = Val (0%Z, h1).
Proof.
  intros Hi Hc Hf Hk Hv. unfold requestSetField. rewrite (ForIdentifier_ok _ _ _ _ Hi Hc Hf). run.
  rewrite Hk. run. rewrite Hv. run. unfold set_ffi, ctx_of. rewrite Hc. run.
  unfold SetFFIResult, HasFFIResult in *. destruct (ffiResult c); [done|]. eauto.
Qed.

(** ** The URL of fetch_url *)

(** No colon: such names and values survive the encoding. *)
Fixpoint no_colon (s : string) : bool :=
  match s with EmptyString => true | String a s => negb (bool_decide (a = ":"%char)) && no_colon s end.

Fixpoint encode_headers (hs : list (string * string)) : string :=
  match hs with
  | [] => ""
  | (k, v) :: hs => "::" +:+ k +:+ ":" +:+ v +:+ encode_headers hs
  end.

Lemma split1_plain s r : no_colon s = true → split1 (s +:+ String ":" r) = s :: split1 r.
Proof.
  induction s as [|a s IH]; [done|]. simpl. intros [Ha Hs]%andb_true_iff.
  apply negb_true_iff, bool_decide_eq_false in Ha.
  change (split1 (String a (s +:+ String ":" r)) = String a s :: split1 r). simpl.
  rewrite decide_False by done. by rewrite IH.
Qed.

Lemma split1_last s : no_colon s = true → split1 s = [s].
Proof.
  induction s as [|a s IH]; [done|]. simpl. intros [Ha Hs]%andb_true_iff.
  apply negb_true_iff, bool_decide_eq_false in Ha. rewrite decide_False by done. by rewrite IH.
Qed.

(** A part that holds no double colon and does not end in a colon ends at the
    next double colon. *)
Fixpoint part_ok (s : string) : bool :=
  match s with
  | EmptyString => true
  | String a r =>
      match r with
      | EmptyString => negb (bool_decide (a = ":"%char))
      | String b _ => negb (bool_decide (a = ":"%char ∧ b = ":"%char)) && part_ok r
      end
  end.

Lemma split2_part s r : part_ok s = true → split2 (s +:+ String ":" (String ":" r)) = s :: split2 r.
Proof.
  induction s as [|a s IH]; [done|]. intros Hs.
  change (split2 (String a (s +:+ String ":" (String ":" r))) = String a s :: split2 r).
  destruct s as [|b s].
  - simpl in Hs. apply negb_true_iff, bool_decide_eq_false in Hs. simpl.
    rewrite decide_False by naive_solver. done.
  - cbn [part_ok] in Hs. apply andb_true_iff in Hs as [Ha Hs]. apply negb_true_iff, bool_decide_eq_false in Ha.
    change (split2 (String a (String b (s +:+ String ":" (String ":" r)))) = String a (String b s) :: split2 r).
    cbn [split2]. rewrite decide_False by done. specialize (IH Hs).
    change (split2 (String b (s +:+ String ":" (String ":" r))) = String b s :: split2 r) in IH.
    cbn [split2] in IH. by rewrite IH.
Qed.

Lemma split2_last s : part_ok s = true → split2 s = [s].
Proof.
  induction s as [|a s IH]; [done|]. intros Hs. destruct s as [|b s]; [done|].
  cbn [part_ok] in Hs. apply andb_true_iff in Hs as [Ha Hs]. apply negb_true_iff, bool_decide_eq_false in Ha.
  cbn [split2]. rewrite decide_False by done. specialize (IH Hs). cbn [split2] in IH. by rewrite IH.
Qed.

Lemma no_colon_app s t : no_colon (s +:+ t) = no_colon s && no_colon t.
Proof.
  induction s as [|a s IH]; [done|]. change (negb (bool_decide (a = ":"%char)) && no_colon (s +:+ t) =
    negb (bool_decide (a = ":"%char)) && no_colon s && no_colon t). by rewrite IH, andb_assoc.
Qed.

Lemma no_colon_part s : no_colon s = true → part_ok s = true.
Proof.
  induction s as [|a s IH]; [done|]. simpl. intros [Ha Hs]%andb_true_iff.
  destruct s as [|b s]; [done|]. rewrite (IH Hs), andb_true_r.
  apply negb_true_iff, bool_decide_eq_false in Ha. apply negb_true_iff, bool_decide_eq_false. naive_solver.
Qed.

Lemma part_kv k v : no_colon k = true → no_colon v = true → v ≠ "" → part_ok (k +:+ String ":" v) = true.
Proof.
  intros Hk Hv Hne. destruct v as [|b v]; [done|].
  assert (b ≠ ":"%char ∧ part_ok (String b v) = true) as [Hb Hp].
  { split; [|by apply no_colon_part]. simpl in Hv. apply andb_true_iff in Hv as [Hb _].
    by apply negb_true_iff, bool_decide_eq_false in Hb. }
  assert (part_ok (String ":" (String b v)) = true) as Hcv.
  { cbn [part_ok]. rewrite bool_decide_eq_false_2 by naive_solver. exact Hp. }
  induction k as [|a k IH]; [exact Hcv|].
  simpl in Hk. apply andb_true_iff in Hk as [Ha Hk]. apply negb_true_iff, bool_decide_eq_false in Ha.
  specialize (IH Hk). change (part_ok (String a (k +:+ String ":" (String b v))) = true).
  destruct (k +:+ String ":" (String b v)) as [|c r] eqn:E; [by destruct k|].
  cbn [part_ok]. rewrite bool_decide_eq_false_2 by naive_solver. exact IH.
Qed.

Lemma split2_encoded u hs :
  part_ok u = true →
  Forall (λ '(k, v), no_colon k = true ∧ no_colon v = true ∧ v ≠ "") hs →
  split2 (u +:+ encode_headers hs) = u :: ((λ '(k, v), k +:+ String ":" v) <$> hs).
Proof.
  intros Hu Hhs. revert u Hu. induction Hhs as [|[k v] hs (Hk & Hv & Hne) _ IH]; intros u Hu; simpl.
  - assert (u +:+ "" = u) as ->; [|by apply split2_last].
    clear. induction u as [|a u IH]; [done|]. change (String a (u +:+ "") = String a u). by rewrite IH.
  - change (split2 (u +:+ String ":" (String ":" (k +:+ String ":" (v +:+ encode_headers hs)))) =
      u :: (k +:+ String ":" v) :: ((λ '(k, v), k +:+ String ":" v) <$> hs)).
    rewrite split2_part by done. f_equal.
    change (String ":" (v +:+ encode_headers hs)) with (String ":" v +:+ encode_headers hs).
    rewrite <- string_app_assoc. apply IH. by apply part_kv.
Qed.

(** A URL followed by headers in the encoding of the module libraries is split and
    parsed into that URL and those headers, when names and values hold no colon.
    *)
Theorem fetch_url_roundtrip u hs :
  part_ok u = true →
  Forall (λ '(k, v), no_colon k = true ∧ no_colon v = true ∧ v ≠ "") hs →
  head (split2 (u +:+ encode_headers hs)) = Some u ∧
  parseHTTPHeaders (split2 (u +:+ encode_headers hs)) = Ok ((λ '(k, v), (canonical k, v)) <$> hs).
Proof.
  intros Hu Hhs. rewrite split2_encoded by done. split; [done|]. unfold parseHTTPHeaders. simpl.
  assert (∀ h, parse_headers ((λ '(k, v), k +:+ String ":" v) <$> hs) h =
    Ok (h ++ ((λ '(k, v), (canonical k, v)) <$> hs))) as H; [|by rewrite H].
  induction Hhs as [|[k v] hs (Hk & Hv & _) _ IH]; intros h; simpl; [by rewrite app_nil_r|].
  rewrite split1_plain, split1_last by done. rewrite IH. unfold Header_Add. by rewrite <- app_assoc.
Qed.

(** A value with a colon in it, such as a URL, is refused. *)
Lemma header_with_colon_refused k v r :
  no_colon k = true → no_colon v = true →
  parse_headers [k +:+ String ":" (v +:+ String ":" r)] [] = Err (ErrNew "header was not formatted correctly").
Proof.
  intros Hk Hv. simpl. rewrite split1_plain, split1_plain by done.
  destruct (split1 r) eqn:E; [|done]. exfalso. destruct r; simpl in E; [done|].
  case_decide; [done|]. by destruct (split1 r).
Qed.

End HostApi.

(** ** Examples *)

(** An instance with four bytes of memory makes a call that answers "ok". *)
Definition example_inst : Instance := UseCtx (New (Linear (replicate 4 Ascii.zero))) (Some newCtx).
Definition example_host : gmap Z Instance := {[7%Z := example_inst]}.
Definition example_called : gmap Z Instance :=
  put_inst example_host 7 (UseCtx example_inst (Some (mkCtx (Some (mkFFI "ok" None)) (Some [])))).

Lemma ffi_call_protocol_witness :
  set_ffi (λ _, "") example_host 7 example_inst "ok" None = Val (2%Z, example_called) ∧
  ∃ h2 i2, getFfiResult (λ _, "") example_called 1 7 = Val (0%Z, h2) ∧ h2 !! 7%Z = Some i2 ∧
           ReadMemory i2 1 2 = Val "ok".
Proof.
  destruct (ffi_call_protocol (λ _, "") example_host 7 example_inst newCtx (replicate 4 Ascii.zero) "ok" None 2
    example_called 1) as (_ & h2 & i2 & Hget & Hi2 & Hread & _);
    [reflexivity..|lia|simpl; lia|simpl; lia|].
  split; [reflexivity|]. exists h2, i2. split; [exact Hget|]. split; [exact Hi2|exact Hread].
Defined.

Lemma fetch_url_roundtrip_witness :
  parseHTTPHeaders (λ k, k) (split2 ("https://example.com" +:+ encode_headers [("Accept", "text/plain")])) =
    Ok [("Accept", "text/plain")].
Proof.
  apply (fetch_url_roundtrip (λ k, k) "https://example.com" [("Accept", "text/plain")]); [reflexivity|].
  by repeat constructor.
Defined.
