(* ===== verification/HostTable.v ===== *)
(** * The table of host functions: sat/engine2/api, sat/engine2/runtime/pool.go

    The host functions of HostApi as the module sees them: each takes a slice of
    [interface{}] values and asserts their types, and [addHostFns] wraps each in
    a function on WebAssembly values that it hands to the linker with its type.
    Then the building of an instance, [new].  The wasmtime runtime is another
    module's: what it answers is an argument.  Log lines are kept in a list. *)

From S2P Require Import Prelude.
From S2P Require Import Ctx.
From S2P Require Import Instance.
From S2P Require Import HostApi.
From Stdlib Require Import Ascii.

(** ** Dynamic values *)

(** A value of type [interface{}]. *)
Inductive any : Type := ANil | AInt32 (n : Z) | AOther.

(** [v.(int32)] *)
Definition as_int32 (v : any) : outcome Z :=
  match v with AInt32 n => Val n | _ => Panic BadAssert end.

(** [args[i].(int32)] *)
Definition arg (args : list any) (i : nat) : outcome Z := v ← index_at args i; as_int32 v.

(** A value that WebAssembly code passes or gets. *)
Inductive wval : Type := WI32 (n : Z) | WOther.
Inductive wkind : Type := KindI32 | KindOther.

(** [wasmtime.Val.I32], which panics for another kind. *)
Definition I32 (v : wval) : outcome Z := match v with WI32 n => Val n | WOther => Panic BadAssert end.

Record FuncType : Type := mkFuncType { params : list wkind; results : list wkind }.

(* A run of a host function: [None] blocks. *)
Abbreviation run_of A := (option (outcome A)).

(** The rest of a call that can block, after a part that cannot. *)
Definition after {A B} (o : outcome A) (k : A → run_of B) : run_of B :=
  match o with Val a => k a | Panic p => Some (Panic p) end.
Local Notation "x <~ o ; k" := (after o (λ x, k)) (at level 20, o at level 100, k at level 200).

(** ** The context of a request *)

(** The values of a [context.Context], the latest first. *)
Section Context_values.
Context {Request : Type}.

Inductive ctx_value : Type := VRequest (r : option Request) | VOtherValue.
Definition context : Type := list (Z * ctx_value).

Definition requestKey : Z := 0.

Definition Value (c : context) (k : Z) : option ctx_value := snd <$> (list_find (λ x, x.1 = k) c ≫= λ x, Some x.2).

Definition ContextWithRequest (c : context) (req : option Request) : context := (requestKey, VRequest req) :: c.

Definition RequestFromContext (c : context) : option Request :=
  match Value c requestKey with
  | Some (VRequest r) => r
  | _ => None
  end.

Lemma request_from_context c req : RequestFromContext (ContextWithRequest c req) = req.
Proof. reflexivity. Qed.

End Context_values.

(** ** The host functions *)

Section HostTable.
Context {Request : Type} (errText : error → string) (canonical : string → string).

(** What the capabilities answer, and the context that a job's Ctx embeds. *)
Record capabilities : Type := mkCaps {
  cap_client : string → string → string → Header → result (Z * string);
  cap_statusText : Z → string → error;
  cap_getField : option Request → Z → string → result string;
  cap_setField : option Request → Z → string → string → option error;
  cap_setHeader : option Request → string → string → option error;
  cap_meta : Z;                                 (* RequestFieldTypeMeta *)
  cap_context : Ctx → context (Request := Request)
}.
Context (caps : capabilities).

Record logScope : Type := mkScope { RequestID : string; Identifier : Z }.

(** The mapper's instances and what was logged: level, message and scope. *)
Record state : Type := mkState { insts : gmap Z Instance; logged : list (Z * string * logScope) }.

Definition set_insts (s : state) (h : gmap Z Instance) : state := mkState h (logged s).

(** The request of the job that an instance runs. *)
Definition request_of (s : state) (ident : Z) : option Request :=
  i ← insts s !! ident; c ← inst_ctx i; RequestFromContext (cap_context caps c).

Definition logMsg (s : state) (pointer size level ident : Z) : outcome state :=
  r ← ForIdentifier (insts s) ident false;
  match r with
  | Err _ => Val s
  | Ok i =>
      msg ← ReadMemory i pointer size;
      c ← ctx_of i;
      let id := match RequestFromContext (cap_context caps c) with
                | None => ""
                | Some req => match cap_getField caps (Some req) (cap_meta caps) "id" with Ok id => id | Err _ => "" end
                end in
      Val (mkState (insts s) (logged s ++ [(level, msg, mkScope id ident)]))
  end.

(** What a host function returns: an [interface{}] and an error. *)
Definition innerFunc : Type := list any → state → run_of (result any * state).

Record HostFn : Type := NewHostFn { Name : string; ArgCount : nat; Returns : bool; HostFn_fn : innerFunc }.

(** The two ways in which they end. *)
Definition ret (s : state) (x : Z * gmap Z Instance) : run_of (result any * state) :=
  Some (Val (Ok (AInt32 x.1), set_insts s x.2)).
Definition ret_nil (s : state) : run_of (result any * state) := Some (Val (Ok ANil, s)).

Definition ReturnResultHandler : HostFn := NewHostFn "return_result" 3 false (λ args s,
  pointer <~ arg args 0; size <~ arg args 1; ident <~ arg args 2;
  o ← returnResult (insts s) pointer size ident;
  h <~ o; ret_nil (set_insts s h)).

Definition ReturnErrorHandler : HostFn := NewHostFn "return_error" 4 false (λ args s,
  code <~ arg args 0; pointer <~ arg args 1; size <~ arg args 2; ident <~ arg args 3;
  o ← returnError (insts s) code pointer size ident;
  h <~ o; ret_nil (set_insts s h)).

Definition GetFFIResultHandler : HostFn := NewHostFn "get_ffi_result" 2 true (λ args s,
  pointer <~ arg args 0; ident <~ arg args 1;
  r <~ getFfiResult errText (insts s) pointer ident; ret s r).

Definition AddFFIVariableHandler : HostFn := NewHostFn "add_ffi_var" 5 true (λ args s,
  namePtr <~ arg args 0; nameLen <~ arg args 1; valPtr <~ arg args 2; valLen <~ arg args 3; ident <~ arg args 4;
  r <~ addFfiVar (insts s) namePtr nameLen valPtr valLen ident; ret s r).

Definition FetchURLHandler : HostFn := NewHostFn "fetch_url" 6 true (λ args s,
  method <~ arg args 0; urlPointer <~ arg args 1; urlSize <~ arg args 2;
  bodyPointer <~ arg args 3; bodySize <~ arg args 4; ident <~ arg args 5;
  r <~ fetchUrl errText canonical (cap_client caps) (cap_statusText caps) (insts s)
         method urlPointer urlSize bodyPointer bodySize ident;
  ret s r).

Definition LogMsgHandler : HostFn := NewHostFn "log_msg" 4 false (λ args s,
  pointer <~ arg args 0; size <~ arg args 1; level <~ arg args 2; ident <~ arg args 3;
  s1 <~ logMsg s pointer size level ident; ret_nil s1).

Definition RequestGetFieldHandler : HostFn := NewHostFn "request_get_field" 4 true (λ args s,
  fieldType <~ arg args 0; keyPointer <~ arg args 1; keySize <~ arg args 2; ident <~ arg args 3;
  r <~ requestGetField errText (cap_getField caps (request_of s ident)) (insts s) fieldType keyPointer keySize ident;
  ret s r).

Definition RequestSetFieldHandler : HostFn := NewHostFn "request_set_field" 6 true (λ args s,
  fieldType <~ arg args 0; keyPointer <~ arg args 1; keySize <~ arg args 2;
  valPointer <~ arg args 3; valSize <~ arg args 4; ident <~ arg args 5;
  r <~ requestSetField errText (cap_setField caps (request_of s ident)) (insts s)
         fieldType keyPointer keySize valPointer valSize ident;
  ret s r).

(** The number that [responseSetHeader] returns is dropped. *)
Definition RespSetHeaderHandler : HostFn := NewHostFn "resp_set_header" 5 false (λ args s,
  keyPointer <~ arg args 0; keySize <~ arg args 1; valPointer <~ arg args 2; valSize <~ arg args 3;
  ident <~ arg args 4;
  _ <~ responseSetHeader (cap_setHeader caps (request_of s ident)) (insts s)
         keyPointer keySize valPointer valSize ident;
  ret_nil s).

Definition HostFunctions : list HostFn :=
  [ReturnResultHandler; ReturnErrorHandler; GetFFIResultHandler; AddFFIVariableHandler; FetchURLHandler;
   LogMsgHandler; RequestGetFieldHandler; RequestSetFieldHandler; RespSetHeaderHandler].

(** ** addHostFns *)

(** The function on WebAssembly values; its error is a trap. *)
Definition callback : Type := list wval → state → run_of (result (list wval) * state).

(** The loop over [hostArgs]. *)
Fixpoint host_args (args : list wval) (i n : nat) : outcome (list any) :=
  match n with
  | 0 => Val []
  | S n => v ← index_at args i; ha ← I32 v; rest ← host_args args (S i) n; Val (AInt32 ha :: rest)
  end.

Definition wasmtimeFunc (fn : HostFn) : callback := λ args s,
  hostArgs <~ host_args args 0 (ArgCount fn);
  o ← HostFn_fn fn hostArgs s;
  x <~ o;
  match x with
  | (Err err, s1) => Some (Val (Err (ErrWrap err ("failed to HostFn for " +:+ Name fn)), s1))
  | (Ok ANil, s1) => Some (Val (Ok [], s1))
  | (Ok v, s1) => n <~ as_int32 v; Some (Val (Ok [WI32 n], s1))
  end.

(** The definitions that the linker gets for the module "env", in order. *)
Definition addHostFns (fns : list HostFn) : list (string * FuncType * callback) :=
  (λ fn, (Name fn,
          mkFuncType (replicate (ArgCount fn) KindI32) (if Returns fn then [KindI32] else []),
          wasmtimeFunc fn)) <$> fns.

(** A WebAssembly value of a kind. *)
Definition has_kind (v : wval) (k : wkind) : Prop :=
  match v, k with
  | WI32 n, KindI32 => in_int32 n
  | WOther, KindOther => True
  | _, _ => False
  end.

(** What [o] may do: a panic of an access to the instance, or a value with [Q]. *)
Definition safe {A} (Q : A → Prop) (o : outcome A) : Prop :=
  match o with
  | Panic p => p ∈ [NilDeref; SliceRange; NegLen]
  | Val a => Q a
  end.

Lemma safe_bind {A B} (Q : A → Prop) (R : B → Prop) (o : outcome A) (k : A → outcome B) :
  safe Q o → (∀ a, Q a → safe R (k a)) → safe R (o ≫= k).
Proof. destruct o; simpl; auto. Qed.

Lemma safe_impl {A} (Q R : A → Prop) (o : outcome A) : safe Q o → (∀ a, Q a → R a) → safe R o.
Proof. destruct o; simpl; auto. Qed.

(** The accesses to an instance. *)
Lemma safe_ForIdentifier h ident b : safe (λ _, True) (ForIdentifier h ident b).
Proof. 
  unfold ForIdentifier. destruct (h !! ident) as [i|]; simpl; [|exact I]. destruct b; simpl; [|exact I].
  destruct (inst_ctx i) as [c|]; [destruct (HasFFIResult c); exact I|]. simpl. left.
 Qed.

Lemma safe_ReadMemory i p n : safe (λ _, True) (ReadMemory i p n).
Proof.
  unfold ReadMemory, from_pointer. destruct (memory i); [by repeat constructor|exact I|].
  repeat (case_decide; run); first [exact I|by repeat constructor].
Qed.

Lemma safe_WriteMemoryAtLocation i p d : safe (λ _, True) (WriteMemoryAtLocation i p d).
Proof.
  unfold WriteMemoryAtLocation, from_pointer. destruct (memory i); [by repeat constructor|exact I|].
  case_decide; run; [exact I|by repeat constructor].
Qed.

Lemma safe_ctx_of i : safe (λ _, True) (ctx_of i).
Proof. unfold ctx_of. destruct (inst_ctx i); [exact I|left]. Qed.

(** A number the host returns is an int32. *)
Definition ret_ok (x : Z * gmap Z Instance) : Prop := in_int32 x.1.

Lemma safe_set_ffi h ident i res err : safe ret_ok (set_ffi errText h ident i res err).
Proof.
  unfold set_ffi. eapply safe_bind; [apply safe_ctx_of|]. intros c _.
  destruct (SetFFIResult c res err) as [[r c1]|]; simpl; unfold ret_ok; simpl.
  - unfold FFISize. destruct (ffi_Err r); apply int32_range.
  - unfold in_int32. lia.
Qed.

Lemma ret_minus (h : gmap Z Instance) n : (-2 ≤ n ≤ 0)%Z → ret_ok (n, h).
Proof. unfold ret_ok, in_int32; simpl. lia. Qed.

(** The steps of a host function: an access, a test, or its end. *)
Ltac safe_steps :=
  repeat first
    [ by apply ret_minus | apply safe_set_ffi | exact I
    | eapply safe_bind;
      [first [apply safe_ForIdentifier | apply safe_ReadMemory | apply safe_WriteMemoryAtLocation | apply safe_ctx_of]|];
      intros ? _
    | match goal with |- safe _ (match ?x with _ => _ end) => destruct x end ].

Lemma safe_getFfiResult h pointer ident : safe ret_ok (getFfiResult errText h pointer ident).
Proof. unfold getFfiResult. safe_steps. Qed.

Lemma safe_addFfiVar h np nl vp vl ident : safe ret_ok (addFfiVar h np nl vp vl ident).
Proof. unfold addFfiVar. safe_steps. Qed.

Lemma safe_fetchUrl client st h m up us bp bs ident :
  safe ret_ok (fetchUrl errText canonical client st h m up us bp bs ident).
Proof. unfold fetchUrl. safe_steps. Qed.

Lemma safe_requestGetField gf h ft kp ks ident : safe ret_ok (requestGetField errText gf h ft kp ks ident).
Proof. unfold requestGetField. safe_steps. Qed.

Lemma safe_requestSetField sf h ft kp ks vp vs ident :
  safe ret_ok (requestSetField errText sf h ft kp ks vp vs ident).
Proof. unfold requestSetField. safe_steps. Qed.

Lemma safe_responseSetHeader sh h kp ks vp vs ident : safe (λ _, True) (responseSetHeader sh h kp ks vp vs ident).
Proof. unfold responseSetHeader. safe_steps. Qed.

Lemma safe_logMsg s p n l ident : safe (λ _, True) (logMsg s p n l ident).
Proof. unfold logMsg. safe_steps. Qed.

(** return_result and return_error can block. *)
Definition safe_run {A} (blocks : Prop) (Q : A → Prop) (o : run_of A) : Prop :=
  match o with None => blocks | Some o => safe Q o end.

Lemma safe_after {A B} (b : Prop) (Q : A → Prop) (R : B → Prop) (o : outcome A) (k : A → run_of B) :
  safe Q o → (∀ a, Q a → safe_run b R (k a)) → safe_run b R (after o k).
Proof. destruct o; simpl; auto. Qed.

Lemma safe_returnResult h p n ident : safe_run True (λ _, True) (returnResult h p n ident).
Proof.
  unfold returnResult. pose proof (safe_ForIdentifier h ident false).
  destruct (ForIdentifier h ident false) as [[i|]|]; try done. pose proof (safe_ReadMemory i p n).
  destruct (ReadMemory i p n); [|done]. by destruct (SendExecutionResult _ _ _).
Qed.

Lemma safe_returnError h c p n ident : safe_run True (λ _, True) (returnError h c p n ident).
Proof.
  unfold returnError. pose proof (safe_ForIdentifier h ident false).
  destruct (ForIdentifier h ident false) as [[i|]|]; try done. pose proof (safe_ReadMemory i p n).
  destruct (ReadMemory i p n); [|done]. by destruct (SendExecutionResult _ _ _).
Qed.

(** ** The types of the table *)

(** Numbers as a module passes them, and as a host function gets them. *)
Definition wasm_args (ns : list Z) : list wval := WI32 <$> ns.
Definition go_args (ns : list Z) : list any := AInt32 <$> ns.

Lemma kind_args vs n : Forall2 has_kind vs (replicate n KindI32) → ∃ ns, vs = wasm_args ns ∧ length ns = n.
Proof.
  revert vs. induction n as [|n IH]; intros vs Hvs; simpl in Hvs.
  - apply Forall2_nil_inv_r in Hvs as ->. by exists [].
  - apply Forall2_cons_inv_r in Hvs as (v & vs' & Hv & Hvs & ->). destruct (IH _ Hvs) as (ns & -> & Hn).
    destruct v as [z|]; [|done]. exists (z :: ns). simpl. by rewrite Hn.
Qed.

Lemma host_args_ok ns k n :
  length ns = k + n → host_args (wasm_args ns) k n = Val (go_args (drop k ns)).
Proof.
  revert k. induction n as [|n IH]; intros k Hl; simpl.
  - by rewrite drop_ge by lia.
  - destruct (lookup_lt_is_Some_2 ns k) as [z Hz]; [lia|]. rewrite (index_at_lookup _ _ (WI32 z)).
    + run. rewrite IH by lia. run. by rewrite (drop_S ns z k Hz).
    + unfold wasm_args. by rewrite list_lookup_fmap, Hz.
Qed.

(** What a host function does with the numbers it gets: a value exactly when it
    is declared to return one. *)
Definition fn_ok (fn : HostFn) : Prop :=
  ∀ ns s, length ns = ArgCount fn →
  safe_run (Name fn = "return_result" ∨ Name fn = "return_error")
    (λ x, if Returns fn then ∃ n, x.1 = Ok (AInt32 n) ∧ in_int32 n else x.1 = Ok ANil)
    (HostFn_fn fn (go_args ns) s).

Lemma safe_ret b s o :
  safe ret_ok o → safe_run b (λ x, ∃ n, x.1 = Ok (AInt32 n) ∧ in_int32 n) (after o (ret s)).
Proof. intros Ho. eapply safe_after; [exact Ho|]. intros [n h] Hn. simpl. eauto. Qed.

Lemma safe_nil {A} b (Q : A → Prop) (o : outcome A) k :
  safe Q o → safe_run b (λ x : result any * state, x.1 = Ok ANil) (after o (λ a, ret_nil (k a))).
Proof. intros Ho. eapply safe_after; [exact Ho|]. done. Qed.

Lemma safe_nil_run {A} (b : Prop) (Q : A → Prop) (o : run_of A) k :
  b → safe_run True Q o →
  safe_run b (λ x : result any * state, x.1 = Ok ANil) (o ≫= λ o, after o (λ a, ret_nil (k a))).
Proof. destruct o as [o|]; simpl; [by intros _; apply safe_nil|done]. Qed.

Lemma HostFunctions_ok : Forall fn_ok HostFunctions.
Proof.
  repeat constructor; intros ns s Hl; simpl in Hl; repeat (destruct ns as [|? ns]; [done|]);
    destruct ns; try done; simpl.
  - eapply safe_nil_run, safe_returnResult. by left.
  - eapply safe_nil_run, safe_returnError. by right.
  - apply safe_ret, safe_getFfiResult.
  - apply safe_ret, safe_addFfiVar.
  - apply safe_ret, safe_fetchUrl.
  - by eapply safe_nil, safe_logMsg.
  - apply safe_ret, safe_requestGetField.
  - apply safe_ret, safe_requestSetField.
  - by eapply safe_nil, safe_responseSetHeader.
Qed.

(** C22: Every host function, called through the function that addHostFns gives to
    the linker with values of its parameter types, fails no type assertion and
    indexes no argument that is not there, never traps, returns values of its
    declared result types, and panics only in an access to the instance; only
    return_result and return_error can block. *)
Theorem host_functions_typed name ty (f : callback) args s :
  (name, ty, f) ∈ addHostFns HostFunctions → Forall2 has_kind args (params ty) →
  match f args s with
  | None => name = "return_result" ∨ name = "return_error"
  | Some (Panic p) => p ∈ [NilDeref; SliceRange; NegLen]
  | Some (Val (Err _, _)) => False
  | Some (Val (Ok vs, _)) => Forall2 has_kind vs (results ty)
  end.
Proof.
  intros (fn & [= -> -> ->] & Hfn)%list_elem_of_fmap Hargs. simpl in *.
  apply kind_args in Hargs as (ns & -> & Hl). unfold wasmtimeFunc.
  rewrite host_args_ok by done. simpl. rewrite drop_0.
  pose proof (proj1 (Forall_forall _ _) HostFunctions_ok fn Hfn ns s Hl) as Hfn_ok.
  destruct (HostFn_fn fn (go_args ns) s) as [[[r s1]|p]|]; simpl in *; [|done|done].
  destruct (Returns fn).
  - destruct Hfn_ok as (n & -> & Hn). simpl. constructor; [exact Hn|constructor].
  - rewrite Hfn_ok. constructor.
Qed.

(** No name is defined twice: the linker refuses no definition. *)
Lemma host_names_distinct : NoDup ((λ x, x.1.1) <$> addHostFns HostFunctions).
Proof. simpl. repeat (constructor; [set_solver|]). constructor. Qed.

(** The module's function named so is the host function with its arguments in
    the order of its parameters. *)
Lemma host_call_routes (s : state) p n ident ty f :
  ("return_result", ty, f) ∈ addHostFns HostFunctions →
  f (wasm_args [p; n; ident]) s =
    (o ← returnResult (insts s) p n ident; h <~ o; Some (Val (Ok [], set_insts s h))).
Proof.
  intros (fn & [= Hname -> ->] & Hfn)%list_elem_of_fmap. unfold HostFunctions in Hfn.
  repeat (apply elem_of_cons in Hfn as [->|Hfn]; [try done|]); [|by apply elem_of_nil in Hfn].
  unfold wasmtimeFunc. simpl. destruct (returnResult (insts s) p n ident) as [[h|]|]; reflexivity.
Qed.

End HostTable.

(** ** Building an instance: instance.go, pool.go *)

Section Build.
Context {Module Linker Exports : Type}.

Definition ErrExportNotFound : error := ErrNew "the requested export is not found in the module".

(** An export of a module that runs in a store: a function, or something else. *)
Inductive extern : Type := ExternFunc (f : list any → result any) | ExternOther.

(** [wasmFunc.Func()] is nil for what is not a function. *)
Definition Call (export : string → option extern) (fn : string) (args : list any) : outcome (result any) :=
  match export fn with
  | None => Val (Err (ErrWrap ErrExportNotFound ("function " +:+ fn +:+ " not found")))
  | Some ExternOther => Panic NilDeref
  | Some (ExternFunc f) =>
      match f args with
      | Err e => Val (Err (ErrWrap e "failed to wasmFunc"))
      | Ok r => Val (Ok r)
      end
  end.

(** What wasmtime answers: compiling the module, a linker with the WASI
    functions, an instance's exports and its memory. *)
Record wasmtime : Type := mkWasmtime {
  wt_NewModule : result Module;
  wt_Linker : result Linker;                                 (* NewLinker, DefineWasi *)
  wt_Instantiate : Linker → Module → result Exports;
  wt_export : Exports → string → option extern;
  wt_memory : Exports → memory_export
}.
Context (wt : wasmtime) (mount : Linker → Linker).           (* addHostFns on the linker *)

(** The module, engine and linker of the pool, once they are set. *)
Definition compiled : Type := option (Module * Linker).

Definition internals (ip : compiled) : result (Module * Linker) * compiled :=
  match ip with
  | Some c => (Ok c, ip)
  | None =>
      match wt_NewModule wt with
      | Err e => (Err (ErrWrap e "failed to NewModule"), None)
      | Ok m =>
          match wt_Linker wt with
          | Err e => (Err (ErrWrap e "failed to DefineWasi"), None)
          | Ok l => (Ok (m, mount l), Some (m, mount l))
          end
      end
  end.

Definition pool_new (ip : compiled) : outcome (result Instance * compiled) :=
  let '(r, ip1) := internals ip in
  match r with
  | Err e => Val (Err (ErrWrap e "failed to internals"), ip1)
  | Ok (m, l) =>
      match wt_Instantiate wt l m with
      | Err e => Val (Err (ErrWrap e "failed to linker.Instantiate"), ip1)
      | Ok x =>
          r ← Call (wt_export wt x) "_start" [];
          match r with
          | Err e =>
              if errors_Is e ErrExportNotFound then Val (Ok (New (wt_memory wt x)), ip1)
              else Val (Err (ErrWrap e "failed to call exported _start"), ip1)
          | Ok _ => Val (Ok (New (wt_memory wt x)), ip1)
          end
      end
  end.

(** The instance that [AddInstance] hands to the channel. *)
Definition AddInstance (ip : compiled) : outcome (result Instance * compiled) :=
  x ← pool_new ip;
  Val (match x.1 with Err e => Err (ErrWrap e "failed to builder.New") | Ok i => Ok i end, x.2).

(** A pool whose cached linker is the one that it would build. *)
Definition compiled_ok (ip : compiled) : Prop :=
  match ip with
  | None => True
  | Some (m, l) => wt_NewModule wt = Ok m ∧ ∃ l0, wt_Linker wt = Ok l0 ∧ l = mount l0
  end.

(** The start function of an instance either is not there or ran to its end.  An
    error of it that wraps the sentinel counts as not there. *)
Definition starts (x : Exports) : Prop :=
  match wt_export wt x "_start" with
  | None => True
  | Some ExternOther => False
  | Some (ExternFunc f) => match f [] with Ok _ => True | Err e => errors_Is e ErrExportNotFound = true end
  end.

Lemma errors_Is_wrap e t m : (∀ c n, t ≠ ErrWrap c n) → errors_Is (ErrWrap e m) t = errors_Is e t.
Proof. intros Ht. simpl. rewrite bool_decide_eq_false_2 by (intros <-; by eapply Ht). done. Qed.

Lemma Call_start x :
  (∃ r, Call (wt_export wt x) "_start" [] = Val r ∧
        match r with Ok _ => True | Err e => errors_Is e ErrExportNotFound = true end) ↔ starts x.
Proof.
  unfold Call, starts. destruct (wt_export wt x "_start") as [[f|]|].
  - destruct (f []) as [r|e]; [split; eauto|]. split.
    + intros (r & [= <-] & Hr). rewrite <- Hr. symmetry. by apply errors_Is_wrap.
    + intros He. eexists. split; [done|]. rewrite <- He. by apply errors_Is_wrap.
  - split; [|done]. by intros (r & ? & _).
  - split; [done|]. intros _. eexists. split; [done|]. reflexivity.
Qed.

(** Building an instance succeeds exactly when the module compiles, links, and
    starts, also when the module was compiled before; the new instance has no
    context and no result, and the module is not compiled again. *)
Theorem AddInstance_ok_iff ip i ip1 :
  compiled_ok ip →
  AddInstance ip = Val (Ok i, ip1) ↔
  ∃ m l x, wt_NewModule wt = Ok m ∧ wt_Linker wt = Ok l ∧ wt_Instantiate wt (mount l) m = Ok x ∧ starts x ∧
    i = New (wt_memory wt x) ∧ ip1 = Some (m, mount l).
Proof.
  intros Hok.
  assert (∀ m l, wt_NewModule wt = Ok m → wt_Linker wt = Ok l →
    internals ip = (Ok (m, mount l), Some (m, mount l))) as Hint.
  { intros m l Hm Hl. unfold internals. destruct ip as [[m' l']|]; [|by rewrite Hm, Hl].
    destruct Hok as (Hm' & l0 & Hl' & ->).
    rewrite Hm in Hm'. rewrite Hl in Hl'. by injection Hm' as <-; injection Hl' as <-. }
  assert ((∃ m l, wt_NewModule wt = Ok m ∧ wt_Linker wt = Ok l) ∨ ∃ e ip', internals ip = (Err e, ip')) as Hcase.
  { destruct (wt_NewModule wt) as [m|e] eqn:Hm, (wt_Linker wt) as [l|e'] eqn:Hl; [left; eauto|..];
      right; unfold internals; destruct ip as [[m' l']|]; rewrite ?Hm, ?Hl; eauto;
      destruct Hok as (Hm' & l0 & Hl' & _); by rewrite ?Hm, ?Hl in *. }
  unfold AddInstance, pool_new. split.
  - destruct Hcase as [(m & l & Hm & Hl)|(e & ip' & ->)]; [|by run].
    rewrite (Hint m l Hm Hl). destruct (wt_Instantiate wt (mount l) m) as [x|e] eqn:Hx; [|by run].
    pose proof (Call_start x) as Hst. destruct (Call (wt_export wt x) "_start" []) as [r|]; [|done].
    intros E. exists m, l, x. assert (starts x ∧ i = New (wt_memory wt x) ∧ ip1 = Some (m, mount l)) as (? & -> & ->);
      [|by split_and!].
    destruct r as [a|e]; cbn [mbind outcome_bind] in E.
    + injection E as <- <-. split; [|done]. apply Hst. by exists (Ok a).
    + destruct (errors_Is e ErrExportNotFound) eqn:He; [|discriminate]. injection E as <- <-.
      split; [|done]. apply Hst. by exists (Err e).
  - intros (m & l & x & Hm & Hl & Hx & Hst%Call_start & -> & ->). rewrite (Hint m l Hm Hl), Hx.
    destruct Hst as (r & -> & Hr). destruct r as [a|e]; cbn [mbind outcome_bind]; [done|]. by rewrite Hr.
Qed.

End Build.

(** ** Examples *)

Definition example_caps : capabilities (Request := string) :=
  mkCaps (λ _ _ _ _, Ok (200%Z, "")) (λ _ s, ErrExt s) (λ _ _ k, Ok k) (λ _ _ _ _, None) (λ _ _ _, None) 0
    (λ _, ContextWithRequest [] (Some "r1")).

Definition example_state : state := mkState example_host [].

(** A message is logged with the ID of the request. *)
Example log_msg_example :
  logMsg example_caps example_state 0 0 3 7 =
    Val (mkState example_host [(3%Z, "", mkScope "id" 7)]).
Proof. vm_compute. reflexivity. Qed.

(** A call of request_get_field with four numbers gives one number back. *)
Definition example_table : list (string * FuncType * callback) :=
  addHostFns (HostFunctions (λ _, "") (λ k, k) example_caps).

Lemma host_functions_typed_witness :
  ∃ f, ("request_get_field", mkFuncType (replicate 4 KindI32) [KindI32], f) ∈ example_table ∧
    match f (wasm_args [2; 1; 3; 7])%Z example_state with
    | Some (Val (Ok vs, _)) => vs = [WI32 3] ∧ Forall2 has_kind vs [KindI32]
    | _ => False
    end.
Proof.
  set (fn := RequestGetFieldHandler (λ _, "") example_caps). exists (wasmtimeFunc fn).
  assert (("request_get_field", mkFuncType (replicate 4 KindI32) [KindI32], wasmtimeFunc fn) ∈ example_table) as Hin.
  { unfold example_table, addHostFns, HostFunctions. simpl. do 6 right. left. }
  split; [exact Hin|].
  pose proof (host_functions_typed (λ _, "") (λ k, k) example_caps _ _ _ (wasm_args [2; 1; 3; 7])%Z example_state Hin)
    as Hty.
  assert (match wasmtimeFunc fn (wasm_args [2; 1; 3; 7])%Z example_state with
          | Some (Val (Ok vs, _)) => vs = [WI32 3] | _ => False end) as Hres by (vm_compute; reflexivity).
  destruct (wasmtimeFunc fn (wasm_args [2; 1; 3; 7])%Z example_state) as [[[[vs|e] s1]|p]|]; try (destruct Hres).
  split; [reflexivity|]. apply Hty. unfold wasm_args. simpl. repeat constructor; intros H; discriminate H.
Defined.
