(* ===== verification/WasmRunner.v ===== *)
(** * Running a module: sat/engine2/wasmrunnable.go, sat/engine2/runtime/pool.go,
    sat/sat/handler.go

    [Run] is a function of what the module's calls answer.  The pool of
    instances is a step relation: every use adds a new instance and takes one,
    which is destroyed afterwards. *)

From S2P Require Import Prelude.
From S2P Require Import Interfaces.
From S2P Require Import Sequence.

Section Run.
Context {WorkflowStep : Type} `{Codec (list (WorkflowStep * bool))} `{Codec CoordinatedRequest}.

(** The job's data: the request, or bytes. *)
Inductive job_data : Type := DataRequest (r : CoordinatedRequest) | DataBytes (b : string).

Definition job_request (d : job_data) : result CoordinatedRequest :=
  match d with
  | DataRequest r => Ok r
  | DataBytes b =>
      match unmarshal b with
      | Ok r => Ok r
      | Err _ => Err (ErrNew "job data is not a CoordinatedRequest")
      end
  end.

Definition check_sequence (req : CoordinatedRequest) : result unit :=
  if decide (req_SequenceJSON req = "") then Ok tt
  else
    match FromJSON (WorkflowStep := WorkflowStep) (req_SequenceJSON req) req with
    | Err e => Err (ErrWrap e "failed to sequence.FromJSON")
    | Ok seq => match NextStep seq with
                | None => Err (ErrNew "got nil NextStep")
                | Some _ => Ok tt
                end
    end.

(** What happened in the instance: the write of the input, the call of run_e,
    the result or error that the module returned, and the response headers that
    it set on the request. *)
Record guest_run : Type := mkGuest {
  g_writeErr : option error;
  g_callErr : option error;
  g_output : option string;
  g_runErr : option error;
  g_headers : option (gmap string string)
}.

(** [useErr] is the error of [UseInstance]. *)
Definition wasm_Run (d : job_data) (useErr : option error) (guest : CoordinatedRequest → guest_run) :
    result CoordinatedResponse :=
  req ← job_request d;
  _ ← check_sequence req;
  match useErr with
  | Some e => Err (ErrWrap e "failed to useInstance")
  | None =>
      let g := guest req in
      let '(output, runErr, callErr) :=
        match g_writeErr g with
        | Some e => (None, Some (ErrWrap e "failed to instance.writeMemory"), None)
        | None => (g_output g, g_runErr g, g_callErr g)
        end in
      match runErr with
      | Some e => Err e
      | None =>
          match callErr with
          | Some e => Err (ErrWrap e "wasm execution error")
          | None => Ok (mkResponse (default "" output) (g_headers g))
          end
      end
  end.

(** The error that the module returned goes before the error of the call. *)
Theorem run_error_precedence d guest req code msg :
  job_request d = Ok req → check_sequence req = Ok tt → g_writeErr (guest req) = None →
  g_runErr (guest req) = Some (ErrRun code msg) →
  wasm_Run d None guest = Err (ErrRun code msg).
Proof.
  intros Hd Hc Hw Hr. unfold wasm_Run. rewrite Hd. simpl. rewrite Hc. simpl. by rewrite Hw, Hr.
Qed.

(** Run of a Wasm runnable returns a response exactly when the job data is a
    request, its sequence (if any) has a step left, an instance was available, the
    input was written, the module returned no error and the call did not fail; the
    response is the output and the headers that the module set. *)
Theorem run_succeeds_iff d useErr guest resp :
  wasm_Run d useErr guest = Ok resp ↔
  ∃ req, job_request d = Ok req ∧ check_sequence req = Ok tt ∧ useErr = None ∧
    g_writeErr (guest req) = None ∧ g_runErr (guest req) = None ∧ g_callErr (guest req) = None ∧
    resp = mkResponse (default "" (g_output (guest req))) (g_headers (guest req)).
Proof.
  unfold wasm_Run. split.
  - destruct (job_request d) as [req|]; simpl; [|done].
    destruct (check_sequence req) as [[]|] eqn:Ec; simpl; [|done].
    destruct useErr; [done|]. destruct (g_writeErr (guest req)) eqn:Ew; [done|].
    destruct (g_runErr (guest req)) eqn:Er; [done|]. destruct (g_callErr (guest req)) eqn:Ex; [done|].
    intros [= <-]. exists req. by rewrite Ec, Ew, Er, Ex.
  - intros (req & -> & Hc & -> & Hw & Hr & Hx & ->). simpl. rewrite Hc. simpl. by rewrite Hw, Hr, Hx.
Qed.

(** ** The HTTP handler of a sat without a mesh *)

Inductive http_answer : Type :=
| HTTPErr (status : Z) (message : string)
| NoContent                                 (* a nil result: nothing is written *)
| Blob (headers : list (string * string)) (body : string).

(** [jobResult] is what the job ended with: a response, nil, or another value. *)
Inductive job_end : Type := EndResponse (r : CoordinatedResponse) | EndNil | EndOther | EndErr (e : error).

(** [errors.As(err, &runErr)] *)
Fixpoint find_RunErr (e : error) : option (Z * string) :=
  match e with
  | ErrRun c m => Some (c, m)
  | ErrWrap e _ => find_RunErr e
  | _ => None
  end.

Definition sat_handler (request_ok registered : bool) (j : job_end) : http_answer :=
  if negb request_ok then HTTPErr 500 "Internal Server Error"
  else if negb registered then HTTPErr 500 "unknown error"
  else
    match j with
    | EndErr e =>
        match find_RunErr e with
        | Some (c, m) => if bool_decide (c ≠ 0%Z) || bool_decide (m ≠ "") then HTTPErr c m
                         else HTTPErr 500 "unknown error"
        | None => HTTPErr 500 "unknown error"
        end
    | EndNil => NoContent
    | EndOther => HTTPErr 500 "Internal Server Error"
    | EndResponse r => Blob (default [] (map_to_list <$> RespHeaders r)) (Output r)
    end.

(** The HTTP handler answers a run of a module that succeeded with its output and
    headers, and one that failed with the code and message of the RunErr in its
    chain, or with status 500 when there is none or it is empty. *)
Theorem sat_handler_reports d useErr guest :
  match wasm_Run d useErr guest with
  | Ok resp => sat_handler true true (EndResponse resp) = Blob (default [] (map_to_list <$> RespHeaders resp)) (Output resp)
  | Err e =>
      ∃ status m, sat_handler true true (EndErr e) = HTTPErr status m ∧
        ((∃ c, find_RunErr e = Some (c, m) ∧ status = c ∧ (c ≠ 0%Z ∨ m ≠ "")) ∨
         status = 500%Z ∧ m = "unknown error")
  end.
Proof.
  destruct (wasm_Run d useErr guest) as [resp|e]; [done|]. unfold sat_handler. simpl.
  destruct (find_RunErr e) as [[c m]|]; [|eauto 6].
  destruct (bool_decide (c ≠ 0%Z) || bool_decide (m ≠ "")) eqn:Eb; [|eauto 6].
  eexists _, _. split; [done|]. left. exists c. split; [done|]. split; [done|].
  apply orb_true_iff in Eb. by rewrite !bool_decide_eq_true in Eb.
Qed.

End Run.

(** ** The pool of instances *)

(** Instances are numbered in the order in which they are built; [inUse] maps
    the identifier of a run to its instance. *)
Record InstancePool : Type := mkInstances {
  available : list nat;
  adding : nat;                 (* goroutines that build an instance *)
  waiting : nat;                (* runs that wait for an instance *)
  inUse : gmap Z nat;
  destroyed : list nat;
  built : nat
}.

Definition NewInstancePool : InstancePool := mkInstances [] 0 0 ∅ [] 0.

Definition poolSize : nat := 64.

Inductive pool_step (p : InstancePool) : InstancePool → Prop :=
| PoolWarm :                                     (* AddInstance, from OnChange *)
    pool_step p (mkInstances (available p) (S (adding p)) (waiting p) (inUse p) (destroyed p) (built p))
| PoolUse :                                      (* UseInstance starts *)
    pool_step p (mkInstances (available p) (S (adding p)) (S (waiting p)) (inUse p) (destroyed p) (built p))
| PoolAdd n :                                    (* ip.availableInstances <- inst *)
    adding p = S n → length (available p) < poolSize →
    pool_step p (mkInstances (available p ++ [built p]) n (waiting p) (inUse p) (destroyed p) (S (built p)))
| PoolBuildFails n :                             (* AddInstance: new errors *)
    adding p = S n →
    pool_step p (mkInstances (available p) n (waiting p) (inUse p) (destroyed p) (built p))
| PoolStoreFails n i js :                        (* instance.Store errors: Close *)
    waiting p = S n → available p = i :: js →
    pool_step p (mkInstances js (adding p) n (inUse p) (i :: destroyed p) (built p))
| PoolTake n i js ident :                        (* <-ip.availableInstances, instance.Store *)
    waiting p = S n → available p = i :: js → inUse p !! ident = None →
    pool_step p (mkInstances js (adding p) n (<[ident := i]> (inUse p)) (destroyed p) (built p))
| PoolDone ident i :                             (* instance.Remove, Close *)
    inUse p !! ident = Some i →
    pool_step p (mkInstances (available p) (adding p) (waiting p) (delete ident (inUse p)) (i :: destroyed p) (built p))
| PoolRemove i js :                              (* RemoveInstance *)
    available p = i :: js →
    pool_step p (mkInstances js (adding p) (waiting p) (inUse p) (i :: destroyed p) (built p)).

(** Every instance is in one place. *)
Record pool_ok (p : InstancePool) : Prop := {
  po_built i : (i ∈ available p ∨ i ∈ destroyed p ∨ ∃ d, inUse p !! d = Some i) → i < built p;
  po_available : NoDup (available p);
  po_destroyed : NoDup (destroyed p);
  po_apart i : i ∈ available p → i ∉ destroyed p;
  po_using d i : inUse p !! d = Some i → (i ∉ available p) ∧ (i ∉ destroyed p);
  po_unique d d' i : inUse p !! d = Some i → inUse p !! d' = Some i → d = d'
}.

Lemma pool_ok_new : pool_ok NewInstancePool.
Proof.
  split; simpl; [|by constructor|by constructor|..]; intros *; rewrite ?lookup_empty; try done.
  - intros [?%not_elem_of_nil|[?%not_elem_of_nil|[d Hd]]]; [done..|]. by rewrite lookup_empty in Hd.
  - by intros ?%not_elem_of_nil.
Qed.

(** An instance that is taken out and closed. *)
Lemma pool_ok_discard p i js a n :
  pool_ok p → available p = i :: js →
  pool_ok (mkInstances js a n (inUse p) (i :: destroyed p) (built p)).
Proof.
  intros [Hb Ha Hd Hap Hu Hun] Hav. rewrite Hav in *. apply NoDup_cons in Ha as [Hni Ha].
  split; simpl; try done.
  - intros j Hj. apply Hb. set_solver.
  - apply NoDup_cons. split; [|done]. apply Hap. set_solver.
  - intros j Hj. apply not_elem_of_cons. split; [by intros ->|]. apply Hap. set_solver.
  - intros d j Hj. destruct (Hu d j Hj). set_solver.
Qed.

(** A new instance is available. *)
Lemma pool_ok_add p a n :
  pool_ok p → pool_ok (mkInstances (available p ++ [built p]) a n (inUse p) (destroyed p) (S (built p))).
Proof.
  intros [Hb Ha Hd Hap Hu Hun]. split; simpl; try done.
  - intros i [[Hi| ->%list_elem_of_singleton]%elem_of_app|Hi]; [|lia|];
      (assert (i < built p) by (apply Hb; tauto); lia).
  - apply NoDup_app. split; [done|]. split; [|apply NoDup_singleton].
    intros i Hi ->%list_elem_of_singleton. assert (built p < built p) by (apply Hb; by left). lia.
  - intros i [Hi| ->%list_elem_of_singleton]%elem_of_app; [by apply Hap|].
    intros Hi. assert (built p < built p) by (apply Hb; by right; left). lia.
  - intros d i Hi. destruct (Hu d i Hi) as [H1 H2]. split; [|done].
    intros [?| ->%list_elem_of_singleton]%elem_of_app; [done|].
    assert (built p < built p) by (apply Hb; eauto). lia.
Qed.

Lemma pool_step_ok p p' : pool_step p p' → pool_ok p → pool_ok p'.
Proof.
  intros Hstep Hok.
  destruct Hstep as [| |n Hn Hl|n Hn|n i js Hn Hav|n i js ident Hn Hav Hf|ident i Hi|i js Hav];
    [by destruct Hok|by destruct Hok|by apply pool_ok_add|by destruct Hok|by apply pool_ok_discard| |
     |by apply pool_ok_discard]; destruct Hok as [Hb Ha Hd Hap Hu Hun]; split; simpl; try done.
  - intros j Hj. apply Hb. rewrite Hav. destruct Hj as [|[|[d Hd']]]; [set_solver|auto|].
    apply lookup_insert_Some in Hd' as [[_ ->]|[_ ?]]; [set_solver|eauto].
  - rewrite Hav in Ha. by apply NoDup_cons in Ha as [_ ?].
  - intros j Hj. apply Hap. rewrite Hav. set_solver.
  - rewrite Hav in *. apply NoDup_cons in Ha as [Hni Ha].
    intros d j [[_ <-]|[_ Hj]]%lookup_insert_Some; [split; [done|apply Hap; set_solver]|].
    destruct (Hu d j Hj). set_solver.
  - rewrite Hav in *. intros d d' j [[<- <-]|[Hne Hj]]%lookup_insert_Some [[<- Hj']|[Hne' Hj']]%lookup_insert_Some;
      [done|..]; [|subst j|by eapply Hun]; destruct (Hu _ _ ltac:(eassumption)); set_solver.
  - intros j Hj. apply Hb. destruct Hj as [|[[->|]%elem_of_cons|[d [_ Hd']%lookup_delete_Some]]]; eauto.
  - apply NoDup_cons. split; [|done]. by destruct (Hu _ _ Hi).
  - intros j Hj. apply not_elem_of_cons. split; [|by apply Hap]. intros ->. by destruct (Hu _ _ Hi).
  - intros d j [Hne Hj]%lookup_delete_Some. destruct (Hu d j Hj) as [H1 H2]. split; [done|].
    apply not_elem_of_cons. split; [|done]. intros ->. by apply Hne, (Hun _ _ i).
  - intros d d' j [_ Hj]%lookup_delete_Some [_ Hj']%lookup_delete_Some. by eapply Hun.
Qed.

(** An instance in use goes on being used, by the same run, or is destroyed. *)
Lemma pool_step_using p p' d i :
  pool_step p p' → inUse p !! d = Some i → inUse p' !! d = Some i ∨ i ∈ destroyed p'.
Proof.
  intros Hstep Hi.
  destruct Hstep as [| | | | |n j js ident Hn Hav Hf|ident j Hj|]; simpl; auto.
  - left. rewrite lookup_insert_ne; [done|]. by intros ->; rewrite Hf in Hi.
  - destruct (decide (ident = d)) as [->|Hne]; [right|left; by rewrite lookup_delete_ne].
    rewrite Hi in Hj. injection Hj as ->. by left.
Qed.

Lemma pool_step_destroyed p p' i : pool_step p p' → i ∈ destroyed p → i ∈ destroyed p'.
Proof. destruct 1; simpl; rewrite ?elem_of_cons; auto. Qed.

Lemma pool_reaches_ok p p' : rtc pool_step p p' → pool_ok p → pool_ok p'.
Proof. induction 1; eauto using pool_step_ok. Qed.

Lemma pool_reaches_using p p' d i :
  rtc pool_step p p' → inUse p !! d = Some i ∨ i ∈ destroyed p →
  inUse p' !! d = Some i ∨ i ∈ destroyed p'.
Proof.
  induction 1 as [|p p1 p' Hstep _ IH]; [done|]. intros [Hi|Hi]; apply IH.
  - by eapply pool_step_using.
  - right. by eapply pool_step_destroyed.
Qed.

(** C31: Under any interleaving of the runs and of the goroutines that build
    instances, an instance that a run took is used by that run only and is neither
    available nor destroyed as long as the run goes on; when it is over the
    instance has been destroyed, and it is never available or in use again. *)
Theorem instances_never_reused p d i :
  rtc pool_step NewInstancePool p → inUse p !! d = Some i →
  ∀ p', rtc pool_step p p' →
    (inUse p' !! d = Some i ∧ (i ∉ available p') ∧ (i ∉ destroyed p') ∧
     ∀ d', inUse p' !! d' = Some i → d' = d) ∨
    (i ∈ destroyed p' ∧ (i ∉ available p') ∧ ∀ d', inUse p' !! d' ≠ Some i).
Proof.
  intros Hp Hi p' Hp'.
  pose proof (pool_reaches_ok _ _ Hp' (pool_reaches_ok _ _ Hp pool_ok_new)) as Hok.
  destruct (pool_reaches_using _ _ d i Hp' (or_introl Hi)) as [Hi'|Hd]; [left|right]; (split; [done|]).
  - destruct (po_using p' Hok d i Hi') as [H1 H2]. split; [done|]. split; [done|].
    intros d' Hd'. by eapply po_unique.
  - split; [intros Ha; by eapply po_apart|]. intros d' Hd'. by destruct (po_using p' Hok d' i Hd').
Qed.

(** ** Examples *)

Lemma instances_never_reused_witness :
  ∃ p p', rtc pool_step NewInstancePool p ∧ inUse p !! 5%Z = Some 0 ∧ pool_step p p' ∧
    0 ∈ destroyed p' ∧ (0 ∉ available p') ∧ ∀ d, inUse p' !! d ≠ Some 0.
Proof.
  set (p := mkInstances [] 0 0 {[5%Z := 0]} [] 1).
  assert (rtc pool_step NewInstancePool p) as Hp.
  { eapply rtc_l; [apply PoolUse|]. eapply rtc_l; [apply (PoolAdd _ 0); [done|vm_compute; lia]|].
    eapply rtc_l; [by apply (PoolTake _ 0 0 [] 5)|]. apply rtc_refl. }
  assert (pool_step p (mkInstances [] 0 0 (delete 5%Z {[5%Z := 0]}) [0] 1)) as Hd by (by apply (PoolDone p)).
  eexists p, _. split; [exact Hp|]. split; [reflexivity|]. split; [exact Hd|].
  destruct (instances_never_reused p 5 0 Hp eq_refl _ (rtc_once _ _ Hd)) as [[E _]|H]; [|exact H].
  vm_compute in E. discriminate E.
Defined.
