(* ===== verification/Instances.v ===== *)
(** * Instances for threads: wasmrunnable.go (OnChange) with runtime/pool.go and the
    worker of the scheduler

    A worker tells its runner when it starts and when it removes a thread, and the
    runner keeps an instance for each.  [pool_act] is a step of the pool by name;
    [wasm_OnChange] is what the worker calls. *)

From S2P Require Import Prelude.
From S2P Require Import Worker.
From S2P Require Import WasmRunner.

(** ** The steps of the pool by name *)

Inductive act : Type := Warm | Use | Add | BuildFails | StoreFails | Take (ident : Z) | Done (ident : Z) | Remove.

Definition pool_act (a : act) (p : InstancePool) : option InstancePool :=
  let '(mkInstances av ad wa us de bu) := p in
  match a with
  | Warm => Some (mkInstances av (S ad) wa us de bu)
  | Use => Some (mkInstances av (S ad) (S wa) us de bu)
  | Add => match ad with
           | 0 => None
           | S n => if decide (length av < poolSize) then Some (mkInstances (av ++ [bu]) n wa us de (S bu)) else None
           end
  | BuildFails => match ad with 0 => None | S n => Some (mkInstances av n wa us de bu) end
  | StoreFails => match wa, av with S n, i :: js => Some (mkInstances js ad n us (i :: de) bu) | _, _ => None end
  | Take ident =>
      match wa, av, us !! ident with
      | S n, i :: js, None => Some (mkInstances js ad n (<[ident := i]> us) de bu)
      | _, _, _ => None
      end
  | Done ident => i ← us !! ident; Some (mkInstances av ad wa (delete ident us) (i :: de) bu)
  | Remove => match av with i :: js => Some (mkInstances js ad wa us (i :: de) bu) | [] => None end
  end.

Fixpoint pool_run (acts : list act) (p : InstancePool) : option InstancePool :=
  match acts with [] => Some p | a :: acts => p1 ← pool_act a p; pool_run acts p1 end.

Lemma pool_act_step p p' : pool_step p p' ↔ ∃ a, pool_act a p = Some p'.
Proof.
  destruct p as [av ad wa us de bu]. split.
  - intros Hs. inversion Hs; simpl in *; subst;
      [exists Warm|exists Use|exists Add|exists BuildFails|exists StoreFails|exists (Take ident)|exists (Done ident)|exists Remove];
      simpl; try done.
    + by rewrite decide_True.
    + by match goal with H : us !! _ = None |- _ => rewrite H end.
    + by match goal with H : us !! _ = Some _ |- _ => rewrite H end.
  - intros [a Ha]. destruct a as [| | | | |ident|ident|]; simpl in Ha.
    + injection Ha as <-. apply (PoolWarm (mkInstances av ad wa us de bu)).
    + injection Ha as <-. apply (PoolUse (mkInstances av ad wa us de bu)).
    + destruct ad as [|n]; [done|]. case_decide; [|done]. injection Ha as <-. by eapply (PoolAdd (mkInstances av _ wa us de bu)).
    + destruct ad as [|n]; [done|]. injection Ha as <-. by eapply (PoolBuildFails (mkInstances av _ wa us de bu)).
    + destruct wa as [|n], av as [|i js]; try done. injection Ha as <-.
      by eapply (PoolStoreFails (mkInstances (i :: js) ad _ us de bu)).
    + destruct wa as [|n], av as [|i js]; try done. destruct (us !! ident) eqn:E; [done|]. injection Ha as <-.
      by eapply (PoolTake (mkInstances (i :: js) ad _ us de bu)).
    + destruct (us !! ident) as [i|] eqn:E; [|done]. injection Ha as <-. by apply (PoolDone (mkInstances av ad wa us de bu)).
    + destruct av as [|i js]; [done|]. injection Ha as <-. by apply (PoolRemove (mkInstances (i :: js) ad wa us de bu)).
Qed.

(** ** What the worker calls *)

(** [None] as the pool: the call does not return.  [addErr] is the error of
    [AddInstance]. *)
Definition wasm_OnChange (addErr : option error) (evt : ChangeEvent) (p : option InstancePool) :
    option error * option InstancePool :=
  match evt with
  | ChangeTypeStart =>
      match addErr with
      | Some e => (Some (ErrWrap e "failed to addInstance"), p)
      | None => (None, p1 ← p; p2 ← pool_act Warm p1; pool_act Add p2)
      end
  | ChangeTypeStop => (None, p1 ← p; pool_act Remove p1)       (* RemoveInstance returns nil *)
  end.

(** ** As many instances as threads *)

(** The instances that are there or being built, beyond those that runs wait
    for. *)
Definition spare (p : InstancePool) : Z := (Z.of_nat (length (available p) + adding p) - Z.of_nat (waiting p))%Z.

(** How many threads were started and not stopped. *)
Definition started_threads (acts : list act) : Z :=
  foldr (λ a n, match a with Warm => n + 1 | Remove => n - 1 | _ => n end)%Z 0%Z acts.

Lemma pool_act_spare a p p' :
  pool_act a p = Some p' → a ≠ BuildFails → spare p' = (spare p + started_threads [a])%Z.
Proof.
  destruct p as [av ad wa us de bu]. unfold spare. intros Ha Hb.
  destruct a; simpl in Ha; try done; repeat (case_match; try done); simplify_option_eq; simpl; rewrite ?length_app; simpl; lia.
Qed.

Lemma pool_run_spare acts p p' :
  pool_run acts p = Some p' → BuildFails ∉ acts → spare p' = (spare p + started_threads acts)%Z.
Proof.
  revert p. induction acts as [|a acts IH]; intros p; simpl; [intros [= <-]; lia|].
  destruct (pool_act a p) as [p1|] eqn:E; [|done]. simpl. intros Hr [Hne Hb]%not_elem_of_cons.
  rewrite (IH p1 Hr Hb), (pool_act_spare a p p1 E) by done. simpl. destruct a; lia.
Qed.

Lemma pool_Add_enabled p : available p = [] → adding p ≠ 0 → ∃ p', pool_act Add p = Some p' ∧ available p' ≠ [].
Proof.
  destruct p as [av [|n] wa us de bu]; simpl; [done|]. intros -> _. rewrite decide_True by (vm_compute; lia). eexists. by split.
Qed.

(** C36: The runner keeps an instance for each thread of its worker: however the
    threads that start and stop, the runs, and the goroutines that build instances
    are interleaved, as long as builds succeed the instances that are available or
    being built are as many as the threads and the waiting runs together; so a run
    that waits, and a thread that is removed, find an instance, at the latest when
    the next build is handed over, which nothing holds up. *)
Theorem runs_find_instances acts p :
  pool_run acts NewInstancePool = Some p → BuildFails ∉ acts →
  (Z.of_nat (length (available p)) + Z.of_nat (adding p) = started_threads acts + Z.of_nat (waiting p))%Z ∧
  ((0 ≤ started_threads acts)%Z → (0 < waiting p) ∨ (0 < started_threads acts)%Z →
   available p ≠ [] ∨ ∃ p', pool_act Add p = Some p' ∧ available p' ≠ []).
Proof.
  intros Hr Hb. pose proof (pool_run_spare acts _ _ Hr Hb) as Hs. unfold spare in Hs. simpl in Hs. split; [lia|].
  intros H0 Hw. destruct (available p) as [|i js] eqn:E; [right|by left]. simpl in Hs. apply pool_Add_enabled; [done|lia].
Qed.

(** ** The worker warms the pool *)

Section Warmed.
Context (o : workerOpts) (target rate : Z) (Htarget : (0 ≤ target ≤ 64)%Z).

(** No run is under way. *)
Definition at_rest (n : nat) (p : option InstancePool) : Prop :=
  ∃ p0, p = Some p0 ∧ length (available p0) = n ∧ adding p0 = 0 ∧ waiting p0 = 0 ∧ inUse p0 = ∅.

Lemma rest_start n p : at_rest n p → n < poolSize → ∃ p1, wasm_OnChange None ChangeTypeStart p = (None, p1) ∧ at_rest (S n) p1.
Proof.
  intros ([av ad wa us de bu] & -> & Hn & Ha & Hw & Hu) Hlt. simpl in *. subst. rewrite decide_True by done.
  eexists. split; [done|]. eexists. split; [done|]. simpl. rewrite length_app. simpl. split; [lia|done].
Qed.

Lemma rest_stop n p : at_rest (S n) p → ∃ p1, wasm_OnChange None ChangeTypeStop p = (None, p1) ∧ at_rest n p1.
Proof.
  intros ([av ad wa us de bu] & -> & Hn & Ha & Hw & Hu). simpl in *. subst. destruct av as [|i js]; [done|].
  injection Hn as Hn. eexists. split; [done|]. eexists. by split.
Qed.

Lemma reconcile_at_rest fuel ts p :
  at_rest (length ts) p → length ts ≤ poolSize → Z.to_nat (Z.abs (Z.of_nat (length ts) - target)) < fuel →
  ∃ ts' p', loop fuel (reconcile_body (wasm_OnChange None)) (0%Z, mkWorker o target ts rate, p) =
      Some (Val (None, mkWorker o target ts' rate, p')) ∧
    Z.of_nat (length ts') = target ∧ at_rest (length ts') p'.
Proof.
  revert ts p. induction fuel as [|fuel IH]; intros ts p Hp Hle Hf; [lia|]. cbn [loop]. unfold reconcile_body at 1.
  simpl threads. simpl targetThreadCount. case_decide as H1; [|case_decide as H2].
  - unfold addThread. destruct (rest_start _ _ Hp) as (p1 & E & Hp1); [unfold poolSize; lia|]. rewrite E.
    destruct (IH (ts ++ [false]) p1) as (ts' & p' & El & Hl & Hr).
    + rewrite length_app, Nat.add_comm. done.
    + rewrite length_app. unfold poolSize. simpl. lia.
    + rewrite length_app. simpl. lia.
    + by exists ts', p'.
  - unfold removeThread. simpl threads. destruct ts as [|t ts2]; [simpl in H2; lia|].
    destruct (rest_stop (length ts2) p Hp) as (p1 & E & Hp1). rewrite E. cbv zeta. simpl length.
    set (ts1 := take _ _). assert (length ts1 = length ts2) as Hl1.
    { unfold ts1. rewrite length_take. simpl. rewrite length_insert. simpl. lia. }
    destruct (IH ts1 p1) as (ts' & p' & El & Hl & Hr).
    + by rewrite Hl1.
    + rewrite Hl1. simpl in *. lia.
    + rewrite Hl1. simpl in *. lia.
    + by exists ts', p'.
  - exists ts, p. split; [done|]. split; [lia|done].
Qed.

End Warmed.

(** A worker that was registered with [PreWarm] for up to 64 threads starts its
    threads and has an instance for each; any later change of the thread count to
    at most 64, and stopping the worker, returns with as many instances as threads
    when no run is under way. *)
Theorem warm_worker o fuel :
  preWarm o = true → (0 ≤ Worker.poolSize o ≤ 64)%Z → 128 < fuel →
  ∃ w p, worker_start (wasm_OnChange None) fuel (newWorker o) (Some NewInstancePool) = Some (Val (None, w, p)) ∧
    Z.of_nat (length (threads w)) = Worker.poolSize o ∧ at_rest (length (threads w)) p ∧
    ∀ size, (0 ≤ size ≤ 64)%Z →
      ∃ w1 p1, setThreadCount (wasm_OnChange None) fuel w size p = Some (Val (None, w1, p1)) ∧
        Z.of_nat (length (threads w1)) = size ∧ at_rest (length (threads w1)) p1.
Proof.
  intros Hpre Hsize Hf. unfold worker_start, newWorker. simpl options. rewrite Hpre. unfold reconcilePoolSize.
  destruct (reconcile_at_rest o (Worker.poolSize o) 0 Hsize fuel [] (Some NewInstancePool)) as (ts & p & E & Hl & Hr);
    [by eexists|simpl; lia|simpl; lia|].
  rewrite E. exists (mkWorker o (Worker.poolSize o) ts 0), p. split; [done|]. split; [done|]. split; [done|].
  intros size Hs. unfold setThreadCount, reconcilePoolSize. simpl options. simpl threads. simpl rate_count.
  destruct (reconcile_at_rest o size 0 Hs fuel ts p Hr) as (ts1 & p1 & E1 & Hl1 & Hr1);
    [unfold poolSize; lia|lia|].
  rewrite E1. by exists (mkWorker o size ts1 0), p1.
Qed.

(** The channel has room for 64: one more start does not return before a run
    takes an instance, and a worker that warms more threads never starts. *)
Lemma full_blocks n p : at_rest n p → n = poolSize → wasm_OnChange None ChangeTypeStart p = (None, None).
Proof. intros ([av ad wa us de bu] & -> & Hn & Ha & _) ->. simpl in *. subst. by rewrite decide_False by lia. Qed.

Lemma only_starts_full acts p :
  Forall (λ a, a = Warm ∨ a = Add) acts → pool_run acts NewInstancePool = Some p → length (available p) ≤ poolSize.
Proof.
  assert (∀ q, length (available q) ≤ poolSize → Forall (λ a, a = Warm ∨ a = Add) acts →
    pool_run acts q = Some p → length (available p) ≤ poolSize) as Hgen.
  { induction acts as [|a acts IH]; intros q Hq Ha; simpl; [by intros [= <-]|].
    apply Forall_cons in Ha as [Ha Has]. destruct (pool_act a q) as [q1|] eqn:E; [|done]. simpl. apply IH; [|done].
    destruct q as [av ad wa us de bu], Ha as [-> | ->]; simpl in E; [by injection E as <-|].
    destruct ad; [done|]. case_decide; [|done]. injection E as <-. simpl. rewrite length_app. simpl. lia. }
  intros Ha. apply Hgen; [simpl; lia|done].
Qed.

(** ** Examples *)

(** Two threads, one of which runs a job while the other is removed. *)
Lemma runs_find_instances_witness :
  ∃ p, pool_run [Warm; Add; Warm; Add; Use; Take 5; Remove; Use] NewInstancePool = Some p ∧
    waiting p = 1 ∧ (available p ≠ [] ∨ ∃ p', pool_act Add p = Some p' ∧ available p' ≠ []).
Proof.
  eexists. split; [reflexivity|]. split; [reflexivity|].
  eapply (runs_find_instances [Warm; Add; Warm; Add; Use; Take 5; Remove; Use]);
    [reflexivity|repeat (apply not_elem_of_cons; split; [discriminate|]); apply not_elem_of_nil|vm_compute; discriminate|left].
  vm_compute. lia.
Defined.
