(* ===== verification/Answers.v ===== *)
(** * A job gets its own answer: the scheduler with what its runnable returns, and
    the HTTP handler of a sat on top of it (sat/sat/handler.go)

    [ran p] holds of what the runnable may return for the job whose result is at
    [p].  [served] are the runs of [Core] in which a thread sends exactly what the
    runnable returned for its job, when no job returns a result or a group.
    [continues] are the ways in which such a run goes on by itself: no new job, no
    change of the workers and no new thread. *)

From S2P Require Import Prelude.
From S2P Require Import Interfaces.
From S2P Require Import Jobs.
From S2P Require Import Threads.
From S2P Require Import Core.
From S2P Require Import Sequence.
From S2P Require Import WasmRunner.
From S2P Require Worker.

Section Answers.
Context (ran : nat → value + error → Prop) (ran_plain : ∀ p v, ran p (inl v) → plain v).

Definition honest (s s1 : core) : Prop :=
  ∀ p w i, jobs s !! p = Some (OnThread w i) → jobs s1 !! p = None →
    ∃ o, ran p o ∧ report (core_heap s) p o = Some (core_heap s1).

Inductive served : list nat → core → Prop :=
| ServedStart : served [] newCore
| ServedStep l s l1 s1 : served l s → core_step s l1 s1 → honest s s1 → served (l ++ l1) s1.

Lemma served_run l s : served l s → core_run l s.
Proof. induction 1; [constructor|by eapply CoreRun]. Qed.

Lemma served_placed l s : served l s → placed s.
Proof. intros Hs%served_run. by apply (core_run_ok l s). Qed.

(** The errors of the scheduler itself. *)
Definition scheduler_error (e : error) : Prop :=
  (∃ jt, e = no_worker jt) ∨ ∃ e0, e = ErrWrap e0 "failed to reconcilePoolSize".

Definition may_fail (p : nat) (e : error) : Prop := ran p (inr e) ∨ scheduler_error e.

(** What is in the channels of a result is an answer of its own job. *)
Definition own_answer (p : nat) (r : Result) : Prop :=
  (0 < resultChan r → ran p (inl (res_data r))) ∧ (0 < errChan r → ∃ e, res_err r = Some e ∧ may_fail p e).

Record truthful (h : heap) : Prop := {
  tr_forwards : forwards h = [];
  tr_own : map_Forall own_answer (results h)
}.

Lemma truthful_set h p r : truthful h → own_answer p r → truthful (set_result h p r).
Proof. intros [Hf Ho] Hr. split; [done|]. by apply map_Forall_insert_2. Qed.

Lemma truthful_sendErr h p e h1 : truthful h → may_fail p e → sendErr h p e = Some h1 → truthful h1.
Proof.
  intros Ht He. unfold sendErr. destruct (results h !! p) as [r|] eqn:Hp; simpl; [|done]. case_decide; [|done].
  intros [= <-]. apply truthful_set; [done|]. destruct (tr_own h Ht p r Hp) as [Hd _]. split; [done|]. intros _. by exists e.
Qed.

Lemma truthful_report h p o h1 : truthful h → ran p o → report h p o = Some h1 → truthful h1.
Proof.
  intros Ht Ho. destruct o as [v|e]; simpl; [|by apply truthful_sendErr; [|left]].
  pose proof (ran_plain p v Ho) as Hv. unfold sendResult.
  destruct v; try done; (destruct (results h !! p) as [r|] eqn:Hp; simpl; [|done]; case_decide; [|done]);
    intros [= <-]; (apply truthful_set; [done|]); destruct (tr_own h Ht p r Hp) as [_ He]; by split.
Qed.

Lemma truthful_Then h p o h1 :
  truthful h → Then h p o h1 →
  truthful h1 ∧ match o with inl v => ran p (inl v) | inr (Some e) => may_fail p e | inr None => False end.
Proof.
  intros Ht [r n Hr Hn|r n Hr Hn]; destruct (tr_own h Ht p r Hr) as [Hd He];
    (split; [apply truthful_set; [done|split; simpl; [intros; apply Hd; lia|intros; apply He; lia]]|]).
  - apply Hd. lia.
  - destruct He as (e & -> & He); [lia|done].
Qed.

Lemma truthful_awaits h ps e h1 : truthful h → awaits h ps e h1 → truthful h1.
Proof.
  intros Ht Ha. induction Ha as [h|h p v h1 ps e h2 Hp _ IH|h p e h1 ps e' h2 Hp _ IH]; [done|..];
    apply IH; by apply (truthful_Then _ _ _ _ Ht Hp).
Qed.

Lemma truthful_job s l s1 :
  placed s → truthful (core_heap s) → job_step s l s1 → honest s s1 → truthful (core_heap s1).
Proof.
  intros Hpl Ht Hstep Hh.
  destruct Hstep as [p w e h Hj Hsend|p w pl pl1 Hj Hw Hst|p w i pl pl1 Hw Hst|w pl pl1 Hw Hst|p w i pl pl1 o h Hw Hst Hsend
    |fs1 fs2 src d o h1 h2 Hf|fs1 fs2 g d ps order e h1 h2 Hf|g ps order e h Hg Hperm Ha|p o h Hth]; simpl in *; try done.
  - eapply truthful_sendErr; [exact Ht| |exact Hsend]. right. right. by exists e.
  - destruct (pool_placed_done _ _ _ _ _ _ (pl_pools s Hpl w pl Hw) Hst) as [Hj _].
    destruct (Hh p w i Hj) as (o' & Ho & Hr); [apply lookup_delete_eq|]. by eapply truthful_report.
  - rewrite (tr_forwards _ Ht) in Hf. by destruct fs1.
  - rewrite (tr_forwards _ Ht) in Hf. by destruct fs1.
  - by eapply truthful_awaits.
  - by apply (truthful_Then _ _ _ _ Ht Hth).
Qed.

Lemma truthful_step s l s1 :
  placed s → truthful (core_heap s) → core_step s l s1 → honest s s1 → truthful (core_heap s1).
Proof.
  intros Hpl Ht Hstep Hh. destruct Hstep as [l s1 Hj|p uuid jt s1 Hp Hdo|g p| | | |]; try done.
  - by eapply truthful_job.
  - unfold core_do in Hdo. simpl in Hdo.
    assert (truthful (set_result (core_heap s) p (newResult uuid))) as Hn
      by (apply truthful_set; [done|]; split; simpl; lia).
    destruct (Worker.findWorker _ jt) as [wk|].
    + destruct (core_ids s !! jt); [|done]. by injection Hdo as <-.
    + destruct (sendErr _ _ _) as [h1|] eqn:E; [|done]. injection Hdo as <-. simpl.
      eapply truthful_sendErr; [exact Hn| |exact E]. right. left. by exists jt.
  - by destruct Ht.
Qed.

Lemma served_truthful l s : served l s → truthful (core_heap s).
Proof.
  induction 1 as [|l s l1 s1 Hs IH Hstep Hh]; [split; [done|apply map_Forall_empty]|
    eapply truthful_step; [by eapply served_placed|done..]].
Qed.

(** The answer that the caller of [Then] receives is what the runnable returned for
    its job, or an error of the scheduler, and it is the first one. *)
Lemma job_answer l s p o h :
  served l s → Then (core_heap s) p o h →
  (p ∉ l) ∧ match o with inl v => ran p (inl v) | inr (Some e) => may_fail p e | inr None => False end.
Proof.
  intros Hs Ht. split; [|by apply (truthful_Then _ _ _ _ (served_truthful l s Hs) Ht)].
  pose proof (core_run_balanced l s (served_run l s Hs) p) as Hb. intros Hin.
  assert (0 < received l p).
  { unfold received. destruct (filter (λ q, q = p) l) eqn:E; simpl; [|lia].
    assert (p ∈ filter (λ q, q = p) l) as Hf by (by apply list_elem_of_filter). rewrite E in Hf. by apply not_elem_of_nil in Hf. }
  assert (0 < answers (core_heap s) p) by (unfold answers; destruct Ht as [r n -> Hn|r n -> Hn]; lia).
  unfold owed in Hb. destruct (results _ !! p); lia.
Qed.

(** ** Every job can be answered *)

Lemma Then_possible h p : 0 < answers h p → ∃ o h1, Then h p o h1.
Proof.
  unfold answers. destruct (results h !! p) as [r|] eqn:Hp; [|lia]. destruct (resultChan r) as [|n] eqn:Hn; intros Ha.
  - destruct (errChan r) as [|n] eqn:Hm; [lia|]. eexists _, _. by apply (ThenErr _ _ r n).
  - eexists _, _. by apply (ThenData _ _ r n).
Qed.

Lemma honest_jobs s s1 : (∀ p, jobs s1 !! p = None → jobs s !! p = None ∨ ∃ w, jobs s !! p = Some (Scheduling w)) → honest s s1.
Proof. intros Hj p w i Hp Hn. destruct (Hj p Hn) as [|[w1 Hw]]; congruence. Qed.

Lemma honest_same s s1 : jobs s1 = jobs s → honest s s1.
Proof. intros Hj. apply honest_jobs. intros p. rewrite Hj. by left. Qed.

Lemma honest_insert s s1 p ph : jobs s1 = <[p := ph]> (jobs s) → honest s s1.
Proof. intros Hj. apply honest_jobs. intros q. rewrite Hj, lookup_insert. case_decide; [done|]. by left. Qed.

(** The ways in which a run goes on by itself. *)
Inductive continues (s : core) : list nat → core → Prop :=
| ContinuesNil : continues s [] s
| ContinuesStep l s1 l1 s2 : continues s l s1 → job_step s1 l1 s2 → honest s1 s2 → continues s (l ++ l1) s2.

Lemma continues_served l s l1 s1 : served l s → continues s l1 s1 → served (l ++ l1) s1.
Proof.
  intros Hs. induction 1 as [|l1 s1 l2 s2 _ IH Hst Hh]; [by rewrite app_nil_r|]. rewrite app_assoc.
  eapply ServedStep; [done|by apply CoreJob|done].
Qed.

Lemma continues_first s s1 l s2 : job_step s [] s1 → honest s s1 → continues s1 l s2 → continues s l s2.
Proof.
  intros Hst Hh. induction 1 as [|l s2 l1 s3 _ IH Hst1 Hh1]; [|by eapply ContinuesStep].
  by apply (ContinuesStep s [] s [] s1); [constructor|..].
Qed.

(** By itself the run can go on so that the answer of [p] is received. *)
Definition receivable (s : core) (p : nat) : Prop := ∃ l s1, continues s l s1 ∧ p ∈ l.

Lemma receivable_step s s1 p : job_step s [] s1 → honest s s1 → receivable s1 p → receivable s p.
Proof. intros Hst Hh (l & s2 & Hc & Hp). exists l, s2. split; [|done]. by eapply continues_first. Qed.

Lemma receivable_sent s p : 0 < answers (core_heap s) p → receivable s p.
Proof.
  intros Ha. destruct (Then_possible _ _ Ha) as (o & h1 & Ht). exists [p], (put_heap s h1). split; [|by left].
  apply (ContinuesStep s [] s [p]); [constructor|by eapply JobThen|by apply honest_same].
Qed.

(** A thread that runs a job can be done with it. *)
Lemma run_finishes l s w pl i p c :
  (∃ o, ran p o) → served l s → core_pools s !! w = Some pl → workers_ pl !! i = Some (mkThread (Running p) c) →
  ∃ s1, job_step s [] s1 ∧ honest s s1 ∧ jobs s1 = delete p (jobs s) ∧ 0 < answers (core_heap s1) p ∧
    core_pools s1 = <[w := mkThreads (queue pl) (<[i := mkThread Checking c]> (workers_ pl)) (p :: finished pl)]> (core_pools s).
Proof.
  intros [o Ho] Hs Hw Hi. destruct (core_sends l s (served_run l s Hs)) as [Hrep _].
  assert (jobs s !! p = Some (OnThread w i)) as Hj
    by (apply (pp_run _ _ _ (pl_pools s (served_placed l s Hs) w pl Hw)); by exists c).
  destruct (Hrep p w i Hj o) as [h Hh]. pose proof (StepFinish pl i c p Hi) as Hst.
  eexists. split; [by eapply JobFinish|]. simpl. split_and!; [|done| |done].
  - intros q w1 i1 Hq Hn. simpl in Hn. rewrite lookup_delete in Hn. case_decide; [subst q; by exists o|congruence].
  - pose proof (truthful_report _ p o h (served_truthful l s Hs) Ho Hh) as Htr.
    apply report_sent in Hh as [_ Hsent]. specialize (Hsent p). unfold owed in Hsent.
    rewrite (tr_forwards _ Htr), decide_True in Hsent by done. simpl in Hsent. lia.
Qed.

Lemma receivable_thread l s w pl i p c :
  (∃ o, ran p o) → served l s → core_pools s !! w = Some pl → workers_ pl !! i = Some (mkThread (Running p) c) → receivable s p.
Proof.
  intros Ho Hs Hw Hi. destruct (run_finishes l s w pl i p c Ho Hs Hw Hi) as (s1 & Hst & Hh & _ & Ha & _).
  by eapply receivable_step, receivable_sent.
Qed.

(** A thread of the worker [w] that was not cancelled. *)
Definition alive (s : core) (w : nat) : Prop :=
  ∃ pl i ph, core_pools s !! w = Some pl ∧ workers_ pl !! i = Some (mkThread ph false).

(** ** A live thread drains its queue *)

Context (ran_total : ∀ p, ∃ o, ran p o).

(** It can come to wait for its next job, which leaves the other jobs where they
    are. *)
Definition resting (s : core) (w : nat) (q : list nat) : Prop :=
  ∃ pl i, core_pools s !! w = Some pl ∧ queue pl = q ∧ workers_ pl !! i = Some (mkThread Waiting false).

Lemma served_step l s s1 : served l s → job_step s [] s1 → honest s s1 → served l s1.
Proof. intros Hs Hst Hh. rewrite <- (app_nil_r l). by eapply ServedStep; [|apply CoreJob|]. Qed.

Lemma thread_waits l s w pl i ph p :
  served l s → core_pools s !! w = Some pl → workers_ pl !! i = Some (mkThread ph false) →
  (∀ s1, served l s1 → resting s1 w (queue pl) →
     jobs s1 !! p = jobs s !! p ∨ 0 < answers (core_heap s1) p → receivable s1 p) →
  receivable s p.
Proof.
  assert (∀ s pl, served l s → core_pools s !! w = Some pl → workers_ pl !! i = Some (mkThread Checking false) →
    (∀ s1, served l s1 → resting s1 w (queue pl) → jobs s1 = jobs s → core_heap s1 = core_heap s → receivable s1 p) →
    receivable s p) as Hcheck.
  { clear. intros s pl Hs Hw Hi Hk. pose proof (StepWait pl i Hi) as Hst. eapply receivable_step.
    - by eapply JobThread.
    - by apply honest_same.
    - apply Hk; [|eexists _, i; split; [simpl; apply list_lookup_insert_eq; by eapply lookup_lt_Some|]|done|done].
      + eapply served_step; [done|by eapply JobThread|by apply honest_same].
      + simpl. by rewrite lookup_insert_eq. }
  intros Hs Hw Hi Hk. destruct ph as [| |j].
  - eapply Hcheck; [done..|]. intros s1 Hs1 Hr Hj _. apply Hk; [done..|]. left. by rewrite Hj.
  - apply Hk; [done|by exists pl, i|by left].
  - destruct (run_finishes l s w pl i j false (ran_total j) Hs Hw Hi) as (s1 & Hst & Hh & Hj & Ha & Hps).
    eapply receivable_step; [done..|].
    eapply Hcheck; [by eapply served_step|rewrite Hps; apply list_lookup_insert_eq; by eapply lookup_lt_Some| |].
    + simpl. apply lookup_insert_eq.
    + simpl. intros s2 Hs2 Hr Hj2 Hh2. apply Hk; [done..|]. rewrite Hj2, Hj, Hh2, lookup_delete.
      case_decide; [subst; by right|by left].
Qed.

(** It takes the head of the queue. *)
Lemma rest_takes s w j q :
  resting s w (j :: q) →
  ∃ s1 pl1 i, job_step s [] s1 ∧ honest s s1 ∧ jobs s1 = <[j := OnThread w i]> (jobs s) ∧
    core_pools s1 !! w = Some pl1 ∧ queue pl1 = q ∧ workers_ pl1 !! i = Some (mkThread (Running j) false).
Proof.
  intros (pl & i & Hw & Hq & Hi). pose proof (StepTake pl i false j q Hi Hq) as Hst.
  eexists _, (mkThreads q (<[i := mkThread (Running j) false]> (workers_ pl)) (finished pl)), i.
  split_and!; [by eapply JobTake|by eapply honest_insert|done| |done|].
  - simpl. apply list_lookup_insert_eq. by eapply lookup_lt_Some.
  - apply lookup_insert_eq.
Qed.

Lemma receivable_rest q1 l s w q2 p : served l s → resting s w (q1 ++ p :: q2) → receivable s p.
Proof.
  revert s. induction q1 as [|j q1 IH]; intros s Hs Hr; simpl in Hr;
    destruct (rest_takes _ _ _ _ Hr) as (s1 & pl1 & i & Hst & Hh & _ & Hw & Hq & Hi);
    (eapply receivable_step; [done..|]); pose proof (served_step _ _ _ Hs Hst Hh) as Hs1.
  - by eapply receivable_thread; [apply ran_total|..].
  - eapply thread_waits; [done..|]. intros s2 Hs2 Hr2 _. rewrite Hq in Hr2. by apply IH.
Qed.

(** With room in the queue, at the latest when the thread has made some. *)
Lemma receivable_room q l s w p :
  served l s → resting s w q → jobs s !! p = Some (Scheduling w) → receivable s p.
Proof.
  revert s. induction q as [|j q IH]; intros s Hs Hr Hp; [|destruct (decide (length (j :: q) < Worker.defaultChanSize))].
  3: { destruct (rest_takes _ _ _ _ Hr) as (s1 & pl1 & i & Hst & Hh & Hj & Hw & Hq & Hi).
    pose proof (served_step _ _ _ Hs Hst Hh) as Hs1. eapply receivable_step; [done..|].
    eapply thread_waits; [done..|]. intros s2 Hs2 Hr2. rewrite Hq in Hr2. intros [Hp2|Ha]; [|by apply receivable_sent].
    apply (IH s2); [done..|]. rewrite Hp2, Hj. apply lookup_insert_Some. right. split; [|done]. intros ->.
    destruct Hr as (pl & k & Hw0 & Hq0 & _).
    assert (jobs s !! p = Some (InQueue w)); [|congruence].
    apply (pp_queue _ _ _ (pl_pools s (served_placed l s Hs) w pl Hw0)). rewrite Hq0. by left. }
  all: destruct Hr as (pl & i & Hw & Hq & Hi);
    assert (thread_step pl (Queued p) (mkThreads (queue pl ++ [p]) (workers_ pl) (finished pl))) as Hst
      by (constructor; rewrite Hq; unfold Worker.defaultChanSize in *; simpl in *; lia);
    (eapply receivable_step; [by eapply JobQueue|by eapply honest_insert|]);
    eapply (receivable_rest (queue pl) l _ w [] p);
      [eapply served_step; [done|by eapply JobQueue|by eapply honest_insert]|];
    (eexists _, i; split; [simpl; apply list_lookup_insert_eq; by eapply lookup_lt_Some|by split]).
Qed.

(** A live thread for a job that is not on a thread. *)
Definition crewed (s : core) (p : nat) : Prop :=
  match jobs s !! p with Some (Scheduling w) | Some (InQueue w) => alive s w | _ => True end.

Lemma receivable_job l s p ph : served l s → jobs s !! p = Some ph → crewed s p → receivable s p.
Proof.
  intros Hs Hj. unfold crewed. rewrite Hj. pose proof (served_placed l s Hs) as Hpl.
  destruct (pl_jobs s Hpl p ph Hj) as [pl Hw].
  destruct ph as [w|w|w i]; simpl in Hw; [intros (pl1 & i & ph & Hw1 & Hi); simplify_eq..|intros _].
  - eapply thread_waits; [done..|]. intros s1 Hs1 Hr [Hp|Ha]; [|by apply receivable_sent].
    eapply receivable_room; [done..|]. by rewrite Hp.
  - apply (pp_queue _ _ _ (pl_pools s Hpl w pl Hw)) in Hj as (q1 & q2 & Hq)%list_elem_of_split.
    eapply thread_waits; [done..|]. intros s1 Hs1 Hr _. rewrite Hq in Hr. by eapply receivable_rest.
  - apply (pp_run _ _ _ (pl_pools s Hpl w pl Hw)) in Hj as [c Hi].
    by eapply receivable_thread; [apply ran_total|..].
Qed.

(** Every result whose answer has not been received can still be answered, when its
    job is on a thread or its worker has a live one. *)
Lemma job_receivable l s p r :
  served l s → results (core_heap s) !! p = Some r → crewed s p → p ∈ l ∨ receivable s p.
Proof.
  intros Hs Hr Hc. destruct (decide (p ∈ l)) as [|Hn]; [by left|right].
  destruct (jobs s !! p) as [ph|] eqn:Hj; [by eapply receivable_job|]. apply receivable_sent.
  pose proof (core_run_balanced l s (served_run l s Hs) p) as Hb. rewrite Hr in Hb. unfold pending in Hb. rewrite Hj in Hb.
  unfold owed in Hb. rewrite (tr_forwards _ (served_truthful l s Hs)) in Hb. simpl in Hb.
  assert (received l p = 0) as Hrec; [|lia]. unfold received. destruct (filter (λ q, q = p) l) as [|q l'] eqn:E; [done|].
  destruct Hn. assert (q ∈ filter (λ q, q = p) l) as [-> Hq]%list_elem_of_filter by (rewrite E; by left). done.
Qed.

End Answers.

(** ** The sat's handler over the scheduler *)

Section Sat.
Context {WorkflowStep : Type} `{Codec (list (WorkflowStep * bool))} `{Codec CoordinatedRequest}.
(** The data of the job whose result is at a pointer, and what happens in the
    instance that it gets. *)
Context (data : nat → job_data) (guest : nat → CoordinatedRequest → guest_run).

(** A response, as a value of the scheduler. *)
Definition returned (r : result CoordinatedResponse) : value + error :=
  match r with Ok resp => inl (VOther (encode_nat resp)) | Err e => inr e end.

(** [useErr] is not known in advance. *)
Definition sat_ran (p : nat) (o : value + error) : Prop :=
  ∃ useErr, o = returned (wasm_Run (WorkflowStep := WorkflowStep) (data p) useErr (guest p)).

(** What the type assertions of [handler] make of what [Then] returns. *)
Definition job_end_of (o : value + option error) : job_end :=
  match o with
  | inl VNil | inr None => EndNil
  | inl (VOther t) => match decode_nat t with Some resp => EndResponse resp | None => EndOther end
  | inl _ => EndOther
  | inr (Some e) => EndErr e
  end.

(** The answer to a request whose job ended with [r]. *)
Definition sat_answer (r : result CoordinatedResponse) : http_answer :=
  match r with
  | Ok resp => Blob (default [] (map_to_list <$> RespHeaders resp)) (Output resp)
  | Err e =>
      match find_RunErr e with
      | Some (c, m) => if decide (c = 0%Z ∧ m = "") then HTTPErr 500 "unknown error" else HTTPErr c m
      | None => HTTPErr 500 "unknown error"
      end
  end.

Lemma sat_answer_handler r : sat_handler true true (match r with Ok resp => EndResponse resp | Err e => EndErr e end) = sat_answer r.
Proof.
  destruct r as [resp|e]; [done|]. unfold sat_handler, sat_answer. cbv beta iota. destruct (find_RunErr e) as [[c m]|]; [|done].
  simpl. destruct (decide (c = 0%Z ∧ m = "")) as [[-> ->]|Hz]; [done|].
  destruct (_ || _) eqn:E; [done|]. destruct Hz. apply orb_false_iff in E as [E1 E2].
  apply bool_decide_eq_false in E1, E2. split; by apply dec_stable.
Qed.

(** C39: When every thread sends what the module returned for its job, which is
    never a result or a group, requests to a sat are answered one by one: however
    the jobs of concurrent requests are scheduled, queued, run and awaited, and
    the workers and threads changed, the handler answers a request with the output
    and headers, or the error, of the run of the module for that very request, or
    with an error of the scheduler, and no request gets a second answer. A request
    whose job was handed to the scheduler was answered or can still be, without
    any new job or thread, when its job is on a thread or its worker has a thread
    that was not cancelled, however full the queue is. *)
Theorem sat_requests_answered l s p :
  served sat_ran l s →
  (∀ o h, Then (core_heap s) p o h →
     (p ∉ l) ∧
     ((∃ useErr, sat_handler true true (job_end_of o) =
         sat_answer (wasm_Run (WorkflowStep := WorkflowStep) (data p) useErr (guest p))) ∨
      ∃ e, scheduler_error e ∧ sat_handler true true (job_end_of o) = sat_answer (Err e))) ∧
  (is_Some (results (core_heap s) !! p) → crewed s p → p ∈ l ∨ receivable sat_ran s p).
Proof.
  assert (∀ p v, sat_ran p (inl v) → plain v) as Hplain by (intros q v [u E]; destruct (wasm_Run _ _ _); by simplify_eq/=).
  intros Hs. split.
  - intros o h Ht. destruct (job_answer sat_ran Hplain l s p o h Hs Ht) as [Hp Ho]. split; [done|].
    destruct o as [v|[e|]]; [|destruct Ho as [[u Hu]|He]|done].
    + left. destruct Ho as [u Hu]. exists u. rewrite <- sat_answer_handler. destruct (wasm_Run _ _ _) as [resp|]; [|done].
      injection Hu as ->. unfold job_end_of. by rewrite decode_encode_nat.
    + left. exists u. rewrite <- sat_answer_handler. destruct (wasm_Run _ _ _); [done|]. by injection Hu as ->.
    + right. exists e. split; [done|]. by rewrite <- sat_answer_handler.
  - intros [r Hr] Hc. eapply (job_receivable sat_ran Hplain); [|done..]. intros q. by eexists _, None.
Qed.

End Sat.

(** ** Examples *)

#[local] Instance example_codec : Codec CoordinatedRequest := countable_codec _.
#[local] Instance example_steps_codec : Codec (list (string * bool)) := countable_codec _.

Definition example_guest (r : CoordinatedRequest) : guest_run := mkGuest None None (Some "hello") None None.

Definition example_core (js : gmap nat job_phase) (r : Result) (pl : pool) : core :=
  mkCore (Worker.core_register Worker.newScaler "fn" []) (mkHeap {[7 := r]} ∅ []) js {[ "fn" := 0 ]} [pl].

Definition example_answer : value := VOther (encode_nat (mkResponse "hello" None)).

Abbreviation example_ran := (sat_ran (WorkflowStep := string) (λ _, DataRequest example_request) (λ _, example_guest)).

Abbreviation example_pool := (λ q ph, mkThreads q {[0 := mkThread ph false]} []).

Abbreviation example_new := (λ js pl, example_core js (newResult "u") pl).

Lemma example_served_step s s1 s2 :
  served example_ran [] s → core_step s [] s1 → s1 = s2 → (∀ p w i, jobs s !! p ≠ Some (OnThread w i)) → served example_ran [] s2.
Proof. intros Hs Hst <- Hn. apply (ServedStep _ [] s [] s1 Hs Hst). intros p w i Hp. by destruct (Hn p w i). Qed.

Lemma no_thread (ph : job_phase) : (∀ w i, ph ≠ OnThread w i) → ∀ p w i, ({[7 := ph]} : gmap nat job_phase) !! p ≠ Some (OnThread w i).
Proof. intros Hn p w i [_ ->]%lookup_singleton_Some. by destruct (Hn w i). Qed.

Definition example_end : core :=
  example_core ∅ (mkResult "u" example_answer None 1 0) (mkThreads [] {[0 := mkThread Checking false]} [7]).

(** A runner with one thread takes the job of a request and runs it. *)
Lemma example_queued : served example_ran [] (example_new {[7 := InQueue 0]} (example_pool [7] Waiting)).
Proof.
  assert (served example_ran [] (register newCore "fn" [])) as H0.
  { eapply (example_served_step newCore); [constructor|apply CoreRegister|done|done]. }
  assert (served example_ran [] (example_new {[7 := Scheduling 0]} (mkThreads [] ∅ []))) as H1.
  { eapply example_served_step; [exact H0|apply (CoreDo _ 7 "u" "fn"); reflexivity|done|done]. }
  assert (served example_ran [] (example_new {[7 := Scheduling 0]} (example_pool [] Checking))) as H2.
  { eapply example_served_step; [exact H1| | |by apply no_thread].
    - apply (CoreThreads (example_new {[7 := Scheduling 0]} (mkThreads [] ∅ [])) 0 (mkThreads [] ∅ []) (example_pool [] Checking) eq_refl). exact (StepSpawn (mkThreads [] ∅ []) 0 eq_refl).
    - reflexivity. }
  assert (served example_ran [] (example_new {[7 := Scheduling 0]} (example_pool [] Waiting))) as H3.
  { eapply example_served_step; [exact H2|apply CoreJob| |by apply no_thread].
    - apply (JobThread (example_new {[7 := Scheduling 0]} (example_pool [] Checking)) 0 (example_pool [] Checking) (example_pool [] Waiting) eq_refl). exact (StepWait (example_pool [] Checking) 0 eq_refl).
    - reflexivity. }
  eapply example_served_step; [exact H3|apply CoreJob| |by apply no_thread].
  - apply (JobQueue (example_new {[7 := Scheduling 0]} (example_pool [] Waiting)) 7 0 (example_pool [] Waiting) (example_pool [7] Waiting)); [reflexivity..|]. refine (StepQueue (example_pool [] Waiting) 7 _). unfold Worker.defaultChanSize. simpl. lia.
  - reflexivity.
Qed.

Lemma example_served : served example_ran [] example_end.
Proof.
  pose proof example_queued as H4.
  assert (served example_ran [] (example_new {[7 := OnThread 0 0]} (example_pool [] (Running 7)))) as H5.
  { eapply example_served_step; [exact H4|apply CoreJob| |by apply no_thread].
    - apply (JobTake (example_new {[7 := InQueue 0]} (example_pool [7] Waiting)) 7 0 0 (example_pool [7] Waiting) (example_pool [] (Running 7)) eq_refl). exact (StepTake (example_pool [7] Waiting) 0 false 7 [] eq_refl eq_refl).
    - reflexivity. }
  set (s5 := example_new {[7 := OnThread 0 0]} (example_pool [] (Running 7))) in *.
  assert (put_pool (put_jobs (put_heap s5 (core_heap example_end)) (delete 7 (jobs s5))) 0
    (mkThreads [] {[0 := mkThread Checking false]} [7]) = example_end) as <- by reflexivity.
  apply (ServedStep _ [] s5 [] _ H5).
  - apply CoreJob, (JobFinish s5 7 0 0 (example_pool [] (Running 7)) _ (inl example_answer)); [reflexivity| |reflexivity].
    exact (StepFinish (example_pool [] (Running 7)) 0 false 7 eq_refl).
  - intros p w i Hp _. unfold s5 in Hp. simpl in Hp. apply lookup_singleton_Some in Hp as [<- _].
    exists (inl example_answer). split; [by exists None|reflexivity].
Qed.

(** The caller receives the answer of the run, and so it can when the job is still in
    the queue of its worker. *)
Lemma sat_requests_answered_witness :
  ((7 ∉ ([] : list nat)) ∧
   ((∃ useErr, sat_handler true true (job_end_of (inl example_answer)) =
      sat_answer (wasm_Run (WorkflowStep := string) (DataRequest example_request) useErr example_guest)) ∨
    ∃ e, scheduler_error e ∧
      sat_handler true true (job_end_of (inl example_answer)) = sat_answer (Err e))) ∧
  (7 ∈ ([] : list nat) ∨ receivable example_ran (example_new {[7 := InQueue 0]} (example_pool [7] Waiting)) 7).
Proof.
  split.
  - eapply (proj1 (sat_requests_answered (WorkflowStep := string) (λ _, DataRequest example_request) (λ _, example_guest)
      [] example_end 7 example_served)).
    apply (ThenData _ 7 (mkResult "u" example_answer None 1 0) 0); reflexivity.
  - apply (proj2 (sat_requests_answered (WorkflowStep := string) (λ _, DataRequest example_request) (λ _, example_guest)
      [] _ 7 example_queued)); [by eexists|].
    exists (example_pool [7] Waiting), 0, Waiting. by split.
Defined.
