(* ===== verification/Procfile.v ===== *)
(** * The process file: sat/sat/process/info.go, sat/monitor.go

    A runner writes a file that describes it and watches for its deletion.  The
    file system is a map from paths to contents; the directory of the files and
    the errors of the system calls are arguments.  The copy of info.go in
    e2core/backend/satbackend/process/ differs in [Delete] only. *)

From S2P Require Import Prelude.
From S2P Require Import Interfaces.
From S2P Require Import Access.
From Stdlib Require Import Ascii.

Record Info : Type := mkInfo { Port : Z; info_FQMN : string; PID : Z }.

#[export] Instance Info_eq_dec : EqDecision Info.
Proof. solve_decision. Defined.
#[export] Instance Info_countable : Countable Info.
Proof.
  refine (inj_countable' (λ i, (Port i, info_FQMN i, PID i)) (λ '(p, f, d), mkInfo p f d) _).
  abstract (by intros []).
Defined.

Abbreviation files := (gmap string string).

Definition NewInfo (pid port : Z) (FQMN : string) : Info := mkInfo port FQMN pid.

(** [processInfoDir]: what [os.UserConfigDir] answers, and the error of
    [os.MkdirAll]. *)
Definition processInfoDir (config : result string) (mkdir : option error) : result string :=
  match config with
  | Err e => Err (ErrWrap e "failed to UserConfigDir")
  | Ok c =>
      match mkdir with
      | Some e => Err (ErrWrap e "failed to MkdirAll")
      | None => Ok (path_Join [c; "suborbital"; "proc"])
      end
  end.

Definition info_path (dir uuid : string) : string := path_Join [dir; uuid +:+ ".json"].

Section Procfile.
Context `{Codec Info}.

Definition Find (dir : result string) (fs : files) (uuid : string) : result Info :=
  match dir with
  | Err e => Err (ErrWrap e "failed to processInfoDir")
  | Ok d =>
      match fs !! info_path d uuid with
      | None => Err (ErrWrap (ErrExt "no such file") "failed to ReadFile")
      | Some b =>
          match unmarshal b with
          | Err e => Err (ErrWrap e "failed to Unmarshal")
          | Ok info => Ok info
          end
      end
  end.

(** [full] is the error of [os.WriteFile]. *)
Definition Write (dir : result string) (full : option error) (fs : files) (p : Info) (uuid : string) :
    option error * files :=
  match dir with
  | Err e => (Some (ErrWrap e "failed to processInfoDir"), fs)
  | Ok d =>
      match full with
      | Some e => (Some (ErrWrap e "failed to WriteFile"), fs)
      | None => (None, <[info_path d uuid := marshal p]> fs)
      end
  end.

(** [busy] is the error of [os.Remove].  [Delete_other] is the other copy. *)
Definition Delete (dir : result string) (busy : option error) (fs : files) (uuid : string) :
    option error * files :=
  match dir with
  | Err e => (Some (ErrWrap e "failed to processInfoDir"), fs)
  | Ok d =>
      match fs !! info_path d uuid with
      | None => (Some (ErrWrap (ErrExt "no such file") ("os.Stat failed on path " +:+ info_path d uuid)), fs)
      | Some _ =>
          match busy with
          | Some e => (Some (ErrWrap e "failed to Remove"), fs)
          | None => (None, delete (info_path d uuid) fs)
          end
      end
  end.

Definition Delete_other (dir : result string) (busy : option error) (fs : files) (uuid : string) :
    option error * files :=
  match dir with
  | Err e => (Some (ErrWrap e "failed to processInfoDir"), fs)
  | Ok d =>
      match fs !! info_path d uuid with
      | None => (None, fs)
      | Some _ =>
          match busy with
          | Some e => (Some (ErrWrap e "failed to Remove"), fs)
          | None => (None, delete (info_path d uuid) fs)
          end
      end
  end.

(** ** Monitoring *)

(** What a turn of the loop of [Start] finds: somebody is in [Stop], the context
    is over, the files. *)
Record turn : Type := mkTurn { stopping : bool; expired : bool; found : files }.

(** The state of the loop: its turn and how often it slept.  The [break] under
    [ctx.Err] leaves the select, not the loop. *)
Definition monitor_body (dir : result string) (uuid : string) (env : nat → turn) (st : nat * nat) :
    (nat * nat) + (option error * nat) :=
  let '(n, slept) := st in
  if stopping (env n) then inr (None, slept)
  else if expired (env n) then inl (S n, slept)
  else
    match Find dir (found (env n)) uuid with
    | Err e => inr (Some (ErrWrap e "proc file deleted"), slept)
    | Ok _ => inl (S n, S slept)
    end.

Definition monitor_Start (fuel : nat) (dir : result string) (uuid : string) (env : nat → turn) :
    option (option error * nat) :=
  loop fuel (monitor_body dir uuid env) (0, 0).

(** [NewMonitor] writes the file. *)
Definition NewMonitor (dir : result string) (full : option error) (fs : files) (pid port : Z)
    (jobType uuid : string) : option error * files :=
  match Write dir full fs (NewInfo pid port jobType) uuid with
  | (Some e, fs) => (Some (ErrWrap e "failed to Write process info"), fs)
  | (None, fs) => (None, fs)
  end.

(** ** Files of different processes *)

Lemma index_of_app_none c s t : index_of c s = None → index_of c t = None → index_of c (s +:+ t) = None.
Proof.
  intros Hs Ht. induction s as [|a s IH]; simpl in *; [done|]. case_decide; [done|].
  destruct (index_of c s); [done|]. by rewrite IH.
Qed.

Lemma string_app_inj_l s1 s2 t : s1 +:+ t = s2 +:+ t → s1 = s2.
Proof.
  intros E. assert (String.length s1 = String.length s2) as Hl.
  { assert (String.length (s1 +:+ t) = String.length (s2 +:+ t)) as El by by rewrite E.
    rewrite !length_string_app in El. lia. }
  rewrite <- (substring_prefix s1 t), <- (substring_prefix s2 t). by rewrite E, Hl.
Qed.

Lemma split_slash_snoc d x :
  index_of "/" x = None → split_slash (d +:+ String "/" x) = split_slash d ++ [x].
Proof.
  intros Hx. induction d as [|a d IH]; simpl.
  - by rewrite split_slash_last.
  - rewrite IH. case_decide; [done|]. destruct (split_slash d) eqn:E; [|done].
    destruct d as [|b d]; simpl in E; [done|]. case_decide; [done|]. by destruct (split_slash d).
Qed.

(** The part of a cleaned path before its last element. *)
Lemma join_slash_snoc l : ∃ pre, ∀ x, join_slash (l ++ [x]) = pre +:+ x.
Proof.
  induction l as [|y l [pre IH]]; [by exists ""|]. exists (y +:+ "/" +:+ pre). intros x.
  assert (join_slash ((y :: l) ++ [x]) = y +:+ "/" +:+ join_slash (l ++ [x])) as -> by by destruct l.
  by rewrite IH, !string_app_assoc.
Qed.

(** Joining a plain name to a directory appends it to a prefix. *)
Lemma path_Join_dir dir : ∃ pre, ∀ x, plain_name x → path_Join [dir; x] = pre +:+ x.
Proof.
  destruct (decide (dir = "")) as [->|Hd].
  { exists "". intros x Hx. pose proof Hx as (Hne & _). unfold path_Join.
    rewrite filter_cons_False by naive_solver. rewrite filter_cons_True by done. simpl.
    change (path_Clean x = x). pose proof (path_Join_plain [x] ltac:(done) ltac:(by constructor)) as E.
    unfold path_Join in E. by rewrite filter_cons_True in E. }
  set (rooted := match dir with String a _ => bool_decide (a = "/"%char) | EmptyString => false end).
  set (acc := foldl (clean_step rooted) [] (split_slash dir)).
  destruct (join_slash_snoc (rev acc)) as [pre Hpre].
  exists ((if rooted then "/" else "") +:+ pre). intros x Hx. pose proof Hx as (H1 & H2 & H3 & Hi).
  unfold path_Join. rewrite !filter_cons_True by done.
  trans (path_Clean (dir +:+ String "/" x)); [done|]. unfold path_Clean.
  assert (match dir +:+ String "/" x with String a _ => bool_decide (a = "/"%char) | EmptyString => false end = rooted)
    as Hr by by destruct dir.
  rewrite Hr, split_slash_snoc, foldl_snoc by done. fold acc.
  assert (clean_step rooted acc x = x :: acc) as ->.
  { unfold clean_step. rewrite decide_False by naive_solver. by rewrite decide_False. }
  change (rev (x :: acc)) with (rev acc ++ [x]). rewrite Hpre.
  destruct rooted; [done|]. by destruct (rev acc ++ [x]) eqn:E; [destruct (rev acc)|].
Qed.

Lemma info_path_inj dir u u' :
  index_of "/" u = None → index_of "/" u' = None → info_path dir u = info_path dir u' → u = u'.
Proof.
  assert (∀ v, index_of "/" v = None → plain_name (v +:+ ".json")) as Hplain.
  { intros v Hv. repeat split; try (by destruct v as [|? [|? [|]]]). by apply index_of_app_none. }
  intros Hu Hu'. unfold info_path. destruct (path_Join_dir dir) as [pre Hpre].
  rewrite !Hpre by auto. intros E%(inj (String.append pre)). by apply string_app_inj_l in E.
Qed.

(** A process file that was written is found with its contents until it is
    deleted, deleting it again fails, and the files of processes with another UUID
    are not touched. *)
Theorem procfile_lifecycle d fs p uuid :
  index_of "/" uuid = None →
  let fs1 := (Write (Ok d) None fs p uuid).2 in
  let fs2 := (Delete (Ok d) None fs1 uuid).2 in
  Find (Ok d) fs1 uuid = Ok p ∧ (∃ e, Find (Ok d) fs2 uuid = Err e) ∧
  (∃ e, Delete (Ok d) None fs2 uuid = (Some e, fs2)) ∧
  ∀ u, u ≠ uuid → index_of "/" u = None →
    Find (Ok d) fs1 u = Find (Ok d) fs u ∧ Find (Ok d) fs2 u = Find (Ok d) fs u.
Proof.
  intros Hu. unfold Write, Delete, Find. simpl. rewrite !lookup_insert_eq. simpl.
  rewrite unmarshal_marshal, !lookup_delete_eq. split; [done|]. split; [by eexists|]. split; [by eexists|].
  intros u Hne Hu'. assert (info_path d uuid ≠ info_path d u) as Hp.
  { intros E. destruct Hne. symmetry. by eapply info_path_inj. }
  by rewrite lookup_delete_ne, lookup_insert_ne.
Qed.

(** ** The monitor *)

(** A turn after which the loop goes on. *)
Definition goes_on (dir : result string) (uuid : string) (t : turn) : Prop :=
  stopping t = false ∧ (expired t = true ∨ ∃ info, Find dir (found t) uuid = Ok info).

(** The turns before [n] in which the loop sleeps for a second. *)
Definition sleeps (env : nat → turn) (n : nat) : nat :=
  length (filter (λ i, expired (env i) = false) (seq 0 n)).

Lemma sleeps_S env n : sleeps env (S n) = (sleeps env n + if expired (env n) then 0 else 1).
Proof.
  unfold sleeps. rewrite seq_S, filter_app, length_app. f_equal. simpl. rewrite filter_cons.
  by destruct (expired (env n)).
Qed.

Lemma monitor_turns dir uuid env n fuel :
  (∀ i, i < n → goes_on dir uuid (env i)) →
  loop (n + fuel) (monitor_body dir uuid env) (0, 0) =
  loop fuel (monitor_body dir uuid env) (n, sleeps env n).
Proof.
  revert fuel. induction n as [|n IH]; intros fuel Hn; [done|].
  replace (S n + fuel) with (n + S fuel) by lia. rewrite IH by auto. rewrite sleeps_S.
  cbn [loop]. unfold monitor_body at 1. destruct (Hn n) as [-> Hf]; [lia|].
  destruct (expired (env n)); [by rewrite Nat.add_0_r|]. destruct Hf as [|[info ->]]; [done|].
  by rewrite Nat.add_1_r.
Qed.

(** The monitor returns in the first turn in which it is stopped, or in which its
    context is not over and the process file cannot be read; it returns nil in the
    first case and the error of Find in the second, and has slept once for each
    turn before in which its context was not over. *)
Theorem monitor_outcome dir uuid env fuel err slept :
  monitor_Start fuel dir uuid env = Some (err, slept) ↔
  ∃ n, n < fuel ∧ (∀ i, i < n → goes_on dir uuid (env i)) ∧ slept = sleeps env n ∧
    (stopping (env n) = true ∧ err = None ∨
     stopping (env n) = false ∧ expired (env n) = false ∧
     ∃ e, Find dir (found (env n)) uuid = Err e ∧ err = Some (ErrWrap e "proc file deleted")).
Proof.
  unfold monitor_Start. split.
  - assert (∀ k, (∀ i, i < k → goes_on dir uuid (env i)) → k ≤ fuel →
      loop (fuel - k) (monitor_body dir uuid env) (k, sleeps env k) = Some (err, slept) → ∃ n, n < fuel ∧
      (∀ i, i < n → goes_on dir uuid (env i)) ∧ slept = sleeps env n ∧
      (stopping (env n) = true ∧ err = None ∨ stopping (env n) = false ∧ expired (env n) = false ∧
       ∃ e, Find dir (found (env n)) uuid = Err e ∧ err = Some (ErrWrap e "proc file deleted"))) as Hgen.
    { intros k. remember (fuel - k) as m eqn:Em. revert k Em. induction m as [|m IH]; intros k Em Hk Hle; [done|].
      cbn [loop]. unfold monitor_body at 1. destruct (stopping (env k)) eqn:Es.
      { intros [= <- <-]. exists k. split; [lia|]. auto. }
      assert (goes_on dir uuid (env k) → ∀ i, i < S k → goes_on dir uuid (env i)) as Hext.
      { intros Hg i Hi. destruct (decide (i = k)) as [->|]; [done|]. apply Hk. lia. }
      destruct (expired (env k)) eqn:Ee.
      { intros Hl. apply (IH (S k)); [lia|apply Hext; split; auto|lia|].
        by rewrite sleeps_S, Ee, Nat.add_0_r. }
      destruct (Find dir (found (env k)) uuid) as [info|e] eqn:Ef.
      { intros Hl. apply (IH (S k)); [lia|apply Hext; split; eauto|lia|].
        by rewrite sleeps_S, Ee, Nat.add_1_r. }
      intros [= <- <-]. exists k. split; [lia|]. split; [done|]. split; [done|]. right. eauto. }
    intros Hl. apply (Hgen 0); [lia|lia|]. by rewrite Nat.sub_0_r.
  - intros (n & Hn & Hgo & -> & Hend). replace fuel with (n + S (fuel - n - 1)) by lia.
    rewrite monitor_turns by done. cbn [loop]. unfold monitor_body at 1.
    destruct Hend as [[-> ->]|(-> & -> & e & -> & ->)]; done.
Qed.

(** From the moment its context is over the loop neither looks at the file nor
    sleeps: however long it goes on, it returns only for [Stop]. *)
Theorem monitor_blind dir uuid env k fuel :
  (∀ i, i < k → goes_on dir uuid (env i)) → (∀ i, k ≤ i → expired (env i) = true) →
  (∀ i, stopping (env i) = false) →
  monitor_Start fuel dir uuid env = None ∧ ∀ n, k ≤ n → sleeps env n = sleeps env k.
Proof.
  intros Hk He Hs. split.
  - destruct (monitor_Start fuel dir uuid env) as [[err slept]|] eqn:E; [|done].
    unfold monitor_Start in E. assert (∀ i, goes_on dir uuid (env i)) as Hall.
    { intros i. destruct (decide (i < k)) as [|Hi]; [by apply Hk|]. split; [done|]. left. apply He. lia. }
    rewrite <- (Nat.add_0_r fuel), monitor_turns in E by auto. done.
  - intros n. induction 1 as [|n Hn IH]; [done|]. rewrite sleeps_S, He by done. by rewrite IH, Nat.add_0_r.
Qed.

End Procfile.

(** ** Examples *)

#[local] Instance info_codec : Codec Info := countable_codec _.

Definition example_dir : result string := processInfoDir (Ok "/home/u/.config") None.

(** A file that is deleted before the second turn. *)
Definition example_turns (n : nat) : turn :=
  mkTurn false false
    (if decide (n = 0) then (NewMonitor example_dir None ∅ 7 8080 "fn" "u-1").2 else ∅).

Lemma procfile_lifecycle_witness :
  let fs1 := (Write (Ok "/tmp/proc") None ∅ (mkInfo 8080 "fn" 7) "u-1").2 in
  Find (Ok "/tmp/proc") fs1 "u-1" = Ok (mkInfo 8080 "fn" 7) ∧
  Find (Ok "/tmp/proc") fs1 "u-2" = Find (Ok "/tmp/proc") ∅ "u-2".
Proof.
  destruct (procfile_lifecycle "/tmp/proc" ∅ (mkInfo 8080 "fn" 7) "u-1") as (H1 & _ & _ & H2); [reflexivity|].
  split; [exact H1|]. destruct (H2 "u-2") as [H3 _]; [discriminate|reflexivity|exact H3].
Defined.

Example example_path : info_path "/home/u/.config/suborbital/proc" "u-1" = "/home/u/.config/suborbital/proc/u-1.json".
Proof. vm_compute. reflexivity. Qed.

Example deletion_noticed : snd <$> monitor_Start 5 example_dir "u-1" example_turns = Some 1.
Proof. vm_compute. reflexivity. Qed.
