(* ===== verification/Options.v ===== *)
(** * Options and configuration: e2core/options/options.go, e2core/command/start.go,
    sat/sat/config.go, sat/sat/options/

    Flags and environment to the options of the control process, the choice of
    the system source, and the configuration of a runner from its argument.
    Reading the environment (envconfig), names (fqmn), the client of the control
    plane, files and downloads are other modules' code and I/O: their answers
    are arguments. *)

From S2P Require Import Prelude.
From S2P Require Import Access.
From Stdlib Require Import Ascii.

Definition HasSuffix (s suffix : string) : bool :=
  (String.length suffix <=? String.length s) &&
  bool_decide (String.substring (String.length s - String.length suffix) (String.length suffix) s = suffix).

Definition TrimSuffix (s suffix : string) : string :=
  if HasSuffix s suffix then String.substring 0 (String.length s - String.length suffix) s else s.

Definition DefaultControlPlane : string := "localhost:9090".

Section Options.
Context {TracerConfig : Type}.

Record Options : Type := mkOptions {
  Features : list string;
  BundlePath : string;
  RunSchedules : option bool;
  ControlPlane : string;
  AuthCacheTTL : Z;
  UpstreamAddress : string;
  EnvironmentToken : string;
  StaticPeers : string;
  AppName : string;
  Domain : string;
  HTTPPort : Z;
  TLSPort : Z;
  Tracer : option TracerConfig       (* [None] is the zero value *)
}.

Definition no_options : Options := mkOptions [] "" None "" 0 "" "" "" "" "" 0 0 None.

(** The modifiers. *)
Inductive Modifier : Type :=
| UseBundlePath (path : string)
| UseAppName (name : string)
| UseDomain (domain : string)
| UseHTTPPort (port : Z)
| UseTLSPort (port : Z).

Definition modify (o : Options) (m : Modifier) : Options :=
  let '(mkOptions f b r c a u e s n d h t tr) := o in
  match m with
  | UseBundlePath p => mkOptions f p r c a u e s n d h t tr
  | UseAppName n => mkOptions f b r c a u e s n d h t tr
  | UseDomain d => mkOptions f b r c a u e s n d h t tr
  | UseHTTPPort h => mkOptions f b r c a u e s n d h t tr
  | UseTLSPort t => mkOptions f b r c a u e s n d h t tr
  end.

(** [finalize]; [env] is what envconfig makes of the environment. *)
Definition finalize (env : result Options) (o : Options) : result Options :=
  match env with
  | Err e => Err (ErrWrap e "envconfig.Process")
  | Ok env =>
      Ok {| ControlPlane := TrimSuffix (ControlPlane env) "/";
            AuthCacheTTL := AuthCacheTTL env;
            RunSchedules := match RunSchedules o with None => RunSchedules env | Some b => Some b end;
            AppName := if decide (AppName o = "") then AppName env else AppName o;
            Domain := if decide (Domain o = "") then Domain env else Domain o;
            HTTPPort := if decide (HTTPPort o = 0%Z) then HTTPPort env else HTTPPort o;
            TLSPort := if decide (TLSPort o = 0%Z) then TLSPort env else TLSPort o;
            Features := Features env;
            StaticPeers := StaticPeers env;
            EnvironmentToken := EnvironmentToken env;
            Tracer := Tracer env;
            BundlePath := BundlePath o;
            UpstreamAddress := UpstreamAddress o |}
  end.

Definition NewWithModifiers (env : result Options) (mods : list Modifier) : result Options :=
  match finalize env (foldl modify no_options mods) with
  | Err e => Err (ErrWrap e "opts.finalize")
  | Ok o => Ok o
  end.

(** ** The start command *)

(** The flags, [None] when they are not given. *)
Record flags : Type := mkFlags { f_domain : option string; f_http : option Z; f_tls : option Z }.

Definition modsFromFlags (f : flags) : list Modifier :=
  [UseDomain (default "" (f_domain f)); UseHTTPPort (default 8080%Z (f_http f));
   UseTLSPort (default 443%Z (f_tls f))].

(** The system source of the syncer. *)
Inductive source : Type := FromBundle (path : string) | FromHTTP (address token : string).

Definition setupSyncer (o : Options) : source :=
  if decide (ControlPlane o ≠ "") then FromHTTP (ControlPlane o) (EnvironmentToken o)
  else FromBundle (BundlePath o).

Definition set_ControlPlane (o : Options) (cp : string) : Options :=
  let '(mkOptions f b r _ a u e s n d h t tr) := o in mkOptions f b r cp a u e s n d h t tr.

(** [setupSourceServer]: [bundle] is the error of starting the bundle source;
    the server is the path of its bundle, or nil. *)
Definition setupSourceServer (bundle : string → option error) (o : Options) :
    result (option string) * Options :=
  if decide (ControlPlane o = DefaultControlPlane ∨ ControlPlane o = "") then
    let o1 := set_ControlPlane o DefaultControlPlane in
    match bundle (BundlePath o1) with
    | Some e => (Err (ErrWrap (ErrWrap e "failed to Start bundle source") "failed to sourceserver.FromBundle"), o1)
    | None => (Ok (Some (BundlePath o1)), o1)
    end
  else (Ok None, o).

(** The part of the start command before the servers run. *)
Definition start_setup (env : result Options) (bundle : string → option error) (f : flags)
    (args : list string) : result (source * option string * Options) :=
  let path := default "./modules.wasm.zip" (head args) in
  match NewWithModifiers env (modsFromFlags f ++ [UseBundlePath path]) with
  | Err e => Err (ErrWrap e "options.NewWithModifiers")
  | Ok o =>
      let src := setupSyncer o in
      match setupSourceServer bundle o with
      | (Err e, _) => Err (ErrWrap e "failed to setupSourceServer")
      | (Ok srv, o1) => Ok (src, srv, o1)
      end
  end.

(** The shutdown after a signal, in its order; the methods of the servers are
    libraries.  [shutdown_source] is applied to the source server, nil or not;
    the last part of the result says whether the backend was shut down. *)
Definition start_shutdown (shutdown_srv : option error) (shutdown_source : option string → outcome (option error))
    (srv : option string) : outcome (option error * bool) :=
  match shutdown_srv with
  | Some e => Val (Some (ErrWrap e "srv.Shutdown"), false)
  | None =>
      err ← shutdown_source srv;
      match err with
      | Some e => Val (Some (ErrWrap e "sourceSrv.Shutdown"), false)
      | None => Val (None, true)
      end
  end.

(** What a started control process uses: the port of the flag, 8080 without one,
    and the environment's port only for the flag 0; the bundle of the argument,
    never of the environment; a control plane that is not empty; and a source
    server of its own exactly when that control plane is the default one. *)
Theorem start_setup_spec env bundle f args src srv o :
  start_setup (Ok env) bundle f args = Ok (src, srv, o) →
  HTTPPort o = match f_http f with
               | None => 8080%Z
               | Some p => if decide (p = 0%Z) then HTTPPort env else p
               end ∧
  BundlePath o = default "./modules.wasm.zip" (head args) ∧
  ControlPlane o ≠ "" ∧
  srv = (if decide (ControlPlane o = DefaultControlPlane) then Some (BundlePath o) else None) ∧
  match src with
  | FromBundle p => p = BundlePath o ∧ srv = Some p
  | FromHTTP a t => a = ControlPlane o ∧ a = TrimSuffix (ControlPlane env) "/" ∧ t = EnvironmentToken env
  end.
Proof.
  unfold start_setup, NewWithModifiers, finalize. simpl.
  match goal with |- context [setupSyncer ?x] => set (o0 := x) end.
  assert (HTTPPort o0 = match f_http f with None => 8080%Z
    | Some p => if decide (p = 0%Z) then HTTPPort env else p end) as <- by by destruct (f_http f).
  change (default "./modules.wasm.zip" (head args)) with (BundlePath o0).
  change (TrimSuffix (ControlPlane env) "/") with (ControlPlane o0).
  change (EnvironmentToken env) with (EnvironmentToken o0).
  clearbody o0. unfold setupSourceServer, setupSyncer.
  destruct o0 as [feat b r cp ttl up tok peers app dom http tls tr]; simpl. case_decide as Hcp.
  - destruct (bundle b); [done|]. intros [= <- <- <-]. simpl.
    destruct (decide (DefaultControlPlane = DefaultControlPlane)); [|done].
    split_and!; try done. case_decide as Hne; [|done]. destruct Hcp as [->|]; done.
  - assert (cp ≠ DefaultControlPlane ∧ cp ≠ "") as [Hd He] by tauto.
    intros [= <- <- <-]. simpl.
    destruct (decide (cp = DefaultControlPlane)); [done|]. by destruct (decide (cp ≠ "")).
Qed.

End Options.
