(* ===== verification/SatConfig.v ===== *)
(** * The configuration of a runner: sat/sat/config.go, from_url.go, options/

    [ConfigFromModuleArg] turns the environment and the argument, which is a URL,
    an FQMN or a path, into a configuration.  The environment is read by
    envconfig; names (fqmn), the client of the control plane, YAML and JSON are
    other modules' code, and their answers are arguments, as are those of the
    network and the file system. *)

From S2P Require Import Prelude.
From S2P Require Import Access.
From S2P Require Import Options.
From S2P Require Import Syncer.
From Stdlib Require Import Ascii.
From stdpp Require Import pretty.

(** ** Strings *)

(** [strconv.Atoi]: the number, or what is returned beside an error: zero for a
    syntax error, the nearest 64-bit number for one out of range. *)
Fixpoint digits (acc : Z) (s : string) : option Z :=
  match s with
  | EmptyString => Some acc
  | String a s =>
      let d := (Z.of_nat (nat_of_ascii a) - 48)%Z in
      if bool_decide (0 ≤ d ≤ 9)%Z then digits (acc * 10 + d) s else None
  end.

Definition Atoi (s : string) : Z * option error :=
  let '(sign, body) := match s with
                       | String "-" s => ((-1)%Z, s) | String "+" s => (1%Z, s) | _ => (1%Z, s)
                       end in
  match body, digits 0 body with
  | EmptyString, _ | _, None => (0%Z, Some (ErrNew "invalid syntax"))
  | _, Some n =>
      let v := (sign * n)%Z in
      if bool_decide (v < - 2 ^ 63)%Z then ((- 2 ^ 63)%Z, Some (ErrNew "value out of range"))
      else if bool_decide (2 ^ 63 ≤ v)%Z then ((2 ^ 63 - 1)%Z, Some (ErrNew "value out of range"))
      else (v, None)
  end.

(** [filepath.Base] *)
Definition Base (s : string) : string :=
  if decide (s = "") then "." else default "/" (last (filter (λ x, x ≠ "") (split_slash s))).

(** [strings.Replace] of every occurrence of a non-empty string; [skip] bytes
    belong to an occurrence that was replaced. *)
Fixpoint replace_all (old new : string) (skip : nat) (s : string) : string :=
  match s with
  | EmptyString => ""
  | String a s' =>
      match skip with
      | S k => replace_all old new k s'
      | 0 => if String.prefix old s then new +:+ replace_all old new (String.length old - 1) s'
             else String a (replace_all old new 0 s')
      end
  end.

(** ** The environment *)

(** [EnvDecode] of a port and of a process UUID: a random one for an empty
    value. [rand] is [rand.Int] below 10000, [parse] is [uuid.Parse]. *)
Definition port_EnvDecode (rand : result Z) (inp : string) : result string :=
  if decide (inp ≠ "") then Ok inp
  else match rand with
       | Err e => Err (ErrWrap e "failed to rand.Int")
       | Ok n => Ok (pretty (n + 1000)%Z)
       end.

Definition procUUID_EnvDecode (parse : string → result string) (fresh inp : string) : result string :=
  if decide (inp = "") then Ok fresh
  else match parse inp with
       | Err e => Err (ErrWrap e "SAT_UUID is set, but is not valid UUID")
       | Ok u => Ok u
       end.

(** The options that are read here; the token goes to the client of the control
    plane, those of tracing and metrics are passed on. *)
Record SatOptions : Type := mkSatOptions {
  so_Port : string;
  so_ProcUUID : string;
  so_ControlPlane : option string;
  so_Ident : option string;
  so_Version : option string;
  so_Connections : string
}.

(** A parsed FQMN and URL, the parts that are read. *)
Record FQMN_ : Type := mkFQMN { fq_Tenant : string; fq_Namespace : string }.
Record URL_ : Type := mkURL { url_Host : string; url_Scheme : string; url_Path : string }.

Section Config.
Context {Caps Conns : Type} (DefaultCapabilityConfig : Caps) (no_connections : Conns).

(** Without the token, which the code leaves empty, and without the options of
    tracing and metrics. *)
Record Config : Type := mkConfig {
  ModuleArg : string;
  JobType : string;
  PrettyName : string;
  cfg_Module : option Module_;
  cfg_Tenant : string;
  CapConfig : Caps;
  Connections : Conns;
  cfg_Port : Z;
  ControlPlaneUrl : string;
  cfg_ProcUUID : string
}.

(** What is outside: parsers, downloads, files, the control plane. *)
Record outside : Type := mkOutside {
  url_Parse : string → result URL_;
  downloadFromURL : string → result string;
  fqmn_Parse : string → FQMN_ * option error;
  fqmn_FromParts : string → string → string → string → result string;
  client_Start : option error;
  client_GetModule : string → result (option Module_);
  ResolveCapabilities : string → string → result Caps;
  disk : string → option (result string);       (* [None]: [os.Stat] fails *)
  yaml_Unmarshal : string → result Module_;
  json_Connections : string → result Conns
}.

Definition isURL (w : outside) (val : string) : bool :=
  match url_Parse w val with
  | Err _ => false
  | Ok u => bool_decide (url_Host u ≠ "") && bool_decide (url_Scheme u = "https") &&
            HasSuffix (url_Path u) ".wasm"
  end.

Definition findModuleDotYaml (w : outside) (moduleArg : string) : result (option Module_) :=
  let path := replace_all (Base moduleArg) ".module.yml" 0 moduleArg in
  match disk w path with
  | None => Ok None
  | Some (Err e) => Err (ErrWrap e "failed to ReadFile")
  | Some (Ok bytes) =>
      match yaml_Unmarshal w bytes with
      | Err e => Err (ErrWrap e "failed to Unmarshal")
      | Ok m => Ok (Some m)
      end
  end.

(** The three kinds of argument: the argument, the module, the name and the
    capabilities after it. *)
Definition resolve_arg (w : outside) (opts : SatOptions) (moduleArg : string) :
    outcome (result (string * option Module_ * FQMN_ * Caps)) :=
  if isURL w moduleArg then
    Val match downloadFromURL w moduleArg with
        | Err e => Err (ErrWrap e "failed to downloadFromURL")
        | Ok tmpFile => Ok (tmpFile, None, mkFQMN "" "", DefaultCapabilityConfig)
        end
  else
    match fqmn_Parse w moduleArg with
    | (fq, None) =>
        match so_ControlPlane opts with
        | None => Val (Ok (moduleArg, None, fq, DefaultCapabilityConfig))
        | Some _ =>
            Val match client_GetModule w moduleArg with
                | Err e => Err (ErrWrap e "failed to GetModule")
                | Ok m =>
                    match ResolveCapabilities w (fq_Tenant fq) (fq_Namespace fq) with
                    | Err e => Err (ErrWrap e "failed to capabilities.Render")
                    | Ok caps => Ok (moduleArg, m, fq, caps)
                    end
                end
        end
    | (fq, Some _) =>
        match findModuleDotYaml w moduleArg with
        | Err e => Val (Err (ErrWrap e "failed to findModuleDotYaml"))
        | Ok diskModule =>
            match diskModule, so_Ident opts, so_Version opts with
            | Some _, Some _, Some _ => Panic NilDeref     (* module.Namespace *)
            | _, _, _ => Val (Ok (moduleArg, diskModule, fq, DefaultCapabilityConfig))
            end
        end
    end.

(** The rest: the names, the port and the connections. *)
Definition assemble (w : outside) (opts : SatOptions) (arg : string) (module : option Module_)
    (fq : FQMN_) (caps : Caps) : outcome (result Config) :=
  let portInt := (Atoi (so_Port opts)).1 in
  let base := TrimSuffix (Base arg) ".wasm" in
  '(jobType, prettyName) ←
    match module with
    | Some m =>
        if decide (m_FQMN m ≠ "") then
          u ← slice_to (so_ProcUUID opts) 6;
          Val (m_FQMN m, m_FQMN m +:+ "-" +:+ u)
        else Val (base, base)
    | None => Val (base, base)
    end;
  Val match (if decide (so_Connections opts ≠ "") then json_Connections w (so_Connections opts)
             else Ok no_connections) with
      | Err e => Err (ErrWrap e "failed to Unmarshal connections JSON")
      | Ok conns =>
          Ok (mkConfig arg jobType prettyName module (fq_Tenant fq) caps conns portInt
                (default "" (so_ControlPlane opts)) (so_ProcUUID opts))
      end.

Definition ConfigFromModuleArg (w : outside) (resolved : result SatOptions) (moduleArg : string) :
    outcome (result Config) :=
  match resolved with
  | Err e => Val (Err (ErrWrap e "ConfigFromModuleArg options.Resolve"))
  | Ok opts =>
      match so_ControlPlane opts, client_Start w with
      | Some _, Some e => Val (Err (ErrWrap e "failed to systemSource.Start"))
      | _, _ =>
          r ← resolve_arg w opts moduleArg;
          match r with
          | Err e => Val (Err e)
          | Ok (arg, module, fq, caps) => assemble w opts arg module fq caps
          end
      end
  end.

(** [args] are the arguments that are left after the flags. *)
Definition ConfigFromArgs (w : outside) (resolved : result SatOptions) (args : list string) : outcome (result Config) :=
  match args with
  | [] => Val (Err (ErrNew "missing argument: module (path, URL or FQMN)"))
  | moduleArg :: _ => ConfigFromModuleArg w resolved moduleArg
  end.

(** ** Panics *)

Lemma assemble_ok w opts arg module fq caps r :
  assemble w opts arg module fq caps = Val (Ok r) →
  ControlPlaneUrl r = default "" (so_ControlPlane opts) ∧ cfg_Tenant r = fq_Tenant fq ∧
  cfg_ProcUUID r = so_ProcUUID opts ∧ cfg_Module r = module ∧ CapConfig r = caps ∧
  ∀ m, module = Some m → m_FQMN m ≠ "" → JobType r = m_FQMN m.
Proof.
  unfold assemble. destruct (match module with Some m => _ | None => _ end) as [[j q]|] eqn:E; run; [|done].
  destruct (if decide _ then _ else _) as [conns|]; [|done]. intros [= <-]. simpl. split_and!; try done.
  intros m -> Hm. rewrite decide_True in E by done. destruct (slice_to _ _); run; [|done]. by injection E as <- _.
Qed.

Lemma assemble_returns w opts arg module fq caps :
  6 ≤ String.length (so_ProcUUID opts) → ∃ r, assemble w opts arg module fq caps = Val r.
Proof.
  intros Hu. assert (∃ u, slice_to (so_ProcUUID opts) 6 = Val u) as [u Hs].
  { unfold slice_to. rewrite decide_True by lia. by eexists. }
  unfold assemble. rewrite Hs. destruct module as [m|]; [destruct (decide (m_FQMN m ≠ ""))|]; run; by eexists.
Qed.

(** With a process UUID of at least six bytes ConfigFromModuleArg panics exactly
    for an argument that is neither a URL nor an FQMN, next to which a .module.yml
    is found, when both an ident and a version are set. *)
Theorem config_panics_iff w opts arg p :
  6 ≤ String.length (so_ProcUUID opts) →
  ConfigFromModuleArg w (Ok opts) arg = Panic p ↔
    p = NilDeref ∧ (so_ControlPlane opts = None ∨ client_Start w = None) ∧
    isURL w arg = false ∧ (fqmn_Parse w arg).2 ≠ None ∧
    (∃ m, findModuleDotYaml w arg = Ok (Some m)) ∧ so_Ident opts ≠ None ∧ so_Version opts ≠ None.
Proof.
  intros Hu.
  assert (Hrest : ConfigFromModuleArg w (Ok opts) arg = Panic p ↔
    (so_ControlPlane opts = None ∨ client_Start w = None) ∧ resolve_arg w opts arg = Panic p).
  { assert ((r ← resolve_arg w opts arg; match r with Err e => Val (Err e)
        | Ok (arg, module, fq, caps) => assemble w opts arg module fq caps end) = Panic p ↔
      resolve_arg w opts arg = Panic p) as Hbind.
    { destruct (resolve_arg w opts arg) as [[[[[arg' m] fq] caps]|e']|p']; run; [|done|naive_solver].
      destruct (assemble_returns w opts arg' m fq caps Hu) as [r ->]. done. }
    unfold ConfigFromModuleArg.
    destruct (so_ControlPlane opts) as [cp|], (client_Start w) as [e|]; rewrite ?Hbind; naive_solver. }
  rewrite Hrest. unfold resolve_arg. destruct (isURL w arg); [naive_solver|].
  destruct (fqmn_Parse w arg) as [fq [e|]]; simpl; [|destruct (so_ControlPlane opts); naive_solver].
  destruct (findModuleDotYaml w arg) as [[m|]|e']; [|naive_solver..].
  destruct (so_Ident opts), (so_Version opts); naive_solver.
Qed.

(** A runner that joins a tenant: its job type is the FQMN of the module that
    the control plane gave, its tenant the one of the argument. *)
Theorem config_joins w opts arg cp fq c :
  so_ControlPlane opts = Some cp → isURL w arg = false → fqmn_Parse w arg = (fq, None) →
  ConfigFromModuleArg w (Ok opts) arg = Val (Ok c) →
  ControlPlaneUrl c = cp ∧ cfg_Tenant c = fq_Tenant fq ∧ cfg_ProcUUID c = so_ProcUUID opts ∧
  client_GetModule w arg = Ok (cfg_Module c) ∧
  ResolveCapabilities w (fq_Tenant fq) (fq_Namespace fq) = Ok (CapConfig c) ∧
  ∀ m, cfg_Module c = Some m → m_FQMN m ≠ "" → JobType c = m_FQMN m.
Proof.
  intros Hcp Hurl Hfq. unfold ConfigFromModuleArg, resolve_arg. rewrite Hurl, Hfq, Hcp.
  destruct (client_Start w); [done|]. destruct (client_GetModule w arg) as [om|] eqn:Em; [|done].
  destruct (ResolveCapabilities _ _ _) as [caps|] eqn:Ec; [|done]. run.
  intros (H1 & H2 & H3 & H4 & H5 & H6)%assemble_ok. rewrite Hcp in H1. subst. by split_and!.
Qed.

End Config.

(** ** Examples *)

(** A runner for a module on disk, outside a control plane. *)
Definition example_outside : outside (Caps := unit) (Conns := unit) :=
  mkOutside (λ _, Err (ErrExt "parse")) (λ _, Err (ErrExt "get")) (λ _, (mkFQMN "" "", Some (ErrExt "not an FQMN")))
    (λ t n m v, Ok (t +:+ "/" +:+ n +:+ "/" +:+ m +:+ "@" +:+ v)) None (λ _, Err (ErrExt "offline"))
    (λ _ _, Err (ErrExt "offline"))
    (λ p, if decide (p = "mods/hello/.module.yml") then Some (Ok "yaml") else None)
    (λ _, Ok (mkModule "ref" "" "hello" "default")) (λ _, Ok ()).

Definition example_opts (ident version : option string) : SatOptions :=
  mkSatOptions "8080" "63147f8b-cd25-4eba-acc2-6ff48e6970b6" None ident version "".

Example config_from_disk :
  ConfigFromModuleArg () () example_outside (Ok (example_opts None None)) "mods/hello/hello.wasm" =
  Val (Ok (mkConfig "mods/hello/hello.wasm" "hello" "hello" (Some (mkModule "ref" "" "hello" "default")) "" () ()
             8080 "" "63147f8b-cd25-4eba-acc2-6ff48e6970b6")).
Proof. vm_compute. reflexivity. Qed.

(** With an identity in the environment the same module makes it panic. *)
Lemma config_panics_iff_witness :
  ConfigFromModuleArg () () example_outside (Ok (example_opts (Some "acme") (Some "v1"))) "mods/hello/hello.wasm"
  = Panic NilDeref.
Proof.
  apply (config_panics_iff () () example_outside (example_opts (Some "acme") (Some "v1")) "mods/hello/hello.wasm" NilDeref).
  - vm_compute. lia.
  - split_and!; [reflexivity|by left|reflexivity|discriminate| |discriminate|discriminate].
    eexists. vm_compute. reflexivity.
Defined.

(** The directory's name is replaced too when it is that of the file. *)
Example module_yml_of_same_name :
  replace_all (Base "hello/hello") ".module.yml" 0 "hello/hello" = ".module.yml/.module.yml".
Proof. vm_compute. reflexivity. Qed.

Example Atoi_examples :
  (Atoi "8080").1 = 8080%Z ∧ (Atoi "-7").1 = (-7)%Z ∧ (Atoi "80a").1 = 0%Z ∧
  (Atoi "9999999999999999999").1 = (2 ^ 63 - 1)%Z.
Proof. vm_compute. done. Qed.
