(* ===== verification/SourceServer.v ===== *)
(** * The system source over HTTP: e2core/sourceserver/server.go, bundle.go

    A handler is a function of the path's parameters.  The system source and the
    names of modules are other modules': [Source] is the record of the operations
    that the handlers call, [J] is what they answer and what is sent as JSON.  The
    router is a table of paths and handlers. *)

From S2P Require Import Prelude.
From S2P Require Import SatConfig.
From Stdlib Require Import Ascii.

(** Sentinels of the system source. *)
Definition ErrModuleNotFound : error := ErrNew "module not found".
Definition ErrAuthenticationFailed : error := ErrNew "failed to authenticate".

Section SourceServer.
Context {J : Type}.

Record Source : Type := mkSource {
  src_State : result J;
  src_Overview : result J;
  src_TenantOverview : string → result J;
  src_GetModule : string → result J;
  src_Workflows : string → string → Z → result J;
  src_Connections : string → string → Z → result J;
  src_Authentication : string → string → Z → result J;
  src_Capabilities : string → string → Z → result J
}.

(** What a handler does: JSON with status 200, or an HTTP error with its status
    and the internal error. *)
Inductive answer : Type := JSON (v : J) | HTTPError (status : Z) (internal : error).

Definition status_of (a : answer) : Z := match a with JSON _ => 200 | HTTPError s _ => s end.

(** [c.Param] *)
Definition params : Type := string → string.
Definition handler : Type := params → answer.

Context (source : Source) (FromParts : string → string → string → string → result string).

(** The end of most handlers. *)
Definition reply (r : result J) (msg : string) : answer :=
  match r with
  | Err e => HTTPError 500 (ErrWrap e msg)
  | Ok v => JSON v
  end.

Definition StateHandler : handler := λ _, reply (src_State source) "es.source.State()".

Definition OverviewHandler : handler := λ _, reply (src_Overview source) "es.source.Overview()".

Definition TenantOverviewHandler : handler := λ c,
  reply (src_TenantOverview source (c "ident")) "es.source.TenantOverview()".

Definition GetModuleHandler : handler := λ c,
  match FromParts (c "ident") (c "namespace") (c "mod") (c "ref") with
  | Err e => HTTPError 500 (ErrWrap e "fqmn.FromParts")
  | Ok fqmnString =>
      match src_GetModule source fqmnString with
      | Err e =>
          if errors_Is e ErrModuleNotFound then HTTPError 404 e
          else if errors_Is e ErrAuthenticationFailed then HTTPError 401 e
          else HTTPError 500 (ErrWrap e "es.source.GetModule")
      | Ok module => JSON module
      end
  end.

(** The four handlers of a tenant's namespace at a version. *)
Definition versioned (op : string → string → Z → result J) (msg : string) : handler := λ c,
  match Atoi (c "version") with
  | (_, Some e) => HTTPError 400 (ErrWrap e "strconv.Atoi")
  | (version, None) => reply (op (c "ident") (c "namespace") version) msg
  end.

Definition WorkflowsHandler : handler := versioned (src_Workflows source) "es.source.Workflows".
Definition ConnectionsHandler : handler := versioned (src_Connections source) "es.source.Connections".
Definition AuthenticationHandler : handler := versioned (src_Authentication source) "es.source.Authentication".
Definition CapabilitiesHandler : handler := versioned (src_Capabilities source) "es.source.Capabilities".

(** The routes of a group with a prefix: the paths are put together as they are. *)
Definition group_routes (prefix : string) : list (string * handler) :=
  (λ x, (prefix +:+ x.1, x.2)) <$>
  [("/state", StateHandler);
   ("/overview", OverviewHandler);
   ("/tenant/:ident", TenantOverviewHandler);
   ("/module/:ident/:ref/:namespace/:mod", GetModuleHandler);
   ("/workflows/:ident/:namespace/:version", WorkflowsHandler);
   ("/connections/:ident/:namespace/:version", ConnectionsHandler);
   ("/authentication/:ident/:namespace/:version", AuthenticationHandler);
   ("/capabilities/:ident/:namespace/:version", CapabilitiesHandler)].

Definition Routes : list (string * handler) := group_routes "/".

Definition Attach (prefix : string) (e : list (string * handler)) : result (list (string * handler)) :=
  let prefix1 := if decide (prefix = "") then "/" else prefix in
  if String.prefix "/" prefix1 then Ok (e ++ group_routes prefix1)
  else Err (ErrNew "prefix must start with a / character").

(** [FromBundle]: [start] is the error of starting the bundle source. *)
Definition FromBundle (start : option error) : result (list (string * handler)) :=
  match start with
  | Some e => Err (ErrWrap e "failed to Start bundle source")
  | None =>
      match Attach "/system/v1" [] with
      | Err e => Err (ErrWrap e "es.Attach with /system/v1 prefix")
      | Ok e => Ok e
      end
  end.

(** [Start]: [serve] is how the server ends. *)
Definition Start (e : option (list (string * handler))) (serve : option error) : option error :=
  match e with
  | None => None
  | Some _ => (λ err, ErrWrap err "failed to e.Start") <$> serve
  end.

(** ** What is answered *)

Lemma reply_ok r msg v : reply r msg = JSON v ↔ r = Ok v.
Proof. destruct r; simpl; split; congruence. Qed.

(** The versioned handlers: the version is read first; with a number that fits
    64 bits the answer is that of the source, else the request is bad. *)
Lemma versioned_spec op msg c :
  (∀ v, versioned op msg c = JSON v ↔
        ∃ n, Atoi (c "version") = (n, None) ∧ op (c "ident") (c "namespace") n = Ok v) ∧
  (status_of (versioned op msg c) = 400%Z ↔ is_Some (Atoi (c "version")).2) ∧
  (status_of (versioned op msg c) = 500%Z ↔
     ∃ n e, Atoi (c "version") = (n, None) ∧ op (c "ident") (c "namespace") n = Err e).
Proof.
  unfold versioned. destruct (Atoi (c "version")) as [n [e|]]; simpl.
  - split_and!; [intros v; split; [done|intros (? & [=] & _)]|by split; eauto|split; [done|intros (? & ? & [=] & _)]].
  - split_and!.
    + intros v. rewrite reply_ok. split; [eauto|]. by intros (n' & [= <-] & ->).
    + destruct (op _ _ n); simpl; (split; [done|intros [? [=]]]).
    + destruct (op (c "ident") (c "namespace") n) as [v|e] eqn:E; simpl; split; try done; [|eauto].
      intros (n' & e & [= <-] & E'). congruence.
Qed.

(** The handler of a module answers with the module that the source has under the
    name made of the parameters, with status 404 when the error is that there is
    no such module, with 401 when it is a failed authentication, and with 500
    otherwise. *)
Theorem get_module_status c v :
  (GetModuleHandler c = JSON v ↔
     ∃ q, FromParts (c "ident") (c "namespace") (c "mod") (c "ref") = Ok q ∧ src_GetModule source q = Ok v) ∧
  (status_of (GetModuleHandler c) = 404%Z ↔
     ∃ q e, FromParts (c "ident") (c "namespace") (c "mod") (c "ref") = Ok q ∧ src_GetModule source q = Err e ∧
       errors_Is e ErrModuleNotFound = true) ∧
  (status_of (GetModuleHandler c) = 401%Z ↔
     ∃ q e, FromParts (c "ident") (c "namespace") (c "mod") (c "ref") = Ok q ∧ src_GetModule source q = Err e ∧
       errors_Is e ErrModuleNotFound = false ∧ errors_Is e ErrAuthenticationFailed = true) ∧
  (status_of (GetModuleHandler c) ∈ [200; 401; 404; 500]%Z).
Proof.
  assert (∀ s, s = 200 ∨ s = 401 ∨ s = 404 ∨ s = 500 → s ∈ [200; 401; 404; 500])%Z as Hin.
  { intros s. rewrite !elem_of_cons. tauto. }
  unfold GetModuleHandler. destruct (FromParts _ _ _ _) as [q|e]; simpl; [|split_and!; naive_solver].
  destruct (src_GetModule source q) as [m|e] eqn:E.
  { split_and!; [| | |simpl; auto]; simpl; (split; [try done|]).
    - intros [= <-]. by exists q.
    - intros (q0 & [= <-] & E'). congruence.
    - intros (q0 & e0 & [= <-] & E' & _). congruence.
    - intros (q0 & e0 & [= <-] & E' & _). congruence. }
  assert (∀ v, (∃ q0, Ok q = Ok q0 ∧ src_GetModule source q0 = Ok v) → False) as Hno.
  { intros v' (q0 & [= <-] & E'). congruence. }
  assert (∀ P : error → Prop, (∃ q0 e0, Ok q = Ok q0 ∧ src_GetModule source q0 = Err e0 ∧ P e0) ↔ P e) as Hiff.
  { intros P. split; [|intros HP; by exists q, e]. intros (q0 & e0 & [= <-] & E' & HP). congruence. }
  rewrite (Hiff (λ e, errors_Is e ErrModuleNotFound = true)),
    (Hiff (λ e, errors_Is e ErrModuleNotFound = false ∧ errors_Is e ErrAuthenticationFailed = true)).
  destruct (errors_Is e ErrModuleNotFound) eqn:E1; [|destruct (errors_Is e ErrAuthenticationFailed) eqn:E2];
    (split_and!; [split; [done|by intros []%Hno]|by split; intros; destruct_and?|by split; intros; destruct_and?|simpl; auto]).
Qed.

(** A prefix is taken when it is empty or starts with a slash, and the routes of
    the server of a bundle are those of the documentation. *)
Theorem Attach_ok_iff prefix e :
  (∃ e', Attach prefix e = Ok e') ↔ prefix = "" ∨ String.prefix "/" prefix = true.
Proof.
  unfold Attach. case_decide as Hp.
  - simpl. naive_solver.
  - destruct (String.prefix "/" prefix); split; try naive_solver.
Qed.

Lemma FromBundle_routes :
  match FromBundle None with Ok es => map fst es | Err _ => [] end =
      ["/system/v1/state"; "/system/v1/overview"; "/system/v1/tenant/:ident";
        "/system/v1/module/:ident/:ref/:namespace/:mod"; "/system/v1/workflows/:ident/:namespace/:version";
        "/system/v1/connections/:ident/:namespace/:version"; "/system/v1/authentication/:ident/:namespace/:version";
        "/system/v1/capabilities/:ident/:namespace/:version"].
Proof. reflexivity. Qed.

(** Without a prefix every path starts with two slashes. *)
Lemma empty_prefix_routes e :
  Attach "" e = Ok (e ++ Routes) ∧ Forall (λ x, String.prefix "//" x.1 = true) Routes.
Proof. split; [reflexivity|]. by repeat constructor. Qed.

End SourceServer.
