(* ===== verification/Startup.v ===== *)
(** * Starting and stopping the processes: sat/sat/sat.go, sat/main.go,
    sat/sat/embedded.go, sat/sat/from_url.go, sat/sat/tracing.go,
    sat/sat/metrics/, sat/engine2/engine.go, e2core/command/mod_start.go,
    e2core/server/init.go

    The set-up of tracing and metrics, the making of a runner and of its engine,
    and the two programs that run one until a signal or an error.  Files, the
    network, signals and the tracing library are arguments. *)

From S2P Require Import Prelude.
From S2P Require Import Interfaces.
From S2P Require Import Options.
From S2P Require Worker.
From S2P Require Import Sequence.
From S2P Require Import WasmRunner.
From S2P Require Import Procfile.
From S2P Require SatConfig.
From S2P Require Import Access.

Definition wrap (msg : string) (e : option error) : option error := (λ e, ErrWrap e msg) <$> e.

(** ** Tracing *)

Section Tracing.
Context {Conn Provider : Type}.

(** The configuration; [None] is a nil pointer. *)
Record HoneycombConfig : Type := mkHoneycomb { hc_Endpoint : string; APIKey : string; Dataset : string }.

Record TracerConfig : Type := mkTracer {
  TracerType : string;
  Collector : option string;                    (* its endpoint *)
  tc_Honeycomb : option HoneycombConfig
}.

Record observability : Type := mkObservability {
  GrpcConnection : string → result Conn;
  HoneycombTracer : Conn → string → string → result Provider;
  OtelTracer : Conn → result Provider;
  NoopTracer : result Provider
}.
Context (lib : observability).

(** The runner's. *)
Definition SetupTracing (c : TracerConfig) : result Provider :=
  if decide (TracerType c = "honeycomb") then
    match tc_Honeycomb c with
    | None => Err (ErrNew "missing honeycomb tracing config values")
    | Some h =>
        match GrpcConnection lib (hc_Endpoint h) with
        | Err e => Err (ErrWrap e "honeycomb GrpcConnection")
        | Ok conn =>
            match HoneycombTracer lib conn (APIKey h) (Dataset h) with
            | Err e => Err (ErrWrap e "observability.HoneycombTracer")
            | Ok tp => Ok tp
            end
        end
    end
  else if decide (TracerType c = "collector") then
    match Collector c with
    | None => Err (ErrNew "missing collector tracing config values")
    | Some endpoint =>
        match GrpcConnection lib endpoint with
        | Err e => Err (ErrWrap e "collector GrpcConnection")
        | Ok conn =>
            match OtelTracer lib conn with
            | Err e => Err (ErrWrap e "observability.OtelTracer")
            | Ok tp => Ok tp
            end
        end
    end
  else
    match NoopTracer lib with
    | Err e => Err (ErrWrap e "noop Tracer")
    | Ok tp => Ok tp
    end.

(** The control process's: the provider whose method [Shutdown] is returned, nil
    when [OtelTracer] failed, whose error is dropped. *)
Definition setupTracing (c : TracerConfig) : outcome (result (option Provider)) :=
  if decide (TracerType c = "honeycomb") then
    match tc_Honeycomb c with
    | None => Panic NilDeref
    | Some h =>
        match GrpcConnection lib (hc_Endpoint h) with
        | Err e => Val (Err (ErrWrap e ("observability.GrpcConnection to " +:+ hc_Endpoint h)))
        | Ok conn =>
            match HoneycombTracer lib conn (APIKey h) (Dataset h) with
            | Err e => Val (Err (ErrWrap e "observability.HoneycombTracer"))
            | Ok tp => Val (Ok (Some tp))
            end
        end
    end
  else if decide (TracerType c = "collector") then
    match Collector c with
    | None => Panic NilDeref
    | Some endpoint =>
        match GrpcConnection lib endpoint with
        | Err e => Val (Err (ErrWrap e "observability.GrpcConnection"))
        | Ok conn =>
            match OtelTracer lib conn with
            | Err _ => Val (Ok None)
            | Ok tp => Val (Ok (Some tp))
            end
        end
    end
  else
    match NoopTracer lib with
    | Err e => Val (Err (ErrWrap e "observability.NoopTracer"))
    | Ok tp => Val (Ok (Some tp))
    end.

(** The set-up of tracing in the control process does what that of a runner does,
    except that it panics where the runner reports a missing configuration, and
    that it goes on with a nil provider where the runner reports that OtelTracer
    failed. *)
Theorem tracing_setups_agree c :
  match setupTracing c with
  | Panic p => p = NilDeref ∧ (∃ text, SetupTracing c = Err (ErrNew text)) ∧
      (TracerType c = "honeycomb" ∧ tc_Honeycomb c = None ∨ TracerType c = "collector" ∧ Collector c = None)
  | Val (Ok (Some tp)) => SetupTracing c = Ok tp
  | Val (Ok None) => TracerType c = "collector" ∧ ∃ conn e, OtelTracer lib conn = Err e ∧
      SetupTracing c = Err (ErrWrap e "observability.OtelTracer")
  | Val (Err (ErrWrap e _)) => ∃ msg, SetupTracing c = Err (ErrWrap e msg)
  | Val (Err _) => False
  end.
Proof.
  unfold setupTracing, SetupTracing. destruct (decide (TracerType c = "honeycomb")) as [Ht|Ht].
  - destruct (tc_Honeycomb c) as [h|]; [|split; [done|]; split; [eauto|by left]].
    destruct (GrpcConnection lib (hc_Endpoint h)) as [conn|]; [|by eexists].
    destruct (HoneycombTracer lib conn (APIKey h) (Dataset h)); [done|by eexists].
  - destruct (decide (TracerType c = "collector")) as [Hc|Hc].
    + destruct (Collector c) as [endpoint|]; [|split; [done|]; split; [eauto|by right]].
      destruct (GrpcConnection lib endpoint) as [conn|]; [|by eexists].
      destruct (OtelTracer lib conn) eqn:E; [done|]. split; [done|]. by eexists _, _.
    + destruct (NoopTracer lib); [done|by eexists].
Qed.

End Tracing.

(** ** Metrics *)

Section Metrics.
Context {Conn M : Type} (noop : M).

(** [setupOtelMetrics]; [configure] is [configureMetrics]. *)
Definition setupOtelMetrics (endpoint : option string) (grpc : string → result Conn)
    (meter : Conn → option error) (configure : result M) : result M :=
  match endpoint with
  | None => Err (ErrNew "resolving otel metrics is missing configuration values")
  | Some ep =>
      match grpc ep with
      | Err e => Err (ErrWrap e "otel metrics grpc connection")
      | Ok conn =>
          match meter conn with
          | Some e => Err (ErrWrap e "observability.OtelMeter")
          | None => configure
          end
      end
  end.

Definition ResolveMetrics (kind : string) (endpoint : option string) (grpc : string → result Conn)
    (meter : Conn → option error) (configure : result M) : result M :=
  if decide (kind = "otel") then setupOtelMetrics endpoint grpc meter configure else Ok noop.

End Metrics.

(** *** The instruments *)

Section Instruments.
Context {Conn Counter Histogram : Type}.

Record Metrics : Type := mkInstruments {
  FunctionExecutions : Counter; FailedFunctionExecutions : Counter; FunctionTime : Histogram
}.

Definition SetupNoopMetrics (counter : Counter) (histogram : Histogram) : Metrics := mkInstruments counter counter histogram.

(** [counter] and [histogram] are what the meter makes of a name. *)
Definition configureMetrics (counter : string → result Counter) (histogram : string → result Histogram) : result Metrics :=
  match counter "function_executions" with
  | Err e => Err (ErrWrap e "sync int 64 provider function_executions")
  | Ok executions =>
      match counter "failed_function_executions" with
      | Err e => Err (ErrWrap e "sync int 64 provider failed_function_executions")
      | Ok failed =>
          match histogram "function_time" with
          | Err e => Err (ErrWrap e "sync int 64 provider function_time")
          | Ok time => Ok (mkInstruments executions failed time)
          end
      end
  end.

(** The metrics of a runner are set up exactly when they are not asked for, or when
    the endpoint is configured, the connection and the meter work, and the meter
    makes all three instruments. *)
Lemma ResolveMetrics_ok kind endpoint (grpc : string → result Conn) meter counter histogram c h m :
  ResolveMetrics (SetupNoopMetrics c h) kind endpoint grpc meter (configureMetrics counter histogram) = Ok m ↔
  if decide (kind = "otel")
  then ∃ ep conn, endpoint = Some ep ∧ grpc ep = Ok conn ∧ meter conn = None ∧
         counter "function_executions" = Ok (FunctionExecutions m) ∧
         counter "failed_function_executions" = Ok (FailedFunctionExecutions m) ∧
         histogram "function_time" = Ok (FunctionTime m)
  else m = SetupNoopMetrics c h.
Proof.
  unfold ResolveMetrics, setupOtelMetrics, configureMetrics. case_decide; [|naive_solver]. split.
  - destruct endpoint as [ep|]; [|done]. destruct (grpc ep) as [conn|] eqn:E1; [|done].
    destruct (meter conn) eqn:E2; [done|]. destruct (counter _) eqn:E3; [|done].
    destruct (counter "failed_function_executions") eqn:E4; [|done]. destruct (histogram _) eqn:E5; [|done].
    intros [= <-]. by exists ep, conn.
  - intros (ep & conn & -> & -> & -> & -> & -> & ->). by destruct m.
Qed.

(** [Timer]: times are nanoseconds. *)
Record Timer : Type := mkTimer { timer_start : Z }.
Definition NewTimer (now : Z) : Timer := mkTimer now.
Definition Observe (t : Timer) (now : Z) : Z := ((now - timer_start t) `quot` 1000000)%Z.

(** Whole milliseconds, rounded down, of a clock that does not go back. *)
Lemma Observe_bounds start now :
  (start ≤ now)%Z → (Observe (NewTimer start) now * 1000000 ≤ now - start < (Observe (NewTimer start) now + 1) * 1000000)%Z.
Proof. intros Hs. unfold Observe, NewTimer, timer_start. rewrite Z.quot_div_nonneg by lia.
  pose proof (Z.div_mod (now - start) 1000000). pose proof (Z.mod_pos_bound (now - start) 1000000). lia. Qed.

End Instruments.

(** ** The engine *)

(** [New]: the options with which the module's runner is registered. *)
Definition engine_opts (numCPU : Z) : list (Worker.workerOpts → Worker.workerOpts) :=
  [Worker.Autoscale numCPU 24; Worker.MaxRetries 0; Worker.RetrySeconds 0; Worker.PreWarm].

Definition engine_New (numCPU : Z) (name : string) : Worker.scaler :=
  Worker.core_register Worker.newScaler name (engine_opts numCPU).

(** The module's job type is registered and no other; the pool has between one and
    24 threads, and a thread that cannot be added is not tried again. *)
Theorem engine_registered numCPU name :
  Worker.autoscaling (engine_New numCPU name) = true ∧
  ∃ w, Worker.findWorker (engine_New numCPU name) name = Some w ∧
    (∀ jt, Worker.hasWorker (engine_New numCPU name) jt = true ↔ jt = name) ∧
    Worker.poolSize (Worker.options w) = 1%Z ∧ Worker.autoscaleMax (Worker.options w) = 24%Z ∧
    Worker.numRetries (Worker.options w) = 0%Z ∧ Worker.preWarm (Worker.options w) = true.
Proof.
  split; [reflexivity|].
  exists (Worker.newWorker (foldl (λ o f, f o) (Worker.defaultOpts name) (engine_opts numCPU))).
  assert (Worker.findWorker (engine_New numCPU name) name =
    Some (Worker.newWorker (foldl (λ o f, f o) (Worker.defaultOpts name) (engine_opts numCPU)))) as E.
  { unfold engine_New, Worker.core_register, Worker.findWorker; simpl. by rewrite lookup_insert_eq. }
  split; [exact E|]. split; [|done]. intros jt. unfold Worker.hasWorker. destruct (decide (jt = name)) as [->|Hne].
  - by rewrite E.
  - unfold engine_New, Worker.core_register, Worker.findWorker; simpl. rewrite lookup_insert_ne by done.
    rewrite lookup_empty. done.
Qed.

(** The name of the module of a file. *)
Definition WasmRefFromFile (file : string → result string) (filename : string) : result (string * string) :=
  match file filename with
  | Err e => Err (ErrWrap e "failed to Open")
  | Ok data => Ok (TrimSuffix (SatConfig.Base filename) ".wasm", data)
  end.

(** [file] answers the opening of a file and the reading of what was opened; the
    reference is its name, FQMN and data. *)
Definition refFromFilename (file : string → result (result string)) (name fqmn filename : string) :
    result (string * string * string) :=
  match file filename with
  | Err e => Err (ErrWrap e "failed to os.Open")
  | Ok (Err e) => Err (ErrWrap e "failed to ReadAll")
  | Ok (Ok data) => Ok (name, fqmn, data)
  end.

(** ** A runner *)

(** [downloadFromURL]: [answer] is what the HTTP client answers; the file is in a
    directory that all runners share. *)
Definition downloadFromURL (tmp : string) (parse : string → result string) (answer : result (Z * string))
    (mkdir : option error) (URL : string) (fs : gmap string string) : result string * gmap string string :=
  match parse URL with
  | Err e => (Err (ErrWrap e "failed to url.Parse"), fs)
  | Ok path =>
      let name := SatConfig.Base path in
      match answer with
      | Err e => (Err (ErrWrap e "failed to Do request"), fs)
      | Ok (status, body) =>
          if decide (status ≠ 200%Z) then (Err (ErrNew "failed to download with status code"), fs)
          else
            let dir := path_Join [tmp; "suborbital"; "blocks"] in
            match mkdir with
            | Some e => (Err (ErrWrap e "failed to MkdirAll"), fs)
            | None => let filename := path_Join [dir; name] in (Ok filename, <[filename := body]> fs)
            end
      end
  end.

(** Two URLs whose paths end alike are one file: the later download is what both
    runners read. *)
Lemma downloads_share_file tmp parse p1 p2 b1 b2 u1 u2 fs :
  parse u1 = Ok p1 → parse u2 = Ok p2 → SatConfig.Base p1 = SatConfig.Base p2 →
  let '(r1, fs1) := downloadFromURL tmp parse (Ok (200%Z, b1)) None u1 fs in
  let '(r2, fs2) := downloadFromURL tmp parse (Ok (200%Z, b2)) None u2 fs1 in
  r1 = r2 ∧ ∃ f, r1 = Ok f ∧ fs2 !! f = Some b2.
Proof.
  intros H1 H2 Hb. unfold downloadFromURL. rewrite H1, H2. destruct (decide (200 ≠ 200)%Z); [done|]. rewrite Hb.
  split; [done|]. eexists. split; [done|]. by rewrite lookup_insert_eq.
Qed.

(** The parts of a [Sat] that its operations read: the transport is there, the
    bus is there, the paths that its server answers, the module. *)
Record Sat : Type := mkSat {
  has_transport : bool;
  has_bus : bool;
  sat_routes : list string;
  sat_module : string
}.

(** [New]: [wasm] are the bytes of the configured module, when nothing on the way
    to them is nil. *)
Definition sat_New (controlPlane : string) (wasm : option string) (file : result string)
    (api : option error) : result Sat :=
  module ← match wasm with
           | Some d => if decide (d ≠ "") then Ok d
                       else match file with Err e => Err (ErrWrap e "faild to refFromFilename") | Ok d => Ok d end
           | None => match file with Err e => Err (ErrWrap e "faild to refFromFilename") | Ok d => Ok d end
           end;
  match api with
  | Some e => Err (ErrWrap e "failed to NewWithConfig")
  | None =>
      Ok (if decide (controlPlane ≠ "")
          then mkSat true false ["/meta/message"; "/meta/metrics"] module
          else mkSat false false ["*"] module)
  end.

(** The goroutine of [Start] that sets up the bus. *)
Definition sat_setupBus (s : Sat) : Sat :=
  if has_transport s then mkSat true true (sat_routes s) (sat_module s) else s.

Definition ErrServerClosed : error := ErrNew "http: Server closed".

(** [Start] returns when the server does, with [serverErr]. *)
Definition sat_Start (serverErr : error) : option error :=
  if errors_Is serverErr ErrServerClosed then None else Some (ErrWrap serverErr "failed to start server").

(** What a shutdown does, in order. *)
Inductive effect : Type := BusWithdraw | Sleep (seconds : Z) | BusStop | ProcessDelete | ServerShutdown.

(** [Shutdown]: the errors of the bus and of the process file are only logged. *)
Definition sat_Shutdown (s : Sat) (serverErr : option error) : outcome (option error * list effect) :=
  before ← (if has_transport s then
              if has_bus s then Val [BusWithdraw; Sleep 3; BusStop] else Panic NilDeref
            else Val []);
  Val (wrap "failed to echo.Shutdown()" serverErr, before ++ [ProcessDelete; ServerShutdown]).

(** A runner with a mesh that is shut down before the goroutine of [Start] has
    made the bus panics; any other shutdown goes through to the server, and a
    withdrawal comes before the bus is stopped and that before the server is. *)
Theorem sat_shutdown_spec cp wasm file api s serverErr (ready : bool) :
  sat_New cp wasm file api = Ok s →
  sat_Shutdown (if ready then sat_setupBus s else s) serverErr =
    if decide (cp ≠ "" ∧ ready = false) then Panic NilDeref
    else Val (wrap "failed to echo.Shutdown()" serverErr,
              (if decide (cp ≠ "") then [BusWithdraw; Sleep 3; BusStop] else []) ++ [ProcessDelete; ServerShutdown]).
Proof.
  unfold sat_New. destruct (match wasm with Some _ => _ | None => _ end) as [m|]; [|done]. simpl.
  destruct api; [done|]. intros [= <-]. destruct (decide (cp ≠ "")) as [Hc|Hc]; destruct ready; simpl.
  - rewrite decide_False by naive_solver. done.
  - rewrite decide_True by done. done.
  - rewrite decide_False by naive_solver. done.
  - rewrite decide_False by naive_solver. done.
Qed.

(** ** The programs *)

(** What the main goroutine receives first. *)
Inductive event : Type := ServerError (err : option error) | Signal.

(** The end of a program: its error, and whether it shut down its runner. *)
Record program_end : Type := mkEnd { end_err : option error; shut_down : bool }.

(** [start] of sat/main.go; [monitoring]: the goroutine of the monitor receives
    from its channel, else [Stop] blocks ([None]). *)
Definition sat_main (tracing metrics : option error) (s : result Sat) (monitor : option error)
    (ev : event) (monitoring ready : bool) (serverErr : option error) : option (outcome program_end) :=
  match tracing, metrics, s, monitor with
  | Some e, _, _, _ => Some (Val (mkEnd (Some (ErrWrap e "setup tracing")) false))
  | None, Some e, _, _ => Some (Val (mkEnd (Some (ErrWrap e "metrics.ResolveMetrics")) false))
  | None, None, Err e, _ => Some (Val (mkEnd (Some (ErrWrap e "sat.New")) false))
  | None, None, Ok _, Some e => Some (Val (mkEnd (Some (ErrWrap e "failed to createProcFile")) false))
  | None, None, Ok s, None =>
      match ev with
      | ServerError err => Some (Val (mkEnd (wrap "server error" err) false))
      | Signal =>
          if monitoring then
            Some (r ← sat_Shutdown (if ready then sat_setupBus s else s) serverErr;
                  Val (mkEnd (wrap "sat shutdown" r.1) true))
          else None
      end
  end.

(** The events of the two goroutines of [start]. *)
Definition server_event (serverErr : error) : event := ServerError (wrap "sat start" (sat_Start serverErr)).
Definition monitor_event (err : option error) : event := ServerError (wrap "monitor start" err).

(** The command [mod start] of the control program: [port] is its flag.  It has
    no monitor and no process file, and a server that ends without an error is
    not noticed. *)
Definition mod_start (config : result Z) (port : Z) (tracing metrics : option error) (s : result Sat)
    (ev : event) (ready : bool) (serverErr : option error) : option (outcome (program_end * Z)) :=
  match config with
  | Err e => Some (Val (mkEnd (Some (ErrWrap e "failed to ConfigFromModuleArg")) false, 0%Z))
  | Ok cfgPort =>
      let p := if decide (0 < port)%Z then port else cfgPort in
      match tracing, metrics, s with
      | Some e, _, _ => Some (Val (mkEnd (Some (ErrWrap e "setup tracing")) false, p))
      | None, Some e, _ => Some (Val (mkEnd (Some (ErrWrap e "metrics.ResolveMetrics")) false, p))
      | None, None, Err e => Some (Val (mkEnd (Some (ErrWrap e "failed to sat.New")) false, p))
      | None, None, Ok s =>
          match ev with
          | ServerError None => None
          | ServerError (Some e) => Some (Val (mkEnd (Some (ErrWrap (ErrWrap e "srv.Start") "server error: ")) false, p))
          | Signal =>
              Some (r ← sat_Shutdown (if ready then sat_setupBus s else s) serverErr;
                    Val (mkEnd (wrap "srv.Shutdown" r.1) true, p))
          end
      end
  end.

(** A runner that was started leaves the mesh exactly when it gets a signal, not
    when its server or its monitor ends; the program ends without an error exactly
    for a signal with a clean shutdown, or when what ended was no error. *)
Theorem sat_leaves_mesh_iff tracing metrics s monitor ev monitoring ready serverErr e :
  sat_main tracing metrics s monitor ev monitoring ready serverErr = Some (Val e) →
  (shut_down e = true ↔ ev = Signal ∧ tracing = None ∧ metrics = None ∧ (∃ s', s = Ok s') ∧ monitor = None) ∧
  (end_err e = None ↔ tracing = None ∧ metrics = None ∧ (∃ s', s = Ok s') ∧ monitor = None ∧
     match ev with Signal => serverErr = None | ServerError err => err = None end).
Proof.
  unfold sat_main. destruct tracing as [e1|]; [intros [= <-]; simpl; naive_solver|].
  destruct metrics as [e2|]; [intros [= <-]; simpl; naive_solver|].
  destruct s as [s'|e3]; [|intros [= <-]; simpl; naive_solver].
  destruct monitor as [e4|]; [intros [= <-]; simpl; naive_solver|].
  destruct ev as [err|].
  - intros [= <-]. simpl. destruct err; simpl; naive_solver.
  - destruct monitoring; [|done]. unfold sat_Shutdown.
    destruct (has_transport _); [destruct (has_bus _); [|done]|]; run; intros [= <-]; simpl;
      destruct serverErr; simpl; naive_solver.
Qed.

(** A runner whose process file is deleted ends with an error and without leaving
    the mesh. *)
Lemma procfile_deleted_no_withdrawal s e monitoring ready serverErr :
  sat_main None None (Ok s) None (monitor_event (Some e)) monitoring ready serverErr =
    Some (Val (mkEnd (Some (ErrWrap (ErrWrap e "monitor start") "server error")) false)).
Proof. reflexivity. Qed.

(** ** An embedded runner *)

Section Exec.
Context {WorkflowStep : Type} `{Codec (list (WorkflowStep * bool))} `{Codec CoordinatedRequest}.

(** The request that [Exec] makes of its input. *)
Definition exec_request (id input : string) : CoordinatedRequest := mkRequest id input (Some ∅) (Some ∅) "".

Definition Exec (r : job_end) : result CoordinatedResponse :=
  match r with
  | EndErr e => Err (ErrWrap e "failed to exec")
  | EndResponse resp => Ok resp
  | EndNil | EndOther => Err (ErrNew "response is not a coordinated response")
  end.

(** How a job of the module ends. *)
Definition module_end (r : result CoordinatedResponse) : job_end :=
  match r with Ok resp => EndResponse resp | Err e => EndErr e end.

(** An embedded runner answers its input with the output and headers of the
    module, or with the error of the run. *)
Theorem exec_answers id input useErr guest :
  let run := wasm_Run (WorkflowStep := WorkflowStep) (DataRequest (exec_request id input)) useErr guest in
  let g := guest (exec_request id input) in
  match Exec (module_end run) with
  | Ok resp => useErr = None ∧ g_writeErr g = None ∧ g_runErr g = None ∧ g_callErr g = None ∧
      resp = mkResponse (default "" (g_output g)) (g_headers g)
  | Err e => ∃ cause, e = ErrWrap cause "failed to exec" ∧ run = Err cause ∧
      (is_Some useErr ∨ is_Some (g_writeErr g) ∨ is_Some (g_runErr g) ∨ is_Some (g_callErr g))
  end.
Proof.
  intros run g. unfold run, wasm_Run. simpl job_request. unfold check_sequence. simpl req_SequenceJSON.
  cbn [mbind result_bind]. rewrite decide_True by done.
  destruct useErr as [e|]; cbn; [eauto 7|]. fold g.
  destruct (g_writeErr g) as [e|]; cbn; [eauto 7|]. destruct (g_runErr g) as [e|]; cbn; [eauto 7|].
  destruct (g_callErr g) as [e|]; cbn; [eauto 8|]. done.
Qed.

End Exec.

(** ** Examples *)

(** A runner with a mesh gets a signal. *)
Lemma sat_leaves_mesh_iff_witness :
  let s := mkSat true false ["/meta/message"; "/meta/metrics"] "module" in
  ∃ e, sat_main None None (Ok s) None Signal true true None = Some (Val e) ∧ shut_down e = true ∧ end_err e = None.
Proof.
  intros s.
  destruct (sat_leaves_mesh_iff None None (Ok s) None Signal true true None (mkEnd None true) eq_refl) as [H1 H2].
  exists (mkEnd None true). split; [reflexivity|]. split.
  - apply H1. split_and!; [reflexivity|reflexivity|reflexivity|by exists s|reflexivity].
  - apply H2. split_and!; [reflexivity|reflexivity|by exists s|reflexivity|reflexivity].
Defined.

Example download_example :
  downloadFromURL "/tmp" (λ _, Ok "/mods/hello.wasm") (Ok (200%Z, "wasm")) None "https://example.com/mods/hello.wasm" ∅ =
    (Ok "/tmp/suborbital/blocks/hello.wasm", {["/tmp/suborbital/blocks/hello.wasm" := "wasm"]}).
Proof. vm_compute. reflexivity. Qed.
