(* ===== verification/ControlServer.v ===== *)
(** * The server of the control process: e2core/server/server.go, and the health
    handler of handlers.go

    What [New] puts together: tracing, a node of the mesh, the dispatcher on a pod
    of that node, and the routes.  The HTTP server is a library. *)

From S2P Require Import Prelude.
From S2P Require Import Interfaces.
From S2P Require Import Message.
From S2P Require Import PodConn.
From S2P Require Import MessageBus.
From S2P Require Import Pod.
From S2P Require Import Hub.
From S2P Require Node.
From S2P Require Dispatcher.
From S2P Require Startup.

(** The handlers, and whether the authorization middleware is in front. *)
Inductive endpoint : Type := ExecutePluginByName | Health.

Record route : Type := mkRoute { rt_method : string; rt_path : list string; rt_endpoint : endpoint; rt_auth : bool }.

Definition E2CoreHealthURI : string := "/health".

(** The path by its segments; a segment with a colon is a parameter. *)
Definition server_routes : list route :=
  [mkRoute "POST" ["name"; ":ident"; ":namespace"; ":name"] ExecutePluginByName true;
   mkRoute "GET" ["health"] Health false].

Section Server.
Context {B : Type} `{Picker B} {GrpcConn Provider : Type} (lib : Startup.observability (Conn := GrpcConn) (Provider := Provider)).

Record Server : Type := mkServer {
  sv_routes : list route;
  sv_bus : Node.Bus (B := B);
  sv_pod : Pod;                       (* the dispatcher's *)
  sv_port : Z
}.

(** [newDispatcher]; [onMsg] is its message handler.  [None] blocks. *)
Definition newDispatcher (onMsg : Message → option error) (pod : Pod) : option Pod :=
  OnType pod Dispatcher.MsgTypeSuborbitalResult (Some (OwnerFunc onMsg)).

(** [New]; [fresh] is the UUID of the node.  [None] blocks. *)
Definition New (tracer : Startup.TracerConfig) (fresh : string) (onMsg : Message → option error) (port : Z) :
    outcome (result (option Server)) :=
  r ← Startup.setupTracing lib tracer;
  match r with
  | Err e => Val (Err (ErrWrap e "setupTracing(e2core, reporter_uri, 0.040000)"))
  | Ok _ =>
      b ← Node.New fresh Node.server_mods;
      '(pod, bus) ← connectWithOpts (Node.bus_bus b) false;
      let b1 := Node.mkBus (Node.NodeUUID b) (Node.bus_BelongsTo b) (Node.bus_Interests b) bus (Node.bus_hub b)
                  (Node.b_discovery b) in
      Val (Ok ((λ p, mkServer server_routes b1 p port) <$> newDispatcher onMsg pod))
  end.

(** [healthHandler]; [json] is the JSON text of a map. *)
Definition healthHandler (json : list (string * bool) → string) : Z * string := (200%Z, json [("healthy", true)]).

(** A new server exists exactly when tracing was set up.  Its node belongs to every
    group and has no interests; its dispatcher gets the result messages and no
    others; every route that runs modules needs an authorization and has the
    parameters that its handler reads. *)
Theorem server_new tracer fresh onMsg port :
  match Startup.setupTracing lib tracer with
  | Panic p => New tracer fresh onMsg port = Panic p
  | Val (Err e) => New tracer fresh onMsg port = Val (Err (ErrWrap e "setupTracing(e2core, reporter_uri, 0.040000)"))
  | Val (Ok _) =>
      ∃ sv, New tracer fresh onMsg port = Val (Ok (Some sv)) ∧
        Node.bus_hub (sv_bus sv) = initHub fresh "*" [] true false ∧
        (∃ d, Node.b_discovery (sv_bus sv) = Some d ∧ Node.do_NodeUUID d = fresh) ∧
        (∀ m, handleMsg (sv_pod sv) m =
           if decide (Type_ m = Dispatcher.MsgTypeSuborbitalResult) then
             Reported (match onMsg m with Some _ => FailedMsg (Some m) | None => podFeedbackMsgSuccess end)
           else Ignored) ∧
        Forall (λ rt, rt_endpoint rt = ExecutePluginByName →
          rt_auth rt = true ∧ Forall (λ x, ":" +:+ x ∈ rt_path rt) ["ident"; "namespace"; "name"]) (sv_routes sv)
  end.
Proof.
  unfold New. destruct (Startup.setupTracing lib tracer) as [[tp|e]|p]; run; [|done..].
  eexists. split; [reflexivity|]. split; [reflexivity|]. split; [eexists; split; reflexivity|]. split.
  - intros m. unfold handleMsg; simpl. rewrite allow_verdict; simpl. rewrite verdict_insert. unfold verdict. simpl.
    destruct (decide (Dispatcher.MsgTypeSuborbitalResult = Type_ m)), (decide (Type_ m = Dispatcher.MsgTypeSuborbitalResult));
      simpl; congruence || by destruct (onMsg m).
  - repeat constructor; simpl; try done; set_solver.
Qed.

End Server.
