(* ===== verification/MeshRequest.v ===== *)
(** * Requests over the mesh

    What each process does on the way of a request from the dispatcher of the control
    process to the function of a runner and of its result back, through every part of
    the mesh: the hub of the control process and its tunnel, a websocket, the hub and
    the bus of the runner, its engine and [handleFnResult], its bus and hub again, the
    websocket, and the bus of the control process with the pod of the dispatcher.  The
    runs that these are the steps of are in Traffic. *)

From S2P Require Import Prelude.
From S2P Require Import Interfaces.
From S2P Require Import Balancer.
From S2P Require Import Message.
From S2P Require Import Signaler.
From S2P Require Import Hub.
From S2P Require Import Websocket.
From S2P Require Import Link.
From S2P Require Import Tunnel.
From S2P Require MsgBuffer.
From S2P Require MessageBus.
From S2P Require Import Pod.
From S2P Require Import MeshNode.
From S2P Require Import Sequence.
From S2P Require Import Dispatcher.
From S2P Require Import Mesh.
From S2P Require Import Syncer.
From S2P Require Import Handlers.
From S2P Require Import EndToEnd.

(** What the dispatcher sees of a message: the error of the tunnel, and what
    arrives. *)
Abbreviation seen := (option error * list arrival)%type.

Section MeshRequest.
Context {WorkflowStep : Type} (FQMN : WorkflowStep → string).
Context `{Codec (list (WorkflowStep * bool))} `{Codec CoordinatedRequest} `{Codec ExecResult}.
Context (step_of : string → WorkflowStep).
Context (errText : error → string).
Context (fn : string → CoordinatedRequest → fn_result).
(** The mesh: sockets, and balancers in the hubs. *)
Context `{Codec Message, Codec TransportHandshake, Codec TransportHandshakeAck}.
Context {W : Type} (ws : Websocket W) (peer : Z → Z) (waiting : W → Z → list frame) (alive : W → Z → Prop).
Context `{!WebsocketLaws ws peer waiting alive}.
Context {B : Type} `{Picker B} (heard : connectionHandler → bool).

Let T : Transport W := websocket_transport ws.

(** The control process: its node, its hub, the connections of the pod of the hub
    and of the dispatcher's pod, and the parents that the dispatcher waits for. *)
Record parent : Type := mkParent {
  pt_node : node; pt_hub : hub (B := B); pt_hub_pod : Z; pt_disp : Z; pt_callbacks : gset string
}.

(** A runner: its node and hub, the order in which Go goes through its mesh
    connections, and the connections of its three pods. *)
Record runner_node : Type := mkRunner {
  rn_node : node; rn_hub : hub (B := B); rn_order : list connectionHandler;
  rn_hub_pod : Z; rn_pod : Z; rn_engine : Z
}.

(** The control process, the runners by the ends of their connections at it, and
    the sockets. *)
Record mesh : Type := mkMesh { ms_parent : parent; ms_runners : gmap Z runner_node; ms_world : W }.

Definition set_node (P : parent) (n : node) : parent := mkParent n (pt_hub P) (pt_hub_pod P) (pt_disp P) (pt_callbacks P).
Definition set_runner_node (R : runner_node) (n : node) : runner_node :=
  mkRunner n (rn_hub R) (rn_order R) (rn_hub_pod R) (rn_pod R) (rn_engine R).
Definition set_hub (P : parent) (h : hub (B := B)) : parent := mkParent (pt_node P) h (pt_hub_pod P) (pt_disp P) (pt_callbacks P).
Definition set_callbacks (P : parent) (cs : gset string) : parent :=
  mkParent (pt_node P) (pt_hub P) (pt_hub_pod P) (pt_disp P) cs.

(** The goroutine that reads a connection gets one message. *)
Definition from_mesh (id : string * Z) (c : Z) (w : W) : option (Message * W) :=
  match reader ws [id] NewSignaler c w with ([m], None, w1) => Some (m, w1) | _ => None end.

(** Whether the pod on a connection has called its function. *)
Definition called (hs : list (Z * handling)) (i : Z) : bool :=
  match pod_at hs i with Some (Reported _) => true | _ => false end.

(** The function of the pod of a hub sends what it gets to the mesh. *)
Definition to_mesh (h : list connectionHandler) (hs : list (Z * handling)) (i : Z) (msg : Message) (w : W) : option W :=
  if called hs i then
    match messageHandler T heard h msg w with Val (true, w1) => Some w1 | _ => None end
  else None.

(** The runner reads its connection [c] and its engine starts a job with the message.
    The pod of the engine runs its function in a goroutine for each message, so any
    number of jobs can be under way; that it reports success at their end is not
    waited for. *)
Definition runner_reads (fuel : nat) (id : string * Z) (R : runner_node) (c : Z) (w : W) :
    option (Message * runner_node * W) :=
  '(m, w1) ← from_mesh id c w;
  '(hs, n1) ← publish fuel (rn_node R) (rn_hub_pod R) m;
  if called hs (rn_engine R) then Some (m, set_runner_node R n1, w1) else None.

(** A job ends, and the runner writes its result; [fresh] are the UUIDs that it
    draws, [now] is its time. *)
Definition job_ends (fuel : nat) (fresh : nat → string) (now : Z) (R : runner_node) (m : Message) (w : W) :
    option (runner_node * W) :=
  match handleFnResult FQMN errText fresh now true m (run_job fn m) with
  | Val [ToParent m2] =>
      '(hs, n1) ← publish fuel (rn_node R) (rn_pod R) m2;
      w1 ← to_mesh (rn_order R) hs (rn_hub_pod R) m2 w;
      Some (set_runner_node R n1, w1)
  | _ => None
  end.

(** The control process reads its connection [c], and the pod of the dispatcher
    starts [onMsgHandler] with the message. *)
Definition parent_reads (fuel : nat) (id : string * Z) (P : parent) (c : Z) (w : W) : option (Message * parent * W) :=
  '(m, w1) ← from_mesh id c w;
  '(hs, n1) ← publish fuel (pt_node P) (pt_hub_pod P) m;
  if called hs (pt_disp P) then Some (m, set_node P n1, w1) else None.

(** [Shutdown] of a runner with one peer, until its bus has withdrawn: the hub signals
    the handler of the peer, the goroutine of the handler writes the withdrawal and
    reports it, and the hub takes the report.  The runner goes on with its messages
    and jobs. *)
Definition with_signaler (s : Signaler) (hd : connectionHandler) : connectionHandler :=
  mkHandler (h_UUID hd) (Conn hd) s (h_BelongsTo hd) (h_Interests hd).

Definition runner_withdraws (R : runner_node) (u : string) (w : W) : option (runner_node * W) :=
  hd ← meshConnections (rn_hub R) !! u;
  c ← Conn hd;
  s1 ← Signal (h_Signaler hd);
  '(s2, _, w1) ← withdraw_goroutine ws true s1 c w;
  let '(l, _, _) := withdraw_wait [id] [(u, s2)] 1 in
  '(_, s3) ← head l;
  Some (mkRunner (rn_node R)
    (set_conns (rn_hub R) (alter (with_signaler s3) u (meshConnections (rn_hub R))) (capabilityBalancers (rn_hub R)) (started (rn_hub R)))
    ((λ x, if decide (h_UUID x = u) then with_signaler s3 x else x) <$> rn_order R)
    (rn_hub_pod R) (rn_pod R) (rn_engine R), w1).

(** The world of a request in which that happens. *)
Definition mesh_world (fr : string) (now : Z) (s : seen) : world := mkWorld (λ _, false) ∅ id (λ _, s.1) fr now s.2.

(** A request to a module that the dispatcher sends: the UUID of its message and the
    time, and those that its runner will draw. *)
Record call : Type := mkCall {
  c_fresh : string; c_now : Z; c_sat_fresh : nat → string; c_sat_now : Z; c_module : Module_; c_req : CoordinatedRequest
}.

Definition call_msg (q : call) : Message :=
  request_msg FQMN step_of (mesh_world (c_fresh q) (c_now q) (None, [])) (c_module q) (c_req q).

(** Execute until it waits for the result: its callback is added and its message is
    tunneled; when the tunnel fails Execute returns, and its callback is removed. *)
Definition dispatch_call (q : call) (P : parent) (w : W) : option (option error * parent * W) :=
  let P1 := set_callbacks P (addCallback (pt_callbacks P) (req_ID (c_req q))) in
  match sendTunneledMessage T heard (λ _ h, h) (pt_hub P1) (Type_ (call_msg q)) (call_msg q) w with
  | Val (TunnelReturns (Some e), h1, w1) =>
      Some (Some e, set_callbacks (set_hub P1 h1) (removeCallback (pt_callbacks P1) (req_ID (c_req q))), w1)
  | Val (TunnelReturns None, h1, w1) => Some (None, set_hub P1 h1, w1)
  | _ => None
  end.

(** ** The two ends *)

(** The pod of a hub calls [messageHandler] on everything but the messages [D],
    which it has sent itself. *)
Definition hub_listens (p : Pod) (D : gset string) : Prop :=
  ∀ m, handleMsg p m = if decide (UUID m ∈ D) then Ignored else Reported PodConn.podFeedbackMsgSuccess.

(** A pod that calls its function on the messages of a type. *)
Definition listens_for (p : Pod) (t : string) : Prop :=
  ∀ m, handleMsg p m = if decide (Type_ m = t) then Reported PodConn.podFeedbackMsgSuccess else Ignored.

(** A node between two messages, with the pod of its hub; [used] are the UUIDs of
    the messages that have been on the mesh. *)
Record node_ready (fuel : nat) (used : gset string) (n : node) (i : Z) : Prop := {
  nr_node : ∃ bm, node_ok n bm ∧ ∀ u, u ∈ UUID <$> bm → u ∈ used;
  nr_hub_pod : ∃ p D, pod_at (nd_pods n) i = Some p ∧ hub_listens p D ∧ D ⊆ used;
  nr_fuel : length (nd_pods n) < fuel
}.

Record parent_ready (fuel : nat) (P : parent) (used : gset string) : Prop := {
  pr_node : node_ready fuel used (pt_node P) (pt_hub_pod P);
  pr_disp : ∃ p, pod_at (nd_pods (pt_node P)) (pt_disp P) = Some p ∧ listens_for p MsgTypeSuborbitalResult;
  pr_ids : pt_disp P ≠ pt_hub_pod P
}.

(** [c] is the end at the runner of its connection to the control process. *)
Record runner_ready (fuel : nat) (R : runner_node) (jobType : string) (c : Z) (used : gset string) : Prop := {
  rr_node : node_ready fuel used (rn_node R) (rn_hub_pod R);
  rr_engine : ∃ p, pod_at (nd_pods (rn_node R)) (rn_engine R) = Some p ∧ listens_for p jobType;
  rr_pod : is_Some (pod_at (nd_pods (rn_node R)) (rn_pod R));
  rr_ids : rn_engine R ≠ rn_hub_pod R ∧ rn_pod R ≠ rn_hub_pod R ∧ rn_engine R ≠ rn_pod R;
  rr_hub : hub_wf (rn_hub R);
  rr_order : rn_order R ≡ₚ (map_to_list (meshConnections (rn_hub R))).*2;
  rr_parent : ∃ u hd, meshConnections (rn_hub R) !! u = Some hd ∧ Conn hd = Some c ∧
                PeerWithdrawn (h_Signaler hd) = false ∧
                ∀ u' hd', meshConnections (rn_hub R) !! u' = Some hd' → Conn hd' = Some c → u' = u
}.

Lemma from_mesh_ok id c m fs w :
  alive w c → waiting w c = (BinaryMessage, Marshal m) :: fs →
  ∃ w1, from_mesh id c w = Some (m, w1) ∧ stays alive w w1 ∧ ∀ d, waiting w1 d = if decide (d = c) then fs else waiting w d.
Proof.
  intros Hw Hq. destruct id as [u t]. destruct (ReadMsg_ok ws peer waiting alive u t c _ _ w Hw Hq) as (w1 & E & Hw1 & Hq1).
  exists w1. split; [|done]. change (BinaryMessage, Marshal m) with (frame_of (inl m)) in E.
  rewrite decode_frame_of in E. unfold from_mesh. simpl. by rewrite E.
Qed.

(** Where nothing waits there is nothing to read. *)
Lemma from_mesh_waits id c w m w1 : from_mesh id c w = Some (m, w1) → waiting w c ≠ [].
Proof.
  destruct id as [u t]. unfold from_mesh. simpl. unfold ReadMsg. destruct (ws_ReadMessage ws c w) as [[f|e] w2] eqn:E.
  - destruct (law_read_any c w f w2 E) as (fs & ->). done.
  - simpl. done.
Qed.

Lemma called_spec n i msg j p :
  pod_at (nd_pods n) j = Some p →
  called ((λ x, (x.1, if decide (x.1 = i) then Ignored else handleMsg x.2 msg)) <$> nd_pods n) j =
    match (if decide (j = i) then Ignored else handleMsg p msg) with Reported _ => true | _ => false end.
Proof.
  intros Hp. unfold called.
  pose proof (pod_at_fmap (λ k x, if decide (k = i) then Ignored else handleMsg x msg) (nd_pods n) j) as E.
  simpl in E. rewrite E, Hp. done.
Qed.

Lemma queue_push_elem {A} l (q : list A) a x : x ∈ MsgBuffer.queue_push l q a → x ∈ q ∨ x = a.
Proof.
  unfold MsgBuffer.queue_push. case_decide; rewrite elem_of_app, list_elem_of_singleton; [|done].
  destruct q; simpl; set_solver.
Qed.

(** A pod of a node sends a new message: every other pod handles it once, and the
    node is ready again. *)
Lemma publish_ready fuel used n i j pod msg :
  node_ready fuel used n i → pod_at (nd_pods n) j = Some pod → UUID msg ∉ used →
  ∃ n' pod', publish fuel n j msg =
      Some ((λ x, (x.1, if decide (x.1 = j) then Ignored else handleMsg x.2 msg)) <$> nd_pods n, n') ∧
    node_ready fuel ({[UUID msg]} ∪ used) n' i ∧ nd_pods n' = set_pod j pod' (nd_pods n).
Proof.
  intros [(bm & Hn & Hb) (p & D & Hp & Hl & HD) Hf] Hj Hu.
  destruct (publish_handled n bm fuel j pod msg Hn Hj) as (n' & pod' & E & Hn' & Hpods & Hh); [by intros ?%Hb|done|].
  exists n', pod'. split; [done|]. split; [|done]. split.
  - eexists. split; [exact Hn'|]. intros u (x & -> & [Hx| ->]%queue_push_elem)%list_elem_of_fmap; [|set_solver].
    apply elem_of_union. right. apply Hb. by apply list_elem_of_fmap_2.
  - rewrite Hpods, set_pod_at, Hp. case_decide as Hij.
    + subst j. rewrite Hj in Hp. injection Hp as ->. exists pod', ({[UUID msg]} ∪ D). split; [by rewrite Hj|]. split; [|set_solver].
      intros m. rewrite Hh, Hl. destruct (decide (UUID m = UUID msg)) as [E'|E'], (decide (UUID m ∈ D));
        case_decide; try done; set_solver.
    + exists p, D. split; [done|]. split; [done|]. set_solver.
  - rewrite Hpods. unfold set_pod. by rewrite length_fmap.
Qed.

(** The connection of the parent is the only one to its end. *)
Lemma sends_to_parent fuel R jobType c used :
  runner_ready fuel R jobType c used → ∃ hd, filter (λ x, sends_to peer (peer c) x = true) (rn_order R) = [hd].
Proof.
  intros [_ _ _ _ Hwf Hord (u & hd & Hu & Hc & Hpw & Huniq)]. exists hd.
  assert (NoDup (map_to_list (meshConnections (rn_hub R))).*2) as Hnd.
  { apply NoDup_fmap_2_strong; [|apply NoDup_map_to_list]. intros [u1 x1] [u2 x2] Hx1%elem_of_map_to_list Hx2%elem_of_map_to_list.
    simpl. intros ->. destruct (hw_conns _ Hwf _ _ Hx1) as (<- & _), (hw_conns _ Hwf _ _ Hx2) as (<- & _). done. }
  rewrite <- Hord in Hnd. apply (filter_only _ _ _ Hnd).
  - rewrite Hord. apply (list_elem_of_fmap_2 snd _ (u, hd)). by apply elem_of_map_to_list.
  - unfold sends_to. rewrite Hpw, Hc. simpl. by rewrite bool_decide_eq_true_2.
  - intros x Hx Hs. rewrite Hord in Hx. apply list_elem_of_fmap in Hx as ([u' x'] & -> & Hx'%elem_of_map_to_list). simpl.
    unfold sends_to in Hs. apply andb_true_iff in Hs as [_ Hs%bool_decide_eq_true]. simpl in Hs.
    destruct (Conn x') as [c'|] eqn:Hc'; [|done]. simpl in Hs. injection Hs as Hs%(peer_inj ws peer waiting alive). subst c'.
    rewrite (Huniq _ _ Hx' Hc') in Hx'. congruence.
Qed.

Lemma order_conns fuel R jobType c used : runner_ready fuel R jobType c used → Forall (λ hd, is_Some (Conn hd)) (rn_order R).
Proof.
  intros [_ _ _ _ Hwf Hord _]. rewrite Hord. apply Forall_forall.
  intros _ ([u x] & -> & Hx%elem_of_map_to_list)%list_elem_of_fmap. by destruct (hw_conns _ Hwf _ _ Hx) as (_ & ? & _).
Qed.

(** An end that no connection of the runner leads to. *)
Definition apart (R : runner_node) (d : Z) : Prop :=
  ∀ u hd x, meshConnections (rn_hub R) !! u = Some hd → Conn hd = Some x → peer x ≠ d.

Lemma sends_nothing fuel R t c used d :
  runner_ready fuel R t c used → apart R d → filter (λ x, sends_to peer d x = true) (rn_order R) = [].
Proof.
  intros HR Ha. destruct (filter _ _) as [|hd l] eqn:E; [done|].
  assert (hd ∈ filter (λ x, sends_to peer d x = true) (rn_order R)) as Hin by (rewrite E; by left).
  apply list_elem_of_filter in Hin as [Hs Hin]. rewrite (rr_order _ _ _ _ _ HR) in Hin.
  apply list_elem_of_fmap in Hin as ([u x] & -> & Hx%elem_of_map_to_list). unfold sends_to in Hs.
  apply andb_true_iff in Hs as [_ Hs%bool_decide_eq_true]. simpl in Hs. destruct (Conn x) as [y|] eqn:Hy; [|done].
  injection Hs as Hs. by destruct (Ha u x y Hx Hy).
Qed.

(** The runner starts the job of the message that waits on its connection, and is
    ready for the next message. *)
Lemma runner_reads_ok fuel id R c used msg fs w :
  runner_ready fuel R (Type_ msg) c used → alive w c → waiting w c = (BinaryMessage, Marshal msg) :: fs → UUID msg ∉ used →
  ∃ n1 w1, runner_reads fuel id R c w = Some (msg, set_runner_node R n1, w1) ∧ stays alive w w1 ∧
    (∀ t, runner_ready fuel R t c used → runner_ready fuel (set_runner_node R n1) t c ({[UUID msg]} ∪ used)) ∧
    ∀ d, waiting w1 d = if decide (d = c) then fs else waiting w d.
Proof.
  intros HR Hw Hq Hu. pose proof HR as [Hn (ep & Hep & Heng) [op Hop] (Hid1 & Hid2 & Hid3) Hhub Horder Hpar].
  destruct (nr_hub_pod _ _ _ _ Hn) as (hp & D & Hhp & _).
  destruct (from_mesh_ok id c msg fs w Hw Hq) as (w1 & E1 & Hw1 & Hq1). unfold runner_reads. rewrite E1. cbn [mbind option_bind].
  destruct (publish_ready fuel used _ _ _ hp msg Hn Hhp Hu) as (n1 & hp1 & Ep1 & Hn1 & Hpods1).
  rewrite Ep1. cbn [mbind option_bind]. rewrite (called_spec _ _ _ _ _ Hep), (decide_False (P := rn_engine R = rn_hub_pod R)) by done.
  rewrite Heng, decide_True by done. exists n1, w1. split; [done|]. split; [done|]. split; [|done].
  intros t HRt. split; simpl; [done| | |done..].
  - destruct (rr_engine _ _ _ _ _ HRt) as (ep' & Hep' & Heng'). exists ep'. split; [|done].
    by rewrite Hpods1, set_pod_at, decide_False.
  - exists op. by rewrite Hpods1, set_pod_at, decide_False.
Qed.

(** When a job ends the runner writes the result to its peers, and is ready again. *)
Lemma job_ends_ok fuel fresh now R t c used msg m2 w :
  runner_ready fuel R t c used →
  (∀ v hd d, meshConnections (rn_hub R) !! v = Some hd → PeerWithdrawn (h_Signaler hd) = false → Conn hd = Some d → alive w d) →
  handleFnResult FQMN errText fresh now true msg (run_job fn msg) = Val [ToParent m2] → UUID m2 ∉ used →
  ∃ n1 w1, job_ends fuel fresh now R msg w = Some (set_runner_node R n1, w1) ∧ stays alive w w1 ∧
    runner_ready fuel (set_runner_node R n1) t c ({[UUID m2]} ∪ used) ∧
    ∀ d, waiting w1 d = waiting w d ++
      ((λ _, (BinaryMessage, Marshal m2)) <$> filter (λ hd, sends_to peer d hd = true) (rn_order R)).
Proof.
  intros HR Hw Hjob Hu. pose proof (order_conns fuel R _ c used HR) as Hord.
  destruct HR as [Hn (ep & Hep & Heng) [op Hop] (Hid1 & Hid2 & Hid3) Hhub Horder Hpar].
  unfold job_ends. rewrite Hjob.
  destruct (nr_hub_pod _ _ _ _ Hn) as (hp & D & Hhp & Hlis & HD).
  destruct (publish_ready fuel _ _ _ _ op m2 Hn Hop Hu) as (n1 & op1 & Ep & Hn1 & Hpods).
  rewrite Ep. cbn [mbind option_bind]. unfold to_mesh. rewrite (called_spec _ _ _ _ _ Hhp), decide_False by done.
  rewrite Hlis, decide_False by set_solver.
  destruct (messageHandler_alive ws peer waiting alive heard m2 (rn_order R) w) as (w1 & E & Hw1 & Hq); [|done|].
  { intros hd d Hd. rewrite Horder in Hd. apply list_elem_of_fmap in Hd as ([v x] & -> & Hx%elem_of_map_to_list). by apply (Hw v). }
  fold T in E. rewrite E. cbn [mbind option_bind]. exists n1, w1. split; [done|]. split; [done|]. split; [|exact Hq].
  split; simpl; [done| | |done..].
  - exists ep. split; [|done]. by rewrite Hpods, set_pod_at, decide_False.
  - rewrite Hpods, set_pod_at, decide_True by done. rewrite Hop. by eexists.
Qed.

(** The control process hands the message that waits on its connection to its
    dispatcher, and is ready for the next one. *)
Lemma parent_reads_ok fuel id P c used m fs w :
  parent_ready fuel P used → alive w c → waiting w c = (BinaryMessage, Marshal m) :: fs → Type_ m = MsgTypeSuborbitalResult →
  UUID m ∉ used →
  ∃ n1 w1, parent_reads fuel id P c w = Some (m, set_node P n1, w1) ∧ parent_ready fuel (set_node P n1) ({[UUID m]} ∪ used) ∧
    stays alive w w1 ∧ ∀ d, waiting w1 d = if decide (d = c) then fs else waiting w d.
Proof.
  intros [Hn (dp & Hdp & Hdisp) Hids] Hw Hq Ht Hu.
  destruct (nr_hub_pod _ _ _ _ Hn) as (hp & D & Hhp & _).
  destruct (from_mesh_ok id c m fs w Hw Hq) as (w1 & E1 & Hw1 & Hq1). unfold parent_reads. rewrite E1. cbn [mbind option_bind].
  destruct (publish_ready fuel used _ _ _ hp m Hn Hhp Hu) as (n1 & hp1 & Ep1 & Hn1 & Hpods1).
  rewrite Ep1. cbn [mbind option_bind]. rewrite (called_spec _ _ _ _ _ Hdp), decide_False, Hdisp, decide_True by done.
  exists n1, w1. split; [done|]. split; [|done]. split; [done| |done].
  exists dp. split; [|done]. simpl. by rewrite Hpods1, set_pod_at, decide_False.
Qed.

(** A connection of a hub gets a signaler that says of the peer what the old one
    did. *)
Lemma hub_wf_signaler (h : hub (B := B)) u s hd :
  hub_wf h → meshConnections h !! u = Some hd →
  hub_wf (set_conns h (alter (with_signaler s) u (meshConnections h)) (capabilityBalancers h) (started h)).
Proof.
  intros [Hb Hm Hc] Hu. split; simpl; [done| |].
  - intros c v. rewrite Hm. destruct (decide (u = v)) as [->|Hne].
    + rewrite lookup_alter_eq. destruct (meshConnections h !! v); naive_solver.
    + by rewrite lookup_alter_ne.
  - intros v hx Hv. apply lookup_alter_Some in Hv as [(-> & hd0 & Hv & ->)|[_ Hv]]; simpl; by apply Hc.
Qed.

Lemma order_signaler (h : hub (B := B)) u s :
  hub_wf h →
  (λ x, if decide (h_UUID x = u) then with_signaler s x else x) <$> (map_to_list (meshConnections h)).*2 ≡ₚ
  (map_to_list (alter (with_signaler s) u (meshConnections h))).*2.
Proof.
  intros Hwf.
  assert (alter (with_signaler s) u (meshConnections h) =
    (λ x, if decide (h_UUID x = u) then with_signaler s x else x) <$> meshConnections h) as ->.
  { apply map_eq. intros v. rewrite lookup_fmap. destruct (meshConnections h !! v) as [x|] eqn:E.
    - destruct (hw_conns h Hwf v x E) as (Hx & _). simpl. case_decide as Hv; rewrite Hx in Hv.
      + by rewrite <- Hv, lookup_alter_eq, E.
      + by rewrite lookup_alter_ne, E by congruence.
    - simpl. apply eq_None_not_Some. intros [y Hy%lookup_alter_Some]. naive_solver. }
  rewrite map_to_list_fmap, <- !list_fmap_compose. done.
Qed.

(** A runner that withdraws is ready for the messages that wait. *)
Lemma runner_withdraws_ok fuel R t c used u w R1 w1 :
  runner_ready fuel R t c used → (∀ v hx x, meshConnections (rn_hub R) !! v = Some hx → Conn hx = Some x → x = c) →
  alive w c → runner_withdraws R u w = Some (R1, w1) →
  stays alive w w1 ∧ runner_ready fuel R1 t c used ∧
  (∀ v hx x, meshConnections (rn_hub R1) !! v = Some hx → Conn hx = Some x → x = c) ∧
  ∀ d, waiting w1 d = waiting w d ++ (if decide (d = peer c) then [(TextMessage, withdrawMessage)] else []).
Proof.
  intros [Hn He Hp Hi Hh Ho (v & hv & Hv & Hc & Hpw & Huniq)] Honly Hw. unfold runner_withdraws.
  destruct (meshConnections (rn_hub R) !! u) as [hd|] eqn:Hu; [|done]. cbn [mbind option_bind].
  destruct (Conn hd) as [c'|] eqn:Hc'; [|done]. pose proof (Honly _ _ _ Hu Hc') as ->. cbn [mbind option_bind].
  assert (u = v) as -> by (by eapply Huniq). rewrite Hv in Hu. injection Hu as <-.
  destruct (Signal (h_Signaler hv)) as [s1|] eqn:Hs; [|done]. cbn [mbind option_bind].
  destruct (withdraw_goroutine ws true s1 c w) as [[[s2 e] w2]|] eqn:Eg; [|done]. cbn [mbind option_bind].
  destruct (withdraw_goroutine_sent ws peer waiting alive s1 c w s2 e w2 Hw Eg) as [Ha Hq].
  assert (PeerWithdrawn s2 = false) as Hs2.
  { rewrite <- Hpw. unfold withdraw_goroutine, Signal in *. case_decide; [|done]. injection Hs as <-. unfold Listen in Eg.
    simpl in Eg. destruct (SendWithdraw ws c (mkWithdraw false) w) as [[e'|] w'];
      unfold Done in Eg; (case_decide; [|done]); simpl in Eg; by injection Eg as <- _ _. }
  destruct (withdraw_wait [id] [(v, s2)] 1) as [[l k] b] eqn:Ew.
  assert (∃ s3, l = [(v, s3)] ∧ PeerWithdrawn s3 = false) as (s3 & -> & Hs3).
  { revert Ew. simpl. destruct (doneChan s2); simpl; repeat case_decide; intros [= <- _ _]; by eexists. }
  cbn [head mbind option_bind]. intros [= <- <-].
  assert (∀ v' hx x, meshConnections (set_conns (rn_hub R) (alter (with_signaler s3) v (meshConnections (rn_hub R)))
    (capabilityBalancers (rn_hub R)) (started (rn_hub R))) !! v' = Some hx → Conn hx = Some x →
    ∃ hy, meshConnections (rn_hub R) !! v' = Some hy ∧ Conn hy = Some x) as Hback.
  { intros v' hx x Hx Hcx. simpl in Hx. apply lookup_alter_Some in Hx as [(-> & hy & Hy & ->)|[_ Hx]]; by eexists. }
  split; [done|]. split; [|split; [|done]].
  - split; simpl; try done.
    + by eapply hub_wf_signaler.
    + rewrite Ho. by apply order_signaler.
    + exists v, (with_signaler s3 hv). rewrite lookup_alter_eq, Hv. split_and!; try done.
      intros u' hd' Hu' Hd'. destruct (Hback u' hd' c Hu' Hd') as (hy & Hy & Hcy). by eapply Huniq.
  - intros v' hx x Hx Hcx. destruct (Hback v' hx x Hx Hcx) as (hy & Hy & Hcy). by eapply Honly.
Qed.

(** The dispatcher calls a callback that is there with the result, and no other. *)
Lemma handler_calls cs m r : ParentID m ∈ cs → unmarshal (Data m) = Ok r → onMsgHandler cs m = Some r.
Proof. intros Hm Hr. unfold onMsgHandler. by rewrite decide_True, Hr. Qed.

Lemma handler_ignores cs m : ParentID m ∉ cs → onMsgHandler cs m = None.
Proof. intros Hm. unfold onMsgHandler. by rewrite decide_False. Qed.

Lemma elem_of_removeCallback cs p x : x ∈ removeCallback cs p ↔ x ∈ cs ∧ x ≠ p.
Proof. unfold removeCallback. by rewrite elem_of_difference, elem_of_singleton. Qed.

Lemma elem_of_addCallback cs p x : x ∈ addCallback cs p ↔ x = p ∨ x ∈ cs.
Proof. unfold addCallback. by rewrite elem_of_union, elem_of_singleton. Qed.

End MeshRequest.
