(* ===== verification/Launch.v ===== *)
(** * Starting runners: e2core/backend/satbackend/ (command.go, exec/exec.go, the
    launch function of orchestrator.go, getReport of watcher.go), and what a
    runner makes of its environment (sat/sat/options/options.go)

    The orchestrator starts a process with an environment of its own making; the
    runner reads its port and its control plane from it, and the watcher asks that
    port for its metrics.  The library that decodes an environment (envconfig) is a
    parameter with the behaviour that it documents, the system calls are
    arguments. *)

From S2P Require Import Prelude.
From S2P Require Import Interfaces.
From S2P Require Import Access.
From S2P Require Import Options.
From S2P Require Import Syncer.
From S2P Require Import SatConfig.
From S2P Require Import Orchestrator.
From S2P Require Import Constellation.
From S2P Require Worker.
From Stdlib Require Import Ascii.
From stdpp Require Import pretty.

(** ** Environments *)

(** [strings.ToUpper] on ASCII. *)
Definition upper (a : ascii) : ascii :=
  let n := nat_of_ascii a in if bool_decide (97 ≤ n ∧ n ≤ 122) then ascii_of_nat (n - 32) else a.

Fixpoint ToUpper (s : string) : string :=
  match s with EmptyString => "" | String a s => String (upper a) (ToUpper s) end.

(** What a process finds under a name in the environment it was started with: the
    last of the entries with that name. *)
Definition entry (name e : string) : option string :=
  let k := S (String.length name) in
  if String.prefix (name +:+ "=") e then Some (String.substring k (String.length e - k) e) else None.

Definition Getenv (env : list string) (name : string) : option string := last (omap (entry name) env).

(** ** exec.Run and modStartCommand *)

(** The command that is started: the program with its arguments, the environment
    in place of that of the control process. *)
Record Command : Type := mkCommand { c_Args : list string; c_Env : list string }.

(** [Run]; [start] is the error of [command.Start]. *)
Definition Run (start : Command → option error) (fresh : string) (cmd env : list string) :
    outcome (result (string * Command)) :=
  name ← match cmd with [] => Panic IndexRange | c :: _ => Val c end;
  let command := mkCommand cmd (env ++ [ToUpper name +:+ "_UUID=" +:+ fresh]) in
  Val match start command with
      | Some e => Err (ErrWrap e "command.Start()")
      | None => Ok (fresh, command)
      end.

(** [modStartCommand]; [rand] is [rand.Int] below 10000.  After an error the
    program ends ([log.Fatal]). *)
Definition modStartCommand (rand : result Z) (fqmn : string) : result (list string * string) :=
  match rand with
  | Err e => Err (ErrWrap (ErrWrap e "failed to rand.Int") "failed to randPort")
  | Ok n => Ok (["e2core"; "mod"; "start"; fqmn], randPort n)
  end.

(** [launch] up to the addition to the watcher: the process, and the command that
    it runs.  [connections] is the JSON of the tenant's default connections. *)
Definition launch (start : Command → option error) (fresh : string) (rand : result Z)
    (controlPlane connections : string) (m : Module_) : outcome (result (process * Command)) :=
  match modStartCommand rand (m_FQMN m) with
  | Err e => Val (Err e)
  | Ok (cmd, port) =>
      let connectionsEnv := if decide (m_Namespace m = "default") then connections else "" in
      r ← Run start fresh cmd
            ["SAT_HTTP_PORT=" +:+ port; "SAT_CONTROL_PLANE=" +:+ controlPlane; "SAT_CONNECTIONS=" +:+ connectionsEnv];
      Val match r with
          | Err e => Err (ErrWrap e "exec.Run failed for sat instance")
          | Ok (uuid, command) => Ok (mkProc (m_FQMN m) port uuid, command)
          end
  end.

(** ** The options of the runner *)

(** [Resolve]; [process] is [envconfig.ProcessWith]. *)
Definition Resolve (process : (string → option string) → result SatOptions) (lookup : string → option string) :
    result SatOptions :=
  match process lookup with
  | Err e => Err (ErrWrap e "sat options parsing")
  | Ok o => Ok o
  end.

(** What envconfig documents, for variables that are set: a field of a type with a
    decoder holds what the decoder makes of its variable, a string holds its
    variable, and a structure behind a pointer is there when a variable of it is. *)
Record envconfig_laws (process : (string → option string) → result SatOptions) : Prop := mkEnvconfig {
  env_port l o v : process l = Ok o → l "SAT_HTTP_PORT" = Some v → v ≠ "" →
    port_EnvDecode (Err (ErrNew "not drawn")) v = Ok (so_Port o);
  env_control_plane l o v : process l = Ok o → l "SAT_CONTROL_PLANE" = Some v → v ≠ "" → so_ControlPlane o = Some v;
  env_connections l o : process l = Ok o → so_Connections o = default "" (l "SAT_CONNECTIONS")
}.

(** ** Metrics *)

(** [getReport]: the number of threads in the answer on a port.  [get] is the
    body that a GET of a URL answers with, under any status; [decode] reads the
    number of threads out of a MetricsResponse. *)
Definition metrics_URL (port : string) : string := "http://localhost:" +:+ port +:+ "/meta/metrics".

Definition getReport (decode : string → result Z) (get : string → result string) (port : string) : result Z :=
  match get (metrics_URL port) with
  | Err e => Err (ErrWrap e "failed to Do metrics request")
  | Ok body =>
      match decode body with
      | Err e => Err (ErrWrap e "failed to Unmarshal metrics response")
      | Ok n => Ok n
      end
  end.

(** [workerMetricsHandler]; [encode] is [json.Marshal], which refuses a rate that
    is no number. *)
Definition workerMetricsHandler (encode : Worker.ScalerMetrics → result string) (m : Worker.ScalerMetrics) :
    result (Z * string) :=
  match encode m with Err e => Err e | Ok b => Ok (200%Z, b) end.

(** ** Numbers and environments *)

Lemma prefix_app s1 s2 : String.prefix s1 (s1 +:+ s2) = true.
Proof.
  induction s1 as [|a s1 IH]; simpl; [by destruct s2|]. destruct (Ascii.ascii_dec a a); [exact IH|done].
Qed.

Lemma substring_app s1 s2 :
  String.substring (String.length s1) (String.length (s1 +:+ s2) - String.length s1) (s1 +:+ s2) = s2.
Proof.
  rewrite substring_skip, length_string_app, (Nat.add_comm (String.length s1)), Nat.add_sub. apply substring_all.
Qed.

Lemma entry_hit name v : entry name (name +:+ "=" +:+ v) = Some v.
Proof.
  rewrite <- string_app_assoc. unfold entry. rewrite prefix_app.
  assert (S (String.length name) = String.length (name +:+ "=")) as -> by (rewrite length_string_app; simpl; lia).
  by rewrite substring_app.
Qed.

(** Reading a number that was printed. *)
Lemma digits_go x s : digits 0 (pretty_N_go x s) = digits (Z.of_N x) s.
Proof.
  revert s. induction (N.lt_wf_0 x) as [x _ IH]; intros s.
  destruct (decide (0 < x)%N) as [Hx|Hx].
  - rewrite pretty_N_go_step by done. rewrite IH by (apply N.div_lt; lia).
    pose proof (N.mod_lt x 10 ltac:(lia)) as Hm. pose proof (N.div_mod x 10 ltac:(lia)) as Hd.
    assert (∀ d, (d < 10)%N → Z.of_nat (nat_of_ascii (pretty_N_char d)) = (Z.of_N d + 48)%Z) as Hc.
    { intros d Hlt. assert (∃ n, d = N.of_nat n ∧ n < 10) as (n & -> & Hn) by (exists (N.to_nat d); lia).
      do 10 (destruct n as [|n]; [done|]). lia. }
    simpl. rewrite Hc by done. revert Hm Hd. generalize (x `mod` 10)%N, (x `div` 10)%N. intros r q Hm Hd.
    rewrite bool_decide_eq_true_2 by lia. f_equal. lia.
  - assert (x = 0%N) as -> by lia. by rewrite pretty_N_go_0.
Qed.

Lemma Atoi_digits s n : digits 0 s = Some n → s ≠ "" → (0 ≤ n < 2 ^ 63)%Z → Atoi s = (n, None).
Proof.
  intros Hd Hne Hn. unfold Atoi.
  assert ((match s with String "-" s => ((-1)%Z, s) | String "+" s => (1%Z, s) | _ => (1%Z, s) end) = (1%Z, s)) as ->.
  { destruct s as [|a s]; [done|]. destruct a as [[] [] [] [] [] [] [] []]; try done; discriminate. }
  cbv beta iota. destruct s as [|a s]; [done|]. rewrite Hd, Z.mul_1_l. by rewrite !bool_decide_eq_false_2 by lia.
Qed.

Lemma pretty_digits z : (0 ≤ z)%Z → digits 0 (pretty z) = Some z ∧ pretty z ≠ "".
Proof.
  intros Hz. destruct z as [|x|x]; [done| |done].
  assert (digits 0 (pretty (Z.pos x)) = Some (Z.pos x)) as Hd by apply (digits_go (N.pos x) "").
  split; [exact Hd|]. intros He. by rewrite He in Hd.
Qed.

Lemma Atoi_pretty z : (0 ≤ z < 2 ^ 63)%Z → Atoi (pretty z) = (z, None).
Proof. intros Hz. destruct (pretty_digits z) as [Hd Hne]; [lia|]. by apply Atoi_digits. Qed.

(** ** A launched runner *)

Section Launched.
Context (process : (string → option string) → result SatOptions) (Hlaws : envconfig_laws process).

Lemma Getenv_last env name v : Getenv (env ++ [name +:+ "=" +:+ v]) name = Some v.
Proof. unfold Getenv. rewrite omap_app. simpl. by rewrite entry_hit, last_snoc. Qed.

Lemma Getenv_skip env e name : entry name e = None → Getenv (env ++ [e]) name = Getenv env name.
Proof. intros He. unfold Getenv. rewrite omap_app. simpl. by rewrite He, app_nil_r. Qed.

(** The environment of the processes that [launch] starts. *)
Definition runner_env (port cp connections uuid : string) : list string :=
  ((([] ++ ["SAT_HTTP_PORT" +:+ "=" +:+ port]) ++ ["SAT_CONTROL_PLANE" +:+ "=" +:+ cp]) ++
    ["SAT_CONNECTIONS" +:+ "=" +:+ connections]) ++ ["E2CORE_UUID" +:+ "=" +:+ uuid].

Lemma launch_spec start fresh rand cp connections m p c :
  launch start fresh rand cp connections m = Val (Ok (p, c)) →
  ∃ n, rand = Ok n ∧ p = mkProc (m_FQMN m) (randPort n) fresh ∧ start c = None ∧
    c = mkCommand ["e2core"; "mod"; "start"; m_FQMN m]
          (runner_env (randPort n) cp (if decide (m_Namespace m = "default") then connections else "") fresh).
Proof.
  unfold launch, modStartCommand. destruct rand as [n|]; [|done]. unfold Run. run.
  destruct (start _) eqn:Es; [done|]. intros [= <- <-]. by exists n.
Qed.

Lemma runner_env_lookup port cp connections uuid :
  let get := Getenv (runner_env port cp connections uuid) in
  get "SAT_HTTP_PORT" = Some port ∧ get "SAT_CONTROL_PLANE" = Some cp ∧
  get "SAT_CONNECTIONS" = Some connections ∧ get "E2CORE_UUID" = Some uuid ∧
  ∀ name, name ∈ ["SAT_UUID"; "SAT_ENV_TOKEN"; "SAT_RUNNABLE_IDENT"; "SAT_RUNNABLE_VERSION"; "HOME"; "PATH"] →
    get name = None.
Proof.
  unfold runner_env. split_and!; repeat (rewrite Getenv_skip by reflexivity); try apply Getenv_last.
  intros name Hn. set_unfold in Hn. naive_solver.
Qed.

(** What every configuration takes from the options: the port and the connections. *)
Lemma config_port {Caps Conns} (caps : Caps) (none : Conns) w opts arg c :
  ConfigFromModuleArg caps none w (Ok opts) arg = Val (Ok c) →
  cfg_Port c = (Atoi (so_Port opts)).1 ∧
  (if decide (so_Connections opts = "") then Connections c = none
   else json_Connections w (so_Connections opts) = Ok (Connections c)).
Proof.
  assert (∀ a md fq cs, assemble none w opts a md fq cs = Val (Ok c) →
    cfg_Port c = (Atoi (so_Port opts)).1 ∧
    (if decide (so_Connections opts = "") then Connections c = none
     else json_Connections w (so_Connections opts) = Ok (Connections c))) as Hasm.
  { intros a md fq cs. unfold assemble. destruct (match md with Some _ => _ | None => _ end) as [[j q]|]; run; [|done].
    destruct (decide (so_Connections opts = "")) as [He|He].
    - rewrite decide_False by naive_solver. by intros [= <-].
    - rewrite decide_True by done. destruct (json_Connections _ _); [|done]. by intros [= <-]. }
  unfold ConfigFromModuleArg.
  assert ((r ← resolve_arg caps w opts arg; match r with Err e => Val (Err e)
    | Ok (a, md, fq, cs) => assemble none w opts a md fq cs end) = Val (Ok c) → 
    ∃ a md fq cs, assemble none w opts a md fq cs = Val (Ok c)) as Hr.
  { destruct (resolve_arg caps w opts arg) as [[[[[a md] fq] cs]|e]|]; run; [|done..]. by eauto. }
  destruct (so_ControlPlane opts), (client_Start w); try done; intros (a & md & fq & cs & Ha)%Hr; by eapply Hasm.
Qed.

(** C20: A runner that the orchestrator launches for a module reads back from its
    environment what the orchestrator put there: it serves on the very port that
    its watcher knows, uses the same control plane, loads the module of the name
    in its command from it, and has the connections of the tenant exactly when the
    module is in the default namespace. *)
Theorem launched_runner_configured {Caps Conns} (caps : Caps) (none : Conns) w start fresh n cp connections m p c fq cfg :
  launch start fresh (Ok n) cp connections m = Val (Ok (p, c)) → (0 ≤ n < 10000)%Z → cp ≠ "" →
  isURL w (m_FQMN m) = false → fqmn_Parse w (m_FQMN m) = (fq, None) →
  ConfigFromModuleArg caps none w (Resolve process (Getenv (c_Env c))) (m_FQMN m) = Val (Ok cfg) →
  c_Args c = ["e2core"; "mod"; "start"; m_FQMN m] ∧
  pretty (cfg_Port cfg) = pr_port p ∧
  ControlPlaneUrl cfg = cp ∧ cfg_Tenant cfg = fq_Tenant fq ∧
  client_GetModule w (m_FQMN m) = Ok (cfg_Module cfg) ∧
  (∀ md, cfg_Module cfg = Some md → m_FQMN md ≠ "" → JobType cfg = m_FQMN md) ∧
  (if decide (m_Namespace m = "default" ∧ connections ≠ "")
   then json_Connections w connections = Ok (Connections cfg) else Connections cfg = none).
Proof.
  intros (n' & [= <-] & -> & _ & ->)%launch_spec Hn Hcp Hurl Hfq.
  set (conns := if decide (m_Namespace m = "default") then connections else "").
  destruct (runner_env_lookup (randPort n) cp conns fresh) as (Hport & Hplane & Hconns & _). simpl c_Env.
  unfold Resolve. destruct (process _) as [o|] eqn:Ep; [|done]. intros Hcfg.
  assert (so_ControlPlane o = Some cp) as Ho by by eapply env_control_plane.
  destruct (config_joins _ _ w o _ cp fq cfg Ho Hurl Hfq Hcfg) as (H1 & H2 & _ & H4 & _ & H6).
  destruct (config_port _ _ w o _ cfg Hcfg) as [H7 H8].
  assert (randPort n ≠ "") as Hne by (unfold randPort; apply pretty_digits; lia).
  pose proof (env_port process Hlaws _ _ _ Ep Hport Hne) as Hp.
  unfold port_EnvDecode in Hp. rewrite decide_True in Hp by done. injection Hp as Hp.
  rewrite (env_connections process Hlaws _ _ Ep), Hconns in H8. simpl in H8.
  split_and!; try done.
  - rewrite H7, <- Hp. unfold randPort. by rewrite Atoi_pretty by lia.
  - revert H8. subst conns. repeat case_decide; naive_solver.
Qed.

(** [NewAuthToken]: the credential of the runner's client; nil for no token. *)
Definition NewAuthToken (token : string) : option AccessToken :=
  if decide (token ≠ "") then Some (mkToken "Bearer" token) else None.

(** The environment of a launched runner names its UUID by a variable that the
    runner does not read, and holds no token: whatever token the control process
    has, the client of the runner gets no credential. *)
Lemma launched_runner_anonymous start fresh rand cp connections m p c :
  launch start fresh rand cp connections m = Val (Ok (p, c)) →
  Getenv (c_Env c) "E2CORE_UUID" = Some (pr_uuid p) ∧ Getenv (c_Env c) "SAT_UUID" = None ∧
  NewAuthToken (default "" (Getenv (c_Env c) "SAT_ENV_TOKEN")) = None.
Proof.
  intros (n & _ & -> & _ & ->)%launch_spec. simpl c_Env.
  destruct (runner_env_lookup (randPort n) cp (if decide (m_Namespace m = "default") then connections else "") fresh)
    as (_ & _ & _ & Hu & Hno). split; [exact Hu|]. rewrite !Hno by set_solver. done.
Qed.

End Launched.

(** ** The report of a watcher *)

Section Report.
Context (encode : Worker.ScalerMetrics → result string) (decode : string → result Z) (get : string → result string).
Context (decode_encode : ∀ m b, encode m = Ok b → decode b = Ok (Worker.TotalThreadCount m)).

(** The runner on a port answers the watcher with its metrics. *)
Definition answers (metrics : string → Worker.ScalerMetrics) (port : string) : Prop :=
  ∃ status body, workerMetricsHandler encode (metrics port) = Ok (status, body) ∧ get (metrics_URL port) = Ok body.

Lemma getReport_answers metrics port :
  answers metrics port → getReport decode get port = Ok (Worker.TotalThreadCount (metrics port)).
Proof.
  intros (st & body & Hh & Hg). unfold workerMetricsHandler in Hh.
  destruct (encode (metrics port)) as [b|] eqn:E; [|done]. injection Hh as <- <-.
  unfold getReport. by rewrite Hg, (decode_encode _ _ E).
Qed.

Lemma report_steps metrics ports n failed :
  Forall (answers metrics) ports →
  foldl (report_step (getReport decode get)) (n, failed) ports =
    ((n + foldr Z.add 0 (Worker.TotalThreadCount ∘ metrics <$> ports))%Z, failed).
Proof.
  intros Hp. revert n. induction Hp as [|port ports Hport Hp IH]; intros n; simpl; [by rewrite Z.add_0_r|].
  unfold report_step at 2. rewrite (getReport_answers metrics) by done. simpl. by rewrite IH, <- Z.add_assoc.
Qed.

(** When every runner of a watcher answers, the report counts all of them, sums
    their threads and holds no failed port. *)
Theorem report_of_runners metrics w :
  (∀ port, is_Some (instances w !! port) → answers metrics port) →
  report (getReport decode get) w =
    if decide (instances w = ∅) then None
    else Some (mkReport (Z.of_nat (size (instances w)))
                 (foldr Z.add 0%Z (Worker.TotalThreadCount ∘ metrics <$> (map_to_list (instances w)).*1)) []).
Proof.
  intros Ha. unfold report. case_decide; [done|]. rewrite (report_steps metrics).
  - simpl. by rewrite Z.sub_0_r.
  - apply Forall_forall. intros port Hin. apply Ha.
    apply list_elem_of_fmap in Hin as ([q i] & -> & Hi). apply elem_of_map_to_list in Hi. by eexists.
Qed.

End Report.

(** ** Examples *)

Definition example_process (l : string → option string) : result SatOptions :=
  Ok (mkSatOptions (if decide (default "" (l "SAT_HTTP_PORT") ≠ "") then default "" (l "SAT_HTTP_PORT") else "1042")
        "63147f8b-cd25-4eba-acc2-6ff48e6970b6" (l "SAT_CONTROL_PLANE") None None (default "" (l "SAT_CONNECTIONS"))).

Lemma example_process_laws : envconfig_laws example_process.
Proof.
  unfold example_process. split; intros l o; [intros v|intros v|]; intros [= <-]; try done.
  intros -> Hv. simpl. unfold port_EnvDecode. rewrite !decide_True by done. done.
Qed.

Definition example_module : Module_ := mkModule "ref" "fqmn://acme/default/hello" "hello" "default".

Definition example_network : outside (Caps := unit) (Conns := unit) :=
  mkOutside (λ _, Err (ErrExt "parse")) (λ _, Err (ErrExt "get")) (λ _, (mkFQMN "acme" "default", None))
    (λ t n m v, Ok "") None (λ _, Ok (Some example_module)) (λ _ _, Ok ()) (λ _, None)
    (λ _, Err (ErrExt "no yaml")) (λ _, Ok ()).

Lemma launched_runner_configured_witness :
  ∃ p c cfg, launch (λ _, None) "u" (Ok 42%Z) "localhost:9090" "[]" example_module = Val (Ok (p, c)) ∧
    ConfigFromModuleArg () () example_network (Resolve example_process (Getenv (c_Env c))) "fqmn://acme/default/hello"
      = Val (Ok cfg) ∧
    pretty (cfg_Port cfg) = pr_port p ∧ pr_port p = "10042".
Proof.
  eexists _, _, _. split; [reflexivity|]. split; [vm_compute; reflexivity|].
  match goal with |- pretty (cfg_Port ?g) = pr_port ?q ∧ _ =>
    destruct (launched_runner_configured example_process example_process_laws () () example_network (λ _, None) "u" 42
      "localhost:9090" "[]" example_module q _ (mkFQMN "acme" "default") g eq_refl) as (_ & Hp & _);
      [lia|discriminate|reflexivity|reflexivity|vm_compute; reflexivity|] end.
  split; [exact Hp|vm_compute; reflexivity].
Defined.
