(* ===== verification/StartCmd.v ===== *)
(** * The start command while it runs: e2core/command/start.go, with Start and
    Shutdown of e2core/backend/satbackend/orchestrator.go and of
    e2core/server/server.go

    Three goroutines run the source server, the orchestrator and the server, and
    report their errors over a channel with room for one; the main goroutine
    waits for the first error or a signal, and shuts the three parts down after a
    signal.  The parts end as their libraries decide.  What [launch] goes on doing
    after the orchestrator has stopped is not followed. *)

From S2P Require Import Prelude.
From S2P Require Import Orchestrator.
From S2P Require Import Constellation.

(** ** The goroutines *)

Inductive routine : Type := Running | Reporting (e : error) | Ended.

(** The goroutine of the orchestrator: before the end of [syncer.Start], in its
    loop, after the signal of [Shutdown], and after the loop ([o.wg] is zero). *)
Inductive backend_pc : Type := Syncing | Looping | Stopping | Stopped | Failing (e : error) | Failed.

(** The main goroutine. *)
Inductive main_pc : Type :=
| Selecting
| StopServer
| StopSource
| StopBackend                    (* sends on signalChan *)
| WaitBackend                    (* in wg.Wait *)
| Returned (err : option error)
| Crashed (p : panic).

(** The shutdowns that the main goroutine asked for, with what they answered. *)
Inductive shutdown_call : Type :=
| SrvShutdown (err : option error)
| SourceShutdown (o : outcome (option error)).

Record running : Type := mkRunning {
  r_source : routine;
  r_server : routine;
  r_backend : backend_pc;
  r_orch : orchestrator;
  serverErrors : list error;
  signalled : bool;
  r_calls : list shutdown_call;
  r_main : main_pc
}.

Definition set_source (s : running) (r : routine) : running :=
  mkRunning r (r_server s) (r_backend s) (r_orch s) (serverErrors s) (signalled s) (r_calls s) (r_main s).
Definition set_server (s : running) (r : routine) : running :=
  mkRunning (r_source s) r (r_backend s) (r_orch s) (serverErrors s) (signalled s) (r_calls s) (r_main s).
Definition set_backend (s : running) (b : backend_pc) (o : orchestrator) : running :=
  mkRunning (r_source s) (r_server s) b o (serverErrors s) (signalled s) (r_calls s) (r_main s).
Definition set_errors (s : running) (l : list error) : running :=
  mkRunning (r_source s) (r_server s) (r_backend s) (r_orch s) l (signalled s) (r_calls s) (r_main s).
Definition set_main (s : running) (m : main_pc) : running :=
  mkRunning (r_source s) (r_server s) (r_backend s) (r_orch s) (serverErrors s) (signalled s) (r_calls s) m.

Definition add_call (s : running) (c : shutdown_call) : running :=
  mkRunning (r_source s) (r_server s) (r_backend s) (r_orch s) (serverErrors s) (signalled s) (r_calls s ++ [c]) (r_main s).

(** When the three goroutines are started. *)
Definition launched : running := mkRunning Running Running Syncing NewOrchestrator [] false [] Selecting.

(** What a goroutine does with the answer of its part. *)
Definition after (msg : string) (err : option error) : routine :=
  match err with Some e => Reporting (ErrWrap e msg) | None => Ended end.

(** [sourceserver.Start] and [srv.Start], when the server under them ends. *)
Definition source_Start (srv : option string) (err : option error) : option error :=
  match srv with None => None | Some _ => (λ e, ErrWrap e "failed to e.Start") <$> err end.

Definition server_Start (err : option error) : option error := (λ e, ErrWrap e "failed to server.Start") <$> err.

Definition server_Shutdown (err : option error) : option error := (λ e, ErrWrap e "http.Server.StopCtx") <$> err.

Section Start.
(** [srv] is the source server, [shutdown_source] its [Shutdown] method, which is
    called on nil too. *)
Context (numCPU : Z) (srv : option string) (shutdown_source : option string → outcome (option error)).

Inductive start_step (s : running) : running → Prop :=
| SourceEnds err : r_source s = Running →
    start_step s (set_source s (after "sourceserver.Start" (source_Start srv err)))
| ServerEnds err : r_server s = Running →
    start_step s (set_server s (after "srv.Start" (server_Start err)))
| SyncFails e : r_backend s = Syncing →
    start_step s (set_backend s (Failing (ErrWrap (ErrWrap e "failed to syncer.Start") "backend.Start")) (r_orch s))
| SyncDone : r_backend s = Syncing → start_step s (set_backend s Looping (r_orch s))
| Tick o : r_backend s = Looping → orch_step numCPU (r_orch s) o → start_step s (set_backend s Looping o)
| BackendStops o : r_backend s = Stopping → orch_stop (r_orch s) = Val (o, true) →
    start_step s (set_backend s Stopped o)
| SourceReports e : r_source s = Reporting e → serverErrors s = [] →
    start_step s (set_source (set_errors s [e]) Ended)
| ServerReports e : r_server s = Reporting e → serverErrors s = [] →
    start_step s (set_server (set_errors s [e]) Ended)
| BackendReports e : r_backend s = Failing e → serverErrors s = [] →
    start_step s (set_backend (set_errors s [e]) Failed (r_orch s))
| SignalArrives :
    start_step s (mkRunning (r_source s) (r_server s) (r_backend s) (r_orch s) (serverErrors s) true (r_calls s) (r_main s))
| MainError e l : r_main s = Selecting → serverErrors s = e :: l →
    start_step s (set_main (set_errors s l) (Returned (Some (ErrWrap e "server error: "))))
| MainSignal : r_main s = Selecting → signalled s = true → start_step s (set_main s StopServer)
| ServerStops err : r_main s = StopServer →
    start_step s (set_main (add_call s (SrvShutdown err)) (match server_Shutdown err with
                              | Some e => Returned (Some (ErrWrap e "srv.Shutdown"))
                              | None => StopSource
                              end))
| SourceStops : r_main s = StopSource →
    start_step s (set_main (add_call s (SourceShutdown (shutdown_source srv))) (match shutdown_source srv with
                              | Panic p => Crashed p
                              | Val (Some e) => Returned (Some (ErrWrap e "sourceSrv.Shutdown"))
                              | Val None => StopBackend
                              end))
| BackendTold : r_main s = StopBackend → r_backend s = Looping →
    start_step s (set_main (set_backend s Stopping (r_orch s)) WaitBackend)
| MainDone : r_main s = WaitBackend → r_backend s = Stopped → start_step s (set_main s (Returned None)).

(** Steps in which the orchestrator picks free ports. *)
Definition picked_step (s s1 : running) : Prop :=
  start_step s s1 ∧ (r_backend s1 = Looping → free_ports (r_orch s1)).

(** ** What a run leaves *)

(** Whether the orchestrator was told to stop. *)
Definition told (b : backend_pc) : bool := match b with Stopping | Stopped => true | _ => false end.

Definition orch_ok (s : running) : Prop :=
  match r_backend s with
  | Syncing | Failing _ | Failed => r_orch s = NewOrchestrator
  | Looping | Stopping => rtc (fresh_step numCPU) NewOrchestrator (r_orch s)
  | Stopped => ∃ o, rtc (fresh_step numCPU) NewOrchestrator o ∧ orch_stop o = Val (r_orch s, true)
  end.

(** Both servers were shut down without an error, the server first. *)
Definition both_shut : list shutdown_call := [SrvShutdown None; SourceShutdown (Val None)].

(** The last shutdown failed, if any was asked for. *)
Definition gave_up (l : list shutdown_call) : Prop :=
  l = [] ∨ (∃ e, l = [SrvShutdown (Some e)]) ∨ ∃ e, l = [SrvShutdown None; SourceShutdown (Val (Some e))].

Definition main_ok (s : running) : Prop :=
  match r_main s with
  | Selecting => r_calls s = [] ∧ told (r_backend s) = false
  | Returned (Some _) => gave_up (r_calls s) ∧ told (r_backend s) = false
  | StopServer => signalled s = true ∧ r_calls s = [] ∧ told (r_backend s) = false
  | StopSource => signalled s = true ∧ r_calls s = [SrvShutdown None] ∧ told (r_backend s) = false
  | Crashed p => r_calls s = [SrvShutdown None; SourceShutdown (Panic p)] ∧ told (r_backend s) = false
  | StopBackend => signalled s = true ∧ told (r_backend s) = false ∧ r_calls s = both_shut
  | WaitBackend => signalled s = true ∧ told (r_backend s) = true ∧ r_calls s = both_shut
  | Returned None => signalled s = true ∧ r_backend s = Stopped ∧ r_calls s = both_shut
  end.

Lemma fresh_step_intro o o1 : orch_step numCPU o o1 → free_ports o1 → fresh_step numCPU o o1.
Proof. by split. Qed.

Lemma picked_step_ok s s1 : picked_step s s1 → orch_ok s → main_ok s → orch_ok s1 ∧ main_ok s1.
Proof.
  intros [Hstep Hfree] Ho Hm. unfold orch_ok, main_ok in *.
  destruct Hstep as [err H|err H|e H|H|o H Hs|o H Hs|e H Hs|e H Hs|e H Hs| |e l H Hs|H Hs|err H|H|H Hs|H Hs];
    simpl in *; try rewrite H in *; try rewrite Hs in *; simpl in *.
  all: (split; [first [exact Ho|by rewrite Ho|by eauto using rtc_r, fresh_step_intro|done]|]).
  all: try (destruct err; simpl). all: try destruct (shutdown_source srv) as [[e|]|] eqn:E.
  all: try (destruct (r_main s) as [| | | | |[]|]). all: unfold gave_up, both_shut in *.
  all: repeat match goal with H : _ ∧ _ |- _ => destruct H end.
  all: try match goal with H : r_calls _ = _ |- _ => rewrite H end.
  all: try (by split_and!). all: try naive_solver.
Qed.

Lemma launched_ok s : rtc picked_step launched s → orch_ok s ∧ main_ok s.
Proof.
  apply (rtc_ind_r (λ s, orch_ok s ∧ main_ok s)); [done|].
  intros s1 s2 _ Hs [Ho Hm]. by eapply picked_step_ok.
Qed.

(** The steps of the orchestrator are steps of the command. *)
Lemma ticks s o o1 :
  rtc (fresh_step numCPU) o o1 → rtc picked_step (set_backend s Looping o) (set_backend s Looping o1).
Proof.
  induction 1 as [o|o o1 o2 [Hs Hf] _ IH]; [done|]. eapply rtc_l; [|exact IH].
  split; [|done]. by apply (Tick (set_backend s Looping o) o1).
Qed.

(** C21: However the servers, the orchestrator, a signal and the launches are
    interleaved, as long as the ports that the orchestrator picks are free, the
    start command returns nil only after a signal, when it has called Shutdown of
    the server and then of the source server, both without an error, and the
    orchestrator has stopped, and then every runner that was alive has been
    cancelled or was just being added; when it returns an error, one of these
    shutdowns failed or none was called, when it panics the second one did, and
    the orchestrator was never told to stop: its state is still one that its own
    steps lead to. *)
Theorem start_stops_runners s :
  rtc picked_step launched s →
  match r_main s with
  | Returned None =>
      signalled s = true ∧ r_calls s = [SrvShutdown None; SourceShutdown (Val None)] ∧
      ∃ o, rtc (fresh_step numCPU) NewOrchestrator o ∧ orch_stop o = Val (r_orch s, true) ∧
        ∀ p, p ∈ alive o → p ∈ adding o ∨ pr_uuid p ∈ cancelled (watcher_of (r_orch s) (pr_fqmn p))
  | Returned (Some _) =>
      gave_up (r_calls s) ∧
      told (r_backend s) = false ∧ rtc (fresh_step numCPU) NewOrchestrator (r_orch s)
  | Crashed p =>
      r_calls s = [SrvShutdown None; SourceShutdown (Panic p)] ∧
      told (r_backend s) = false ∧ rtc (fresh_step numCPU) NewOrchestrator (r_orch s)
  | _ => True
  end.
Proof.
  intros [Ho Hm]%launched_ok. unfold orch_ok, main_ok in *.
  destruct (r_main s) as [| | | | |[e|]|p]; try done.
  - destruct Hm as [Hc Hb]. split; [done|]. split; [done|]. destruct (r_backend s); try done; by rewrite Ho.
  - destruct Hm as (Hsig & Hb & Hsrc). rewrite Hb in Ho. split_and!; try done.
    destruct Ho as (o & Hrun & Hstop). exists o. split; [done|]. split; [done|].
    destruct (orch_stop_cancels o) as (o1 & E & Hall); [by apply (fresh_inv numCPU)|].
    rewrite E in Hstop. by injection Hstop as <-.
  - destruct Hm as [Hc Hb]. split; [done|]. split; [done|]. destruct (r_backend s); try done; by rewrite Ho.
Qed.

(** When both servers were shut down and the orchestrator is in its loop, the
    command can return; when the syncer could not be started, the signal that
    [Shutdown] sends is received by nobody, and it never returns. *)
Theorem shutdown_returns_or_hangs s :
  rtc picked_step launched s → r_main s = StopBackend →
  match r_backend s with
  | Looping => ∃ s1, rtc start_step s s1 ∧ r_main s1 = Returned None
  | Failing _ | Failed => ∀ s1, rtc start_step s s1 → r_main s1 = StopBackend
  | _ => True
  end.
Proof.
  intros [Ho Hm]%launched_ok Hmain. unfold orch_ok in Ho.
  assert ((∃ e, r_backend s = Failing e) ∨ r_backend s = Failed → ∀ s1, rtc start_step s s1 → r_main s1 = StopBackend) as Hstuck.
  { intros Hf s1 Hr. cut (((∃ e, r_backend s1 = Failing e) ∨ r_backend s1 = Failed) ∧ r_main s1 = StopBackend); [by intros []|].
    revert s1 Hr. apply (rtc_ind_r (λ s1, _ ∧ r_main s1 = StopBackend)); [by split|].
    intros s1 s2 _ Hs [Hf1 Hm1]. destruct Hf1 as [[e He]|He]; destruct Hs; simpl in *;
      try congruence; (split; [|done]); try (left; by eexists); by right. }
  destruct (r_backend s) eqn:Eb; try done; try (apply Hstuck; by eauto).
  destruct (orch_stop_cancels (r_orch s)) as (o1 & E & _); [by apply (fresh_inv numCPU)|].
  eexists. split; [|shelve]. eapply rtc_l; [by apply BackendTold|].
  eapply rtc_l; [by apply BackendStops|]. eapply rtc_l; [by apply MainDone|]. apply rtc_refl.
  Unshelve. done.
Qed.

(** With an external control plane the source server is nil: when its [Shutdown]
    panics, a signal leads to a panic and the orchestrator is not stopped. *)
Lemma nil_source_crashes s s1 p :
  rtc picked_step launched s → srv = None → shutdown_source None = Panic p → r_main s = StopSource → start_step s s1 →
  (r_main s1 = StopSource ∨ r_main s1 = Crashed p) ∧ told (r_backend s1) = false.
Proof.
  intros [_ Hm]%launched_ok Hsrv Hp Hmain Hs. unfold main_ok in Hm. rewrite Hmain in Hm. destruct Hm as (_ & _ & Hb).
  destruct Hs; simpl in *; rewrite ?Hsrv in *; rewrite ?Hp in *; try congruence; try (by split; [left|]);
    try (by split; [right|]); try (split; [by left|]; destruct (r_backend s); naive_solver).
Qed.
End Start.

(** ** Examples *)

(** One runner was started, then a signal arrives. *)
Definition example_stopped : orchestrator := match orch_stop example_added with Val (o, _) => o | Panic _ => NewOrchestrator end.

Definition example_end : running :=
  mkRunning Running Running Stopped example_stopped [] true both_shut (Returned None).

Lemma example_start_run : rtc (picked_step 4 (Some "modules.wasm.zip") (λ _, Val None)) launched example_end.
Proof.
  eapply rtc_l; [split; [by apply SyncDone|]; intros _; split; [constructor|intros p Hp; set_solver]|].
  etrans; [exact (ticks 4 _ _ launched _ _ example_added_run)|].
  assert (free_ports example_added) as Hf by (split; [constructor|intros p Hp; set_solver]).
  eapply rtc_l; [split; [apply SignalArrives|by intros _]|]. eapply rtc_l; [split; [by apply MainSignal|by intros _]|].
  eapply rtc_l; [split; [by apply (ServerStops _ _ _ _ None)|by intros _]|].
  eapply rtc_l; [split; [by apply SourceStops|by intros _]|]. eapply rtc_l; [split; [by apply BackendTold|done]|].
  eapply rtc_l; [split; [apply (BackendStops _ _ _ _ example_stopped); [done|vm_compute; reflexivity]|done]|].
  eapply rtc_l; [split; [by apply MainDone|done]|]. apply rtc_refl.
Qed.

Lemma start_stops_runners_witness :
  ∃ o, rtc (fresh_step 4) NewOrchestrator o ∧ orch_stop o = Val (example_stopped, true).
Proof.
  destruct (start_stops_runners 4 (Some "modules.wasm.zip") (λ _, Val None) example_end example_start_run)
    as (_ & _ & o & Ho & E & _).
  by exists o.
Defined.
