(* ===== verification/Tasks.v ===== *)
(** * Background tasks: foundation/signaler/signaler.go

    Tasks run in goroutines under one context; a signal cancels it, and Wait
    returns for the first of: all tasks are done, a signal, an error of a task.
    The interleaving of the goroutines is a step relation; no other part of the
    program uses this package. *)

From S2P Require Import Prelude.

(** The goroutine of a task: in the task, before [group.Done], before the send on
    [errChan], and over. *)
Inductive task : Type := TaskRuns | TaskReturned (err : option error) | TaskSends (e : error) | TaskOver.

(** The goroutine of [Setup]: before the receive from [signalChan], in the send on
    [shutdownChan], and over. *)
Inductive watcher : Type := WaitsForSignal | SendsShutdown | WatcherOver.

(** The goroutine of [Wait]: in [group.Wait], in the send on [doneChan], and over. *)
Inductive waiter : Type := NoWaiter | InGroupWait | SendsDone | WaiterOver.

(** The caller of [Wait]: in the outer select, in the inner one. *)
Inductive wait_pc : Type := NotWaiting | Selecting | ShuttingDown | Waited (err : option error).

Record Signaler : Type := mkSignaler {
  tasks : list task;
  group : Z;
  signalChan : bool;         (* with room for one signal: whether it is full *)
  cancelled : bool;          (* of the context *)
  s_watcher : watcher;
  s_waiter : waiter;
  s_wait : wait_pc
}.

Definition Setup : Signaler := mkSignaler [] 0 false false WaitsForSignal NoWaiter NotWaiting.

Definition set_tasks (s : Signaler) (ts : list task) (g : Z) : Signaler :=
  mkSignaler ts g (signalChan s) (cancelled s) (s_watcher s) (s_waiter s) (s_wait s).
Definition set_wait (s : Signaler) (w : waiter) (p : wait_pc) : Signaler :=
  mkSignaler (tasks s) (group s) (signalChan s) (cancelled s) (s_watcher s) w p.

(** [Start], up to the start of its goroutine. *)
Definition Start (s : Signaler) : Signaler := set_tasks s (tasks s ++ [TaskRuns]) (group s + 1).

(** After [group.Done]. *)
Definition report (err : option error) : task := match err with Some e => TaskSends e | None => TaskOver end.

Inductive signaler_step (s : Signaler) : Signaler → Prop :=
| Starts : s_wait s = NotWaiting → signaler_step s (Start s)
| TaskReturns i err : tasks s !! i = Some TaskRuns →
    signaler_step s (set_tasks s (<[i := TaskReturned err]> (tasks s)) (group s))
| TaskDone i err : tasks s !! i = Some (TaskReturned err) →
    signaler_step s (set_tasks s (<[i := report err]> (tasks s)) (group s - 1))
| SignalArrives :                        (* a signal is dropped when the channel is full *)
    signaler_step s (mkSignaler (tasks s) (group s) true (cancelled s) (s_watcher s) (s_waiter s) (s_wait s))
| WatcherCancels : s_watcher s = WaitsForSignal → signalChan s = true →
    signaler_step s (mkSignaler (tasks s) (group s) false true SendsShutdown (s_waiter s) (s_wait s))
| WaitEnters : s_wait s = NotWaiting → signaler_step s (set_wait s InGroupWait Selecting)
| GroupEmpty : s_waiter s = InGroupWait → group s = 0%Z → signaler_step s (set_wait s SendsDone (s_wait s))
| WaitDone : s_wait s = Selecting ∨ s_wait s = ShuttingDown → s_waiter s = SendsDone →
    signaler_step s (set_wait s WaiterOver (Waited None))
| WaitShutdown : s_wait s = Selecting → s_watcher s = SendsShutdown →
    signaler_step s (mkSignaler (tasks s) (group s) (signalChan s) (cancelled s) WatcherOver (s_waiter s) ShuttingDown)
| WaitError i e : s_wait s = Selecting → tasks s !! i = Some (TaskSends e) →
    signaler_step s (set_wait (set_tasks s (<[i := TaskOver]> (tasks s)) (group s)) (s_waiter s) (Waited (Some e)))
| WaitTimeout : s_wait s = ShuttingDown → signaler_step s (set_wait s (s_waiter s) (Waited None)).

(** [ManualShutdown], up to its [Wait]: [None] when the send blocks. *)
Definition ManualShutdown (s : Signaler) : option Signaler :=
  if signalChan s then None
  else Some (mkSignaler (tasks s) (group s) true (cancelled s) (s_watcher s) (s_waiter s) (s_wait s)).

(** ** What Wait returns *)

Definition unfinished (t : task) : bool := match t with TaskRuns | TaskReturned _ => true | _ => false end.

Definition open_tasks (ts : list task) : nat := length (filter (λ t, unfinished t = true) ts).

Lemma open_tasks_insert ts i t t' :
  ts !! i = Some t →
  open_tasks (<[i := t']> ts) + (if unfinished t then 1 else 0) = open_tasks ts + (if unfinished t' then 1 else 0).
Proof.
  unfold open_tasks. revert i. induction ts as [|x ts IH]; intros [|i]; try done; simpl.
  - intros [= ->]. rewrite !filter_cons. destruct (unfinished t), (unfinished t'); simpl; lia.
  - intros Hi. rewrite !filter_cons. pose proof (IH i Hi). destruct (unfinished x); simpl; lia.
Qed.

(** The group counts the tasks that are not done; the other flags say what must
    have happened. *)
Definition signaler_ok (s : Signaler) : Prop :=
  group s = Z.of_nat (open_tasks (tasks s)) ∧
  (s_watcher s ≠ WaitsForSignal → cancelled s = true) ∧
  (s_waiter s = NoWaiter ↔ s_wait s = NotWaiting) ∧
  (s_waiter s = SendsDone ∨ s_waiter s = WaiterOver → group s = 0%Z) ∧
  (s_wait s = ShuttingDown → cancelled s = true) ∧
  (s_wait s = Waited None → group s = 0%Z ∨ cancelled s = true).

Lemma signaler_step_ok s s1 : signaler_step s s1 → signaler_ok s → signaler_ok s1.
Proof.
  intros Hstep (Hg & Hw & Hn & Hd & Hs & Hr).
  assert (∀ i t t', tasks s !! i = Some t →
    Z.of_nat (open_tasks (<[i := t']> (tasks s))) =
      (group s - (if unfinished t then 1 else 0) + (if unfinished t' then 1 else 0))%Z) as Hins.
  { intros i t t' Hi. pose proof (open_tasks_insert (tasks s) i t t' Hi). destruct (unfinished t), (unfinished t'); lia. }
  destruct Hstep as [H|i err H|i err H| |H H1|H|H H1|H H1|H H1|i e H H1|H]; unfold signaler_ok; simpl.
  - assert (s_waiter s = NoWaiter) as Hnw by by apply Hn. rewrite Hnw, H, Hg in *.
    unfold open_tasks. rewrite filter_app, length_app. simpl. split_and!; try done; try lia; naive_solver.
  - split_and!; try done. rewrite (Hins i _ _ H). simpl. lia.
  - assert (unfinished (report err) = false) as Hu by by destruct err.
    pose proof (Hins i _ (report err) H) as Hi. rewrite Hu in Hi. simpl in Hi.
    assert (0 < group s)%Z as Hpos by lia. split_and!; try done; try lia; intros Hx; naive_solver lia.
  - by split_and!.
  - split_and!; try done. naive_solver.
  - split_and!; try done; naive_solver.
  - rewrite H in Hn. split_and!; try done; naive_solver.
  - rewrite H1 in Hn, Hd. split_and!; try done; naive_solver.
  - assert (s_waiter s ≠ NoWaiter) by (rewrite Hn, H; done). assert (cancelled s = true) by (apply Hw; by rewrite H1).
    by split_and!.
  - assert (s_waiter s ≠ NoWaiter) by (rewrite Hn, H; done).
    split_and!; try done. rewrite (Hins i _ _ H1). simpl. lia.
  - assert (s_waiter s ≠ NoWaiter) by (rewrite Hn, H; done). split_and!; try done. intros _. right. by apply Hs.
Qed.

Lemma setup_ok s : rtc signaler_step Setup s → signaler_ok s.
Proof.
  apply (rtc_ind_r signaler_ok); [|by eauto using signaler_step_ok]. split_and!; try done; naive_solver.
Qed.

(** After Wait has returned nobody receives from errChan. *)
Lemma waited_step s s1 : signaler_step s s1 → (∃ r, s_wait s = Waited r) →
  s_wait s1 = s_wait s ∧ ∀ i e, tasks s !! i = Some (TaskSends e) → tasks s1 !! i = Some (TaskSends e).
Proof.
  intros Hstep [r Hr]. destruct Hstep; simpl in *; rewrite Hr in *;
    try (by split); try naive_solver; (split; [done|]); intros j e' Hj;
    rewrite list_lookup_insert_ne by (intros ->; congruence); done.
Qed.

(** When Wait returns nil, every task is done or a signal cancelled the context;
    the error of a task that has not been received by then is never received, and
    the goroutine of that task does not end. *)
Theorem wait_returns_nil s :
  rtc signaler_step Setup s → s_wait s = Waited None →
  ((∀ t, t ∈ tasks s → unfinished t = false) ∨ cancelled s = true) ∧
  ∀ i e s1, tasks s !! i = Some (TaskSends e) → rtc signaler_step s s1 → tasks s1 !! i = Some (TaskSends e).
Proof.
  intros Hok%setup_ok Hw. destruct Hok as (Hg & _ & _ & _ & _ & Hr). split.
  - destruct (Hr Hw) as [H0|]; [left|by right]. intros t Ht.
    destruct (unfinished t) eqn:E; [|done]. exfalso.
    assert (t ∈ filter (λ t, unfinished t = true) (tasks s)) as Hin by by apply list_elem_of_filter.
    unfold open_tasks in Hg. destruct (filter _ _); [by apply not_elem_of_nil in Hin|simpl in Hg; lia].
  - intros i e s1 Hi Hrun. cut ((∃ r, s_wait s1 = Waited r) ∧ tasks s1 !! i = Some (TaskSends e)); [by intros []|].
    revert s1 Hrun. apply (rtc_ind_r (λ s1, (∃ r, s_wait s1 = Waited r) ∧ tasks s1 !! i = Some (TaskSends e))).
    + split; [by eexists|done].
    + intros s1 s2 _ Hs [Hw1 Hi1]. destruct (waited_step s1 s2 Hs Hw1) as [Hw2 Hk]. split; [by rewrite Hw2|by apply Hk].
Qed.

(** The error of a failed task can be lost, because a task is done before it sends
    its error: the group is empty and Wait returns nil without a signal. *)
Lemma error_lost e :
  ∃ s, rtc signaler_step Setup s ∧ s_wait s = Waited None ∧ cancelled s = false ∧ tasks s = [TaskSends e].
Proof.
  eexists. split; [|shelve]. eapply rtc_l; [by apply Starts|]. eapply rtc_l; [by apply WaitEnters|].
  eapply rtc_l; [by apply (TaskReturns _ 0 (Some e))|]. eapply rtc_l; [by apply (TaskDone _ 0 (Some e))|].
  eapply rtc_l; [by apply GroupEmpty|]. eapply rtc_l; [by apply WaitDone; [left|]|]. apply rtc_refl.
  Unshelve. done.
Qed.

(** It can also be returned. *)
Lemma error_returned e :
  ∃ s, rtc signaler_step Setup s ∧ s_wait s = Waited (Some e) ∧ tasks s = [TaskOver].
Proof.
  eexists. split; [|shelve]. eapply rtc_l; [by apply Starts|]. eapply rtc_l; [by apply WaitEnters|].
  eapply rtc_l; [by apply (TaskReturns _ 0 (Some e))|]. eapply rtc_l; [by apply (TaskDone _ 0 (Some e))|].
  eapply rtc_l; [by apply (WaitError _ 0 e)|]. apply rtc_refl.
  Unshelve. done.
Qed.
