(* ===== verification/AsyncCounter.v ===== *)
(** * The counter of the bus's tests: foundation/bus/testutil/asynccoutner.go

    [Count] sends on a channel from a goroutine, [Wait] polls the channel.  The
    poll is a loop over its turns: whether a count is there to be received, and
    the milliseconds since the start. *)

From S2P Require Import Prelude.
From stdpp Require Import pretty.

(** The counts in the channel, its capacity, and the goroutines that still want to
    send. *)
Record AsyncCounter : Type := mkCounter { countChan : nat; capacity : nat; counting : nat }.

Definition NewAsyncCounter (size : Z) : outcome AsyncCounter :=
  if decide (size < 0)%Z then Panic NegLen else Val (mkCounter 0 (Z.to_nat size) 0).

Definition Count (a : AsyncCounter) : AsyncCounter := mkCounter (countChan a) (capacity a) (S (counting a)).

(** A goroutine of [Count] sends: to the buffer, when there is room. *)
Inductive count_step : AsyncCounter → AsyncCounter → Prop :=
| CountSends c k n : c < k → count_step (mkCounter c k (S n)) (mkCounter (S c) k n).

Record turn : Type := mkTurn { received : bool; elapsed : Z }.

Definition Wait_turn (timeoutMs : Z) (total : Z) (timeoutSeconds : Z) (env : nat → turn) (st : nat * Z) :
    (nat * Z) + (nat * option error) :=
  let '(n, count) := st in
  let count1 := if received (env n) then (count + 1)%Z else count in
  if decide (elapsed (env n) > timeoutMs)%Z then
    inr (n, if decide (count1 ≠ total)
            then Some (ErrNew ("AsyncCoutnter got the incorrect count: " +:+ pretty count1 +:+ ", expected " +:+ pretty total +:+
                               " (in " +:+ pretty timeoutSeconds +:+ " seconds)"))
            else None)
  else inl (S n, count1).

(** With the turn in which it returned. *)
Definition Wait (fuel : nat) (total timeoutSeconds : Z) (env : nat → turn) : option (nat * option error) :=
  loop fuel (Wait_turn (timeoutSeconds * 1000) total timeoutSeconds env) (0, 0%Z).

(** How many counts the first turns have received. *)
Definition counted (env : nat → turn) (n : nat) : Z :=
  Z.of_nat (length (filter (λ k, received (env k) = true) (seq 0 n))).

Lemma counted_S env n : counted env (S n) = (counted env n + if received (env n) then 1 else 0)%Z.
Proof.
  unfold counted. rewrite seq_S, filter_app, length_app, filter_cons. simpl.
  destruct (received (env n)); simpl; lia.
Qed.

Lemma Wait_loop total s env fuel n r :
  loop fuel (Wait_turn (s * 1000) total s env) (n, counted env n) = Some r →
  (elapsed (env r.1) > s * 1000)%Z ∧ (∀ k, n ≤ k < r.1 → (elapsed (env k) ≤ s * 1000)%Z) ∧
  (r.2 = None ↔ counted env (S r.1) = total).
Proof.
  revert n. induction fuel as [|fuel IH]; intros n; [done|]. cbn [loop]. unfold Wait_turn at 1.
  assert ((if received (env n) then (counted env n + 1)%Z else counted env n) = counted env (S n)) as ->
    by (rewrite counted_S; destruct (received (env n)); lia).
  case_decide as He.
  - intros [= <-]. simpl. split; [done|]. split; [intros k Hk; lia|]. case_decide; naive_solver.
  - intros Hl. destruct (IH _ Hl) as (H1 & H2 & H3). split; [done|]. split; [|done].
    intros k Hk. destruct (decide (k = n)) as [->|]; [lia|]. apply H2. lia.
Qed.

(** [Wait] returns in the first turn after the timeout and not before, whether the
    total was reached or not; it returns nil exactly when as many counts as
    expected were received by then, and an error when there were more. *)
Theorem Wait_result fuel total s env n err :
  Wait fuel total s env = Some (n, err) →
  (elapsed (env n) > s * 1000)%Z ∧ (∀ k, k < n → (elapsed (env k) ≤ s * 1000)%Z) ∧
  (err = None ↔ counted env (S n) = total).
Proof.
  intros Hw. destruct (Wait_loop total s env fuel 0 (n, err) Hw) as (H1 & H2 & H3). simpl in *.
  split; [done|]. split; [|done]. intros k Hk. apply H2. lia.
Qed.
