(* ===== verification/Deployed.v ===== *)
(** * The processes as the program makes them

    The nodes that New and setupBus make, with the pods of their hubs, are ready for
    the messages of the mesh (MeshRequest). *)

From S2P Require Import Prelude.
From S2P Require Import Interfaces.
From S2P Require Import Balancer.
From S2P Require Import Message.
From S2P Require Import Signaler.
From S2P Require Import Hub.
From S2P Require Import Websocket.
From S2P Require MsgBuffer.
From S2P Require MessageBus.
From S2P Require Import Pod.
From S2P Require Import MeshNode.
From S2P Require Import Dispatcher.
From S2P Require Node.
From S2P Require Startup.
From S2P Require ControlServer.
From S2P Require Arrival.
From S2P Require Listen.
From S2P Require Pool.
From S2P Require Import MeshRequest.

(** ** The nodes that the program makes are ready *)

Lemma hub_pod_listens p : Arrival.hub_pod = Some p → hub_listens p ∅ ∧ pod_ok p.
Proof.
  intros [= <-].
  assert (∀ m, handleMsg (mkPod (Some (OwnerFunc (λ _, None))) newMessageFilter (mkPodOpts false true) false []) m =
    Reported PodConn.podFeedbackMsgSuccess) as Hh.
  { intros m. unfold handleMsg; simpl. by rewrite allow_new. }
  split; [|by split; [done|right]]. intros m. by rewrite Hh.
Qed.

Lemma listens_pod_ok p t : listens_for p t → dead p = false → pod_ok p.
Proof. intros Hl Hd. split; [done|]. intros m. rewrite Hl. case_decide; auto. Qed.

Lemma pod_at_head (i : Z) (p : Pod) l : pod_at ((i, p) :: l) i = Some p.
Proof. apply lookup_insert_eq. Qed.

Lemma pod_at_next (i j : Z) (p : Pod) l : i ≠ j → pod_at ((i, p) :: l) j = pod_at l j.
Proof. apply lookup_insert_ne. Qed.

(** A runner after setupBus, with its three pods on the bus. *)
Lemma setupBus_ready {B : Type} `{Picker B} fresh tenant jobType port hp :
  Arrival.hub_pod = Some hp →
  ∃ b pod engine, Arrival.setupBus (B := B) fresh tenant jobType port = Val (Some (b, pod, engine)) ∧
    node_ok (mkNode (Node.bus_bus b) [(1%Z, hp); (2%Z, pod); (3%Z, engine)]) [] ∧
    Node.bus_hub b = initHub fresh tenant [jobType] true false ∧ listens_for engine jobType.
Proof.
  intros Hhp. destruct (hub_pod_listens hp Hhp) as [Hlis Hok].
  destruct (Arrival.setupBus_ring (B := B) fresh tenant jobType port)
    as (b & pod & engine & E & Hr & Hb & Hc & Hh & -> & He).
  exists b, (newPod false), engine. split; [done|].
  assert (listens_for engine jobType) as Heng.
  { intros m. by rewrite (Listen.ListenAndRun_handles _ _ _ _ He). }
  split; [|done]. split; simpl; [| | |done].
  - eexists. split; [exact Hr|]. split; [repeat constructor; apply quiet_new|]. simpl.
    symmetry. apply (reverse_Permutation [3%Z; 2%Z; 1%Z]).
  - rewrite !Forall_cons. split; [done|]. split; [by split; [done|left]|]. split; [|done].
    apply (listens_pod_ok _ _ Heng). unfold Listen.ListenAndRun, OnType in He. simpl in He. by injection He as <-.
  - rewrite Hb. by apply MsgBuffer.buffered_new.
Qed.

(** The control process after New, with the pods of the hub and of the dispatcher. *)
Lemma server_ready {B : Type} `{Picker B} {C Pr : Type} (lib : Startup.observability (Conn := C) (Provider := Pr))
    tracer fresh port hp x :
  Arrival.hub_pod = Some hp → Startup.setupTracing lib tracer = Val (Ok x) →
  ∃ sv, ControlServer.New (B := B) lib tracer fresh (λ _, None) port = Val (Ok (Some sv)) ∧
    node_ok (mkNode (Node.bus_bus (ControlServer.sv_bus sv)) [(1%Z, hp); (2%Z, ControlServer.sv_pod sv)]) [] ∧
    Node.bus_hub (ControlServer.sv_bus sv) = initHub fresh "*" [] true false ∧
    listens_for (ControlServer.sv_pod sv) MsgTypeSuborbitalResult.
Proof.
  intros Hhp Ht. destruct (hub_pod_listens hp Hhp) as [Hlis Hok].
  assert (Pool.ring (MessageBus.pool MessageBus.newMessageBus) []) as Hr0 by (repeat split; constructor).
  destruct (Arrival.addPod_ring MessageBus.newMessageBus [] Hr0) as (b1 & E1 & Hr1 & M1 & F1 & G1).
  destruct (Arrival.addPod_ring b1 _ Hr1) as (b2 & E2 & Hr2 & M2 & F2 & G2). rewrite M1 in Hr2.
  unfold ControlServer.New, Node.New, connectWithOpts. rewrite Ht, E1. cbn [mbind outcome_bind Node.bus_bus]. rewrite E2.
  cbn [mbind outcome_bind]. eexists. split; [reflexivity|].
  match goal with |- node_ok (mkNode _ [_; (_, ?p)]) _ ∧ _ => assert (listens_for p MsgTypeSuborbitalResult) as Hl end.
  { intros m. unfold handleMsg; simpl. rewrite allow_verdict; simpl. rewrite verdict_insert. unfold verdict. simpl.
    destruct (decide (MsgTypeSuborbitalResult = Type_ m)), (decide (Type_ m = MsgTypeSuborbitalResult)); congruence || done. }
  split; [|split; [reflexivity|exact Hl]]. split; simpl.
  - eexists. split; [exact Hr2|]. split; [repeat constructor; apply quiet_new|].
    symmetry. apply (reverse_Permutation [2%Z; 1%Z]).
  - rewrite !Forall_cons. split; [done|]. split; [by apply (listens_pod_ok _ _ Hl)|done].
  - rewrite F2, F1. by apply MsgBuffer.buffered_new.
  - by rewrite G2, G1.
Qed.

(** ** A control process and a runner *)

(** ** A control process and its runners *)

Section Deployed.
Context {B : Type} `{Picker B}.
Context (peer : Z → Z).

(** The control process with its hub; no request is under way. *)
Definition server_parent (sv : ControlServer.Server (B := B)) (hp : Pod) (h : hub (B := B)) : parent :=
  mkParent (mkNode (Node.bus_bus (ControlServer.sv_bus sv)) [(1%Z, hp); (2%Z, ControlServer.sv_pod sv)]) h 1 2 ∅.

Definition sat_runner (b : Node.Bus (B := B)) (hp pod engine : Pod) (h : hub (B := B)) : runner_node :=
  mkRunner (mkNode (Node.bus_bus b) [(1%Z, hp); (2%Z, pod); (3%Z, engine)]) h (map_to_list (meshConnections h)).*2 1 2 3.

(** A runner: its UUID, tenant and job type, and where its port is. *)
Record sat : Type := mkSat { st_id : string; st_tenant : string; st_type : string; st_port : string; st_address : string }.

(** A node on which no message has been. *)
Lemma new_node_ready fuel n i p :
  node_ok n [] → pod_at (nd_pods n) i = Some p → hub_listens p ∅ → length (nd_pods n) < fuel → node_ready fuel ∅ n i.
Proof.
  intros Hn Hp Hl Hf. split; [|by exists p, ∅|done]. exists []. split; [done|]. intros u Hu. by apply not_elem_of_nil in Hu.
Qed.

(** The hub of a runner, with one connection to the control process. *)
Definition sat_hub (idA : string) (s : sat) (c : Z) : hub (B := B) :=
  addConnection (initHub (st_id s) (st_tenant s) [st_type s] true false) (peer c) idA "*" [].

Lemma sat_ready idA s c b hp pod engine :
  idA ≠ "" → node_ok (mkNode (Node.bus_bus b) [(1%Z, hp); (2%Z, pod); (3%Z, engine)]) [] → hub_listens hp ∅ →
  listens_for engine (st_type s) →
  runner_ready 4 (sat_runner b hp pod engine (sat_hub idA s c)) (st_type s) (peer c) ∅.
Proof.
  intros HidA HR Hlis Heng. split; simpl; [| | |done| |done|].
  - apply (new_node_ready _ _ _ hp HR); [apply pod_at_head|done|simpl; lia].
  - exists engine. split; [|done]. rewrite !pod_at_next by done. apply pod_at_head.
  - exists pod. rewrite pod_at_next by done. apply pod_at_head.
  - apply hub_wf_add; [apply hub_wf_init|done|apply lookup_empty].
  - eexists idA, _. split; [apply lookup_insert_eq|]. split; [done|]. split; [done|].
    intros u' hd' Hu' _. by apply lookup_insert_Some in Hu' as [[<- _]|[_ Hu']]; [|rewrite lookup_empty in Hu'].
Qed.

End Deployed.
