(* ===== verification/Traffic.v ===== *)
(** * The traffic of a deployed mesh

    A control process and its runners as a step relation.  Runners join: the control
    process hears of one and dials it; runners leave: one writes its withdrawal, the
    control process reads it, and the scan of its hub closes the connection.
    An Execute tunnels its message, or finds no peer, or times out; a runner reads a
    message and starts a job, a job ends and its result is written, the control
    process reads a result, and the handler of the dispatcher takes it, in time or
    late.  The steps follow each other in any order, so any number of calls are under
    way at once, and jobs and handlers overtake each other.

    The file has the steps, the invariant of the runs, what the processes do with what
    is under way, the other steps, and what every run does. *)

From S2P Require Import Prelude.
From S2P Require Import Interfaces.
From S2P Require Import Message.
From S2P Require Import Signaler.
From S2P Require Import Hub.
From S2P Require Import Websocket.
From S2P Require Import Link.
From S2P Require Import Tunnel.
From S2P Require Import Pod.
From S2P Require Import MeshNode.
From S2P Require Import Sequence.
From S2P Require Import Dispatcher.
From S2P Require Import Mesh.
From S2P Require Import Syncer.
From S2P Require Import Handlers.
From S2P Require Import EndToEnd.
From S2P Require Node.
From S2P Require Arrival.
From S2P Require Startup.
From S2P Require ControlServer.
From S2P Require Import MeshRequest.
From S2P Require Import Deployed.

Section Traffic.
Context {WorkflowStep : Type} (FQMN : WorkflowStep → string).
Context `{Codec (list (WorkflowStep * bool))} `{Codec CoordinatedRequest} `{Codec ExecResult}.
Context (step_of : string → WorkflowStep) (FQMN_step_of : ∀ f, FQMN (step_of f) = f).
Context (errText : error → string) (fn : string → CoordinatedRequest → fn_result).
Context `{Codec Message, Codec TransportHandshake, Codec TransportHandshakeAck, Codec Node.payload}.
Context {W : Type} (ws : Websocket W) (peer : Z → Z) (waiting : W → Z → list frame) (alive : W → Z → Prop).
Context `{!WebsocketLaws ws peer waiting alive}.
Context {B : Type} `{Picker B} (heard : connectionHandler → bool).
(** The pod of a hub, and the UUID and time for raw data that a reader gets. *)
Context (hp : Pod) (id : string * Z).

Abbreviation mesh := (mesh (W := W) (B := B)).
Abbreviation call_msg := (call_msg FQMN step_of).
Abbreviation parent_id q := (req_ID (c_req q)).

(** The processes with the calls that are under way and those that have ended with
    what their Execute saw; the late calls are those that have timed out with their
    message, job or result still in the mesh.  [tr_jobs] are the jobs of the runners,
    with the connections of their runners, and [tr_handlers] the messages with which
    handlers of the dispatcher have started; [tr_gone] are the connections of the
    runners that have withdrawn and [tr_used] the UUIDs that have been drawn; [tr_stuck]
    says that the lock of the dispatcher will never be free again. *)
Record traffic : Type := mkTraffic {
  tr_mesh : mesh; tr_gone : list Z; tr_used : gset string;
  tr_sent : list call; tr_late : list call; tr_jobs : list (Z * call); tr_handlers : list Message;
  tr_done : list (call * seen); tr_stuck : bool
}.

(** The calls that the mesh carries. *)
Abbreviation tr_out s := (tr_sent s ++ tr_late s).

Abbreviation tr_hub s := (pt_hub (ms_parent (tr_mesh s))).
Abbreviation tr_world s := (ms_world (tr_mesh s)).
Abbreviation tr_callbacks s := (pt_callbacks (ms_parent (tr_mesh s))).

(** A connection of the control process. *)
Definition on_mesh (h : hub (B := B)) (c : Z) : Prop := ∃ v hd, meshConnections h !! v = Some hd ∧ Conn hd = Some c.

(** One whose peer has not withdrawn, so that its reader goes on. *)
Definition listening (h : hub (B := B)) (c : Z) : Prop :=
  ∃ v hd, meshConnections h !! v = Some hd ∧ Conn hd = Some c ∧ PeerWithdrawn (h_Signaler hd) = false.

(** The call of a request that was made, to a function that answers. *)
Definition can_call (q : call) : Prop :=
  is_Some (req_State (c_req q)) ∧ is_Some (req_RespHeaders (c_req q)) ∧
  fn (m_FQMN (c_module q)) (module_request step_of (c_module q) (c_req q)) ≠ FnOther.

(** A connection that leads to a runner, or has led to one. *)
Definition known (s : traffic) (c : Z) : Prop := on_mesh (tr_hub s) c ∨ c ∈ tr_gone s.

(** The processes go on with what is under way: a runner reads a message and starts
    its job, a job ends and the result is written, as long as the control process has
    not closed the connection, the control process reads a result
    and starts the handler of the dispatcher, and the handler gives the result to the
    Execute that waits for it, which then ends, or to none when that has timed out. *)
Inductive process_step (s : traffic) : traffic → Prop :=
| RunnerReads c q R R1 w1 :
    on_mesh (tr_hub s) c → ms_runners (tr_mesh s) !! c = Some R → q ∈ tr_out s →
    runner_reads ws 4 id R (peer c) (tr_world s) = Some (call_msg q, R1, w1) →
    process_step s (mkTraffic (mkMesh (ms_parent (tr_mesh s)) (<[c := R1]> (ms_runners (tr_mesh s))) w1)
      (tr_gone s) (tr_used s) (tr_sent s) (tr_late s) (tr_jobs s ++ [(c, q)]) (tr_handlers s) (tr_done s) (tr_stuck s))
| JobEnds c q j1 j2 R R1 w1 :
    on_mesh (tr_hub s) c → tr_jobs s = j1 ++ (c, q) :: j2 → ms_runners (tr_mesh s) !! c = Some R →
    job_ends FQMN errText fn ws heard 4 (c_sat_fresh q) (c_sat_now q) R (call_msg q) (tr_world s) = Some (R1, w1) →
    process_step s (mkTraffic (mkMesh (ms_parent (tr_mesh s)) (<[c := R1]> (ms_runners (tr_mesh s))) w1)
      (tr_gone s) (tr_used s) (tr_sent s) (tr_late s) (j1 ++ j2) (tr_handlers s) (tr_done s) (tr_stuck s))
| ParentReads c m P1 w1 :
    listening (tr_hub s) c → parent_reads ws 4 id (ms_parent (tr_mesh s)) c (tr_world s) = Some (m, P1, w1) →
    process_step s (mkTraffic (mkMesh P1 (ms_runners (tr_mesh s)) w1)
      (tr_gone s) (tr_used s) (tr_sent s) (tr_late s) (tr_jobs s) (tr_handlers s ++ [m]) (tr_done s) (tr_stuck s))
| ResultHandled m h1 h2 q l1 l2 r :
    tr_stuck s = false → tr_handlers s = h1 ++ m :: h2 → tr_sent s = l1 ++ q :: l2 → ParentID m = parent_id q →
    onMsgHandler (tr_callbacks s) m = Some r →
    process_step s (mkTraffic
      (mkMesh (set_callbacks (ms_parent (tr_mesh s)) (removeCallback (tr_callbacks s) (parent_id q)))
        (ms_runners (tr_mesh s)) (tr_world s))
      (tr_gone s) (tr_used s) (l1 ++ l2) (tr_late s) (tr_jobs s) (h1 ++ h2) (tr_done s ++ [(q, (None, [Arrived r]))])
      (tr_stuck s))
| ResultIgnored m h1 h2 q l1 l2 :
    tr_stuck s = false → tr_handlers s = h1 ++ m :: h2 → tr_late s = l1 ++ q :: l2 → ParentID m = parent_id q →
    onMsgHandler (tr_callbacks s) m = None →
    process_step s (mkTraffic (tr_mesh s)
      (tr_gone s) (tr_used s) (tr_sent s) (l1 ++ l2) (tr_jobs s) (h1 ++ h2) (tr_done s) (tr_stuck s)).

(** Besides, an Execute can start whose request ID and UUIDs are new, as those of
    uuid.New are, and end when its tunnel fails; the Execute of a call can time out; it can time out when a handler
    holds the lock to give it the result, and then both wait for ever.  A runner that
    setupBus has made, with a UUID of its own, can join over a new connection.  One can
    shut down: it withdraws and goes on with its messages and jobs, which it gives time
    to drain.  The control process hears of it when it reads the withdrawal, and reads
    no more, and its scan closes the connections of the peers that have withdrawn and
    removes them.  [Shutdown] closes the connection of the runner three seconds later,
    when the scan, which runs every second, has closed it. *)
Inductive traffic_step (s : traffic) : traffic → Prop :=
| MeshStep s1 : process_step s s1 → traffic_step s s1
| ExecuteStarts q e P1 w1 :
    tr_stuck s = false → can_call q → parent_id q ∉ (λ q, parent_id q) <$> tr_out s →
    c_fresh q ∉ tr_used s → c_sat_fresh q 0 ∉ {[c_fresh q]} ∪ tr_used s →
    dispatch_call FQMN step_of ws heard q (ms_parent (tr_mesh s)) (tr_world s) = Some (e, P1, w1) →
    traffic_step s (mkTraffic (mkMesh P1 (ms_runners (tr_mesh s)) w1) (tr_gone s)
      ({[c_sat_fresh q 0; c_fresh q]} ∪ tr_used s)
      (tr_sent s ++ match e with None => [q] | Some _ => [] end) (tr_late s) (tr_jobs s) (tr_handlers s)
      (tr_done s ++ match e with None => [] | Some e => [(q, (Some e, []))] end) (tr_stuck s))
| ExecuteTimesOut q l1 l2 :
    tr_stuck s = false → tr_sent s = l1 ++ q :: l2 →
    traffic_step s (mkTraffic
      (mkMesh (set_callbacks (ms_parent (tr_mesh s)) (removeCallback (tr_callbacks s) (parent_id q)))
        (ms_runners (tr_mesh s)) (tr_world s))
      (tr_gone s) (tr_used s) (l1 ++ l2) (tr_late s ++ [q]) (tr_jobs s) (tr_handlers s)
      (tr_done s ++ [(q, (None, [TimedOut]))]) (tr_stuck s))
| HandlerStuck m h1 h2 q r :
    tr_stuck s = false → tr_handlers s = h1 ++ m :: h2 → q ∈ tr_sent s → ParentID m = parent_id q →
    onMsgHandler (tr_callbacks s) m = Some r →
    traffic_step s (mkTraffic (tr_mesh s)
      (tr_gone s) (tr_used s) (tr_sent s) (tr_late s) (tr_jobs s) (h1 ++ h2) (tr_done s) true)
| RunnerJoins x c b pod engine h1 w1 w2 hB :
    Arrival.setupBus (st_id x) (st_tenant x) (st_type x) (st_port x) = Val (Some (b, pod, engine)) →
    st_id x ≠ "" → st_id x ≠ nodeUUID (tr_hub s) → meshConnections (tr_hub s) !! st_id x = None →
    String.prefix "ws" (st_address x +:+ ":" +:+ st_port x +:+ "/meta/message") = false →
    Node.dials ws peer waiting alive (tr_world s) (st_address x) (st_port x) "/meta/message" c w1 →
    (∀ d, known s d → d ≠ c ∧ d ≠ peer c) →
    (∀ d, d ≠ c → d ≠ peer c → waiting w1 d = waiting (tr_world s) d) →
    Node.hears_of ws peer (tr_hub s) (st_address x) (Node.mkDiscoveryOpts (st_id x) (st_port x) "/meta/message")
      (tr_world s) (Node.bus_hub b) = (h1, (w2, hB)) →
    traffic_step s (mkTraffic
      (mkMesh (set_hub (ms_parent (tr_mesh s)) h1) (<[c := sat_runner b hp pod engine hB]> (ms_runners (tr_mesh s))) w2)
      (tr_gone s) (tr_used s) (tr_sent s) (tr_late s) (tr_jobs s) (tr_handlers s) (tr_done s) (tr_stuck s))
| RunnerLeaves c R v R1 w1 :
    on_mesh (tr_hub s) c → c ∉ tr_gone s → ms_runners (tr_mesh s) !! c = Some R →
    runner_withdraws ws R v (tr_world s) = Some (R1, w1) →
    traffic_step s (mkTraffic (mkMesh (ms_parent (tr_mesh s)) (<[c := R1]> (ms_runners (tr_mesh s))) w1)
      (c :: tr_gone s) (tr_used s) (tr_sent s) (tr_late s) (tr_jobs s) (tr_handlers s) (tr_done s) (tr_stuck s))
| ParentHears c v hd e w1 :
    meshConnections (tr_hub s) !! v = Some hd → Conn hd = Some c → PeerWithdrawn (h_Signaler hd) = false →
    reader ws [id] (h_Signaler hd) c (tr_world s) = ([], Some (SetPeerWithdrawn (h_Signaler hd), e), w1) →
    traffic_step s (mkTraffic
      (mkMesh (set_hub (ms_parent (tr_mesh s)) (peerWithdrew (tr_hub s) v)) (ms_runners (tr_mesh s)) w1)
      (tr_gone s) (tr_used s) (tr_sent s) (tr_late s) (tr_jobs s) (tr_handlers s) (tr_done s) (tr_stuck s))
| HubScans h1 w1 :
    scan (websocket_transport ws) (λ _, false) (map_to_list (meshConnections (tr_hub s))).*2 (tr_hub s) (tr_world s) =
      Val (h1, w1) →
    traffic_step s (mkTraffic (mkMesh (set_hub (ms_parent (tr_mesh s)) h1) (ms_runners (tr_mesh s)) w1)
      (tr_gone s) (tr_used s) (tr_sent s) (tr_late s) (tr_jobs s) (tr_handlers s) (tr_done s) (tr_stuck s)).

(** ** What is under way *)

(** A call's message waits at a runner, or its job runs there, or its result waits at
    the control process, or a handler has it, or it is lost behind the withdrawal of
    the runner; [c] is the connection of the control process. *)
Inductive flight : Type :=
| Queued (q : call) (c : Z) | Running (q : call) (c : Z) | Back (q : call) (r : ExecResult) (c : Z) | Handling (q : call) (r : ExecResult) | Lost (q : call) (c : Z).

Definition flight_call (f : flight) : call :=
  match f with Queued q _ | Running q _ | Back q _ _ | Handling q _ | Lost q _ => q end.
Definition flight_conn (f : flight) : option Z :=
  match f with Queued _ c | Running _ c | Back _ _ c | Lost _ c => Some c | Handling _ _ => None end.

Definition result_msg (q : call) (r : ExecResult) : Message := sendFnResult (c_sat_fresh q) (c_sat_now q) (parent_id q) r.

(** The frames that wait at an end of a connection, the jobs and the handlers. *)
Definition frame_at (d : Z) (f : flight) : list frame :=
  match f with
  | Queued q c => if decide (d = peer c) then [(BinaryMessage, Marshal (call_msg q))] else []
  | Back q r c => if decide (d = c) then [(BinaryMessage, Marshal (result_msg q r))] else []
  | _ => []
  end.
Definition frames (d : Z) (fl : list flight) : list frame := fl ≫= frame_at d.

Definition job_of (f : flight) : list (Z * call) := match f with Running q c => [(c, q)] | _ => [] end.
Definition message_of (f : flight) : list Message := match f with Handling q r => [result_msg q r] | _ => [] end.

Definition call_uuids (q : call) : list string := [c_fresh q; c_sat_fresh q 0].

(** The UUIDs that a runner and the control process have not come across. *)
Definition to_draw (f : flight) : list string :=
  match f with Queued q _ => call_uuids q | Running q _ => [c_sat_fresh q 0] | _ => [] end.
Definition unread (f : flight) : list string :=
  match f with Handling _ _ | Lost _ _ => [] | _ => [c_sat_fresh (flight_call f) 0] end.

(** What waits behind the results that will be read: nothing, or the withdrawal of
    the runner with what it has written since. *)
Definition left_at (gone : list Z) (d : Z) (rest : list frame) : Prop :=
  if decide (d ∈ gone) then ∃ fs, rest = (TextMessage, withdrawMessage) :: fs else rest = [].

(** An end of a connection that somebody reads. *)
Definition hears (s : traffic) (d : Z) : Prop := listening (tr_hub s) d ∨ on_mesh (tr_hub s) (peer d).

(** The connections of a runner have the signalers that they were made with. *)
Definition unsignaled (R : runner_node (B := B)) : Prop :=
  ∀ v hx, meshConnections (rn_hub R) !! v = Some hx → h_Signaler hx = NewSignaler.

(** A connection of the control process leads to a runner of one job type, which
    has no other connection. *)
Definition conn_ok (s : traffic) (fl : list flight) (hd : connectionHandler) : Prop :=
  ∃ c t, Conn hd = Some c ∧ h_Interests hd = [t] ∧ (c ∉ tr_gone s → PeerWithdrawn (h_Signaler hd) = false) ∧
    ∃ R U, ms_runners (tr_mesh s) !! c = Some R ∧ runner_ready 4 R t (peer c) U ∧ U ⊆ tr_used s ∧
      (∀ f u, f ∈ fl → u ∈ to_draw f → u ∉ U) ∧
      (∀ v hx x, meshConnections (rn_hub R) !! v = Some hx → Conn hx = Some x → x = peer c) ∧
      (c ∉ tr_gone s → unsignaled R).

(** A result that will be read is on a connection that is read, and one is lost when
    the runner has withdrawn; the connection is one of the module, if it is still
    there. *)
Definition place_ok (s : traffic) (f : flight) (c : Z) : Prop :=
  match f with Back _ _ _ => listening (tr_hub s) c | Lost _ _ => c ∈ tr_gone s | _ => known s c end ∧
  ∀ v hd, meshConnections (tr_hub s) !! v = Some hd → Conn hd = Some c →
    h_Interests hd = [m_FQMN (c_module (flight_call f))].

Definition flight_ok (s : traffic) (f : flight) : Prop :=
  (∀ c, flight_conn f = Some c → place_ok s f c) ∧
  can_call (flight_call f) ∧
  match f with
  | Back q r _ | Handling q r => first_result step_of errText fn (c_module q) (c_req q) r
  | _ => True
  end.

(** A call that has ended has seen the result of its own job, or timed out, or found
    no peer. *)
Definition done_ok (done : list (call * seen)) : Prop := ∀ q x, (q, x) ∈ done →
  x = (None, [TimedOut]) ∨ x = (Some ErrTunnelNotEstablished, []) ∨ ∃ r, x = (None, [Arrived r]) ∧ first_result step_of errText fn (c_module q) (c_req q) r.

(** The invariant; [fl] is what is under way, where what waits for the same process is
    in the order in which it was written. *)
Record traffic_ok (s : traffic) (fl : list flight) : Prop := {
  to_alive c : on_mesh (tr_hub s) c → alive (tr_world s) c;
  to_hub : hub_wf (tr_hub s);
  to_node : nodeUUID (tr_hub s) ≠ "" ∧ belongsTo (tr_hub s) = "*" ∧ interests (tr_hub s) = [] ∧ hasMesh (tr_hub s) = true;
  to_parent : ∃ V, parent_ready 4 (ms_parent (tr_mesh s)) V ∧ V ⊆ tr_used s ∧ ∀ f u, f ∈ fl → u ∈ unread f → u ∉ V;
  to_callbacks q : q ∈ tr_sent s → parent_id q ∈ tr_callbacks s;
  to_late q : q ∈ tr_late s → parent_id q ∉ tr_callbacks s;
  to_conns v hd : meshConnections (tr_hub s) !! v = Some hd → conn_ok s fl hd;
  to_waits d : hears s d → ∃ rest, waiting (tr_world s) d = frames d fl ++ rest ∧ left_at (tr_gone s) d rest;
  to_apart c d : known s c → known s d → c ≠ peer d;
  to_one v hd v' hd' c : meshConnections (tr_hub s) !! v = Some hd → Conn hd = Some c →
    meshConnections (tr_hub s) !! v' = Some hd' → Conn hd' = Some c → v = v';
  to_flights f : f ∈ fl → flight_ok s f;
  to_jobs : tr_jobs s ≡ₚ fl ≫= job_of;
  to_handlers : tr_handlers s ≡ₚ fl ≫= message_of;
  to_sent : flight_call <$> fl ≡ₚ tr_out s;
  to_uuids : NoDup (tr_out s ≫= call_uuids) ∧ ∀ u, u ∈ tr_out s ≫= call_uuids → u ∈ tr_used s;
  to_ids : NoDup ((λ q, parent_id q) <$> tr_out s);
  to_done : done_ok (tr_done s);
  to_stuck : tr_stuck s = false
}.

(** ** Frames and flights *)

Lemma frames_app d l1 l2 : frames d (l1 ++ l2) = frames d l1 ++ frames d l2.
Proof. apply bind_app. Qed.

Lemma frames_at d l1 f l2 : frames d (l1 ++ f :: l2) = frames d l1 ++ frame_at d f ++ frames d l2.
Proof. unfold frames. by rewrite bind_app, bind_cons. Qed.

Lemma frames_one d f : frames d [f] = frame_at d f.
Proof. apply app_nil_r. Qed.

(** The next frame at an end is that of a flight. *)
Lemma frames_head d fl x xs :
  frames d fl = x :: xs → ∃ l1 f l2, fl = l1 ++ f :: l2 ∧ frames d l1 = [] ∧ frame_at d f ≠ [].
Proof.
  induction fl as [|f fl IH]; [done|]. unfold frames at 1. rewrite bind_cons. fold (frames d fl).
  destruct (frame_at d f) eqn:E.
  - intros (l1 & f' & l2 & -> & E1 & E2)%IH. exists (f :: l1), f', l2. split; [done|]. split; [|done].
    unfold frames. by rewrite bind_cons, E.
  - intros _. exists [], f, fl. by rewrite E.
Qed.

Lemma frame_at_some d f : frame_at d f ≠ [] → (∃ q c, f = Queued q c ∧ d = peer c) ∨ ∃ q r, f = Back q r d.
Proof.
  destruct f as [q c|q c|q r c|q r|q c]; simpl; try done; case_decide as Hd; try done; intros _.
  - left. by exists q, c.
  - right. subst. by exists q, r.
Qed.

(** A frame is read, or one is written. *)
Lemma frames_take d e l1 f l2 f' x fs rest w w1 :
  frames e l1 = [] → (∀ d, frame_at d f = if decide (d = e) then [x] else []) → (∀ d, frame_at d f' = []) →
  waiting w e = x :: fs → waiting w d = frames d (l1 ++ f :: l2) ++ rest →
  waiting w1 d = (if decide (d = e) then fs else waiting w d) →
  waiting w1 d = frames d (l1 ++ l2 ++ [f']) ++ rest.
Proof.
  intros Hl1 Hf Hf' He Hw ->. rewrite frames_at, Hf in Hw. rewrite !frames_app, frames_one, Hf', app_nil_r.
  case_decide as Hd; [|exact Hw]. subst d. rewrite Hl1, He in Hw. rewrite Hl1. by injection Hw.
Qed.

Lemma frames_put d fl f rest w w1 :
  (frame_at d f ≠ [] → rest = []) → waiting w d = frames d fl ++ rest →
  waiting w1 d = waiting w d ++ frame_at d f → waiting w1 d = frames d (fl ++ [f]) ++ rest.
Proof.
  intros Hex Hw ->. rewrite Hw, frames_app, frames_one. destruct (frame_at d f); [by rewrite !app_nil_r|].
  rewrite Hex by done. by rewrite !app_nil_r.
Qed.

Lemma frames_gap d l1 f l2 : (∀ d, frame_at d f = []) → frames d (l1 ++ f :: l2) = frames d (l1 ++ l2).
Proof. intros Hf. by rewrite frames_at, Hf, frames_app. Qed.

Lemma bind_apart {A A'} (f : A → list A') l1 x l2 y u :
  NoDup ((l1 ++ x :: l2) ≫= f) → y ∈ l1 ++ l2 → u ∈ f x → u ∉ f y.
Proof.
  rewrite bind_app, bind_cons, !NoDup_app. intros (_ & H1' & _ & H2' & _) Hy Hu Hu'.
  apply elem_of_app in Hy as [Hy|Hy].
  - apply (H1' u); [apply list_elem_of_bind; by exists y|]. apply elem_of_app. by left.
  - apply (H2' u Hu). apply list_elem_of_bind. by exists y.
Qed.

Lemma uuids_perm (l l' : list call) (used : gset string) :
  l ≡ₚ l' → (NoDup (l' ≫= call_uuids) ∧ ∀ u, u ∈ l' ≫= call_uuids → u ∈ used) →
  NoDup (l ≫= call_uuids) ∧ ∀ u, u ∈ l ≫= call_uuids → u ∈ used.
Proof. intros Hp [H1' H2']. split; [by rewrite Hp|]. intros u. rewrite Hp. apply H2'. Qed.

(** Two calls under way share no UUID. *)
Lemma flights_apart s l1 f l2 f' u :
  traffic_ok s (l1 ++ f :: l2) → f' ∈ l1 ++ l2 → u ∈ call_uuids (flight_call f) → u ∉ call_uuids (flight_call f').
Proof.
  intros Hok Hf'. destruct (to_uuids _ _ Hok) as [Hnd _]. rewrite <- (to_sent _ _ Hok), fmap_app in Hnd.
  rewrite fmap_cons in Hnd. apply (bind_apart call_uuids _ _ _ (flight_call f') u Hnd).
  rewrite <- fmap_app. by apply list_elem_of_fmap_2.
Qed.

(** A call is found by one of its UUIDs, and by its request ID. *)
Lemma sent_same s fl q q' u :
  traffic_ok s fl → q ∈ tr_out s → q' ∈ tr_out s → u ∈ call_uuids q → u ∈ call_uuids q' → q = q'.
Proof.
  intros Hok (l1 & l2 & Hs)%list_elem_of_split Hq' Hu Hu'. destruct (to_uuids _ _ Hok) as [Hnd _]. rewrite Hs in Hnd, Hq'.
  apply elem_of_app in Hq' as [Hq'|[->|Hq']%elem_of_cons]; [|done|];
    destruct (bind_apart _ l1 q l2 q' u Hnd) as []; try done; apply elem_of_app; auto.
Qed.

Lemma out_same s fl q q' : traffic_ok s fl → q ∈ tr_out s → q' ∈ tr_out s → parent_id q = parent_id q' → q = q'.
Proof.
  intros Hok [i Hi]%list_elem_of_lookup [j Hj]%list_elem_of_lookup E. pose proof (to_ids _ _ Hok) as Hnd.
  assert (i = j) as ->; [|congruence].
  apply (NoDup_lookup _ i j (parent_id q) Hnd); rewrite list_lookup_fmap; [by rewrite Hi|by rewrite Hj, E].
Qed.

Lemma flight_sent s fl f : traffic_ok s fl → f ∈ fl → flight_call f ∈ tr_out s.
Proof. intros Hok Hf. rewrite <- (to_sent _ _ Hok). by apply list_elem_of_fmap_2. Qed.

Lemma sent_used s fl q u : traffic_ok s fl → q ∈ tr_out s → u ∈ call_uuids q → u ∈ tr_used s.
Proof. intros Hok Hq Hu. apply (to_uuids _ _ Hok). apply list_elem_of_bind. by exists q. Qed.

(** The two UUIDs of a call are different. *)
Lemma uuids_differ s fl q : traffic_ok s fl → q ∈ tr_out s → c_sat_fresh q 0 ≠ c_fresh q.
Proof.
  intros Hok (k1 & k2 & Hs)%list_elem_of_split E. destruct (to_uuids _ _ Hok) as [Hnd _].
  rewrite Hs, bind_app, bind_cons in Hnd. simpl in Hnd. rewrite E in Hnd.
  apply NoDup_app in Hnd as (_ & _ & [Hn _]%NoDup_cons). apply Hn. by left.
Qed.

(** What a flight has not drawn are UUIDs of its call. *)
Lemma to_draw_uuids f u : u ∈ to_draw f → u ∈ call_uuids (flight_call f).
Proof. destruct f; simpl; try done; [|by intros ?%not_elem_of_nil..]. intros ->%list_elem_of_singleton. right. by left. Qed.

Lemma unread_uuids f u : u ∈ unread f → u ∈ call_uuids (flight_call f).
Proof. destruct f; simpl; try (intros ->%list_elem_of_singleton; right; by left); by intros ?%not_elem_of_nil. Qed.

(** The flights around one that goes on as another one, or ends. *)
Lemma elem_of_rest {A} (l1 l2 fl : list A) y : y ∈ l1 ++ l2 ++ fl → y ∈ l1 ++ l2 ∨ y ∈ fl.
Proof. rewrite !elem_of_app. tauto. Qed.

Lemma elem_of_around {A} (l1 : list A) x l2 y : y ∈ l1 ++ l2 → y ∈ l1 ++ x :: l2.
Proof. rewrite !elem_of_app, elem_of_cons. tauto. Qed.

Lemma elem_of_middle {A} (l1 : list A) x l2 : x ∈ l1 ++ x :: l2.
Proof. apply elem_of_app. right. by left. Qed.

Lemma bind_at {A A'} (f : A → list A') l1 x l2 : (l1 ++ x :: l2) ≫= f ≡ₚ f x ++ ((l1 ++ l2) ≫= f).
Proof. rewrite !bind_app, bind_cons. apply Permutation_app_swap_app. Qed.

Lemma bind_snoc {A A'} (f : A → list A') l1 l2 x : (l1 ++ l2 ++ [x]) ≫= f = ((l1 ++ l2) ≫= f) ++ f x.
Proof. by rewrite app_assoc, (bind_app _ _ [x]), bind_cons, app_nil_r. Qed.

(** What the flights after a step have not drawn, those before have not either. *)
Lemma keeps_undrawn (g : flight → list string) (U : gset string) l1 f l2 f' :
  (∀ f0 u, f0 ∈ l1 ++ f :: l2 → u ∈ g f0 → u ∉ U) → g f' ⊆ g f → ∀ f0 u, f0 ∈ l1 ++ l2 ++ [f'] → u ∈ g f0 → u ∉ U.
Proof.
  intros HU Hf f0 u [Hin| ->%list_elem_of_singleton]%elem_of_rest Hu; [by apply (HU f0); [apply elem_of_around|]|].
  apply (HU f); [apply elem_of_middle|by apply Hf].
Qed.

(** One of them draws a UUID. *)
Lemma draws (g : flight → list string) (U : gset string) s l1 f l2 f' u0 :
  traffic_ok s (l1 ++ f :: l2) → (∀ f0 u, u ∈ g f0 → u ∈ call_uuids (flight_call f0)) →
  (∀ f0 u, f0 ∈ l1 ++ f :: l2 → u ∈ g f0 → u ∉ U) → u0 ∈ call_uuids (flight_call f) →
  (∀ u, u ∈ g f' → u ∈ g f ∧ u ≠ u0) → ∀ f0 u, f0 ∈ l1 ++ l2 ++ [f'] → u ∈ g f0 → u ∉ ({[u0]} ∪ U : gset string).
Proof.
  intros Hok Hg HU Hu0 Hf f0 u Hin Hu. rewrite not_elem_of_union, not_elem_of_singleton. split.
  - intros ->. apply elem_of_rest in Hin as [Hin| ->%list_elem_of_singleton]; [|by apply (Hf u0)].
    by apply (flights_apart s l1 f l2 f0 u0 Hok Hin Hu0), Hg.
  - apply (keeps_undrawn g U l1 f l2 f' HU) with f0; [|done|done]. intros v Hv. by apply Hf.
Qed.

(** ** The steps keep the invariant *)

(** A runner with one connection writes to its other end only. *)
Lemma only_parent R t c U d (f : frame) :
  runner_ready 4 R t (peer c) U →
  (∀ v hx x, meshConnections (rn_hub R) !! v = Some hx → Conn hx = Some x → x = peer c) →
  (λ _, f) <$> filter (λ hd, sends_to peer d hd = true) (rn_order R) = (if decide (d = c) then [f] else []).
Proof.
  intros HR Honly. destruct (law_peer c) as [Hpp _]. case_decide as Hd.
  - subst d. destruct (sends_to_parent ws peer waiting alive 4 R t (peer c) U HR) as (hd & E). rewrite Hpp in E. by rewrite E.
  - rewrite (sends_nothing peer 4 R t (peer c) U d HR); [done|]. intros v hx x Hv Hx.
    rewrite (Honly v hx x Hv Hx), Hpp. congruence.
Qed.

(** A connection that a step leaves alone. *)
Lemma conn_keep s fl s1 fl1 hd :
  conn_ok s fl hd → tr_used s ⊆ tr_used s1 → (∀ c, c ∉ tr_gone s1 → c ∉ tr_gone s) →
  (∀ f u, f ∈ fl1 → u ∈ to_draw f → (∃ f', f' ∈ fl ∧ u ∈ to_draw f') ∨ u ∉ tr_used s) →
  (∀ c, Conn hd = Some c → ms_runners (tr_mesh s1) !! c = ms_runners (tr_mesh s) !! c) →
  conn_ok s1 fl1 hd.
Proof.
  intros (c & t & Hc & Ht & Hpw & R & U & HR & Hready & HU & Hq & Honly & Hnew) Hused Hgone Hfl Hs.
  exists c, t. do 2 (split; [done|]). split; [by intros Hg%Hgone; apply Hpw|].
  exists R, U. split_and!; try done; [by rewrite (Hs c Hc)|set_solver| |by intros Hg%Hgone; apply Hnew].
  intros f u Hin Hu. destruct (Hfl f u Hin Hu) as [(f' & Hin' & Hu')|Hn]; [by eapply Hq|]. set_solver.
Qed.

(** A connection that a flight is on, with its runner. *)
Lemma flight_conn_ok s fl f c :
  traffic_ok s fl → f ∈ fl → flight_conn f = Some c → on_mesh (tr_hub s) c →
  ∃ v hd R U, meshConnections (tr_hub s) !! v = Some hd ∧ Conn hd = Some c ∧
    h_Interests hd = [m_FQMN (c_module (flight_call f))] ∧ (c ∉ tr_gone s → PeerWithdrawn (h_Signaler hd) = false) ∧
    ms_runners (tr_mesh s) !! c = Some R ∧ runner_ready 4 R (m_FQMN (c_module (flight_call f))) (peer c) U ∧ U ⊆ tr_used s ∧
    (∀ f u, f ∈ fl → u ∈ to_draw f → u ∉ U) ∧
    (∀ v hx x, meshConnections (rn_hub R) !! v = Some hx → Conn hx = Some x → x = peer c) ∧ (c ∉ tr_gone s → unsignaled R).
Proof.
  intros Hok Hf Hfc (v & hd & Hv & Hc). destruct (to_flights _ _ Hok f Hf) as (Hconn & _).
  destruct (Hconn c Hfc) as [_ Hi]. specialize (Hi v hd Hv Hc).
  destruct (to_conns _ _ Hok v hd Hv) as (c' & t & Hc' & Hi' & Hpw & R & U & Hrest).
  rewrite Hc in Hc'. injection Hc' as <-. rewrite Hi in Hi'. injection Hi' as <-. by exists v, hd, R, U.
Qed.

Lemma listening_on_mesh h c : listening h c → on_mesh h c.
Proof. intros (v & hd & Hv & Hc & _). by exists v, hd. Qed.

Lemma flight_known s fl f c : traffic_ok s fl → f ∈ fl → flight_conn f = Some c → known s c.
Proof.
  intros Hok Hf Hfc. destruct (to_flights _ _ Hok f Hf) as (Hconn & _). destruct (Hconn c Hfc) as [Hp _].
  destruct f; try done; [left; by apply listening_on_mesh|by right].
Qed.

(** A runner that has not withdrawn is on the mesh. *)
Lemma known_on_mesh s c : known s c → c ∉ tr_gone s → on_mesh (tr_hub s) c.
Proof. by intros [|]. Qed.

Lemma back_listening s fl q r c : traffic_ok s fl → Back q r c ∈ fl → listening (tr_hub s) c.
Proof. intros Hok Hf. destruct (to_flights _ _ Hok _ Hf) as (Hconn & _). by destruct (Hconn c eq_refl). Qed.

(** What waits at the two ends of a connection. *)
Lemma left_at_peer s fl c rest : traffic_ok s fl → known s c → left_at (tr_gone s) (peer c) rest → rest = [].
Proof.
  intros Hok Hc. unfold left_at. rewrite decide_False; [done|]. intros Hg.
  by apply (to_apart _ _ Hok (peer c) c); [right| |].
Qed.

Lemma left_at_none gone c rest : c ∉ gone → left_at gone c rest → rest = [].
Proof. intros Hc. unfold left_at. by rewrite decide_False. Qed.

Lemma left_at_more gone c rest x : c ∈ gone → left_at gone c rest → left_at gone c (rest ++ [x]).
Proof. unfold left_at. intros Hc. rewrite !decide_True by done. intros [fs ->]. by eexists. Qed.

Lemma waits_peer s fl c : traffic_ok s fl → on_mesh (tr_hub s) c → waiting (tr_world s) (peer c) = frames (peer c) fl.
Proof.
  intros Hok Hc. destruct (to_waits _ _ Hok (peer c)) as (rest & E & Hr); [right; by rewrite (proj1 (law_peer c))|].
  rewrite (left_at_peer s fl c rest), app_nil_r in E; [done|done|by left|done].
Qed.

Lemma waits_here s fl c :
  traffic_ok s fl → listening (tr_hub s) c →
  ∃ rest, waiting (tr_world s) c = frames c fl ++ rest ∧ left_at (tr_gone s) c rest.
Proof. intros Hok Hc. apply (to_waits _ _ Hok). by left. Qed.

(** The connections can be used, at both ends. *)
Lemma peer_alive s fl c : traffic_ok s fl → on_mesh (tr_hub s) c → alive (tr_world s) (peer c).
Proof. intros Hok Hc. by apply law_alive_peer, (to_alive _ _ Hok). Qed.

(** The flight of a call goes on. *)
Lemma moves_on s l1 f l2 f' P1 Rs w1 jobs handlers :
  let s1 := mkTraffic (mkMesh P1 Rs w1) (tr_gone s) (tr_used s) (tr_sent s) (tr_late s) jobs handlers (tr_done s) (tr_stuck s) in
  let fl1 := l1 ++ l2 ++ [f'] in
  traffic_ok s (l1 ++ f :: l2) → flight_call f' = flight_call f → flight_ok s f' → stays alive (tr_world s) w1 →
  pt_hub P1 = tr_hub s → pt_callbacks P1 = tr_callbacks s →
  (∃ V, parent_ready 4 P1 V ∧ V ⊆ tr_used s ∧ ∀ f0 u, f0 ∈ fl1 → u ∈ unread f0 → u ∉ V) →
  (∀ v hd, meshConnections (tr_hub s) !! v = Some hd → conn_ok s1 fl1 hd) →
  (∀ d rest, waiting (tr_world s) d = frames d (l1 ++ f :: l2) ++ rest → left_at (tr_gone s) d rest →
     ∃ rest1, waiting w1 d = frames d fl1 ++ rest1 ∧ left_at (tr_gone s) d rest1) →
  jobs ≡ₚ fl1 ≫= job_of → handlers ≡ₚ fl1 ≫= message_of → traffic_ok s1 fl1.
Proof.
  intros s1 fl1 Hok Hcall Hf' Ha Hhub Hcs Hpar Hconns Hwaits Hjobs Hhand.
  split; unfold hears, known; simpl; rewrite ?Hhub, ?Hcs; try apply Hok; try done.
  - intros c Hc. by apply Ha, (to_alive _ _ Hok).
  - intros d Hd. destruct (to_waits _ _ Hok d Hd) as (rest & E & Hr). by apply (Hwaits d rest).
  - intros f0 [Hin| ->%list_elem_of_singleton]%elem_of_rest; unfold flight_ok, place_ok, known; simpl; rewrite Hhub; [|done].
    apply (to_flights _ _ Hok). by apply elem_of_around.
  - unfold fl1. rewrite <- (to_sent _ _ Hok), app_assoc, (fmap_app _ _ [f']), !fmap_app. simpl. rewrite Hcall.
    rewrite <- Permutation_cons_append. apply Permutation_middle.
Qed.

(** The parent and the connections of the others, when a runner has gone on. *)
Lemma parent_stays s l1 f l2 f' :
  traffic_ok s (l1 ++ f :: l2) → unread f' ⊆ unread f →
  ∃ V, parent_ready 4 (ms_parent (tr_mesh s)) V ∧ V ⊆ tr_used s ∧ ∀ f0 u, f0 ∈ l1 ++ l2 ++ [f'] → u ∈ unread f0 → u ∉ V.
Proof.
  intros Hok Hf. destruct (to_parent _ _ Hok) as (V & HP & HV & HVq). exists V. split; [done|]. split; [done|].
  by apply (keeps_undrawn unread V l1 f l2 f').
Qed.

Lemma runner_goes_on s l1 f l2 f' c v hd R R1 U u0 w1 jobs handlers :
  let s1 := mkTraffic (mkMesh (ms_parent (tr_mesh s)) (<[c := R1]> (ms_runners (tr_mesh s))) w1)
    (tr_gone s) (tr_used s) (tr_sent s) (tr_late s) jobs handlers (tr_done s) (tr_stuck s) in
  traffic_ok s (l1 ++ f :: l2) → meshConnections (tr_hub s) !! v = Some hd → Conn hd = Some c →
  h_Interests hd = [m_FQMN (c_module (flight_call f))] → (c ∉ tr_gone s → PeerWithdrawn (h_Signaler hd) = false) →
  U ⊆ tr_used s → (∀ f0 u, f0 ∈ l1 ++ f :: l2 → u ∈ to_draw f0 → u ∉ U) →
  (∀ v hx x, meshConnections (rn_hub R) !! v = Some hx → Conn hx = Some x → x = peer c) →
  (c ∉ tr_gone s → unsignaled R) → rn_hub R1 = rn_hub R →
  runner_ready 4 R1 (m_FQMN (c_module (flight_call f))) (peer c) ({[u0]} ∪ U) →
  u0 ∈ call_uuids (flight_call f) → (∀ u, u ∈ to_draw f' → u ∈ to_draw f ∧ u ≠ u0) →
  ∀ v' hd', meshConnections (tr_hub s) !! v' = Some hd' → conn_ok s1 (l1 ++ l2 ++ [f']) hd'.
Proof.
  intros s1 Hok Hv Hc Hi Hpw HU Hq Honly Hnew HhR HR1 Hu0 Hf v' hd' Hv'. destruct (decide (v' = v)) as [->|Hne].
  - rewrite Hv in Hv'. injection Hv' as <-.
    exists c, (m_FQMN (c_module (flight_call f))). do 3 (split; [done|]).
    exists R1, ({[u0]} ∪ U). split_and!; try done.
    + simpl. by rewrite lookup_insert_eq.
    + apply union_subseteq. split; [|done]. apply singleton_subseteq_l. apply (sent_used _ _ (flight_call f) _ Hok); [|done].
      apply (flight_sent _ _ _ Hok), elem_of_middle.
    + apply (draws to_draw U s l1 f l2 f' u0); try done. apply to_draw_uuids.
    + rewrite HhR. exact Honly.
    + unfold unsignaled. rewrite HhR. exact Hnew.
  - apply (conn_keep s (l1 ++ f :: l2)); [by apply (to_conns _ _ Hok v')|done|done| |].
    + intros f0 u [Hin| ->%list_elem_of_singleton]%elem_of_rest Hu; left.
      * exists f0. split; [by apply elem_of_around|done].
      * exists f. split; [apply elem_of_middle|by apply Hf].
    + intros c' Hc'. simpl. rewrite lookup_insert_ne; [done|]. intros ->. apply Hne. by apply (to_one _ _ Hok v' hd' v hd c').
Qed.

(** A runner reads the message of a call and starts its job. *)
Lemma runner_step_ok s l1 q c l2 :
  traffic_ok s (l1 ++ Queued q c :: l2) → frames (peer c) l1 = [] → on_mesh (tr_hub s) c →
  ∃ R R1 w1, ms_runners (tr_mesh s) !! c = Some R ∧ q ∈ tr_out s ∧
    runner_reads ws 4 id R (peer c) (tr_world s) = Some (call_msg q, R1, w1) ∧
    traffic_ok (mkTraffic (mkMesh (ms_parent (tr_mesh s)) (<[c := R1]> (ms_runners (tr_mesh s))) w1)
      (tr_gone s) (tr_used s) (tr_sent s) (tr_late s) (tr_jobs s ++ [(c, q)]) (tr_handlers s) (tr_done s) (tr_stuck s))
      (l1 ++ l2 ++ [Running q c]).
Proof.
  intros Hok Hl1 Hcon. set (f := Queued q c). pose proof (elem_of_middle l1 f l2) as Hf.
  destruct (flight_conn_ok _ _ f c Hok Hf eq_refl Hcon) as (v & hd & R & U & Hv & Hc & Hi & Hpw & HR & Hready & HU & Hq & Honly & Hnew).
  simpl in Hready. pose proof (flight_sent _ _ f Hok Hf) as Hsent. simpl in Hsent.
  pose proof (waits_peer _ _ c Hok Hcon) as Hw. rewrite frames_at, Hl1 in Hw. simpl in Hw. rewrite decide_True in Hw by done.
  assert (Type_ (call_msg q) = m_FQMN (c_module q)) as Ht by apply FQMN_step_of. rewrite <- Ht in Hready.
  destruct (runner_reads_ok FQMN step_of fn ws peer waiting alive 4 id R (peer c) U (call_msg q) _ (tr_world s) Hready
    (peer_alive _ _ _ Hok Hcon) Hw) as (n1 & w1 & E & Ha & HR1 & Hq1); [apply (Hq f); [done|by left]|].
  exists R, (set_runner_node R n1), w1. do 2 (split; [done|]). split; [exact E|].
  pose proof (HR1 _ Hready) as HR1'. rewrite Ht in HR1'.
  apply (moves_on s l1 f l2 (Running q c)); try done.
  - destruct (to_flights _ _ Hok f Hf) as (Hfc & Hcan & _). split; [|by split]. intros c' [= <-]. exact (Hfc c eq_refl).
  - by apply (parent_stays s l1 f l2).
  - apply (runner_goes_on s l1 f l2 (Running q c) c v hd R _ U (c_fresh q)); try done; [by left|].
    intros u ->%list_elem_of_singleton. split; [right; by left|by apply (uuids_differ _ _ q Hok)].
  - intros d rest Hd Hr. exists rest. split; [|done].
    by apply (frames_take d (peer c) l1 f l2 (Running q c) (BinaryMessage, Marshal (call_msg q))
      (frames (peer c) l2) rest (tr_world s) w1).
  - rewrite bind_snoc, (to_jobs _ _ Hok), bind_at. done.
  - rewrite bind_snoc, app_nil_r, (to_handlers _ _ Hok), bind_at. done.
Qed.

(** The result of a job is on its way, or lost behind a withdrawal. *)
Definition written_back (gone : list Z) (q : call) (r : ExecResult) (c : Z) : flight :=
  if decide (c ∈ gone) then Lost q c else Back q r c.

(** A job ends and the result is written. *)
Lemma job_step_ok s l1 q c l2 j1 j2 :
  traffic_ok s (l1 ++ Running q c :: l2) → tr_jobs s = j1 ++ (c, q) :: j2 → on_mesh (tr_hub s) c →
  ∃ R R1 w1 r, ms_runners (tr_mesh s) !! c = Some R ∧
    job_ends FQMN errText fn ws heard 4 (c_sat_fresh q) (c_sat_now q) R (call_msg q) (tr_world s) = Some (R1, w1) ∧
    traffic_ok (mkTraffic (mkMesh (ms_parent (tr_mesh s)) (<[c := R1]> (ms_runners (tr_mesh s))) w1)
      (tr_gone s) (tr_used s) (tr_sent s) (tr_late s) (j1 ++ j2) (tr_handlers s) (tr_done s) (tr_stuck s))
      (l1 ++ l2 ++ [written_back (tr_gone s) q r c]).
Proof.
  intros Hok Hj Hcon. set (f := Running q c). pose proof (elem_of_middle l1 f l2) as Hf.
  destruct (flight_conn_ok _ _ f c Hok Hf eq_refl Hcon) as (v & hd & R & U & Hv & Hc & Hi & Hpw & HR & Hready & HU & Hq & Honly & Hnew).
  simpl in Hready. destruct (to_flights _ _ Hok f Hf) as (Hfc & Hcan & _). pose proof Hcan as ([st Hst] & [hs Hhs] & Hfn).
  destruct (job_reports FQMN step_of FQMN_step_of errText (c_sat_fresh q) (c_sat_now q) fn
    (mesh_world (c_fresh q) (c_now q) (None, [])) (c_module q) (c_req q) st hs Hst Hhs Hfn) as (r & Hjob & Hfirst).
  change (request_msg _ _ _ _ _) with (call_msg q) in Hjob. change (sendFnResult _ _ _ r) with (result_msg q r) in Hjob.
  destruct (job_ends_ok FQMN step_of errText fn ws peer waiting alive heard 4 (c_sat_fresh q) (c_sat_now q) R _ (peer c) U
    (call_msg q) (result_msg q r) (tr_world s) Hready) as (n1 & w1 & E & Ha & HR1 & Hq1); [|done| |].
  { intros v' hx x Hx _ Hcx. rewrite (Honly v' hx x Hx Hcx). by apply (peer_alive _ _ _ Hok). }
  { apply (Hq f); [done|by left]. }
  exists R, (set_runner_node R n1), w1, r. split; [done|]. split; [exact E|].
  assert (flight_call (written_back (tr_gone s) q r c) = q ∧ flight_ok s (written_back (tr_gone s) q r c)) as [Hcall Hfl].
  { destruct (Hfc c eq_refl) as [_ Hint]. unfold written_back. case_decide as Hg; (split; [done|]); (split; [|done]);
      intros c' [= <-]; (split; [|exact Hint]); [done|]. exists v, hd. split_and!; auto. }
  apply (moves_on s l1 f l2 (written_back (tr_gone s) q r c)); try done.
  - apply (parent_stays s l1 f l2); [done|]. unfold written_back. case_decide; simpl; [set_solver|done].
  - apply (runner_goes_on s l1 f l2 _ c v hd R _ U (c_sat_fresh q 0)); try done; [right; by left|].
    intros u. unfold written_back. case_decide; by intros ?%not_elem_of_nil.
  - intros d rest Hd Hr. rewrite app_assoc. pose proof (Hq1 d) as Hw. rewrite (only_parent R _ c U d _ Hready Honly) in Hw.
    unfold written_back. destruct (decide (c ∈ tr_gone s)) as [Hg|Hg].
    + assert (frames d ((l1 ++ l2) ++ [Lost q c]) = frames d (l1 ++ f :: l2)) as ->.
      { by rewrite (frames_gap d l1 f l2), (frames_gap d (l1 ++ l2) (Lost q c) []), app_nil_r. }
      rewrite Hw, Hd, <- app_assoc. eexists. split; [done|]. case_decide; [subst; by apply left_at_more|by rewrite app_nil_r].
    + exists rest. split; [|done]. apply (frames_put d _ (Back q r c) rest (tr_world s) w1); [|by rewrite Hd, frames_gap|done].
      simpl. case_decide; [intros _; subst d; by eapply left_at_none|done].
  - rewrite bind_snoc. assert (job_of (written_back (tr_gone s) q r c) = []) as -> by (unfold written_back; by case_decide).
    rewrite app_nil_r. apply (Permutation_cons_inv (a := (c, q))). rewrite Permutation_middle, <- Hj, (to_jobs _ _ Hok).
    exact (bind_at job_of l1 f l2).
  - rewrite bind_snoc. assert (message_of (written_back (tr_gone s) q r c) = []) as -> by (unfold written_back; by case_decide).
    rewrite app_nil_r, (to_handlers _ _ Hok), bind_at. done.
Qed.

(** The control process reads the result of a call and starts a handler with it. *)
Lemma parent_step_ok s l1 q r c l2 :
  traffic_ok s (l1 ++ Back q r c :: l2) → frames c l1 = [] →
  ∃ P1 w1, listening (tr_hub s) c ∧ parent_reads ws 4 id (ms_parent (tr_mesh s)) c (tr_world s) = Some (result_msg q r, P1, w1) ∧
    traffic_ok (mkTraffic (mkMesh P1 (ms_runners (tr_mesh s)) w1)
      (tr_gone s) (tr_used s) (tr_sent s) (tr_late s) (tr_jobs s) (tr_handlers s ++ [result_msg q r]) (tr_done s) (tr_stuck s))
      (l1 ++ l2 ++ [Handling q r]).
Proof.
  intros Hok Hl1. set (f := Back q r c). pose proof (elem_of_middle l1 f l2) as Hf.
  pose proof (back_listening _ _ q r c Hok Hf) as Hcon. pose proof (flight_sent _ _ f Hok Hf) as Hsent. simpl in Hsent.
  destruct (waits_here _ _ c Hok Hcon) as (rest0 & Hw & _). rewrite frames_at, Hl1 in Hw. simpl in Hw. rewrite decide_True in Hw by done.
  destruct (to_parent _ _ Hok) as (V & HP & HV & HVq).
  destruct (parent_reads_ok FQMN step_of fn ws peer waiting alive 4 id (ms_parent (tr_mesh s)) c V (result_msg q r) _ (tr_world s)
    HP (to_alive _ _ Hok _ (listening_on_mesh _ _ Hcon)) Hw eq_refl) as (n1 & w1 & E & HP1 & Ha & Hwait); [apply (HVq f); [done|by left]|].
  exists (set_node (ms_parent (tr_mesh s)) n1), w1. split; [done|]. split; [exact E|].
  apply (moves_on s l1 f l2 (Handling q r)); try done.
  - destruct (to_flights _ _ Hok f Hf) as (_ & Hcan & Hfirst). split; [done|]. by split.
  - exists ({[c_sat_fresh q 0]} ∪ V). split; [exact HP1|]. split.
    + apply union_subseteq. split; [|done]. apply singleton_subseteq_l. apply (sent_used _ _ q _ Hok Hsent). right. by left.
    + apply (draws unread V s l1 f l2); try done; [apply unread_uuids|right; by left|by intros u ?%not_elem_of_nil].
  - intros v hd Hv. apply (conn_keep s (l1 ++ f :: l2)); [by apply (to_conns _ _ Hok v)|done|done| |done].
    intros f0 u [Hin| ->%list_elem_of_singleton]%elem_of_rest Hu; [left|by apply not_elem_of_nil in Hu].
    exists f0. split; [by apply elem_of_around|done].
  - intros d rest Hd Hr. exists rest. split; [|done].
    by apply (frames_take d c l1 f l2 (Handling q r) (BinaryMessage, Marshal (result_msg q r))
      (frames c l2 ++ rest0) rest (tr_world s) w1).
  - rewrite bind_snoc, app_nil_r, (to_jobs _ _ Hok), bind_at. done.
  - rewrite bind_snoc, (to_handlers _ _ Hok), bind_at. done.
Qed.

(** The other calls, when the mesh carries one of them no longer. *)
Lemma left_out s fl q l :
  traffic_ok s fl → tr_out s ≡ₚ q :: l →
  (∀ q', q' ∈ l → parent_id q' ≠ parent_id q) ∧
  (NoDup (l ≫= call_uuids) ∧ ∀ u, u ∈ l ≫= call_uuids → u ∈ tr_used s) ∧ NoDup ((λ q, parent_id q) <$> l).
Proof.
  intros Hok Hp. destruct (to_uuids _ _ Hok) as [Hnd Hused]. pose proof (to_ids _ _ Hok) as Hids.
  rewrite Hp in Hnd, Hids. simpl in Hids. apply NoDup_cons in Hids as [Hn Hids]. split; [|split; [split|done]].
  - intros q' Hq' Eq. apply Hn. rewrite <- Eq. by apply (list_elem_of_fmap_2 (λ q, parent_id q)).
  - rewrite bind_cons in Hnd. by apply NoDup_app in Hnd as (_ & _ & ?).
  - intros u (q' & Hu & Hq')%list_elem_of_bind. apply (sent_used _ _ q' u Hok); [|done]. rewrite Hp. by right.
Qed.

(** A handler takes the result of a call: the mesh carries the call no longer. *)
Lemma call_leaves s l1 q r l2 h1 h2 cs sent late done :
  traffic_ok s (l1 ++ Handling q r :: l2) → tr_handlers s = h1 ++ result_msg q r :: h2 → tr_out s ≡ₚ q :: sent ++ late →
  (∀ q', q' ∈ sent → parent_id q' ∈ cs) → (∀ q', q' ∈ late → parent_id q' ∉ cs) → done_ok done →
  traffic_ok (mkTraffic (mkMesh (set_callbacks (ms_parent (tr_mesh s)) cs) (ms_runners (tr_mesh s)) (tr_world s))
    (tr_gone s) (tr_used s) sent late (tr_jobs s) (h1 ++ h2) done (tr_stuck s)) (l1 ++ l2).
Proof.
  intros Hok Hh Hp Hcs Hlate Hdone. destruct (left_out s _ q _ Hok Hp) as (_ & Hnd & Hids). set (f := Handling q r).
  split; simpl; try apply Hok; try done.
  - destruct (to_parent _ _ Hok) as (V & [Hn Hd Hi] & HV & HVq). exists V. split; [by split|]. split; [done|].
    intros f0 u Hin. by apply HVq, elem_of_around.
  - intros v hd Hv. apply (conn_keep s (l1 ++ f :: l2)); [by apply (to_conns _ _ Hok v)|done|done| |done].
    intros f0 u Hin Hu. left. exists f0. split; [by apply elem_of_around|done].
  - intros d Hd. destruct (to_waits _ _ Hok d Hd) as (rest & E & Hr). rewrite frames_gap in E by done. by exists rest.
  - intros f0 Hin. by apply (to_flights _ _ Hok), elem_of_around.
  - rewrite (to_jobs _ _ Hok), bind_at. done.
  - apply (Permutation_cons_inv (a := result_msg q r)). rewrite Permutation_middle, <- Hh, (to_handlers _ _ Hok).
    exact (bind_at message_of l1 f l2).
  - pose proof (to_sent _ _ Hok) as Hp'. rewrite Hp, fmap_app in Hp'. simpl in Hp'. rewrite fmap_app.
    rewrite <- !Permutation_middle in Hp'. by apply (Permutation_cons_inv (a := q)).
Qed.

(** The calls without one of those that wait. *)
Lemma out_sent s q l1 l2 : tr_sent s = l1 ++ q :: l2 → tr_out s ≡ₚ q :: (l1 ++ l2) ++ tr_late s.
Proof. intros ->. rewrite <- app_assoc. simpl. rewrite <- Permutation_middle. by rewrite <- app_assoc. Qed.

(** Its callback is removed, and the others are still there. *)
Lemma callback_removed s fl q l1 l2 :
  traffic_ok s fl → tr_sent s = l1 ++ q :: l2 →
  (∀ q', q' ∈ l1 ++ l2 → parent_id q' ∈ removeCallback (tr_callbacks s) (parent_id q)) ∧
  (∀ q', q' ∈ tr_late s → parent_id q' ∉ removeCallback (tr_callbacks s) (parent_id q)).
Proof.
  intros Hok Hs. destruct (left_out s _ q _ Hok (out_sent s q l1 l2 Hs)) as (Hl & _). split.
  - intros q' Hq'. apply elem_of_removeCallback. split.
    + apply (to_callbacks _ _ Hok). rewrite Hs. by apply elem_of_around.
    + apply Hl. apply elem_of_app. by left.
  - intros q' Hq' [Hq'' _]%elem_of_removeCallback. by apply (to_late _ _ Hok q').
Qed.

Lemma handled_ok s l1 q r l2 h1 h2 k1 k2 :
  traffic_ok s (l1 ++ Handling q r :: l2) → tr_handlers s = h1 ++ result_msg q r :: h2 → tr_sent s = k1 ++ q :: k2 →
  onMsgHandler (tr_callbacks s) (result_msg q r) = Some r ∧
  traffic_ok (mkTraffic
    (mkMesh (set_callbacks (ms_parent (tr_mesh s)) (removeCallback (tr_callbacks s) (parent_id q)))
      (ms_runners (tr_mesh s)) (tr_world s))
    (tr_gone s) (tr_used s) (k1 ++ k2) (tr_late s) (tr_jobs s) (h1 ++ h2) (tr_done s ++ [(q, (None, [Arrived r]))])
    (tr_stuck s)) (l1 ++ l2).
Proof.
  intros Hok Hh Hs. destruct (callback_removed s _ q k1 k2 Hok Hs) as [Hcs Hlate].
  destruct (to_flights _ _ Hok (Handling q r)) as (_ & _ & Hfirst); [apply elem_of_middle|]. split.
  - apply handler_calls; [|apply unmarshal_marshal]. apply (to_callbacks _ _ Hok). rewrite Hs. apply elem_of_middle.
  - apply (call_leaves s l1 q r l2 h1 h2); try done; [by apply out_sent|].
    intros q' x [Hin|[= -> ->]%list_elem_of_singleton]%elem_of_app; [by apply (to_done _ _ Hok)|]. right; right. by exists r.
Qed.

Lemma ignored_ok s l1 q r l2 h1 h2 k1 k2 :
  traffic_ok s (l1 ++ Handling q r :: l2) → tr_handlers s = h1 ++ result_msg q r :: h2 → tr_late s = k1 ++ q :: k2 →
  onMsgHandler (tr_callbacks s) (result_msg q r) = None ∧
  traffic_ok (mkTraffic (tr_mesh s)
    (tr_gone s) (tr_used s) (tr_sent s) (k1 ++ k2) (tr_jobs s) (h1 ++ h2) (tr_done s) (tr_stuck s)) (l1 ++ l2).
Proof.
  intros Hok Hh Hs. split.
  - apply handler_ignores. apply (to_late _ _ Hok). rewrite Hs. apply elem_of_middle.
  - assert (tr_mesh s = mkMesh (set_callbacks (ms_parent (tr_mesh s)) (tr_callbacks s)) (ms_runners (tr_mesh s)) (tr_world s)) as ->.
    { by destruct (tr_mesh s) as [[]]. }
    apply (call_leaves s l1 q r l2 h1 h2); try done; try apply Hok.
    + by rewrite Hs, <- !Permutation_middle.
    + intros q' Hq'. apply (to_late _ _ Hok). rewrite Hs. by apply elem_of_around.
Qed.

(** ** What the processes do *)

(** The process steps that are left for what is under way. *)
Definition steps_left : list flight → nat :=
  sum_list_with (λ f, match f with Queued _ _ => 4 | Running _ _ => 3 | Back _ _ _ => 2 | Handling _ _ => 1 | Lost _ _ => 0 end).

Lemma steps_left_bound fl : steps_left fl ≤ 4 * length fl.
Proof. induction fl as [|[] fl IH]; unfold steps_left in *; simpl in *; lia. Qed.

(** The calls that have been made. *)
Definition calls (s : traffic) : list call := tr_sent s ++ (tr_done s).*1.

(** What a runner reads is the message of a call. *)
Lemma reads_request s fl c q R R1 w1 :
  traffic_ok s fl → on_mesh (tr_hub s) c → q ∈ tr_out s → ms_runners (tr_mesh s) !! c = Some R →
  runner_reads ws 4 id R (peer c) (tr_world s) = Some (call_msg q, R1, w1) →
  ∃ l1 l2, fl = l1 ++ Queued q c :: l2 ∧ frames (peer c) l1 = [].
Proof.
  intros Hok Hcon Hq HR E.
  assert (frames (peer c) fl ≠ []) as Hne.
  { rewrite <- (waits_peer _ _ c Hok Hcon). unfold runner_reads in E.
    destruct (from_mesh ws id (peer c) (tr_world s)) as [[m w0]|] eqn:Em; [|done].
    by apply (from_mesh_waits ws peer waiting alive) in Em. }
  destruct (frames (peer c) fl) as [|x xs] eqn:Ef; [done|]. apply frames_head in Ef as (l1 & f & l2 & -> & Hl1 & Hf%frame_at_some).
  destruct Hf as [(q' & c' & -> & Hc')|(q' & r & ->)].
  - apply (peer_inj ws peer waiting alive) in Hc' as <-.
    destruct (runner_step_ok s l1 q' c l2 Hok Hl1 Hcon) as (R' & R1' & w1' & HR' & Hq' & E' & _).
    rewrite HR in HR'. injection HR' as <-. rewrite E in E'. apply (inj Some) in E'.
    assert (call_msg q = call_msg q') as Em by congruence. apply (f_equal UUID) in Em. change (c_fresh q = c_fresh q') in Em.
    assert (q = q') as <-; [|by exists l1, l2].
    apply (sent_same _ _ q q' (c_fresh q) Hok Hq Hq'); [by left|]. rewrite Em. by left.
  - exfalso. eapply (to_apart _ _ Hok (peer c) c); [|by left|done].
    eapply (flight_known _ _ _ _ Hok); [apply elem_of_middle|done].
Qed.

(** What the control process reads is the result of a call: nothing waits but the
    results and a withdrawal. *)
Lemma from_mesh_withdrawal c w m w1 fs :
  alive w c → waiting w c = (TextMessage, withdrawMessage) :: fs → from_mesh ws id c w ≠ Some (m, w1).
Proof.
  intros Hw Hq. destruct id as [u n]. unfold from_mesh. simpl.
  destruct (ReadMsg_ok ws peer waiting alive u n c _ _ w Hw Hq) as (w2 & -> & _). by rewrite (decode_frame_of u n (inr (mkWithdraw false))).
Qed.

Lemma reads_result s fl c m P1 w1 :
  traffic_ok s fl → listening (tr_hub s) c →
  parent_reads ws 4 id (ms_parent (tr_mesh s)) c (tr_world s) = Some (m, P1, w1) →
  ∃ l1 q r l2, fl = l1 ++ Back q r c :: l2 ∧ frames c l1 = [].
Proof.
  intros Hok Hcon E. destruct (waits_here _ _ c Hok Hcon) as (rest & Hw & Hr).
  destruct (frames c fl) as [|x xs] eqn:Ef.
  { exfalso. unfold parent_reads in E. destruct (from_mesh ws id c (tr_world s)) as [[m' w0]|] eqn:Em; [|done].
    unfold left_at in Hr. case_decide.
    - destruct Hr as [fs ->].
      by apply (from_mesh_withdrawal c (tr_world s) m' w0 fs (to_alive _ _ Hok _ (listening_on_mesh _ _ Hcon)) Hw).
    - subst rest. by apply (from_mesh_waits ws peer waiting alive) in Em. }
  apply frames_head in Ef as (l1 & f & l2 & -> & Hl1 & Hf%frame_at_some).
  destruct Hf as [(q' & c' & -> & ->)|(q' & r & ->)]; [|by exists l1, q', r, l2].
  exfalso. apply (to_apart _ _ Hok (peer c') c'); [left; by apply listening_on_mesh| |done].
  eapply (flight_known _ _ _ _ Hok); [apply elem_of_middle|done].
Qed.

(** What a handler has is the result of a call. *)
Lemma handles_result s fl m h1 h2 q :
  traffic_ok s fl → tr_handlers s = h1 ++ m :: h2 → q ∈ tr_out s → ParentID m = parent_id q →
  ∃ l1 r l2, fl = l1 ++ Handling q r :: l2 ∧ m = result_msg q r.
Proof.
  intros Hok Hh Hq Hpar.
  assert (m ∈ fl ≫= message_of) as (f & Hm & Hf)%list_elem_of_bind.
  { rewrite <- (to_handlers _ _ Hok), Hh. apply elem_of_middle. }
  pose proof (flight_sent _ _ f Hok Hf) as Hs. apply list_elem_of_split in Hf as (l1 & l2 & ->).
  destruct f as [| | |q' r|]; simpl in Hm; try by apply not_elem_of_nil in Hm.
  apply list_elem_of_singleton in Hm. subst m. simpl in Hs.
  assert (q' = q) as -> by (by apply (out_same s _ q' q Hok)). by exists l1, r, l2.
Qed.

(** A job is that of a call. *)
Lemma runs_call s fl c q j1 j2 : traffic_ok s fl → tr_jobs s = j1 ++ (c, q) :: j2 → ∃ l1 l2, fl = l1 ++ Running q c :: l2.
Proof.
  intros Hok Hj.
  assert ((c, q) ∈ fl ≫= job_of) as (f & Hm & (l1 & l2 & ->)%list_elem_of_split)%list_elem_of_bind.
  { rewrite <- (to_jobs _ _ Hok), Hj. apply elem_of_middle. }
  destruct f; simpl in Hm; try by apply not_elem_of_nil in Hm. apply list_elem_of_singleton in Hm as [= <- <-].
  by exists l1, l2.
Qed.

(** A call whose result nobody will read: its message or job is at a runner that has
    withdrawn, or its result behind the withdrawal. *)
Definition dead (gone : list Z) (f : flight) : Prop :=
  match f with Queued _ c | Running _ c | Lost _ c => c ∈ gone | _ => False end.

Definition doomed (s : traffic) (fl : list flight) (q : call) : Prop :=
  q ∈ tr_out s ∧ ∀ f, f ∈ fl → flight_call f = q → dead (tr_gone s) f.

Lemma doomed_on s s1 l1 f l2 f' q :
  doomed s (l1 ++ f :: l2) q → tr_out s1 = tr_out s → tr_gone s1 = tr_gone s → flight_call f' = flight_call f →
  (dead (tr_gone s) f → dead (tr_gone s) f') → doomed s1 (l1 ++ l2 ++ [f']) q.
Proof.
  intros [Hq Hd] Ho Hg Hcall Hf. split; [by rewrite Ho|]. rewrite Hg.
  intros f0 [Hin| ->%list_elem_of_singleton]%elem_of_rest Hf0; [by apply Hd; [apply elem_of_around|]|].
  apply Hf, Hd; [apply elem_of_middle|congruence].
Qed.

Lemma doomed_out s s1 l1 q' r l2 q l :
  doomed s (l1 ++ Handling q' r :: l2) q → tr_out s ≡ₚ q' :: l → tr_out s1 ≡ₚ l → tr_gone s1 = tr_gone s →
  q ≠ q' ∧ doomed s1 (l1 ++ l2) q.
Proof.
  intros [Hq Hd] Ho Ho1 Hg. assert (q ≠ q') as Hne.
  { intros <-. exact (Hd (Handling q r) (elem_of_middle _ _ _) eq_refl). }
  split; [done|]. split; [|rewrite Hg; intros f0 Hin; by apply Hd, elem_of_around].
  rewrite Ho1. rewrite Ho in Hq. by apply elem_of_cons in Hq as [|].
Qed.

Lemma steps_left_at l1 f l2 : steps_left (l1 ++ f :: l2) = steps_left [f] + steps_left (l1 ++ l2).
Proof. unfold steps_left. rewrite !sum_list_with_app. simpl. lia. Qed.

Lemma steps_left_snoc l1 l2 f : steps_left (l1 ++ l2 ++ [f]) = steps_left [f] + steps_left (l1 ++ l2).
Proof. unfold steps_left. rewrite !sum_list_with_app. simpl. lia. Qed.

Lemma process_step_ok s fl s1 :
  traffic_ok s fl → process_step s s1 →
  ∃ fl1, traffic_ok s1 fl1 ∧ steps_left fl1 < steps_left fl ∧ calls s1 ≡ₚ calls s ∧
    ∀ q, doomed s fl q → doomed s1 fl1 q ∧ ∀ x, (q, x) ∈ tr_done s1 → (q, x) ∈ tr_done s.
Proof.
  intros Hok [c q R R1 w1 Hcon HR Hq E|c q j1 j2 R R1 w1 Hcon Hj HR E|c m P1 w1 Hcon E|
    m h1 h2 q k1 k2 r _ Hh Hs Hpar E|m h1 h2 q k1 k2 _ Hh Hs Hpar E].
  - destruct (reads_request s fl c q R R1 w1 Hok Hcon Hq HR E) as (l1 & l2 & -> & Hl1).
    destruct (runner_step_ok s l1 q c l2 Hok Hl1 Hcon) as (R' & R1' & w1' & HR' & _ & E' & Hok').
    rewrite HR in HR'. injection HR' as <-. rewrite E in E'. injection E' as <- <-.
    eexists. split; [exact Hok'|]. split; [rewrite steps_left_at, steps_left_snoc; simpl; lia|]. split; [done|].
    intros q' Hq'. split; [|done]. by apply (doomed_on s _ l1 (Queued q c) l2 (Running q c)).
  - destruct (runs_call s fl c q j1 j2 Hok Hj) as (l1 & l2 & ->).
    destruct (job_step_ok s l1 q c l2 j1 j2 Hok Hj Hcon) as (R' & R1' & w1' & r & HR' & E' & Hok').
    rewrite HR in HR'. injection HR' as <-. rewrite E in E'. injection E' as <- <-.
    eexists. split; [exact Hok'|]. split; [|split; [done|]].
    + rewrite steps_left_at, steps_left_snoc. unfold written_back. case_decide; simpl; lia.
    + intros q' Hq'. split; [|done]. apply (doomed_on s _ l1 (Running q c) l2 _ q' Hq'); try done;
        unfold written_back; by case_decide.
  - destruct (reads_result s fl c m P1 w1 Hok Hcon E) as (l1 & q & r & l2 & -> & Hl1).
    destruct (parent_step_ok s l1 q r c l2 Hok Hl1) as (P1' & w1' & _ & E' & Hok').
    rewrite E in E'. injection E' as -> <- <-.
    eexists. split; [exact Hok'|]. split; [rewrite steps_left_at, steps_left_snoc; simpl; lia|]. split; [done|].
    intros q' Hq'. split; [|done]. by apply (doomed_on s _ l1 (Back q r c) l2 (Handling q r)).
  - destruct (handles_result s fl m h1 h2 q Hok Hh) as (l1 & r' & l2 & -> & ->);
      [rewrite Hs; apply elem_of_app; left; apply elem_of_middle|done|].
    destruct (handled_ok s l1 q r' l2 h1 h2 k1 k2 Hok Hh Hs) as [E' Hok']. rewrite E in E'. injection E' as <-.
    eexists. split; [exact Hok'|]. split; [rewrite steps_left_at; simpl; lia|]. split.
    + unfold calls. simpl. rewrite Hs, fmap_app. simpl. rewrite app_assoc, <- Permutation_cons_append.
      rewrite <- !app_assoc. simpl. by rewrite Permutation_middle.
    + intros q' Hq'. eapply doomed_out in Hq' as [Hne Hq']; [|by apply out_sent|..]; [split; [exact Hq'|]|done|done].
      intros x [Hx|[= -> _]%list_elem_of_singleton]%elem_of_app; done.
  - destruct (handles_result s fl m h1 h2 q Hok Hh) as (l1 & r' & l2 & -> & ->);
      [rewrite Hs; apply elem_of_app; right; apply elem_of_middle|done|].
    destruct (ignored_ok s l1 q r' l2 h1 h2 k1 k2 Hok Hh Hs) as [_ Hok'].
    eexists. split; [exact Hok'|]. split; [rewrite steps_left_at; simpl; lia|]. split; [done|].
    intros q' Hq'. eapply doomed_out in Hq' as [_ Hq']; [split; [exact Hq'|done]| |done|done].
    simpl. by rewrite Hs, <- !Permutation_middle.
Qed.

Lemma process_steps_ok n s fl s1 :
  traffic_ok s fl → nsteps process_step n s s1 →
  ∃ fl1, traffic_ok s1 fl1 ∧ n + steps_left fl1 ≤ steps_left fl ∧ calls s1 ≡ₚ calls s.
Proof.
  intros Hok Hn. revert fl Hok. induction Hn as [s|n s s1 s2 Hs _ IH]; intros fl Hok; [by exists fl|].
  destruct (process_step_ok s fl s1 Hok Hs) as (fl1 & Hok1 & E1 & Hc1 & _). destruct (IH fl1 Hok1) as (fl2 & Hok2 & E2 & Hc2).
  exists fl2. split; [done|]. split; [lia|]. by rewrite Hc2.
Qed.

(** Some process can go on while the mesh carries a call and no runner has
    withdrawn. *)
Lemma mesh_progress s fl : traffic_ok s fl → tr_gone s = [] → tr_out s ≠ [] → ∃ s1, process_step s s1.
Proof.
  intros Hok Hgone Hne. assert (∀ c, c ∉ tr_gone s) as Hg by (intros c; rewrite Hgone; apply not_elem_of_nil).
  destruct fl as [|f fl]; [pose proof (to_sent _ _ Hok) as Hp; simpl in Hp; by apply Permutation_nil_l in Hp|].
  assert (∀ c, flight_conn f = Some c → on_mesh (tr_hub s) c) as Hcon.
  { intros c Hc. apply known_on_mesh; [|done]. by apply (flight_known s (f :: fl) f); [|left|]. }
  destruct f as [q c|q c|q r c|q r|q c].
  - destruct (runner_step_ok s [] q c fl Hok eq_refl (Hcon c eq_refl)) as (R & R1 & w1 & HR & Hq & E & _).
    eexists. apply (RunnerReads s c q R R1 w1); [by apply Hcon|done..].
  - assert ((c, q) ∈ tr_jobs s) as (j1 & j2 & Hj)%list_elem_of_split by (rewrite (to_jobs _ _ Hok); by left).
    destruct (job_step_ok s [] q c fl j1 j2 Hok Hj (Hcon c eq_refl)) as (R & R1 & w1 & r & HR & E & _).
    eexists. apply (JobEnds s c q j1 j2 R R1 w1); [by apply Hcon|done..].
  - destruct (parent_step_ok s [] q r c fl Hok eq_refl) as (P1 & w1 & Hl & E & _).
    eexists. by apply (ParentReads s c (result_msg q r) P1 w1).
  - assert (result_msg q r ∈ tr_handlers s) as (h1 & h2 & Hh)%list_elem_of_split by (rewrite (to_handlers _ _ Hok); by left).
    pose proof (flight_sent _ _ (Handling q r) Hok ltac:(by left)) as [(k1 & k2 & Hs)%list_elem_of_split|
      (k1 & k2 & Hs)%list_elem_of_split]%elem_of_app.
    + destruct (handled_ok s [] q r fl h1 h2 k1 k2 Hok Hh Hs) as [E _].
      eexists. by apply (ResultHandled s (result_msg q r) h1 h2 q k1 k2 r); [apply Hok|..].
    + destruct (ignored_ok s [] q r fl h1 h2 k1 k2 Hok Hh Hs) as [E _].
      eexists. by apply (ResultIgnored s (result_msg q r) h1 h2 q k1 k2); [apply Hok|..].
  - destruct (to_flights _ _ Hok (Lost q c)) as (Hp & _); [by left|]. by destruct (Hg c), (Hp c eq_refl).
Qed.

Lemma process_step_gone s s1 : process_step s s1 → tr_gone s1 = tr_gone s.
Proof. by intros []. Qed.

(** An Execute that times out forgets its call, which the mesh goes on carrying. *)
Lemma times_out_ok s fl q l1 l2 :
  traffic_ok s fl → tr_sent s = l1 ++ q :: l2 →
  traffic_ok (mkTraffic
    (mkMesh (set_callbacks (ms_parent (tr_mesh s)) (removeCallback (tr_callbacks s) (parent_id q)))
      (ms_runners (tr_mesh s)) (tr_world s))
    (tr_gone s) (tr_used s) (l1 ++ l2) (tr_late s ++ [q]) (tr_jobs s) (tr_handlers s)
    (tr_done s ++ [(q, (None, [TimedOut]))]) (tr_stuck s)) fl.
Proof.
  intros Hok Hs. destruct (callback_removed s _ q l1 l2 Hok Hs) as [Hcs Hlate].
  assert ((l1 ++ l2) ++ tr_late s ++ [q] ≡ₚ tr_out s) as Hp.
  { rewrite (out_sent s q l1 l2 Hs), app_assoc. symmetry. apply Permutation_cons_append. }
  split; simpl; try apply Hok; try done.
  - destruct (to_parent _ _ Hok) as (V & [Hn Hd Hi] & HVq). exists V. by split; [split|].
  - intros q' [Hq'| ->%list_elem_of_singleton]%elem_of_app; [by apply Hlate|]. by intros [_ Hn]%elem_of_removeCallback.
  - rewrite Hp. apply Hok.
  - apply (uuids_perm _ _ _ Hp). apply Hok.
  - rewrite Hp. apply Hok.
  - intros q' x [Hin|[= -> ->]%list_elem_of_singleton]%elem_of_app; [by apply (to_done _ _ Hok)|by left].
Qed.

(** The calls, when one more has started. *)
Lemma more_sent s fl q :
  traffic_ok s fl → parent_id q ∉ (λ q, parent_id q) <$> tr_out s →
  c_fresh q ∉ tr_used s → c_sat_fresh q 0 ∉ {[c_fresh q]} ∪ tr_used s →
  (NoDup ((tr_out s ++ [q]) ≫= call_uuids) ∧
   ∀ u, u ∈ (tr_out s ++ [q]) ≫= call_uuids → u ∈ ({[c_sat_fresh q 0; c_fresh q]} ∪ tr_used s : gset string)) ∧
  NoDup ((λ q, parent_id q) <$> tr_out s ++ [q]).
Proof.
  intros Hok Hid Hu1 Hu2. destruct (to_uuids _ _ Hok) as [Hnd Hused]. rewrite (bind_app _ _ [q]). simpl. split; [split|].
  - apply NoDup_app. split; [done|]. split.
    + intros u (q' & Hu & Hq')%list_elem_of_bind. apply (sent_used _ _ q' u Hok Hq') in Hu.
      rewrite !elem_of_cons, elem_of_nil. set_solver.
    + apply NoDup_cons. split; [|apply NoDup_singleton]. rewrite list_elem_of_singleton. set_solver.
  - intros u [Hu|Hu]%elem_of_app; [set_solver|]. rewrite !elem_of_cons, elem_of_nil in Hu. set_solver.
  - rewrite (fmap_app _ _ [q]). apply NoDup_app. split; [apply Hok|]. split; [|apply NoDup_singleton].
    by intros x Hx ->%list_elem_of_singleton.
Qed.

(** An Execute whose message was written to the connection [c]. *)
Lemma starts_ok s fl q h1 w1 v hd c :
  traffic_ok s fl → can_call q → parent_id q ∉ (λ q, parent_id q) <$> tr_out s →
  c_fresh q ∉ tr_used s → c_sat_fresh q 0 ∉ {[c_fresh q]} ∪ tr_used s → keeps_peers (tr_hub s) h1 →
  reachable (m_FQMN (c_module q)) (tr_hub s) v hd → Conn hd = Some c → stays alive (tr_world s) w1 →
  (∀ d, waiting w1 d = waiting (tr_world s) d ++ frame_at d (Queued q c)) →
  traffic_ok (mkTraffic
    (mkMesh (set_hub (set_callbacks (ms_parent (tr_mesh s)) (addCallback (tr_callbacks s) (parent_id q))) h1)
      (ms_runners (tr_mesh s)) w1)
    (tr_gone s) ({[c_sat_fresh q 0; c_fresh q]} ∪ tr_used s)
    (tr_sent s ++ [q]) (tr_late s) (tr_jobs s) (tr_handlers s) (tr_done s) (tr_stuck s)) (fl ++ [Queued q c]).
Proof.
  intros Hok Hcan Hid Hu1 Hu2 (Hwf & Emc & (Eid & Ebt & Ein & Ehm) & Em) (Hv & Hi & Hpw) Hc Ha Hwait.
  destruct (more_sent s fl q Hok Hid Hu1 Hu2) as [Hnd Hids]. destruct (to_node _ _ Hok) as (Hn1 & Hn2 & Hn3 & Hn4).
  assert ((tr_sent s ++ [q]) ++ tr_late s ≡ₚ tr_out s ++ [q]) as Hp by (rewrite <- !app_assoc; by rewrite (Permutation_app_comm [q])).
  assert (∀ u, u ∈ call_uuids q → u ∉ tr_used s) as Hnew by (unfold call_uuids; intros u; rewrite !elem_of_cons; set_solver).
  split; unfold hears, known, listening, on_mesh; simpl; rewrite ?Emc; try apply Hok; [|done| | | | | | | | | | | |].
  - intros d Hd. by apply Ha, (to_alive _ _ Hok).
  - by rewrite Eid, Ebt, Ein, Ehm.
  - destruct (to_parent _ _ Hok) as (V & [Hn Hd Hi'] & HV & HVq). exists V. split; [by split|]. split; [set_solver|].
    intros f u [Hf| ->%list_elem_of_singleton]%elem_of_app Hu; [by apply (HVq f)|].
    intros Hin. apply (Hnew u); [by apply (unread_uuids (Queued q c))|by apply HV].
  - intros q' [Hq'| ->%list_elem_of_singleton]%elem_of_app; apply elem_of_addCallback; [right|by left].
    by apply (to_callbacks _ _ Hok).
  - intros q' Hq' [E|Hin]%elem_of_addCallback; [|by apply (to_late _ _ Hok q')].
    apply Hid. rewrite <- E. apply (list_elem_of_fmap_2 (λ q, parent_id q)). apply elem_of_app. by right.
  - intros v' hd' Hv'. apply (conn_keep s fl); [by apply (to_conns _ _ Hok v')|simpl; set_solver|done| |done].
    intros f u [Hin| ->%list_elem_of_singleton]%elem_of_app Hu; [left; by exists f|right; by apply Hnew].
  - intros d Hd. destruct (to_waits _ _ Hok d Hd) as (rest & E & Hr). exists rest. split; [|done].
    apply (frames_put d fl (Queued q c) rest (tr_world s) w1); [|done|apply Hwait].
    simpl. case_decide as Hdc; [intros _; subst d|done]. apply (left_at_peer s fl c rest Hok); [|done]. left. by exists v, hd.
  - intros f [Hin| ->%list_elem_of_singleton]%elem_of_app; unfold flight_ok, place_ok, known, listening, on_mesh; simpl; rewrite Emc.
    + by apply (to_flights _ _ Hok).
    + split; [|done]. intros c' [= <-]. split; [left; by exists v, hd|]. intros v' hd' Hv' Hc'.
      assert (v' = v) as -> by (by apply (to_one _ _ Hok v' hd' v hd c)). rewrite Hv in Hv'. injection Hv' as <-.
      destruct (to_conns _ _ Hok v hd Hv) as (_ & t & _ & Ei & _). rewrite Ei in Hi |- *.
      by apply list_elem_of_singleton in Hi as ->.
  - by rewrite bind_app, (to_jobs _ _ Hok), app_nil_r.
  - by rewrite bind_app, (to_handlers _ _ Hok), app_nil_r.
  - rewrite Hp, fmap_app, (to_sent _ _ Hok). done.
  - by apply (uuids_perm _ _ _ Hp).
  - by rewrite Hp.
Qed.

(** An Execute that found no peer. *)
Lemma fails_ok s fl q h1 :
  traffic_ok s fl → parent_id q ∉ (λ q, parent_id q) <$> tr_out s → keeps_peers (tr_hub s) h1 →
  traffic_ok (mkTraffic
    (mkMesh (set_callbacks (set_hub (ms_parent (tr_mesh s)) h1) (removeCallback (addCallback (tr_callbacks s) (parent_id q)) (parent_id q)))
      (ms_runners (tr_mesh s)) (tr_world s))
    (tr_gone s) ({[c_sat_fresh q 0; c_fresh q]} ∪ tr_used s) (tr_sent s) (tr_late s) (tr_jobs s) (tr_handlers s)
    (tr_done s ++ [(q, (Some ErrTunnelNotEstablished, []))]) (tr_stuck s)) fl.
Proof.
  intros Hok Hid (Hwf & Emc & (Eid & Ebt & Ein & Ehm) & Em). destruct (to_node _ _ Hok) as (Hn1 & Hn2 & Hn3 & Hn4).
  split; unfold hears, known, listening, on_mesh; simpl; rewrite ?Emc; try apply Hok; [done| | | | | | | |].
  - by rewrite Eid, Ebt, Ein, Ehm.
  - destruct (to_parent _ _ Hok) as (V & [Hn Hd Hi'] & HV & HVq). exists V. split; [by split|]. split; [set_solver|done].
  - intros q' Hq'. apply elem_of_removeCallback. split; [apply elem_of_addCallback; right; by apply (to_callbacks _ _ Hok)|].
    intros E. apply Hid. rewrite <- E. apply (list_elem_of_fmap_2 (λ q, parent_id q)). apply elem_of_app. by left.
  - intros q' Hq' [[E|Hin]%elem_of_addCallback Hne]%elem_of_removeCallback; [done|]. by apply (to_late _ _ Hok q').
  - intros v' hd' Hv'. apply (conn_keep s fl); [by apply (to_conns _ _ Hok v')|simpl; set_solver|done| |done].
    intros f u Hf Hu. left. by exists f.
  - intros f Hf. unfold flight_ok, place_ok, known, listening, on_mesh. simpl. rewrite Emc. by apply (to_flights _ _ Hok).
  - destruct (to_uuids _ _ Hok) as [Hnd Hused]. split; [done|]. intros u Hu. apply elem_of_union. right. by apply Hused.
  - intros q' x [Hin|[= -> ->]%list_elem_of_singleton]%elem_of_app; [by apply (to_done _ _ Hok)|by right; left].
Qed.

(** No peer of the module can be reached, or more than tunnelRetryCount are listed,
    so that those that can are not all tried. *)
Definition unreached (h : hub (B := B)) (cap : string) : Prop :=
  (¬ ∃ v hd, reachable cap h v hd) ∨ tunnelRetryCount < length (members_of (capabilityBalancers h) cap).

(** An Execute starts, or finds no peer. *)
Lemma start_ok s fl q :
  traffic_ok s fl → can_call q → parent_id q ∉ (λ q, parent_id q) <$> tr_out s →
  c_fresh q ∉ tr_used s → c_sat_fresh q 0 ∉ {[c_fresh q]} ∪ tr_used s →
  ∃ e P1 w1 fl1, dispatch_call FQMN step_of ws heard q (ms_parent (tr_mesh s)) (tr_world s) = Some (e, P1, w1) ∧
    meshConnections (pt_hub P1) = meshConnections (tr_hub s) ∧
    (∀ cap, members_of (capabilityBalancers (pt_hub P1)) cap = members_of (capabilityBalancers (tr_hub s)) cap) ∧
    (e = None → ∃ v hd, reachable (m_FQMN (c_module q)) (tr_hub s) v hd) ∧
    (e ≠ None → unreached (tr_hub s) (m_FQMN (c_module q))) ∧
    ((e = None ∧ ∃ c, fl1 = fl ++ [Queued q c]) ∨ (e = Some ErrTunnelNotEstablished ∧ fl1 = fl)) ∧
    traffic_ok (mkTraffic (mkMesh P1 (ms_runners (tr_mesh s)) w1) (tr_gone s) ({[c_sat_fresh q 0; c_fresh q]} ∪ tr_used s)
      (tr_sent s ++ match e with None => [q] | Some _ => [] end) (tr_late s) (tr_jobs s) (tr_handlers s)
      (tr_done s ++ match e with None => [] | Some e => [(q, (Some e, []))] end) (tr_stuck s)) fl1.
Proof.
  intros Hok Hcan Hid Hu1 Hu2. assert (Type_ (call_msg q) = m_FQMN (c_module q)) as Ht by apply FQMN_step_of.
  unfold dispatch_call. rewrite Ht. simpl pt_hub.
  assert (in_reach alive (m_FQMN (c_module q)) (tr_hub s) (tr_world s)) as Halive.
  { intros v hd c (Hv & _) Hc. apply (to_alive _ _ Hok). by exists v, hd. }
  destruct (tunnel_any ws peer waiting alive heard (m_FQMN (c_module q)) (call_msg q) (tr_hub s) (tr_world s)
    (to_hub _ _ Hok) Halive) as (r & h1 & w1 & E & Hk & Hr). rewrite E. pose proof Hk as (_ & Emc & _ & Em).
  destruct Hr as [[-> (v & hd & c & Hreach & Hc & Ha & Hwait)]|[-> ->]].
  - eexists None, _, w1, (fl ++ [Queued q c]). do 3 (split; [done|]). split; [by exists v, hd|]. split; [done|]. rewrite app_nil_r.
    split; [left; split; [done|by exists c]|].
    by apply (starts_ok s fl q h1 w1 v hd c).
  - eexists (Some ErrTunnelNotEstablished), _, _, fl. do 3 (split; [done|]). split; [done|]. split.
    + intros _. destruct (decide (length (members_of (capabilityBalancers (tr_hub s)) (m_FQMN (c_module q))) ≤ tunnelRetryCount))
        as [Hle|Hgt]; [left|right; lia]. intros (v & hd & Hreach).
      destruct (tunnel_written ws peer waiting alive heard _ (call_msg q) _ (tr_world s) v hd (to_hub _ _ Hok) Halive
        Hreach Hle) as (h2 & w2 & E2 & _). by rewrite E in E2.
    + rewrite app_nil_r. split; [by right|]. by apply fails_ok.
Qed.

Lemma listening_add h c u tenant ints d :
  meshConnections h !! u = None → listening (addConnection h c u tenant ints) d ↔ d = c ∨ listening h d.
Proof.
  intros Hn. unfold listening. simpl. split.
  - intros (v & hd & [[<- <-]|[Hne Hv]]%lookup_insert_Some & Hd & Hp); [left; by injection Hd|right; by exists v, hd].
  - intros [->|(v & hd & Hv & Hd & Hp)].
    + eexists u, _. by rewrite lookup_insert_eq.
    + exists v, hd. split; [|done]. rewrite lookup_insert_ne; [done|]. intros ->. congruence.
Qed.

Lemma on_mesh_add h c u tenant ints d :
  meshConnections h !! u = None → on_mesh (addConnection h c u tenant ints) d ↔ d = c ∨ on_mesh h d.
Proof.
  intros Hn. unfold on_mesh. simpl. split.
  - intros (v & hd & [[<- <-]|[Hne Hv]]%lookup_insert_Some & Hd); [left; by injection Hd|right; by exists v, hd].
  - intros [->|(v & hd & Hv & Hd)].
    + eexists u, _. by rewrite lookup_insert_eq.
    + exists v, hd. split; [|done]. rewrite lookup_insert_ne; [done|]. intros ->. congruence.
Qed.

(** Where no flight has an end nothing waits. *)
Lemma no_frames d fl :
  (∀ f c, f ∈ fl → flight_conn f = Some c → c ≠ d ∧ c ≠ peer d) → frames d fl = [].
Proof.
  intros Hfl. destruct (frames d fl) as [|x xs] eqn:E; [done|].
  apply frames_head in E as (l1 & f & l2 & -> & _ & [(q & c & -> & ->)|(q & r & ->)]%frame_at_some).
  - destruct (Hfl (Queued q c) c) as [_ Hn]; [apply elem_of_middle|done|]. by rewrite (proj1 (law_peer c)) in Hn.
  - by destruct (Hfl (Back q r d) d) as [Hn _]; [apply elem_of_middle| |].
Qed.

(** The connection to a runner that has joined. *)
Lemma join_conn_ok s fl x c b pod engine s1 :
  nodeUUID (tr_hub s) ≠ "" → node_ok (mkNode (Node.bus_bus b) [(1%Z, hp); (2%Z, pod); (3%Z, engine)]) [] →
  hub_listens hp ∅ → listens_for engine (st_type x) →
  ms_runners (tr_mesh s1) !! c = Some (sat_runner b hp pod engine (sat_hub peer (nodeUUID (tr_hub s)) x c)) →
  conn_ok s1 fl (mkHandler (st_id x) (Some c) NewSignaler (st_tenant x) [st_type x]).
Proof.
  intros Hid HR Hlis Heng HRc. exists c, (st_type x). do 3 (split; [done|]).
  eexists (sat_runner b hp pod engine (sat_hub peer (nodeUUID (tr_hub s)) x c)), ∅. split_and!; try done.
  - by apply sat_ready.
  - intros v hx d Hvx Hx. simpl in Hvx. apply lookup_insert_Some in Hvx as [[_ <-]|[_ Hvx]]; [by injection Hx|].
    by rewrite lookup_empty in Hvx.
  - intros _ v hx Hvx. simpl in Hvx. apply lookup_insert_Some in Hvx as [[_ <-]|[_ Hvx]]; [done|].
    by rewrite lookup_empty in Hvx.
Qed.

(** What waits when it has joined over a new connection. *)
Lemma join_waits s fl c w1 w2 :
  traffic_ok s fl → (∀ d, known s d → d ≠ c ∧ d ≠ peer c) →
  (∀ d, d ≠ c → d ≠ peer c → waiting w1 d = waiting (tr_world s) d) → waiting w1 c = [] → waiting w1 (peer c) = [] →
  (∀ d, waiting w2 d = waiting w1 d) →
  ∀ d, (d = c ∨ listening (tr_hub s) d) ∨ (peer d = c ∨ on_mesh (tr_hub s) (peer d)) →
    ∃ rest, waiting w2 d = frames d fl ++ rest ∧ left_at (tr_gone s) d rest.
Proof.
  intros Hok Hnew Hold Hc Hp Hw d Hd. destruct (law_peer c) as [Hpp _], (law_peer d) as [Hdd _]. rewrite Hw.
  assert (∀ e, e = c ∨ e = peer c → ∃ rest, [] = frames e fl ++ rest ∧ left_at (tr_gone s) e rest) as Hnone.
  { intros e He. exists []. rewrite no_frames.
    - split; [done|]. unfold left_at. rewrite decide_False; [done|]. intros Hg.
      destruct (Hnew e) as [H1' H2']; [by right|]. by destruct He.
    - intros f c' Hf Hc'. destruct (Hnew c' (flight_known _ _ f c' Hok Hf Hc')) as [H1' H2'].
      destruct He as [->| ->]; [done|]. by rewrite Hpp. }
  destruct (decide (d = c)) as [->|H1']; [rewrite Hc; apply Hnone; by left|].
  destruct (decide (d = peer c)) as [->|H2']; [rewrite Hp; apply Hnone; by right|].
  rewrite Hold by done. apply (to_waits _ _ Hok). destruct Hd as [[->|Hd]|[Hd|Hd]]; [done|by left| |by right].
  by rewrite <- Hd, Hdd in H2'.
Qed.

Lemma joins_ok s fl x c b pod engine h1 w1 w2 hB :
  Arrival.hub_pod = Some hp → traffic_ok s fl →
  Arrival.setupBus (st_id x) (st_tenant x) (st_type x) (st_port x) = Val (Some (b, pod, engine)) →
  st_id x ≠ "" → st_id x ≠ nodeUUID (tr_hub s) → meshConnections (tr_hub s) !! st_id x = None →
  String.prefix "ws" (st_address x +:+ ":" +:+ st_port x +:+ "/meta/message") = false →
  Node.dials ws peer waiting alive (tr_world s) (st_address x) (st_port x) "/meta/message" c w1 →
  (∀ d, known s d → d ≠ c ∧ d ≠ peer c) →
  (∀ d, d ≠ c → d ≠ peer c → waiting w1 d = waiting (tr_world s) d) →
  Node.hears_of ws peer (tr_hub s) (st_address x) (Node.mkDiscoveryOpts (st_id x) (st_port x) "/meta/message")
    (tr_world s) (Node.bus_hub b) = (h1, (w2, hB)) →
  traffic_ok (mkTraffic
    (mkMesh (set_hub (ms_parent (tr_mesh s)) h1) (<[c := sat_runner b hp pod engine hB]> (ms_runners (tr_mesh s))) w2)
    (tr_gone s) (tr_used s) (tr_sent s) (tr_late s) (tr_jobs s) (tr_handlers s) (tr_done s) (tr_stuck s)) fl.
Proof.
  intros Hhp Hok Esat Hne Hns Hnone Hpre Hdial Hnew Hold Eh. destruct (hub_pod_listens hp Hhp) as [Hlis _].
  destruct (to_node _ _ Hok) as (Hn1 & Hn2 & Hn3 & Hn4).
  destruct (setupBus_ready (st_id x) (st_tenant x) (st_type x) (st_port x) hp Hhp)
    as (b' & pod' & engine' & Esat' & HR & Hbh & Heng). rewrite Esat in Esat'. injection Esat' as <- <- <-.
  destruct (Node.hears_joins ws peer waiting alive (tr_hub s) (st_id x) (st_tenant x) (st_type x) (st_port x) (st_address x)
    (tr_world s) c w1) as (w2' & Eh' & Hw2 & Hq2); [done..|].
  rewrite Hbh, Eh' in Eh. injection Eh as <- <- <-. destruct Hdial as (url & _ & _ & Hst & Hac & Hqc & Hqp). destruct (law_peer c) as [Hpp Hpc].
  split; unfold hears, known; simpl; try apply Hok; [| | | | | | |].
  - intros d [->|Hd]%on_mesh_add; [by apply Hw2|by apply Hw2, Hst, (to_alive _ _ Hok)|done].
  - by apply hub_wf_add; [apply Hok| |].
  - destruct (to_parent _ _ Hok) as (V & [Hn Hd Hi] & HV & HVq). exists V. by split; [split|].
  - intros v hd [[<- <-]|[Hv' Hv]]%lookup_insert_Some.
    + apply (join_conn_ok s fl x c b pod engine); try done. simpl. by rewrite lookup_insert_eq.
    + apply (conn_keep s fl); [by apply (to_conns _ _ Hok v)|done|done|intros f u Hf Hu; left; by exists f|].
      intros d Hd. assert (known s d) as Hcd by (left; by exists v, hd). simpl.
      by rewrite lookup_insert_ne by (intros ->; by destruct (Hnew d Hcd)).
  - intros d Hd. apply (join_waits s fl c w1 w2'); try done. rewrite listening_add in Hd by done.
    destruct Hd as [Hd|Hd]; [by left|]. rewrite on_mesh_add in Hd by done. by right.
  - assert (∀ d, on_mesh (addConnection (tr_hub s) c (st_id x) (st_tenant x) [st_type x]) d ∨ d ∈ tr_gone s → d = c ∨ known s d) as Hk.
    { intros d [[->|Hd]%on_mesh_add|Hd]; [by left|by right; left|done|by right; right]. }
    intros c1 c2 [->|Hc1]%Hk [->|Hc2]%Hk; try done.
    + intros ->. destruct (Hnew c2 Hc2) as [_ Hc]. by rewrite (proj1 (law_peer c2)) in Hc.
    + by apply Hnew.
    + by apply (to_apart _ _ Hok).
  - intros v hd v' hd' d Hv Hd Hv' Hd'.
    apply lookup_insert_Some in Hv as [[<- <-]|[Hv1 Hv]], Hv' as [[<- <-]|[Hv2 Hv']]; [done| | |].
    + injection Hd as ->. by destruct (Hnew d); [left; exists v', hd'|].
    + injection Hd' as ->. by destruct (Hnew d); [left; exists v, hd|].
    + by apply (to_one _ _ Hok v hd v' hd' d).
  - intros f Hf. destruct (to_flights _ _ Hok f Hf) as (Hconn & Hrest). split; [|done]. intros c' Hc'.
    destruct (Hconn c' Hc') as [Hp Hi]. pose proof (flight_known _ _ f c' Hok Hf Hc') as Hk. split.
    + destruct f; try done; unfold known in *; simpl; rewrite ?listening_add, ?on_mesh_add by done; tauto.
    + intros v hd Hv Hd. simpl in Hv. apply lookup_insert_Some in Hv as [[<- <-]|[Hv' Hv]]; [|by apply (Hi v)].
      injection Hd as ->. by destruct (Hnew c').
Qed.

(** ** Runners that leave *)

(** A runner writes its withdrawal behind its results. *)
Lemma leaves_ok s fl c R v R1 w1 :
  traffic_ok s fl → on_mesh (tr_hub s) c → c ∉ tr_gone s → ms_runners (tr_mesh s) !! c = Some R →
  runner_withdraws ws R v (tr_world s) = Some (R1, w1) →
  traffic_ok (mkTraffic (mkMesh (ms_parent (tr_mesh s)) (<[c := R1]> (ms_runners (tr_mesh s))) w1)
    (c :: tr_gone s) (tr_used s) (tr_sent s) (tr_late s) (tr_jobs s) (tr_handlers s) (tr_done s) (tr_stuck s)) fl.
Proof.
  intros Hok Hcon Hg HR E. pose proof Hcon as (u & hd & Hu & Hc).
  destruct (to_conns _ _ Hok u hd Hu) as (c' & t & Hc' & Hi & Hpw & R' & U & HR' & Hready & HU & Hq & Honly & _).
  rewrite Hc in Hc'. injection Hc' as <-. rewrite HR in HR'. injection HR' as <-.
  destruct (runner_withdraws_ok FQMN step_of fn ws peer waiting alive heard 4 R t (peer c) U v (tr_world s) R1 w1 Hready Honly
    (peer_alive _ _ _ Hok Hcon) E) as (Ha & HR1 & Honly1 & Hw).
  destruct (law_peer c) as [Hpp _]. rewrite Hpp in Hw.
  split; unfold hears, known; simpl; try apply Hok.
  - intros d Hd. by apply Ha, (to_alive _ _ Hok).
  - intros u' hd' Hu'. destruct (decide (u' = u)) as [->|Hne].
    + rewrite Hu in Hu'. injection Hu' as <-. exists c, t. do 2 (split; [done|]).
      split; [by intros [Hn _]%not_elem_of_cons|]. exists R1, U. split_and!; try done; [simpl; by rewrite lookup_insert_eq|].
      intros Hn. destruct Hn. by left.
    + apply (conn_keep s fl); [by apply (to_conns _ _ Hok u')|done|simpl; by intros d [_ ?]%not_elem_of_cons| |].
      * intros f x Hf Hx. left. by exists f.
      * intros d Hd. simpl. rewrite lookup_insert_ne; [done|]. intros ->. apply Hne. by apply (to_one _ _ Hok u' hd' u hd d).
  - intros d Hd. destruct (to_waits _ _ Hok d Hd) as (rest & Er & Hr). rewrite Hw, Er, <- app_assoc.
    eexists. split; [done|]. unfold left_at in *. destruct (decide (d = c)) as [->|Hdc].
    + rewrite decide_True by (by left). rewrite decide_False in Hr by done. subst rest. by eexists.
    + rewrite app_nil_r. destruct (decide (d ∈ tr_gone s)) as [Hin|Hin]; [by rewrite decide_True by (by right)|].
      rewrite decide_False; [done|]. by apply not_elem_of_cons.
  - intros c1 c2 Hc1 Hc2. apply (to_apart _ _ Hok); [destruct Hc1 as [|[->|]%elem_of_cons]|destruct Hc2 as [|[->|]%elem_of_cons]];
      by (left + right).
  - intros f Hf. destruct (to_flights _ _ Hok f Hf) as (Hconn & Hrest). split; [|done]. intros c' Hc'.
    destruct (Hconn c' Hc') as [Hp Hint]. split; [|exact Hint]. destruct f; try done; simpl; [| |by right].
    all: destruct Hp as [Hp|Hp]; [by left|by right; right].
Qed.

(** The calls whose jobs run there have no result any more, nor have those without
    one before. *)
Lemma running_doomed s fl c q :
  traffic_ok s fl → (c, q) ∈ tr_jobs s → c ∈ tr_gone s → doomed s fl q.
Proof.
  intros Hok (j1 & j2 & Hj)%list_elem_of_split Hg. destruct (runs_call s fl c q j1 j2 Hok Hj) as (l1 & l2 & ->).
  split; [by apply (flight_sent _ _ (Running q c) Hok), elem_of_middle|]. intros f Hf Hcall.
  apply elem_of_app in Hf as [Hf|[->|Hf]%elem_of_cons]; [|done|].
  all: exfalso; apply (flights_apart s l1 (Running q c) l2 f (c_fresh q) Hok);
    [apply elem_of_app; auto|by left|rewrite Hcall; by left].
Qed.

(** The hub of the control process loses peers that have withdrawn, or hears of
    that. *)
Lemma hub_changes s fl h1 w1 :
  let s1 := mkTraffic (mkMesh (set_hub (ms_parent (tr_mesh s)) h1) (ms_runners (tr_mesh s)) w1)
    (tr_gone s) (tr_used s) (tr_sent s) (tr_late s) (tr_jobs s) (tr_handlers s) (tr_done s) (tr_stuck s) in
  traffic_ok s fl → hub_wf h1 →
  nodeUUID h1 = nodeUUID (tr_hub s) ∧ belongsTo h1 = belongsTo (tr_hub s) ∧ interests h1 = interests (tr_hub s) ∧
    hasMesh h1 = hasMesh (tr_hub s) →
  (∀ v hd1, meshConnections h1 !! v = Some hd1 → ∃ hd, meshConnections (tr_hub s) !! v = Some hd ∧ Conn hd1 = Conn hd ∧
     h_Interests hd1 = h_Interests hd ∧
     (PeerWithdrawn (h_Signaler hd1) = PeerWithdrawn (h_Signaler hd) ∨ ∃ c, Conn hd = Some c ∧ c ∈ tr_gone s)) →
  (∀ c, on_mesh (tr_hub s) c → on_mesh h1 c ∨ c ∈ tr_gone s) →
  (∀ c, on_mesh h1 c → alive w1 c) →
  (∀ d, hears s1 d → hears s d ∧ waiting w1 d = waiting (tr_world s) d) →
  (∀ q r c, Back q r c ∈ fl → listening h1 c) → traffic_ok s1 fl.
Proof.
  intros s1 Hok Hwf (Eid & Ebt & Ein & Ehm) Hsub Hstill Ha Hhears Hback. destruct (to_node _ _ Hok) as (Hn1 & Hn2 & Hn3 & Hn4).
  assert (∀ d, known s1 d → known s d) as Hknown.
  { intros d [(v & hd & Hv & Hd)|Hd]; [left|by right]. destruct (Hsub v hd Hv) as (hd0 & Hv0 & Hc0 & _).
    exists v, hd0. by rewrite <- Hc0. }
  split; simpl; try apply Hok; try done.
  - by rewrite Eid, Ebt, Ein, Ehm.
  - destruct (to_parent _ _ Hok) as (V & [Hn Hd Hi] & HV & HVq). exists V. by split; [split|].
  - intros v hd1 Hv. destruct (Hsub v hd1 Hv) as (hd & Hv0 & Hc0 & Hi0 & Hp0).
    destruct (to_conns _ _ Hok v hd Hv0) as (c & t & Hc & Ht & Hpw & Hr). exists c, t. rewrite Hc0, Hi0. do 2 (split; [done|]).
    split; [|done]. intros Hg. destruct Hp0 as [->|(c' & Hc' & Hg')]; [by apply Hpw|]. rewrite Hc in Hc'. by injection Hc' as <-.
  - intros d Hd. destruct (Hhears d Hd) as [Hd0 ->]. by apply (to_waits _ _ Hok).
  - intros c d Hc Hd. apply (to_apart _ _ Hok); by apply Hknown.
  - intros v hd v' hd' c Hv Hc Hv' Hc'. destruct (Hsub v hd Hv) as (hd0 & Hv0 & Hc0 & _), (Hsub v' hd' Hv') as (hd1 & Hv1 & Hc1 & _).
    rewrite Hc0 in Hc. rewrite Hc1 in Hc'. by apply (to_one _ _ Hok v hd0 v' hd1 c).
  - intros f Hf. destruct (to_flights _ _ Hok f Hf) as (Hconn & Hrest). split; [|done]. intros c Hc. destruct (Hconn c Hc) as [Hp Hi].
    split.
    + destruct f as [q c0|q c0|q r c0|q r|q c0]; try done; injection Hc as ->; [| |by eapply Hback].
      all: destruct Hp as [Hp|Hp]; [by apply Hstill|by right].
    + intros v hd1 Hv Hc1. destruct (Hsub v hd1 Hv) as (hd & Hv0 & Hc0 & Hi0 & _). rewrite Hi0. apply (Hi v); [done|by rewrite <- Hc0].
Qed.

(** The frames of flights are messages. *)
Lemma frames_message d fl x xs : frames d fl = x :: xs → ∃ m : Message, x = frame_of (inl m).
Proof.
  intros E. assert (x ∈ frames d fl) as (f & Hx & _)%list_elem_of_bind by (rewrite E; by left).
  destruct f as [q c|q c|q r c|q r|q c]; simpl in Hx; try by apply not_elem_of_nil in Hx.
  all: case_decide; [|by apply not_elem_of_nil in Hx]; apply list_elem_of_singleton in Hx; by eexists.
Qed.

(** The control process reads a withdrawal when the runner has withdrawn and
    everything it wrote before has been read. *)
Lemma hears_ok s fl c v hd e w1 :
  traffic_ok s fl → meshConnections (tr_hub s) !! v = Some hd → Conn hd = Some c → PeerWithdrawn (h_Signaler hd) = false →
  reader ws [id] (h_Signaler hd) c (tr_world s) = ([], Some (SetPeerWithdrawn (h_Signaler hd), e), w1) →
  traffic_ok (mkTraffic
    (mkMesh (set_hub (ms_parent (tr_mesh s)) (peerWithdrew (tr_hub s) v)) (ms_runners (tr_mesh s)) w1)
    (tr_gone s) (tr_used s) (tr_sent s) (tr_late s) (tr_jobs s) (tr_handlers s) (tr_done s) (tr_stuck s)) fl.
Proof.
  intros Hok Hv Hc Hpw E. assert (listening (tr_hub s) c) as Hl by (by exists v, hd).
  destruct (reader_withdrawn ws peer waiting alive id _ c _ _ _ (to_alive _ _ Hok _ (listening_on_mesh _ _ Hl)) Hpw E)
    as (Ha & f & fs & Hq & Hf & Hw).
  destruct (waits_here _ _ c Hok Hl) as (rest & Hq' & Hr). rewrite Hq in Hq'. destruct (frames c fl) as [|x xs] eqn:Ef.
  2: { destruct (frames_message c fl x xs Ef) as (m & ->). injection Hq' as -> _. by destruct (Hf m). }
  assert (c ∈ tr_gone s) as Hg by (unfold left_at in Hr; case_decide; [done|by subst]).
  assert (∀ v' hd', meshConnections (peerWithdrew (tr_hub s) v) !! v' = Some hd' → ∃ hd0, meshConnections (tr_hub s) !! v' = Some hd0 ∧
    Conn hd' = Conn hd0 ∧ h_Interests hd' = h_Interests hd0 ∧ (v' = v ∧ PeerWithdrawn (h_Signaler hd') = true ∨ v' ≠ v ∧ hd' = hd0)) as Hsub.
  { intros v' hd' Hv'. simpl in Hv'. apply lookup_alter_Some in Hv' as [(-> & hd0 & Hv0 & ->)|[Hne Hv0]]; [exists hd0|exists hd']; split_and!; try done;
      [by left|right; split; [congruence|done]]. }
  assert (∀ d, on_mesh (peerWithdrew (tr_hub s) v) d → on_mesh (tr_hub s) d) as Hon.
  { intros d (v' & hd' & Hv' & Hd). destruct (Hsub v' hd' Hv') as (hd0 & Hv0 & Hc0 & _). exists v', hd0. by rewrite <- Hc0. }
  apply (hub_changes s fl); try done; [by apply hub_wf_withdrew, Hok| | | | |].
  - intros v' hd' Hv'. destruct (Hsub v' hd' Hv') as (hd0 & Hv0 & Hc0 & Hi0 & Hp0). exists hd0. do 3 (split; [done|]).
    destruct Hp0 as [[-> _]|[_ ->]]; [|by left]. right. exists c. rewrite Hv in Hv0. by injection Hv0 as <-.
  - intros d (v' & hd' & Hv' & Hd). left. destruct (decide (v' = v)) as [->|Hne].
    + exists v, (mkHandler (h_UUID hd') (Conn hd') (SetPeerWithdrawn (h_Signaler hd')) (h_BelongsTo hd') (h_Interests hd')).
      split; [|done]. simpl. by rewrite lookup_alter_eq, Hv'.
    + exists v', hd'. split; [|done]. simpl. by rewrite lookup_alter_ne.
  - intros d Hd. by apply Ha, (to_alive _ _ Hok), Hon.
  - intros d Hd. assert (hears s d ∧ d ≠ c) as [Hd0 Hne].
    { destruct Hd as [(v' & hd' & Hv' & Hc' & Hp')|Hd].
      - destruct (Hsub v' hd' Hv') as (hd0 & Hv0 & Hc0 & _ & [[_ Hp0]|[Hne ->]]); [congruence|]. split; [left; by exists v', hd0|].
        intros ->. apply Hne. by apply (to_one _ _ Hok v' hd0 v hd c).
      - split; [right; by apply Hon|]. intros ->. apply (to_apart _ _ Hok (peer c) c); [left; by apply Hon|by right|done]. }
    split; [done|]. by rewrite Hw, decide_False.
  - intros q r c0 Hin. destruct (back_listening _ _ q r c0 Hok Hin) as (v0 & hd0 & Hv0 & Hc0 & Hp0).
    destruct (decide (v0 = v)) as [->|Hne]; [|exists v0, hd0; split; [|done]; simpl; by rewrite lookup_alter_ne].
    exfalso. rewrite Hv in Hv0. injection Hv0 as <-. rewrite Hc in Hc0. injection Hc0 as <-.
    apply list_elem_of_split in Hin as (l1 & l2 & ->). rewrite frames_at in Ef. simpl in Ef.
    rewrite decide_True in Ef by done. by apply app_eq_nil in Ef as [_ ?].
Qed.

(** The scan closes the connections of handlers and takes nothing back. *)
Lemma closes (l : list connectionHandler) w w1 :
  close_all (websocket_transport ws) l w = Val w1 →
  (∀ d, (∀ hd c, hd ∈ l → Conn hd = Some c → d ≠ c) → waiting w1 d = waiting w d) ∧
  (∀ d, (∀ hd c, hd ∈ l → Conn hd = Some c → d ≠ c ∧ d ≠ peer c) → alive w d → alive w1 d).
Proof.
  revert w. induction l as [|hd l IH]; intros w; simpl; [by intros [= <-]|].
  unfold handlerClose. destruct (Conn hd) as [c|] eqn:Hc; [|done]. simpl t_Close. unfold Close.
  pose proof (law_close c) as Hw. pose proof (law_close_alive c) as Ha.
  destruct (ws_Close ws c w) as [e w2] eqn:E. run. intros El. destruct (IH w2 El) as [IHw IHa]. split.
  - intros d Hd. rewrite IHw by (intros hx x Hx; apply (Hd hx x); by right).
    specialize (Hw d w). rewrite E in Hw. apply Hw. apply (Hd hd c); [by left|done].
  - intros d Hd Hal. apply IHa; [intros hx x Hx; apply (Hd hx x); by right|].
    specialize (Ha d w). rewrite E in Ha. destruct (Hd hd c) as [H1' H2']; [by left|done|]. by apply Ha.
Qed.

(** The scan removes the peers that have withdrawn, and no others. *)
Lemma scans_ok s fl h1 w1 :
  traffic_ok s fl →
  scan (websocket_transport ws) (λ _, false) (map_to_list (meshConnections (tr_hub s))).*2 (tr_hub s) (tr_world s) = Val (h1, w1) →
  traffic_ok (mkTraffic (mkMesh (set_hub (ms_parent (tr_mesh s)) h1) (ms_runners (tr_mesh s)) w1)
    (tr_gone s) (tr_used s) (tr_sent s) (tr_late s) (tr_jobs s) (tr_handlers s) (tr_done s) (tr_stuck s)) fl.
Proof.
  intros Hok E. destruct (scan_spec (websocket_transport ws) heard (λ _, false) _ _ _ _ (to_hub _ _ Hok) E) as (Hwf & Hv & _ & Hn & Ec).
  set (l := failed_conns _ _) in Ec. apply closes in Ec as [Hwait Halive].
  assert (∀ hd c, hd ∈ l → Conn hd = Some c →
    (∃ v, meshConnections (tr_hub s) !! v = Some hd) ∧ PeerWithdrawn (h_Signaler hd) = true ∧ on_mesh (tr_hub s) c) as Hl.
  { intros hd c [Hp ([v x] & -> & Hx%elem_of_map_to_list)%list_elem_of_fmap]%list_elem_of_filter Hc. simpl in *.
    split; [by exists v|]. split; [done|]. by exists v, x. }
  assert (∀ d, on_mesh h1 d → listening (tr_hub s) d) as Hon by (intros d (v & hd & (Hx & _ & Hp)%Hv & Hd); by exists v, hd).
  assert (∀ d, listening (tr_hub s) d → ∀ hd c, hd ∈ l → Conn hd = Some c → d ≠ c) as Hother.
  { intros d (v & hd & Hx & Hd & Hp) hd' c Hin Hc ->. destruct (Hl hd' c Hin Hc) as ([v' Hx'] & Hp' & _).
    assert (v = v') as -> by (by apply (to_one _ _ Hok v hd v' hd' c)). congruence. }
  assert (∀ d, on_mesh (tr_hub s) d → ∀ hd c, hd ∈ l → Conn hd = Some c → d ≠ peer c) as Hpeer.
  { intros d Hd hd c Hin Hc. destruct (Hl hd c Hin Hc) as (_ & _ & Hcon). apply (to_apart _ _ Hok); by left. }
  apply (hub_changes s fl); try done.
  - intros v hd (Hx & _ & _)%Hv. exists hd. do 3 (split; [done|]). by left.
  - intros c (v & hd & Hx & Hc). destruct (PeerWithdrawn (h_Signaler hd)) eqn:Hp; [right|left; exists v, hd; by rewrite Hv].
    destruct (to_conns _ _ Hok v hd Hx) as (c' & t & Hc' & _ & Hpw & _). rewrite Hc in Hc'. injection Hc' as <-.
    destruct (decide (c ∈ tr_gone s)) as [|Hg]; [done|]. by rewrite Hpw in Hp.
  - intros c Hc%Hon. apply Halive; [|by apply (to_alive _ _ Hok), listening_on_mesh]. intros hd d Hin Hd.
    split; [by apply (Hother c Hc hd)|]. by apply (Hpeer c (listening_on_mesh _ _ Hc) hd).
  - intros d Hd. assert (hears s d) as Hd0.
    { destruct Hd as [(v & hd & Hx & Hd)|Hd]; [left; apply Hon; exists v, hd; by destruct Hd|right; by apply listening_on_mesh, Hon]. }
    split; [done|]. apply Hwait. intros hd c Hin Hc. destruct Hd as [(v & hd' & Hx & Hd' & _)|Hd].
    + apply (Hother d) with hd; try done. apply Hon. by exists v, hd'.
    + intros ->. apply (Hpeer (peer c)) with hd c; try done. by apply listening_on_mesh, Hon.
  - intros q r c (v & hd & Hx & Hc & Hp)%(back_listening _ _ _ _ _ Hok). exists v, hd. by rewrite Hv.
Qed.

(** ** What every run does *)

(** The processes before any runner has joined. *)
Definition traffic_init (sv : ControlServer.Server (B := B)) (w : W) : traffic :=
  mkTraffic (mkMesh (server_parent sv hp (Node.bus_hub (ControlServer.sv_bus sv))) ∅ w) [] ∅ [] [] [] [] [] false.

Lemma init_ok {C Pr : Type} (lib : Startup.observability (Conn := C) (Provider := Pr)) tracer idA port x sv w :
  Arrival.hub_pod = Some hp → Startup.setupTracing lib tracer = Val (Ok x) → idA ≠ "" →
  ControlServer.New lib tracer idA (λ _, None) port = Val (Ok (Some sv)) → traffic_ok (traffic_init sv w) [].
Proof.
  intros Hhp Ht Hid Hsv. destruct (hub_pod_listens hp Hhp) as [Hlis _].
  destruct (server_ready lib tracer idA port hp x Hhp Ht) as (sv' & Esv & HP & Hsh & Hdisp).
  rewrite Hsv in Esv. injection Esv as <-.
  split; simpl; rewrite ?Hsh; simpl; try done; try (by constructor); try (intros *; by intros ?%not_elem_of_nil).
  - intros c (v & hd & Hv & _). simpl in Hv. rewrite ?Hsh in Hv. simpl in Hv. by rewrite lookup_empty in Hv.
  - apply hub_wf_init.
  - exists ∅. split; [split; [|eexists; split; [|exact Hdisp]|done]|].
    + apply (new_node_ready _ _ _ hp HP); [apply pod_at_head|done|simpl; lia].
    + simpl. rewrite pod_at_next by done. apply pod_at_head.
    + split; [done|]. intros f u ?%not_elem_of_nil. done.
  - intros d [(v & hd & Hv & _)|(v & hd & Hv & _)]; simpl in Hv; rewrite ?Hsh in Hv; simpl in Hv; by rewrite lookup_empty in Hv.
  - intros c d [(v & hd & Hv & _)|Hc]; [simpl in Hv; rewrite ?Hsh in Hv; simpl in Hv; by rewrite lookup_empty in Hv|by apply not_elem_of_nil in Hc].
  - split; [constructor|]. by intros u ?%not_elem_of_nil.
  - intros q y ?%not_elem_of_nil. done.
Qed.


(** The calls that have ended have ended well, and the processes can go on as long
    as the lock of the dispatcher is free. *)
Definition traffic_inv (s : traffic) : Prop :=
  done_ok (tr_done s) ∧ (tr_stuck s = false → ∃ fl, traffic_ok s fl).

Lemma traffic_ok_inv s fl : traffic_ok s fl → traffic_inv s.
Proof. intros Hok. split; [apply Hok|]. by exists fl. Qed.

(** Without the lock no call ends. *)
Lemma stuck_traffic s s1 : tr_stuck s = true → traffic_step s s1 → tr_stuck s1 = true ∧ tr_done s1 = tr_done s.
Proof. intros Hs [s2 []| | | | | | | ]; simpl; by try congruence. Qed.

(** The calls that have ended with more than a timeout. *)
Definition ended_well (s s1 : traffic) (q : call) : Prop :=
  ∀ x, (q, x) ∈ tr_done s1 → (q, x) ∈ tr_done s ∨ x = (None, [TimedOut]).

Lemma doomed_same s s1 fl q :
  doomed s fl q → tr_out s1 ≡ₚ tr_out s → (∀ c, c ∈ tr_gone s → c ∈ tr_gone s1) → doomed s1 fl q.
Proof.
  intros [Hq Hd] Ho Hg. split; [by rewrite Ho|]. intros f Hf Hcall. specialize (Hd f Hf Hcall).
  destruct f; try done; by apply Hg.
Qed.

Lemma traffic_step_ok s fl s1 :
  Arrival.hub_pod = Some hp → traffic_ok s fl → traffic_step s s1 →
  done_ok (tr_done s1) ∧ (∀ q, doomed s fl q → ended_well s s1 q) ∧
  (tr_stuck s1 = false → ∃ fl1, traffic_ok s1 fl1 ∧ ∀ q, doomed s fl q → doomed s1 fl1 q).
Proof.
  intros Hhp Hok [s2 Hs|q e P1 w1 _ Hcan Hid Hu1 Hu2 E|q l1 l2 _ Hs|m h1 h2 q r _ _ _ _ _|x c b pod engine h1 w1 w2 hB|
    c R v R1 w1 Hcon Hg HR E|c v hd e w1 Hv Hc Hp E|h1 w1 E].
  - destruct (process_step_ok s fl s2 Hok Hs) as (fl1 & Hok1 & _ & _ & Hd). split; [apply Hok1|]. split.
    + intros q [_ Hq]%Hd x Hx. left. by apply Hq.
    + intros _. exists fl1. split; [done|]. by intros q [Hq _]%Hd.
  - destruct (start_ok s fl q Hok Hcan Hid Hu1 Hu2) as (e' & P1' & w1' & fl1 & E' & _ & _ & _ & _ & He & Hok').
    rewrite E in E'. injection E' as <- <- <-. split; [apply Hok'|].
    assert (∀ q', doomed s fl q' → q' ≠ q) as Hne.
    { intros q' [Hq' _] ->. apply Hu1. apply (sent_used _ _ q _ Hok Hq'). by left. }
    split.
    + intros q' Hq' y [Hin|Hin]%elem_of_app; [by left|]. destruct He as [[-> _]|[-> _]]; [by apply not_elem_of_nil in Hin|].
      apply list_elem_of_singleton in Hin as [= -> _]. by destruct (Hne q Hq').
    + intros _. exists fl1. split; [done|]. intros q' Hq'. pose proof Hq' as [Hin Hd]. split.
      * apply elem_of_app in Hin as [Hin|Hin]; apply elem_of_app; [left; apply elem_of_app; by left|by right].
      * destruct He as [[_ [c ->]]|[_ ->]]; [|exact Hd]. intros f [Hf| ->%list_elem_of_singleton]%elem_of_app Hcall; [by apply Hd|].
        by destruct (Hne q' Hq').
  - pose proof (times_out_ok s fl q l1 l2 Hok Hs) as Hok'. split; [apply Hok'|]. split.
    + intros q' _ y [Hin|[= _ ->]%list_elem_of_singleton]%elem_of_app; [by left|by right].
    + intros _. exists fl. split; [done|]. intros q' Hq'. apply (doomed_same s _ fl q' Hq'); [|done].
      simpl. rewrite (out_sent s q l1 l2 Hs), app_assoc. symmetry. apply Permutation_cons_append.
  - split; [apply Hok|]. split; [by left|done].
  - pose proof (joins_ok s fl x c b pod engine h1 w1 w2 hB Hhp Hok) as Hj. split; [apply Hok|]. split; [by left|].
    intros _. exists fl. split; [by apply Hj|]. intros q Hq. by apply (doomed_same s).
  - split; [apply Hok|]. split; [by left|]. intros _. exists fl. split; [by apply (leaves_ok s fl c R v)|].
    intros q Hq. apply (doomed_same s); [done|done|]. intros d Hd. by right.
  - split; [apply Hok|]. split; [by left|]. intros _. exists fl. split; [by apply (hears_ok s fl c v hd e)|].
    intros q Hq. by apply (doomed_same s).
  - split; [apply Hok|]. split; [by left|]. intros _. exists fl. split; [by apply scans_ok|].
    intros q Hq. by apply (doomed_same s).
Qed.

Lemma traffic_steps_inv s s1 :
  Arrival.hub_pod = Some hp → traffic_inv s → rtc traffic_step s s1 → traffic_inv s1.
Proof.
  intros Hhp Hinv Hs. induction Hs as [s|s s1 s2 Hs _ IH]; [done|]. apply IH. destruct (tr_stuck s) eqn:E.
  - destruct (stuck_traffic s s1 E Hs) as [E1 Ed]. split; [rewrite Ed; apply Hinv|congruence].
  - destruct (proj2 Hinv E) as (fl & Hok). destruct (traffic_step_ok s fl s1 Hhp Hok Hs) as (Hd & _ & Hok1).
    split; [done|]. intros E1. destruct (Hok1 E1) as (fl1 & Hok1' & _). by exists fl1.
Qed.

(** The step in which the Execute of [q] ends without having been sent. *)
Definition unsent (q : call) : call * seen := (q, (Some ErrTunnelNotEstablished, [])).

Definition gave_up_in (s s1 : traffic) (q : call) : Prop :=
  traffic_step s s1 ∧ tr_done s1 = tr_done s ++ [unsent q] ∧ unreached (tr_hub s) (m_FQMN (c_module q)).

Lemma traffic_step_unsent s fl s1 q :
  traffic_ok s fl → traffic_step s s1 → unsent q ∈ tr_done s1 → unsent q ∈ tr_done s ∨ gave_up_in s s1 q.
Proof.
  intros Hok Hst. pose proof Hst as Hst'.
  destruct Hst as [s2 Hs|q' e P1 w1 _ Hcan Hid Hu1 Hu2 E|q' l1 l2 _ Hs| | | | | ]; simpl; try by left.
  - intros Hin. destruct Hs; simpl in Hin; try by left.
    apply elem_of_app in Hin as [|Hin]; [by left|]. by apply list_elem_of_singleton in Hin.
  - destruct (start_ok s fl q' Hok Hcan Hid Hu1 Hu2) as (e' & P1' & w1' & fl1 & E' & _ & _ & _ & Hn & He & _).
    rewrite E in E'. injection E' as <- <- <-. intros [|Hin]%elem_of_app; [by left|right].
    destruct He as [[-> _]|[-> _]]; [by apply not_elem_of_nil in Hin|]. apply list_elem_of_singleton in Hin. injection Hin as ->.
    split; [exact Hst'|]. by split; [|apply Hn].
  - intros [|Hin]%elem_of_app; [by left|]. by apply list_elem_of_singleton in Hin.
Qed.

Lemma traffic_steps_unsent s s1 q :
  Arrival.hub_pod = Some hp → traffic_inv s → rtc traffic_step s s1 → unsent q ∈ tr_done s1 →
  unsent q ∈ tr_done s ∨ ∃ s2 s3, rtc traffic_step s s2 ∧ gave_up_in s2 s3 q ∧ rtc traffic_step s3 s1.
Proof.
  intros Hhp Hinv Hs. induction Hs as [s|s s2 s1 Hs Hrest IH]; intros Hin; [by left|].
  pose proof (traffic_steps_inv s s2 Hhp Hinv (rtc_once _ _ Hs)) as Hinv2.
  destruct (IH Hinv2 Hin) as [Hin2|(s3 & s4 & H1' & H2' & H3')];
    [|right; exists s3, s4; split; [by eapply rtc_l|done]].
  destruct (tr_stuck s) eqn:E; [left; by destruct (stuck_traffic s s2 E Hs) as [_ <-]|].
  destruct (proj2 Hinv E) as (fl & Hok). destruct (traffic_step_unsent s fl s2 q Hok Hs Hin2) as [|Hg]; [by left|].
  right. by exists s, s2.
Qed.

(** No run brings the result of a doomed call. *)
Lemma doomed_forever s fl s1 q :
  Arrival.hub_pod = Some hp → traffic_ok s fl → doomed s fl q → rtc traffic_step s s1 → ended_well s s1 q.
Proof.
  intros Hhp Hok Hq Hs.
  assert (∀ s', rtc traffic_step s' s1 → tr_stuck s' = true → tr_done s1 = tr_done s') as Hstuck.
  { clear -s1. intros s' Hs'. induction Hs' as [s|s s1 s2 Hs _ IH]; [done|]. intros Et.
    destruct (stuck_traffic s s1 Et Hs) as [Et1 <-]. by apply IH. }
  revert fl Hok Hq. induction Hs as [s|s s2 s1 Hs Hrest IH]; intros fl Hok Hq; [by left|].
  destruct (traffic_step_ok s fl s2 Hhp Hok Hs) as (_ & Hd & Hok1). specialize (Hd q Hq).
  destruct (tr_stuck s2) eqn:Et.
  - intros x Hx. apply Hd. by rewrite <- (Hstuck s2 Hrest Et).
  - destruct (Hok1 eq_refl) as (fl1 & Hok1' & Hq1). intros x Hx.
    destruct (IH Hstuck fl1 Hok1' (Hq1 q Hq) x Hx) as [Hin|]; [by apply Hd|by right].
Qed.

(** Left to themselves the processes end every call that is under way, with its
    result, when no runner has withdrawn. *)
Lemma mesh_drains s fl :
  traffic_ok s fl → tr_gone s = [] →
  ∃ s1 fl1, rtc process_step s s1 ∧ traffic_ok s1 fl1 ∧ tr_out s1 = [] ∧ (tr_done s1).*1 ≡ₚ calls s.
Proof.
  remember (steps_left fl) as n eqn:En. revert s fl En. induction n as [n IH] using lt_wf_ind. intros s fl -> Hok Hg.
  destruct (tr_out s) as [|q qs] eqn:Es.
  - exists s, fl. split; [done|]. split; [done|]. split; [done|]. apply app_nil in Es as [Es _]. unfold calls. by rewrite Es.
  - destruct (mesh_progress s fl Hok Hg) as (s1 & Hs1); [by rewrite Es|].
    destruct (process_step_ok s fl s1 Hok Hs1) as (fl1 & Hok1 & E & Hc & _).
    destruct (IH (steps_left fl1) E s1 fl1 eq_refl Hok1) as (s2 & fl2 & Hs2 & Hok2 & He & Hd);
      [by rewrite (process_step_gone s s1)|].
    exists s2, fl2. split; [by eapply rtc_l|]. do 2 (split; [done|]). by rewrite Hd.
Qed.

Lemma process_steps_gone n s s1 : nsteps process_step n s s1 → tr_gone s1 = tr_gone s.
Proof. induction 1 as [s|n s s1 s2 Hs _ IH]; [done|]. by rewrite IH, (process_step_gone s s1). Qed.

Lemma process_steps_done s s1 q x :
  rtc process_step s s1 → (q, x) ∈ tr_done s1 → (q, x) ∈ tr_done s ∨ ∃ r, x = (None, [Arrived r]).
Proof.
  induction 1 as [s|s s1 s2 Hs _ IH]; intros Hin; [by left|]. destruct (IH Hin) as [Hin'|]; [|by right].
  destruct Hs; simpl in Hin'; try by left. apply elem_of_app in Hin' as [|[= _ ->]%list_elem_of_singleton]; [by left|].
  right. by eexists.
Qed.

Lemma process_steps_keep s s1 y : rtc process_step s s1 → y ∈ tr_done s → y ∈ tr_done s1.
Proof.
  induction 1 as [s|s s1 s2 Hs _ IH]; intros Hin; [done|]. apply IH.
  destruct Hs; simpl; try done. apply elem_of_app. by left.
Qed.

Lemma process_steps_traffic s s1 : rtc process_step s s1 → rtc traffic_step s s1.
Proof. induction 1 as [s|s s1 s2 Hs _ IH]; [done|]. eapply rtc_l; [by apply MeshStep|exact IH]. Qed.

(** ** What is possible *)

(** A runner can always join. *)
Lemma join_possible s fl x c w1 :
  Arrival.hub_pod = Some hp → traffic_ok s fl →
  st_id x ≠ "" → st_id x ≠ nodeUUID (tr_hub s) → meshConnections (tr_hub s) !! st_id x = None →
  String.prefix "ws" (st_address x +:+ ":" +:+ st_port x +:+ "/meta/message") = false →
  Node.dials ws peer waiting alive (tr_world s) (st_address x) (st_port x) "/meta/message" c w1 →
  (∀ d, known s d → d ≠ c ∧ d ≠ peer c) →
  (∀ d, d ≠ c → d ≠ peer c → waiting w1 d = waiting (tr_world s) d) →
  ∃ s1, traffic_step s s1 ∧ tr_hub s1 = addConnection (tr_hub s) c (st_id x) (st_tenant x) [st_type x] ∧
    tr_gone s1 = tr_gone s ∧ tr_used s1 = tr_used s ∧ tr_sent s1 = tr_sent s ∧ tr_late s1 = tr_late s ∧
    tr_done s1 = tr_done s ∧ (∀ d, waiting (tr_world s1) d = waiting w1 d) ∧ stays alive w1 (tr_world s1) ∧ traffic_ok s1 fl.
Proof.
  intros Hhp Hok Hne Hns Hnone Hpre Hdial Hnew Hold. destruct (to_node _ _ Hok) as (Hn1 & Hn2 & Hn3 & Hn4).
  destruct (setupBus_ready (st_id x) (st_tenant x) (st_type x) (st_port x) hp Hhp) as (b & pod & engine & Esat & _ & Hbh & _).
  destruct (Node.hears_joins ws peer waiting alive (tr_hub s) (st_id x) (st_tenant x) (st_type x) (st_port x) (st_address x)
    (tr_world s) c w1) as (w2 & Eh & Hst & Hq); [done..|]. rewrite <- Hbh in Eh.
  eexists. split; [exact (RunnerJoins s x c b pod engine _ w1 w2 _ Esat Hne Hns Hnone Hpre Hdial Hnew Hold Eh)|].
  split_and!; try done. by apply (joins_ok s fl x c b pod engine _ w1 w2).
Qed.

(** An Execute can always start; it finds a peer when there is one. *)
Lemma execute_possible s fl q :
  traffic_ok s fl → can_call q → parent_id q ∉ (λ q, parent_id q) <$> tr_out s →
  c_fresh q ∉ tr_used s → c_sat_fresh q 0 ∉ {[c_fresh q]} ∪ tr_used s →
  ∃ e s1, traffic_step s s1 ∧ meshConnections (tr_hub s1) = meshConnections (tr_hub s) ∧
    (∀ cap, members_of (capabilityBalancers (tr_hub s1)) cap = members_of (capabilityBalancers (tr_hub s)) cap) ∧
    (e = None → ∃ v hd, reachable (m_FQMN (c_module q)) (tr_hub s) v hd) ∧
    (e ≠ None → unreached (tr_hub s) (m_FQMN (c_module q))) ∧ tr_gone s1 = tr_gone s ∧ tr_used s1 = {[c_sat_fresh q 0; c_fresh q]} ∪ tr_used s ∧
    tr_sent s1 = tr_sent s ++ match e with None => [q] | Some _ => [] end ∧ tr_late s1 = tr_late s ∧
    tr_done s1 = tr_done s ++ match e with None => [] | Some e => [(q, (Some e, []))] end ∧
    ∃ fl1, traffic_ok s1 fl1 ∧ ((e = None ∧ ∃ c, fl1 = fl ++ [Queued q c]) ∨ (e = Some ErrTunnelNotEstablished ∧ fl1 = fl)).
Proof.
  intros Hok Hcan Hid Hu1 Hu2. destruct (start_ok s fl q Hok Hcan Hid Hu1 Hu2) as (e & P1 & w1 & fl1 & E & Emc & Em & Hr & Hn & He & Hok1).
  exists e. eexists. split; [apply (ExecuteStarts s q e P1 w1); by try apply Hok|]. split_and!; try done. by exists fl1.
Qed.

Lemma timeout_possible s fl q l1 l2 :
  traffic_ok s fl → tr_sent s = l1 ++ q :: l2 →
  ∃ s1, traffic_step s s1 ∧ traffic_ok s1 fl ∧ tr_gone s1 = tr_gone s ∧ tr_sent s1 = l1 ++ l2 ∧ tr_late s1 = tr_late s ++ [q] ∧
    tr_done s1 = tr_done s ++ [(q, (None, [TimedOut]))].
Proof.
  intros Hok Hs. eexists. split; [apply (ExecuteTimesOut s q l1 l2); by try apply Hok|].
  split_and!; try done. by apply times_out_ok.
Qed.

(** A runner that has not withdrawn can; then the control process can hear of it when
    no result is on its way, and the scan removes it. *)
Lemma leave_possible s fl c :
  traffic_ok s fl → on_mesh (tr_hub s) c → c ∉ tr_gone s →
  ∃ s1, traffic_step s s1 ∧ traffic_ok s1 fl ∧ tr_hub s1 = tr_hub s ∧ tr_gone s1 = c :: tr_gone s ∧
    tr_used s1 = tr_used s ∧ tr_sent s1 = tr_sent s ∧ tr_late s1 = tr_late s ∧ tr_jobs s1 = tr_jobs s ∧ tr_done s1 = tr_done s.
Proof.
  intros Hok Hcon Hg. pose proof Hcon as (u & hd & Hu & Hc).
  destruct (to_conns _ _ Hok u hd Hu) as (c' & t & Hc' & Hi & Hpw & R & U & HR & Hready & _ & _ & Honly & Hnew).
  rewrite Hc in Hc'. injection Hc' as <-. destruct (rr_parent _ _ _ _ _ Hready) as (v & hv & Hv & Hcv & _).
  assert (∃ R1 w1, runner_withdraws ws R v (tr_world s) = Some (R1, w1)) as (R1 & w1 & E).
  { unfold runner_withdraws. rewrite Hv. cbn [mbind option_bind]. rewrite Hcv, (Hnew Hg v hv Hv).
    assert (Signal NewSignaler = Some (mkSignaler 1 0 true false)) as -> by reflexivity. cbn [mbind option_bind].
    destruct (withdraw_goroutine_ok ws peer waiting alive (mkSignaler 1 0 true false) (peer c) (tr_world s)) as (s1 & w1 & -> & _ & _ & Hd & _);
      [by eapply peer_alive|done|done|]. cbn [mbind option_bind]. destruct s1 as [a d x y]. simpl in Hd. subst d. by eexists _, _. }
  eexists. split; [exact (RunnerLeaves s c R v R1 w1 Hcon Hg HR E)|]. split_and!; try done. by apply (leaves_ok s fl c R v R1 w1).
Qed.

Lemma hear_possible s fl c v hd :
  traffic_ok s fl → meshConnections (tr_hub s) !! v = Some hd → Conn hd = Some c → PeerWithdrawn (h_Signaler hd) = false →
  c ∈ tr_gone s → frames c fl = [] →
  ∃ s1, traffic_step s s1 ∧ traffic_ok s1 fl ∧ tr_hub s1 = peerWithdrew (tr_hub s) v ∧ tr_gone s1 = tr_gone s ∧
    tr_used s1 = tr_used s ∧ tr_sent s1 = tr_sent s ∧ tr_late s1 = tr_late s ∧ tr_done s1 = tr_done s.
Proof.
  intros Hok Hv Hc Hp Hg Hfl. assert (listening (tr_hub s) c) as Hl by (by exists v, hd).
  destruct (waits_here _ _ c Hok Hl) as (rest & Hw & Hr). unfold left_at in Hr. rewrite decide_True in Hr by done.
  destruct Hr as [fs ->]. rewrite Hfl in Hw.
  assert (∃ w1, reader ws [id] (h_Signaler hd) c (tr_world s) = ([], Some (SetPeerWithdrawn (h_Signaler hd), None), w1)) as [w1 E].
  { destruct id as [x n]. simpl.
    destruct (ReadMsg_ok ws peer waiting alive x n c _ _ (tr_world s) (to_alive _ _ Hok _ (listening_on_mesh _ _ Hl)) Hw)
      as (w1 & -> & _). exists w1. by rewrite (decode_frame_of x n (inr (mkWithdraw false))). }
  eexists. split; [exact (ParentHears s c v hd None w1 Hv Hc Hp E)|]. split_and!; try done. by apply (hears_ok s fl c v hd None).
Qed.

Lemma scan_possible s fl :
  traffic_ok s fl →
  ∃ s1, traffic_step s s1 ∧ traffic_ok s1 fl ∧
    (∀ v hd, meshConnections (tr_hub s1) !! v = Some hd ↔
       meshConnections (tr_hub s) !! v = Some hd ∧ PeerWithdrawn (h_Signaler hd) = false) ∧ tr_gone s1 = tr_gone s ∧
    tr_used s1 = tr_used s ∧ tr_sent s1 = tr_sent s ∧ tr_late s1 = tr_late s ∧ tr_done s1 = tr_done s.
Proof.
  intros Hok. destruct (hub_wf_scan (websocket_transport ws) heard (λ _, false) (tr_hub s) (tr_world s) (to_hub _ _ Hok)) as (h1 & w1 & E & _).
  destruct (scan_spec (websocket_transport ws) heard (λ _, false) _ _ _ _ (to_hub _ _ Hok) E) as (_ & Hv & _).
  eexists. split; [exact (HubScans s h1 w1 E)|]. split; [by apply scans_ok|]. split_and!; try done.
  intros v hd. rewrite Hv. naive_solver.
Qed.

End Traffic.
