(* ===== verification/Clients.v ===== *)
(** * Clients of a deployed mesh

    What clients get for their requests when the calls of the dispatcher are part of
    the traffic of a deployed mesh (Traffic), from the handler of the control process
    through its dispatcher to the function of a runner and back. *)

From S2P Require Import Prelude.
From S2P Require Import Interfaces.
From S2P Require Import Balancer.
From S2P Require Import Message.
From S2P Require Import Signaler.
From S2P Require Import Hub.
From S2P Require Import Websocket.
From S2P Require Import Link.
From S2P Require Import Tunnel.
From S2P Require Import Pod.
From S2P Require Import MeshNode.
From S2P Require Import AuthCache.
From S2P Require Import Access.
From S2P Require Import Sequence.
From S2P Require Import Dispatcher.
From S2P Require Import Mesh.
From S2P Require Import Syncer.
From S2P Require Import Handlers.
From S2P Require Import EndToEnd.
From S2P Require Node.
From S2P Require Startup.
From S2P Require ControlServer.
From S2P Require Arrival.
From S2P Require Import MeshRequest.
From S2P Require Import Deployed.
From S2P Require Import Traffic.

Section Clients.
Context {WorkflowStep : Type} (FQMN : WorkflowStep → string).
Context (IsSingle IsGroup : WorkflowStep → bool).
Context `{Codec (list (WorkflowStep * bool))} `{Codec CoordinatedRequest} `{Codec ExecResult}.
Context (step_of : string → WorkflowStep) (FQMN_step_of : ∀ f, FQMN (step_of f) = f).
Context {HttpRequest : Type} (FromEchoContext : HttpRequest → result CoordinatedRequest).
Context (UseSuborbitalHeaders : HttpRequest → CoordinatedRequest → result CoordinatedRequest).
Context (errText : error → string) (fn : string → CoordinatedRequest → fn_result).
Context `{Codec Message, Codec TransportHandshake, Codec TransportHandshakeAck, Codec Node.payload}.
Context {W : Type} (ws : Websocket W) (peer : Z → Z) (waiting : W → Z → list frame) (alive : W → Z → Prop).
Context `{!WebsocketLaws ws peer waiting alive}.
Context {B : Type} `{Picker B} (heard : connectionHandler → bool).
Context {GrpcConn Provider : Type} (lib : Startup.observability (Conn := GrpcConn) (Provider := Provider)).
Context (id : string * Z).

Abbreviation step hp := (traffic_step (B := B) FQMN step_of errText fn ws peer waiting alive heard hp id).
Abbreviation proc_step := (process_step (B := B) FQMN step_of errText fn ws peer heard id).

(** ** Requests of clients *)

(** A request of a client: what came with it, and the call that it comes to. *)
Record asked : Type := mkAsked {
  a_ctx : echo_ctx; a_authInfo : string; a_rq : HttpRequest; a_ident : string; a_call : call
}.

Section Asked.
Context (client : AuthzClient) (cached : string → result (option TenantInfo) → result (option TenantInfo)) (sy : syncJob).

Abbreviation param a k := (default "" (params (a_ctx a) !! k)).

(** It is authorized, its module is one of the tenant, and the call is its. *)
Definition allowed (a : asked) : Prop :=
  store (a_ctx a) = ∅ ∧
  AuthorizationMiddleware client cached (a_authInfo a) (param a "ident") (param a "namespace") (param a "name") =
    Val (Next (a_ident a)) ∧
  GetModuleByName sy (a_ident a) (param a "namespace") (param a "name") = Some (c_module (a_call a)) ∧
  request_of FromEchoContext UseSuborbitalHeaders (a_rq a) = Ok (c_req (a_call a)).

(** The client gets what the function of the module answers when the Execute of its
    request sees a result, and a 500 when it sees a timeout or sends nothing; it sees
    nothing else. *)
Definition answered (n : nat) (a : asked) (x : seen) : Prop :=
  let post := post_name FQMN IsSingle IsGroup step_of FromEchoContext UseSuborbitalHeaders (S n) client cached sy
    (mesh_world (c_fresh (a_call a)) (c_now (a_call a)) x) (a_ctx a) (a_authInfo a) (a_rq a) in
  match x with
  | (None, [Arrived _]) =>
      match fn (m_FQMN (c_module (a_call a))) (module_request step_of (c_module (a_call a)) (c_req (a_call a))) with
      | FnResponse resp => ∃ hdr, post = Some (Val (Blob 200 hdr (Output resp)))
      | FnOther => False
      | FnErr e => reported errText e → post = Some (Val (ErrorAnswer 500 "failed to execute plugin"))
      end
  | (None, [TimedOut]) | (Some _, []) => post = Some (Val (ErrorAnswer 500 "failed to execute plugin"))
  | _ => False
  end.

Lemma first_answered n a r :
  makes_maps FromEchoContext UseSuborbitalHeaders → allowed a →
  first_result step_of errText fn (c_module (a_call a)) (c_req (a_call a)) r → answered n a (None, [Arrived r]).
Proof. intros Hmaps (Hst & Hauth & Hm & Hreq) Hfirst. by eapply first_result_answers. Qed.

Lemma timeout_answered n a :
  makes_maps FromEchoContext UseSuborbitalHeaders → allowed a → answered n a (None, [TimedOut]).
Proof. intros Hmaps (Hst & Hauth & Hm & Hreq). by eapply timeout_answers. Qed.

Lemma unsent_answered n a e :
  makes_maps FromEchoContext UseSuborbitalHeaders → allowed a → answered n a (Some e, []).
Proof. intros Hmaps (Hst & Hauth & Hm & Hreq). by eapply unsent_answers. Qed.


End Asked.

(** The states that are reached with the lock of the dispatcher free. *)
Lemma reached tracer x idA port hp sv w s :
  Startup.setupTracing lib tracer = Val (Ok x) → Arrival.hub_pod = Some hp → idA ≠ "" →
  ControlServer.New lib tracer idA (λ _, None) port = Val (Ok (Some sv)) →
  rtc (step hp) (traffic_init hp sv w) s → tr_stuck s = false →
  ∃ fl, traffic_ok FQMN step_of errText fn peer waiting alive s fl.
Proof.
  intros Ht Hhp Hid Hsv Hs Hfree.
  pose proof (init_ok FQMN step_of errText fn peer waiting alive hp lib tracer idA port x sv w Hhp Ht Hid Hsv) as Hok.
  apply traffic_ok_inv in Hok.
  destruct (traffic_steps_inv FQMN step_of FQMN_step_of errText fn ws peer waiting alive heard hp id _ s Hhp Hok Hs) as [_ Hinv].
  by apply Hinv.
Qed.

(** C15: In such a run no call is lost and none waits for ever: from every state
    that can be reached, unless a timeout met the handler of the dispatcher with
    its lock held, the processes take at most four steps for every call that the
    mesh carries, whatever they read, run and handle and in whatever order, the
    calls that end by these steps end with a result, and as long as the mesh
    carries a call and no runner has withdrawn some process can take a step; so,
    without withdrawals, the calls have all ended, and late results are dropped,
    when no process can go on. *)
Theorem calls_end tracer x idA port hp sv w s k s1 :
  Startup.setupTracing lib tracer = Val (Ok x) → Arrival.hub_pod = Some hp → idA ≠ "" →
  ControlServer.New lib tracer idA (λ _, None) port = Val (Ok (Some sv)) →
  rtc (step hp) (traffic_init hp sv w) s → tr_stuck s = false → nsteps proc_step k s s1 →
  k ≤ 4 * length (tr_sent s ++ tr_late s) ∧ calls s1 ≡ₚ calls s ∧
  (∀ q y, (q, y) ∈ tr_done s1 → (q, y) ∈ tr_done s ∨ ∃ r, y = (None, [Arrived r])) ∧
  (tr_gone s = [] → tr_sent s1 ++ tr_late s1 = [] ∨ ∃ s2, proc_step s1 s2).
Proof.
  intros Ht Hhp Hid Hsv Hs Hfree Hk.
  destruct (reached tracer x idA port hp sv w s Ht Hhp Hid Hsv Hs Hfree) as (fl & Hok').
  destruct (process_steps_ok FQMN step_of FQMN_step_of errText fn ws peer waiting alive heard id k s fl s1 Hok' Hk)
    as (fl1 & Hok1 & E & Hc).
  pose proof (Permutation_length (to_sent _ _ _ _ _ _ _ _ _ Hok')) as Hlen. rewrite length_fmap in Hlen.
  pose proof (steps_left_bound fl). split; [lia|]. split; [exact Hc|]. split.
  - intros q y. eapply process_steps_done. by apply rtc_nsteps_2 in Hk.
  - intros Hg. destruct (tr_sent s1 ++ tr_late s1) eqn:E1; [by left|right].
    apply (mesh_progress FQMN step_of FQMN_step_of errText fn ws peer waiting alive heard id s1 fl1 Hok1); [|by rewrite E1].
    erewrite process_steps_gone; [exact Hg|exact Hk].
Qed.

(** C28: The three seconds that Shutdown gives the requests of a runner to drain
    are in vain: a job that runs when its runner has withdrawn has no result in
    any run of the mesh, as the control process reads the withdrawal before the
    result and then reads no more; the Execute of its call ends with a timeout, if
    it ends. *)
Theorem drain_loses_results tracer x idA port hp sv w s c q s1 y :
  Startup.setupTracing lib tracer = Val (Ok x) → Arrival.hub_pod = Some hp → idA ≠ "" →
  ControlServer.New lib tracer idA (λ _, None) port = Val (Ok (Some sv)) →
  rtc (step hp) (traffic_init hp sv w) s → tr_stuck s = false → (c, q) ∈ tr_jobs s → c ∈ tr_gone s →
  rtc (step hp) s s1 → (q, y) ∈ tr_done s1 → (q, y) ∈ tr_done s ∨ y = (None, [TimedOut]).
Proof.
  intros Ht Hhp Hid Hsv Hs Hfree Hj Hg Hs1.
  destruct (reached tracer x idA port hp sv w s Ht Hhp Hid Hsv Hs Hfree) as (fl & Hok).
  apply (doomed_forever FQMN step_of FQMN_step_of errText fn ws peer waiting alive heard hp id s fl s1 q Hhp Hok); [|done].
  by apply (running_doomed FQMN step_of errText fn peer waiting alive s fl c q).
Qed.

End Clients.

(** ** Examples *)

#[local] Instance name_steps_codec : Codec (list (string * bool)) := countable_codec _.
#[local] Instance request_codec : Codec CoordinatedRequest := countable_codec _.
#[local] Instance result_codec : Codec ExecResult := countable_codec _.

#[local] Existing Instance Node.example_payload_codec.

(** Two modules of a tenant, each with a runner behind a connection of its own. *)
Abbreviation fn_fqmn := "fqmn://acme.id/ns/fn@ref".
Abbreviation other_fqmn := "fqmn://acme.id/ns/other@ref".

Definition two_modules : syncJob :=
  mkSync 1 {["acme.id" := 1%Z]}
    {["acme.id" := mkOverview 1 [mkModule "ref" fn_fqmn "fn" "ns"; mkModule "ref" other_fqmn "other" "ns"]]} ∅.

Definition fn_sat : sat := mkSat "r1" "acme" fn_fqmn "9000" "10.0.0.7".
Definition other_sat : sat := mkSat "r2" "acme" other_fqmn "10000" "10.0.0.7".

(** A library that gives every endpoint its own connection. *)
Definition many_pipes : Websocket pipes_state := {|
  ws_Parse := ws_Parse pipes; ws_Dial e w := (Ok (Z.of_nat (String.length e)), w); ws_Upgrade := ws_Upgrade pipes;
  ws_WriteMessage := ws_WriteMessage pipes; ws_ReadMessage := ws_ReadMessage pipes; ws_Close := ws_Close pipes
|}.

#[local] Instance many_pipes_laws : WebsocketLaws many_pipes other_end pipe_waiting pipes_alive.
Proof. destruct pipes_laws. by split. Qed.

Definition example_lib : Startup.observability (Conn := unit) (Provider := unit) :=
  Startup.mkObservability (λ _, Ok tt) (λ _ _ _, Ok tt) (λ _, Ok tt) (Ok tt).

(** A client that runs a module of the tenant by its name. *)
Definition asks (name fqmn rid u r : string) : asked (HttpRequest := string) :=
  mkAsked (mkCtx ∅ (<["ident" := "acme"]> (<["namespace" := "ns"]> {["name" := name]})) ∅) "Bearer tok" rid "acme.id"
    (mkCall u 0 (λ _, r) 0 (mkModule "ref" fqmn name "ns") (mkRequest rid "body" (Some ∅) (Some ∅) "")).

Definition ask1 := asks "fn" fn_fqmn "1" "m1" "x1".
Definition ask2 := asks "other" other_fqmn "2" "m2" "x2".
Definition ask3 := asks "fn" fn_fqmn "3" "m3" "x3".

(** The body of a request is its ID here, so that every request has one of its own. *)
Abbreviation from_echo := (λ rid : string, Ok (mkRequest rid "body" (Some ∅) (Some ∅) "")).

(** What the client gets, when the Execute of its request sees [x]. *)
Abbreviation example_post a x :=
  (post_name id (λ _, true) (λ _, false) id from_echo (λ _ req, Ok req) 1 example_client (λ _ loaded, loaded)
    two_modules (mesh_world (c_fresh (a_call a)) (c_now (a_call a)) x) (a_ctx a) (a_authInfo a) (a_rq a)).

Abbreviation example_step hp :=
  (traffic_step (B := Balancer) id id (λ _, "error") echo_fn many_pipes other_end pipe_waiting pipes_alive (λ _, true) hp ("", 0%Z)).
Abbreviation example_proc_step :=
  (process_step (B := Balancer) id id (λ _, "error") echo_fn many_pipes other_end (λ _, true) ("", 0%Z)).

Lemma from_echo_maps : makes_maps from_echo (λ _ req, Ok req).
Proof. intros rq req [= <-]. by eexists _, _. Qed.

Abbreviation example_ok := (traffic_ok (B := Balancer) id id (λ _, "error") echo_fn other_end pipe_waiting pipes_alive).

Lemma example_can_call u r name fqmn rid : can_call id echo_fn (a_call (asks name fqmn rid u r)).
Proof. split; [by eexists|]. by split; [eexists|]. Qed.

(** The hub of the control process has these connections to runners of these modules,
    and no others, and they are few. *)
Definition led_to (s : traffic (W := pipes_state) (B := Balancer)) (l : gmap string (Z * string)) : Prop :=
  (∀ cap, length (members_of (capabilityBalancers (pt_hub (ms_parent (tr_mesh s)))) cap) ≤ tunnelRetryCount) ∧
  ∀ v, (λ hd, (Conn hd, h_Interests hd, PeerWithdrawn (h_Signaler hd))) <$> meshConnections (pt_hub (ms_parent (tr_mesh s))) !! v =
    (λ x, (Some x.1, [x.2], false)) <$> l !! v.

Lemma led_to_reachable s l v c t :
  led_to s l → l !! v = Some (c, t) →
  ∃ v hd, reachable t (pt_hub (ms_parent (tr_mesh s))) v hd.
Proof.
  intros [_ Hl] Hv. specialize (Hl v). rewrite Hv in Hl. destruct (meshConnections _ !! v) as [hd|] eqn:E; [|done].
  simpl in Hl. injection Hl as _ Hi Hp. exists v, hd. split; [done|]. rewrite Hi. split; [by left|done].
Qed.

Lemma led_to_on s l c : led_to s l → on_mesh (pt_hub (ms_parent (tr_mesh s))) c → ∃ v t, l !! v = Some (c, t).
Proof.
  intros [_ Hl] (v & hd & Hv & Hc). specialize (Hl v). rewrite Hv in Hl. destruct (l !! v) as [[d t]|] eqn:E; [|done].
  simpl in Hl. injection Hl as Hd _ _. exists v, t. congruence.
Qed.

(** A call starts whose request ID and UUIDs are new, when there is a runner. *)
Lemma example_start hp s fl l v c name fqmn rid u r used sent :
  example_ok s fl → led_to s l → l !! v = Some (c, fqmn) →
  tr_used s = used → tr_sent s = sent → tr_late s = [] →
  bool_decide (rid ∉ (λ q, req_ID (c_req q)) <$> sent) = true → bool_decide (u ∉ used) = true →
  bool_decide (r ∉ ({[u]} ∪ used : gset string)) = true →
  ∃ s1 d, example_step hp s s1 ∧ example_ok s1 (fl ++ [Queued (a_call (asks name fqmn rid u r)) d]) ∧ led_to s1 l ∧ tr_gone s1 = tr_gone s ∧ tr_used s1 = {[r; u]} ∪ used ∧
    tr_sent s1 = sent ++ [a_call (asks name fqmn rid u r)] ∧ tr_late s1 = [] ∧ tr_done s1 = tr_done s.
Proof.
  intros Hok Hl Hf <- <- Hlate Hid%bool_decide_eq_true Hu%bool_decide_eq_true Hr%bool_decide_eq_true.
  destruct (execute_possible id id (λ f, eq_refl) (λ _, "error") echo_fn many_pipes other_end pipe_waiting pipes_alive (λ _, true)
    hp ("", 0%Z) s fl (a_call (asks name fqmn rid u r)) Hok) as (e & s1 & Hs1 & Em & Ec & _ & He & Eg & Eu & Es & El & Ed & fl1 & Hok1 & Hfl);
    [apply example_can_call|by rewrite Hlate, app_nil_r|done|done|].
  assert (e = None) as ->.
  { destruct e as [e|]; [|done]. destruct (He ltac:(done)) as [Hn|Hgt]; [destruct Hn; by eapply led_to_reachable|].
    pose proof (proj1 Hl fqmn). simpl in Hgt. lia. }
  destruct Hfl as [[_ [d ->]]|[? _]]; [|done]. exists s1, d. unfold led_to. rewrite Em, El. rewrite app_nil_r in Ed.
  split_and!; try done; [|apply Hl]. intros cap. rewrite Ec. apply Hl.
Qed.

(** Two runners have joined. *)
Definition both : gmap string (Z * string) := <["r2" := (32%Z, other_fqmn)]> {["r1" := (31%Z, fn_fqmn)]}.

Lemma example_joined hp sv x port :
  Arrival.hub_pod = Some hp → Startup.setupTracing example_lib (Startup.mkTracer "none" None None) = Val (Ok x) →
  ControlServer.New example_lib (Startup.mkTracer "none" None None) "p" (λ _, None) port = Val (Ok (Some sv)) →
  ∃ s, rtc (example_step hp) (traffic_init hp sv no_pipes) s ∧ example_ok s [] ∧ led_to s both ∧
    tr_gone s = [] ∧ tr_used s = ∅ ∧ tr_sent s = [] ∧ tr_late s = [] ∧ tr_done s = [].
Proof.
  intros Hhp Ht Hsv.
  pose proof (init_ok id id (λ _, "error") echo_fn other_end pipe_waiting pipes_alive hp example_lib _ "p" port x sv no_pipes Hhp Ht
    ltac:(discriminate) Hsv) as H0.
  destruct (server_ready (B := Balancer) example_lib _ "p" port hp x Hhp Ht) as (sv' & Esv & _ & Hsh & _).
  rewrite Hsv in Esv. injection Esv as <-.
  destruct (join_possible id id (λ f, eq_refl) (λ _, "error") echo_fn many_pipes other_end pipe_waiting pipes_alive (λ _, true) hp ("", 0%Z)
    (traffic_init hp sv no_pipes) [] fn_sat 31 no_pipes Hhp H0) as (s1 & Hs1 & Eh1 & Eg1 & Eu1 & Es1 & El1 & Ed1 & Eq1 & Ea1 & Hok1);
    [done|simpl; by rewrite Hsh|simpl; by rewrite Hsh|done| |
    |done|].
  { exists "ws://10.0.0.7:9000/meta/message". split_and!; try done. }
  { intros d [(v & hd & Hv & _)|Hd]; [|by apply not_elem_of_nil in Hd]. simpl in Hv. by rewrite Hsh in Hv. }
  simpl in Eh1, Eg1, Eu1, Es1, El1, Ed1. rewrite Hsh in Eh1.
  destruct (join_possible id id (λ f, eq_refl) (λ _, "error") echo_fn many_pipes other_end pipe_waiting pipes_alive (λ _, true) hp ("", 0%Z)
    s1 [] other_sat 32 (ms_world (tr_mesh s1)) Hhp Hok1) as (s2 & Hs2 & Eh2 & Eg2 & Eu2 & Es2 & El2 & Ed2 & _ & _ & Hok2);
    [done|by rewrite Eh1|by rewrite Eh1|done| | |done|].
  { exists "ws://10.0.0.7:10000/meta/message". split_and!; try done; [by intros d|apply Ea1, no_pipes_alive]. }
  { intros d [Hd|Hd]; [|rewrite Eg1 in Hd; by apply not_elem_of_nil in Hd].
    rewrite Eh1 in Hd. apply on_mesh_add in Hd as [->|(v & hd & Hv & _)]; [done| |done]. simpl in Hv. by rewrite lookup_empty in Hv. }
  exists s2. unfold led_to. rewrite Eg2, Eg1, Eu2, Eu1, Es2, El2, Ed2, Es1, El1, Ed1. split_and!; try done.
  - do 2 (eapply rtc_l; [eassumption|]). done.
  - intros cap. rewrite Eh2, Eh1. simpl. rewrite !addToBalancer_members, !length_app. repeat case_decide; vm_compute; lia.
  - intros v. rewrite Eh2, Eh1. unfold both. simpl. destruct (decide (v = "r2")) as [->|H2]; [by rewrite !lookup_insert_eq|].
    rewrite !(lookup_insert_ne _ "r2") by done. destruct (decide (v = "r1")) as [->|H1]; [by rewrite !lookup_insert_eq|].
    by rewrite lookup_insert_ne, lookup_singleton_ne by done.
Qed.

(** Then three calls are under way. *)
Lemma example_busy hp sv x port :
  Arrival.hub_pod = Some hp → Startup.setupTracing example_lib (Startup.mkTracer "none" None None) = Val (Ok x) →
  ControlServer.New example_lib (Startup.mkTracer "none" None None) "p" (λ _, None) port = Val (Ok (Some sv)) →
  ∃ s fl, rtc (example_step hp) (traffic_init hp sv no_pipes) s ∧ example_ok s fl ∧ tr_gone s = [] ∧
    tr_sent s = [a_call ask1; a_call ask2; a_call ask3] ∧ tr_late s = [] ∧ tr_done s = [].
Proof.
  intros Hhp Ht Hsv. destruct (example_joined hp sv x port Hhp Ht Hsv) as (s0 & Hs0 & Hok0 & Hl0 & Eg0 & Eu0 & Es0 & El0 & Ed0).
  destruct (example_start hp s0 [] both "r1" 31 "fn" fn_fqmn "1" "m1" "x1" _ _ Hok0 Hl0 eq_refl Eu0 Es0 El0 eq_refl eq_refl eq_refl)
    as (s1 & d1 & Hs1 & Hok1 & Hl1 & Eg1 & Eu1 & Es1 & El1 & Ed1).
  destruct (example_start hp s1 _ both "r2" 32 "other" other_fqmn "2" "m2" "x2" _ _ Hok1 Hl1 eq_refl Eu1 Es1 El1 eq_refl eq_refl eq_refl)
    as (s2 & d2 & Hs2 & Hok2 & Hl2 & Eg2 & Eu2 & Es2 & El2 & Ed2).
  destruct (example_start hp s2 _ both "r1" 31 "fn" fn_fqmn "3" "m3" "x3" _ _ Hok2 Hl2 eq_refl Eu2 Es2 El2 eq_refl eq_refl eq_refl)
    as (s3 & d3 & Hs3 & Hok3 & _ & Eg3 & Eu3 & Es3 & El3 & Ed3).
  eexists s3, _. rewrite Eg3, Eg2, Eg1, Es3, El3, Ed3, Ed2, Ed1. split_and!; try done.
  etrans; [exact Hs0|]. do 3 (eapply rtc_l; [eassumption|]). done.
Qed.

(** A runner reads the message of the only call. *)
Lemma example_job hp s c q :
  example_ok s [Queued q c] → tr_gone s = [] →
  ∃ s1, example_step hp s s1 ∧ example_ok s1 [Running q c] ∧ on_mesh (pt_hub (ms_parent (tr_mesh s1))) c ∧ tr_gone s1 = [] ∧
    (c, q) ∈ tr_jobs s1 ∧ tr_sent s1 = tr_sent s ∧ tr_done s1 = tr_done s.
Proof.
  intros Hok Hg.
  assert (on_mesh (pt_hub (ms_parent (tr_mesh s))) c) as Hc.
  { destruct (to_flights _ _ _ _ _ _ _ _ _ Hok (Queued q c)) as (Hp & _); [by left|]. destruct (Hp c eq_refl) as [[|Hin] _]; [done|].
    rewrite Hg in Hin. by apply not_elem_of_nil in Hin. }
  destruct (runner_step_ok id id (λ f, eq_refl) (λ _, "error") echo_fn many_pipes other_end pipe_waiting pipes_alive (λ _, true) ("", 0%Z)
    s [] q c [] Hok eq_refl Hc) as (R & R1 & w1 & HR & Hq & E & Hok1).
  eexists. split; [by apply MeshStep, (RunnerReads _ _ _ _ _ _ _ _ s c q R R1 w1)|]. split_and!; try done.
  apply elem_of_app. right. by left.
Qed.

(** The third times out. *)
Lemma example_late hp sv x port :
  Arrival.hub_pod = Some hp → Startup.setupTracing example_lib (Startup.mkTracer "none" None None) = Val (Ok x) →
  ControlServer.New example_lib (Startup.mkTracer "none" None None) "p" (λ _, None) port = Val (Ok (Some sv)) →
  ∃ s fl, rtc (example_step hp) (traffic_init hp sv no_pipes) s ∧ example_ok s fl ∧ tr_gone s = [] ∧
    tr_sent s = [a_call ask1; a_call ask2] ∧ tr_late s = [a_call ask3] ∧ tr_done s = [(a_call ask3, (None, [TimedOut]))].
Proof.
  intros Hhp Ht Hsv. destruct (example_busy hp sv x port Hhp Ht Hsv) as (s0 & fl & Hs0 & Hok0 & Eg0 & Es0 & El0 & Ed0).
  destruct (timeout_possible id id (λ _, "error") echo_fn many_pipes other_end pipe_waiting pipes_alive (λ _, true) hp ("", 0%Z)
    s0 fl (a_call ask3) [a_call ask1; a_call ask2] [] Hok0 Es0) as (s1 & Hs1 & Hok1 & Eg1 & Es1 & El1 & Ed1).
  exists s1, fl. rewrite Eg1, Es1, El1, Ed1, El0, Ed0. split_and!; try done. by eapply rtc_r.
Qed.

(** The second runner withdraws instead, the control process hears of it, and its scan
    removes the runner: then there is none for the second call. *)
Lemma example_left hp sv x port :
  Arrival.hub_pod = Some hp → Startup.setupTracing example_lib (Startup.mkTracer "none" None None) = Val (Ok x) →
  ControlServer.New example_lib (Startup.mkTracer "none" None None) "p" (λ _, None) port = Val (Ok (Some sv)) →
  ∃ s, rtc (example_step hp) (traffic_init hp sv no_pipes) s ∧ tr_done s = [(a_call ask2, (Some ErrTunnelNotEstablished, []))].
Proof.
  intros Hhp Ht Hsv. destruct (example_joined hp sv x port Hhp Ht Hsv) as (s0 & Hs0 & Hok0 & Hl0 & Eg0 & Eu0 & Es0 & El0 & Ed0).
  pose proof (proj2 Hl0 "r2") as Hr2. unfold both in Hr2. rewrite lookup_insert_eq in Hr2. destruct (meshConnections _ !! "r2") as [hd|] eqn:Hv; [|done]. simpl in Hr2.
  injection Hr2 as Hc Hi Hp.
  destruct (leave_possible id id (λ f, eq_refl) (λ _, "error") echo_fn many_pipes other_end pipe_waiting pipes_alive (λ _, true) hp ("", 0%Z)
    s0 [] 32 Hok0) as (s1 & Hs1 & Hok1 & Eh1 & Eg1 & Eu1 & Es1 & El1 & _ & Ed1); [by exists "r2", hd|rewrite Eg0; apply not_elem_of_nil|].
  rewrite <- Eh1 in Hv.
  destruct (hear_possible id id (λ _, "error") echo_fn many_pipes other_end pipe_waiting pipes_alive (λ _, true) hp ("", 0%Z)
    s1 [] 32 "r2" hd Hok1 Hv Hc Hp) as (s2 & Hs2 & Hok2 & Eh2 & Eg2 & Eu2 & Es2 & El2 & Ed2); [rewrite Eg1; by left|done|].
  destruct (scan_possible id id (λ _, "error") echo_fn many_pipes other_end pipe_waiting pipes_alive (λ _, true) hp ("", 0%Z)
    s2 [] Hok2) as (s3 & Hs3 & Hok3 & Hv3 & Eg3 & Eu3 & Es3 & El3 & Ed3).
  destruct (execute_possible id id (λ f, eq_refl) (λ _, "error") echo_fn many_pipes other_end pipe_waiting pipes_alive (λ _, true)
    hp ("", 0%Z) s3 [] (a_call ask2) Hok3) as (e & s4 & Hs4 & _ & _ & He & _ & _ & _ & _ & _ & Ed4 & fl4 & _ & Hex);
    [apply example_can_call|rewrite Es3, Es2, Es1, Es0, El3, El2, El1, El0; apply not_elem_of_nil|
     rewrite Eu3, Eu2, Eu1, Eu0; apply not_elem_of_empty|rewrite Eu3, Eu2, Eu1, Eu0; by apply (bool_decide_eq_true_1 _)|].
  exists s4. split; [etrans; [exact Hs0|]; do 4 (eapply rtc_l; [eassumption|]); done|].
  rewrite Ed4, Ed3, Ed2, Ed1, Ed0. destruct Hex as [[-> _]|[-> _]]; [|done]. exfalso.
  destruct (He eq_refl) as (v & hx & [Hx Hpx]%Hv3 & Hix & _). rewrite Eh2 in Hx. simpl in Hx.
  apply lookup_alter_Some in Hx as [(<- & hy & _ & ->)|[Hne Hx]]; [done|]. rewrite Eh1 in Hx.
  pose proof (proj2 Hl0 v) as Hl. rewrite Hx in Hl. unfold both in Hl. rewrite lookup_insert_ne in Hl by done.
  destruct (decide (v = "r1")) as [->|H1]; [|by rewrite lookup_singleton_ne in Hl by done]. rewrite lookup_singleton_eq in Hl. simpl in Hl. injection Hl as _ Hl _.
  rewrite Hl in Hix. by apply list_elem_of_singleton in Hix.
Qed.

Lemma example_allowed a :
  a ∈ [ask1; ask2; ask3] → allowed from_echo (λ _ req, Ok req) example_client (λ _ loaded, loaded) two_modules a.
Proof.
  rewrite !elem_of_cons, elem_of_nil. intros [->|[->|[->|[]]]]; (split_and!; [reflexivity|vm_compute; reflexivity..]).
Qed.


(** The processes end the two calls that are left, and drop the late result, in at
    most twelve steps. *)
Lemma calls_end_witness :
  ∃ hp sv s k s1, rtc (example_step hp) (traffic_init hp sv no_pipes) s ∧ tr_sent s = [a_call ask1; a_call ask2] ∧
    nsteps example_proc_step k s s1 ∧ tr_sent s1 ++ tr_late s1 = [] ∧ k ≤ 12 ∧
    calls s1 ≡ₚ [a_call ask1; a_call ask2; a_call ask3].
Proof.
  assert (∃ hp, Arrival.hub_pod = Some hp) as [hp Hhp] by (by eexists).
  destruct (server_ready (B := Balancer) example_lib (Startup.mkTracer "none" None None) "p" 8080 hp _ Hhp eq_refl)
    as (sv & Esv & _).
  destruct (example_late hp sv _ 8080 Hhp eq_refl Esv) as (s & fl & Hs & Hok & Eg & Es & El & Ed).
  destruct (mesh_drains id id (λ f, eq_refl) (λ _, "error") echo_fn many_pipes other_end pipe_waiting pipes_alive (λ _, true)
    ("", 0%Z) s fl Hok Eg) as (s1 & fl1 & (k & Hk)%rtc_nsteps_1 & _ & E1 & _).
  destruct (calls_end id id (λ f, eq_refl) (λ _, "error") echo_fn many_pipes other_end pipe_waiting pipes_alive (λ _, true)
    example_lib ("", 0%Z) (Startup.mkTracer "none" None None) _ "p" 8080 hp sv no_pipes s k s1 eq_refl Hhp ltac:(discriminate)
    Esv Hs (to_stuck _ _ _ _ _ _ _ _ _ Hok) Hk) as (Hle & Hc & _ & _).
  exists hp, sv, s, k, s1. rewrite Es, El in Hle. unfold calls in Hc at 2. rewrite Es, Ed in Hc. by split_and!.
Defined.

(** The job of the first call runs when its runner withdraws. *)
Lemma drain_loses_results_witness :
  ∃ hp sv s c s1, rtc (example_step hp) (traffic_init hp sv no_pipes) s ∧ (c, a_call ask1) ∈ tr_jobs s ∧ c ∈ tr_gone s ∧
    rtc (example_step hp) s s1 ∧ tr_done s1 = [(a_call ask1, (None, [TimedOut]))] ∧
    ∀ s2 r, rtc (example_step hp) s s2 → (a_call ask1, (None, [Arrived r])) ∉ tr_done s2.
Proof.
  assert (∃ hp, Arrival.hub_pod = Some hp) as [hp Hhp] by (by eexists).
  destruct (server_ready (B := Balancer) example_lib (Startup.mkTracer "none" None None) "p" 8080 hp _ Hhp eq_refl)
    as (sv & Esv & _).
  destruct (example_joined hp sv _ 8080 Hhp eq_refl Esv) as (s0 & Hs0 & Hok0 & Hl0 & Eg0 & Eu0 & Es0 & El0 & Ed0).
  destruct (example_start hp s0 [] both "r1" 31 "fn" fn_fqmn "1" "m1" "x1" _ _ Hok0 Hl0 eq_refl Eu0 Es0 El0 eq_refl eq_refl eq_refl)
    as (s1 & c & Hs1 & Hok1 & Hl1 & Eg1 & Eu1 & Es1 & El1 & Ed1). rewrite Eg0 in Eg1.
  destruct (example_job hp s1 c (a_call ask1) Hok1 Eg1) as (s2 & Hs2 & Hok2 & Ec2 & Eg2 & Ej2 & Es2 & Ed2).
  destruct (leave_possible id id (λ f, eq_refl) (λ _, "error") echo_fn many_pipes other_end pipe_waiting pipes_alive (λ _, true) hp ("", 0%Z)
    s2 _ c Hok2 Ec2) as (s3 & Hs3 & Hok3 & _ & Eg3 & _ & Es3 & El3 & Ej3 & Ed3); [rewrite Eg2; apply not_elem_of_nil|].
  rewrite Es2, Es1 in Es3.
  destruct (timeout_possible id id (λ _, "error") echo_fn many_pipes other_end pipe_waiting pipes_alive (λ _, true) hp ("", 0%Z)
    s3 _ (a_call ask1) [] [] Hok3 Es3) as (s4 & Hs4 & _ & _ & _ & _ & Ed4).
  rewrite Ed3, Ed2, Ed1, Ed0 in Ed4.
  assert (rtc (example_step hp) (traffic_init hp sv no_pipes) s3) as Hr.
  { etrans; [exact Hs0|]. do 3 (eapply rtc_l; [eassumption|]). done. }
  assert ((c, a_call ask1) ∈ tr_jobs s3) as Hj by (by rewrite Ej3).
  assert (c ∈ tr_gone s3) as Hg by (rewrite Eg3; by left).
  exists hp, sv, s3, c, s4. split; [exact Hr|]. split; [exact Hj|]. split; [exact Hg|]. split; [by apply rtc_once|]. split; [exact Ed4|].
  intros s5 r Hs5 Hin.
  destruct (drain_loses_results id id (λ f, eq_refl) (λ _, "error") echo_fn many_pipes other_end pipe_waiting pipes_alive (λ _, true)
    example_lib ("", 0%Z) (Startup.mkTracer "none" None None) _ "p" 8080 hp sv no_pipes s3 c (a_call ask1) s5 (None, [Arrived r])
    eq_refl Hhp ltac:(discriminate) Esv Hr (to_stuck _ _ _ _ _ _ _ _ _ Hok3) Hj Hg Hs5 Hin) as [Hd|Hd]; [|discriminate Hd].
  rewrite Ed3, Ed2, Ed1, Ed0 in Hd. by apply not_elem_of_nil in Hd.
Defined.
